(* ===== verification/_CoqProject ===== *)
-Q . S2P
Prelude.v
Program.v
FsFlags.v
VhdFlags.v
GoStrings.v
Unicode.v
Guid.v
Ea.v
Streams.v
Backup.v
Reparse.v
PaxTime.v
LzxHuffman.v
LzxE8.v
LzxDecoder.v
LzxBits.v
LzxBlock.v
WimCompress.v
Wim.v
WimSpec.v
WimValidate.v
EtwMetadata.v
EtwProvider.v
EtwLifecycle.v
EtwLogrus.v
Deadline.v
Win32File.v
PipeConn.v
PipeListener.v
Handles.v
PipeOpen.v
HvsockAddr.v
Hvsock.v
WString.v
Paths.v
BindFilter.v
Privilege.v
Vhd.v
Process.v
Accounts.v
Base64.v
TarHeader.v
Tar.v
TarSpec.v
TarRoundtrip.v
GoText.v
Mkwinsyscall.v
MkwinsyscallGen.v
MkwinsyscallSpec.v
MkwinsyscallText.v
MkwinsyscallTotal.v
MkwinsyscallMain.v
GoCode.v
SyscallCode.v
SyscallMeaning.v
SyscallSpec.v
Zsyscall.v
ZsyscallPkg.v
ZsyscallSpec.v
EtwWrapper.v
FileInfo.v
FsType.v
Interop.v
SmallCalls.v
EtwAbi.v
EtwTools.v
WimInfo.v
EtwStrings.v
ConnDeadlines.v
