(* ===== verification/Prelude.v ===== *)
(** * A verification development of go-winio

    go-winio is a library of Windows file, pipe, socket, archive and tracing
    primitives for Go.  This library models its own logic as executable Rocq
    definitions, file by file, and proves what each part promises.  The names are
    those of the code wherever Rocq allows it; every file says which sources it
    models.

    ** The parts of the program, and where they are modelled

    Shared notions
    - [Prelude] (this file): Go errors and results ([res]: a value, an error, a
      panic, or a loop whose model was given too little fuel), state passing
      ([St]), machine integers with their wrap-around, slices with Go's bounds
      checks, little- and big-endian bytes.
    - [Program]: commands, whose parts return, exit or panic, with deferred calls.
    - [GoStrings], [Unicode], [Base64]: what the code uses of [strings], [strconv],
      [unicode/utf8], [unicode/utf16] and [encoding/base64]; strings are lists of bytes.
    - [Streams]: [io.Reader], [io.Seeker] and [io.Writer] as type classes, each with
      the class of its documented laws ([ReaderSpec], [SeekerSpec], [WriterSpec]), the functions of
      [io] over them, and concrete readers that split, delay or cut their data.
    - [Handles]: the open handles of the system and the completion port, as a class
      with laws; the clients are proved against it.

    Encodings
    - [Guid] (pkg/guid), [Ea] (ea.go), [Reparse] (reparse.go), [PaxTime]
      (backuptar/strconv.go), [HvsockAddr] (hvsock.go, the socket addresses).

    Backup streams and archives
    - [Backup] (backup.go): the reader and writer of Win32 backup streams.
    - [TarHeader], [Tar], [TarSpec], [TarRoundtrip] (backuptar/tar.go): backup streams to tar
      entries and back, over [Backup], [Ea], [Reparse], [PaxTime] and [Base64].

    WIM images
    - [LzxHuffman], [LzxE8], [LzxDecoder], [LzxBits], [LzxBlock] (wim/lzx): the
      Huffman tables, the bit reader, the blocks and the call translation of the LZX
      decompressor.
    - [WimCompress] (wim/decompress.go): chunked resources, with [LzxDecoder] below.
    - [Wim], [WimSpec], [WimInfo] (wim/wim.go): headers, the offset table, images,
      directories, and the values of the XML description.
    - [WimValidate] (wim/validate): the command that walks an image, a client of [Wim].

    Event tracing
    - [EtwMetadata] (pkg/etw/eventmetadata.go, eventdata.go, fieldopt.go),
      [EtwProvider] (provider.go, newprovider.go and the events), [EtwLifecycle]
      (providerglobal.go: the table of providers against the callbacks of the
      system), [EtwStrings] (level_string.go, opcode_string.go), [EtwWrapper]
      (wrapper_32.go, wrapper_64.go), [EtwLogrus] (pkg/etwlogrus).
    - [EtwAbi] (ptr64_32.go, ptr64_64.go and the structures passed to the system): the interface
      [EtwProvider] is written against, implemented by the generated functions on
      either word size, with the system reading the memory it is pointed to.
    - [EtwTools] (tools/etw-provider-gen, pkg/etw/sample): the two commands that are
      clients of the package.

    Asynchronous I/O
    - [Win32File] and [Deadline] (file.go): overlapped operations against close and
      cancellation, and the deadlines of a file, as step relations of threads.
    - [PipeConn], [PipeListener], [PipeOpen] (pipe.go): message pipes as byte
      streams, the goroutine of a listener against Accept and Close, dialing and
      creating pipes.
    - [Hvsock] (hvsock.go, internal/socket): sockets over [Win32File] and [Handles].
    - [ConnDeadlines] (file.go, pipe.go, hvsock.go): both deadlines of a connection,
      over [Deadline].

    System services
    - [WString] (internal/stringbuffer), [Paths] (internal/fs, pkg/fs),
      [BindFilter] (pkg/bindfilter), [Privilege] (privilege.go), [Vhd] (vhd),
      [Process] (pkg/process), [Accounts] (sd.go, pkg/security), with the constants of
      [FsFlags] (internal/fs/fs.go, security.go) and [VhdFlags] (vhd/vhd.go).
    - [FileInfo] (fileinfo.go, [OpenForBackup]), [FsType] (pkg/fs/fs_windows.go), [Interop]
      (internal/interop, internal/computestorage), [SmallCalls] (single calls of
      pkg/process, internal/socket and pipe.go): functions over the generated system calls.

    The generator of system calls (tools/mkwinsyscall)
    - [Mkwinsyscall] the declarations and the methods that print their pieces,
      [MkwinsyscallGen] the collection of declarations and the templates,
      [MkwinsyscallSpec] and [MkwinsyscallText] their theorems; [GoText] is the
      text processing they use.  [MkwinsyscallTotal]: neither part panics or runs out of fuel,
      whatever the files hold.  [MkwinsyscallMain] is the command.
    - [GoCode]: a fragment of Go with its text and an interpreter.  [SyscallCode]: the code of a
      declaration in it, whose text is the printed one; [SyscallMeaning]: what a declaration
      means; [SyscallSpec]: the printed code does what the declaration means.
    - [Zsyscall], [ZsyscallPkg] (all zsyscall_windows.go and zvhd_windows.go): every generated
      function as it stands in the repository; [ZsyscallSpec] proves each to be the meaning
      of the declaration it was generated from.

    ** How the code is modelled

    A function that changes state is a function of the state, in [St]; early
    returns are branches.  A method's receiver is the state or part of it.  Integers
    are [Z] with [u8] ... [i64] where the code converts or can overflow; a slice
    expression out of bounds is [Panic], as in Go.  Goroutines are step relations whose
    steps are the atomic operations of the code (a channel operation, a lock, a
    system call), so that a theorem about reachable states covers every
    interleaving.  Calls of Windows and of third-party packages are fields of
    classes or arguments; their laws, in classes named [...Spec], say what their documentation
    says, and each has an instance the witnesses compute with.  The iteration
    order of a Go map is an argument.

    ** What the theorems show

    - Round trips: GUIDs, extended attributes, reparse points, PAX times, socket
      addresses, base64, backup streams read by any reader that returns [io.EOF] only after
      its last bytes, event metadata, a whole file from its backup stream through tar and
      back (from a reader without [Seek], the attributes before the data and the data
      before the alternate streams, no sparse blocks), and the declarations of system calls.
    - Functional correctness and refinement: the Huffman table decodes the
      canonical code; a compressed block decodes to the tokens it encodes; a
      resource reads as the concatenation of its chunks; reading a directory, an
      image and the offset table yields what the bytes stand for by the format, stated field
      by field apart from the code; a message pipe
      is a byte stream; [ResolvePath] follows an abstract order of queries, one or two system
      calls each, while names do not change; parsing a
      response of the bind filter is independent of its layout; the text of a
      generated system call is, up to the tabs of its indentation, code that does what its
      declaration means (for the declarations of [SyscallMeaning.decl_ok]), the generated
      functions of the repository are the meanings of their declarations, the two word
      sizes of the ETW calls agree, and the
      system finds in memory, on either, the event that a program logged.
    - Invariants and safety over all interleavings: an operation never runs on a
      closed handle, [Close] waits for the operations it cancelled, the channels of a deadline are
      closed once, a pipe listener neither leaks an instance nor answers twice, a
      provider's callback finds its provider or nothing, pooled buffers are never
      shared, a function runs once with its privileges and the thread is restored on every path
      (unless the system refuses to revert), handles and local memory are released on every
      path, and a pipe is created with the arguments of its configuration.
    - Progress and termination: a waiting [Accept] of a listener is answered, and so is its
      [Close] when an aborted connection reports success or [ErrFileClosed], setting a deadline gets through, the loops that look for a large enough
      buffer, dial a busy pipe or retry a connection end ([Dial] of a Hyper-V socket connects at most [Retries + 1] times,
      and again only behind an error that calls for it), and so does the walk over a WIM image.
    - Error behaviour: truncated streams are reported, never a clean end; the generator
      writes its output only when every step before succeeded, and exits with 1 otherwise.
    The examples at the ends of the files show where the code differs from what it
    means to do.

    ** Bounds and fuel

    A loop that is not structural takes [fuel : nat]; running out is the result
    [NoFuel], which the theorems exclude.  [io.ReadAll] and [io.Copy] use a call for
    each byte and one for the end, tar the number of streams or entries, the LZX loops the
    bytes left to decode, dialing the naps until its context ends, path queries
    two or three rounds, and process queries 24 doublings.  Sizes are bounded by the
    formats (16-bit lengths of attributes and reparse points, 31-bit
    names) or by the types; the bounds are hypotheses where the code relies on them.

    ** Not modelled

    What wim/validate prints, the parsing of flags, the texts of
    error messages beyond their format and arguments, and Flush and Fd of a file, which pass the
    handle on.  The sample of pkg/etw gets its notifications while it waits; notifications
    during registration and closing are those of [EtwLifecycle], where a provider whose
    [eventUnregister] fails stays closing.  [Paths] lets the system log its queries but not rename a
    file between them, so the growing sizes of the TODO in internal/fs/fs.go are not covered.  The generated functions and the classes the
    hand-written clients use ([PipeOpen], [Accounts], ...) are two views of the same calls: the classes state the
    documented effect, the generated functions how arguments and errors are passed. *)
From stdpp Require Export prelude gmap list numbers strings.
From Stdlib Require Export ZArith Lia.

#[global] Open Scope Z_scope.

(** ** Errors

    Go error values.  [Errorf f zs ss] is [fmt.Errorf(f, ...)] with its integer
    and string arguments, [Wrapf f zs ss e] the same with a [%w] argument. *)
Inductive error : Type :=
| EOF
| ErrUnexpectedEOF
| Errno (n : Z)
| New (msg : string)
| Errorf (fmt : string) (zs : list Z) (ss : list (list Z))
| Wrapf (fmt : string) (zs : list Z) (ss : list (list Z)) (e : error).

#[export] Instance error_eq_dec : EqDecision error.
Proof. solve_decision. Defined.

(** [syscall.EINVAL] on Windows. *)
Definition EINVAL : error := Errno 536870951.

(** [errors.Is], on the wrapping chain of [Wrapf]. *)
Fixpoint errors_is (e target : error) : bool :=
  bool_decide (e = target) ||
  match e with Wrapf _ _ _ e' => errors_is e' target | _ => false end.

(** ** Results

    A Go call returns a value, returns an error, panics, or (for a loop given
    too little fuel in this model) does not finish. *)
Inductive res (A : Type) : Type :=
| Ret (a : A)
| Fail (e : error)
| Panic (why : string)
| NoFuel.
Arguments Ret {A} a.
Arguments Fail {A} e.
Arguments Panic {A} why.
Arguments NoFuel {A}.

#[export] Instance res_eq_dec `{EqDecision A} : EqDecision (res A).
Proof. solve_decision. Defined.

#[export] Instance res_ret : MRet res := @Ret.
#[export] Instance res_bind : MBind res := λ _ _ f r,
  match r with
  | Ret a => f a
  | Fail e => Fail e
  | Panic w => Panic w
  | NoFuel => NoFuel
  end.
#[export] Instance res_fmap : FMap res := λ _ _ f r,
  match r with
  | Ret a => Ret (f a)
  | Fail e => Fail e
  | Panic w => Panic w
  | NoFuel => NoFuel
  end.

Definition is_panic {A} (r : res A) : bool :=
  match r with Panic _ => true | _ => false end.

(** State-passing computations: the state survives an error return. *)
Definition St (S A : Type) : Type := S → res A * S.

#[export] Instance St_ret {S} : MRet (St S) := λ _ a s, (Ret a, s).
#[export] Instance St_bind {S} : MBind (St S) := λ _ _ f m s,
  match m s with
  | (Ret a, s') => f a s'
  | (Fail e, s') => (Fail e, s')
  | (Panic w, s') => (Panic w, s')
  | (NoFuel, s') => (NoFuel, s')
  end.

Definition get {S} : St S S := λ s, (Ret s, s).
Definition put {S} (s : S) : St S unit := λ _, (Ret (), s).
Definition modify {S} (f : S → S) : St S unit := λ s, (Ret (), f s).
Definition lift {S A} (r : res A) : St S A := λ s, (r, s).
Definition fail {S A} (e : error) : St S A := λ s, (Fail e, s).
Definition nofuel {S A} : St S A := λ s, (NoFuel, s).
Definition panic {S A} (w : string) : St S A := λ s, (Panic w, s).

Lemma St_ret_eq {S A} (a : A) (s : S) : (mret a : St S A) s = (Ret a, s).
Proof. reflexivity. Qed.

Lemma St_bind_eq {S A B} (f : A → St S B) (m : St S A) s :
  (m ≫= f) s = match m s with
               | (Ret a, s') => f a s'
               | (Fail e, s') => (Fail e, s')
               | (Panic w, s') => (Panic w, s')
               | (NoFuel, s') => (NoFuel, s')
               end.
Proof. reflexivity. Qed.

Lemma St_bind_Ret {S A B} (f : A → St S B) (m : St S A) s a s' :
  m s = (Ret a, s') → (m ≫= f) s = f a s'.
Proof. intros H. rewrite St_bind_eq, H. done. Qed.

Lemma St_bind_Fail {S A B} (f : A → St S B) (m : St S A) s e s' :
  m s = (Fail e, s') → (m ≫= f) s = (Fail e, s').
Proof. intros H. rewrite St_bind_eq, H. done. Qed.

(** ** Machine integers *)
Definition u8 (z : Z) : Z := z mod 256.
Definition u16 (z : Z) : Z := z mod 65536.
Definition u32 (z : Z) : Z := z mod 4294967296.
Definition u64 (z : Z) : Z := z mod 18446744073709551616.
Definition i32 (z : Z) : Z := (z + 2147483648) mod 4294967296 - 2147483648.
Definition i64 (z : Z) : Z :=
  (z + 9223372036854775808) mod 18446744073709551616 - 9223372036854775808.

Create HintDb gonum.

Lemma u8_small z : 0 ≤ z < 256 → u8 z = z.
Proof. intros. apply Z.mod_small. lia. Qed.
Lemma u16_small z : 0 ≤ z < 65536 → u16 z = z.
Proof. intros. apply Z.mod_small. lia. Qed.
Lemma u32_small z : 0 ≤ z < 4294967296 → u32 z = z.
Proof. intros. apply Z.mod_small. lia. Qed.
Lemma u64_small z : 0 ≤ z < 18446744073709551616 → u64 z = z.
Proof. intros. apply Z.mod_small. lia. Qed.
Lemma i32_small z : -2147483648 ≤ z < 2147483648 → i32 z = z.
Proof. intros. unfold i32. rewrite Z.mod_small; lia. Qed.
Lemma i64_small z : -9223372036854775808 ≤ z < 9223372036854775808 → i64 z = z.
Proof. intros. unfold i64. rewrite Z.mod_small; lia. Qed.

Lemma u8_range z : 0 ≤ u8 z < 256.
Proof. apply Z.mod_pos_bound. lia. Qed.
Lemma u16_range z : 0 ≤ u16 z < 65536.
Proof. apply Z.mod_pos_bound. lia. Qed.
Lemma u32_range z : 0 ≤ u32 z < 4294967296.
Proof. apply Z.mod_pos_bound. lia. Qed.
Lemma u64_range z : 0 ≤ u64 z < 18446744073709551616.
Proof. apply Z.mod_pos_bound. lia. Qed.
Lemma i32_range z : -2147483648 ≤ i32 z < 2147483648.
Proof. unfold i32. pose proof (Z.mod_pos_bound (z + 2147483648) 4294967296). lia. Qed.
Lemma i64_range z : -9223372036854775808 ≤ i64 z < 9223372036854775808.
Proof.
  unfold i64.
  pose proof (Z.mod_pos_bound (z + 9223372036854775808) 18446744073709551616). lia.
Qed.
#[export] Hint Resolve u8_range u16_range u32_range u64_range i32_range i64_range : gonum.

Lemma i64_u64 z : -9223372036854775808 ≤ z < 9223372036854775808 → i64 (u64 z) = z.
Proof.
  intros. unfold i64, u64. rewrite Zplus_mod_idemp_l, Z.mod_small; lia.
Qed.
Lemma i32_u32 z : -2147483648 ≤ z < 2147483648 → i32 (u32 z) = z.
Proof.
  intros. unfold i32, u32. rewrite Zplus_mod_idemp_l, Z.mod_small; lia.
Qed.

(** Or-ing a low part into the zero bits of a shifted value adds it. *)
Lemma lor_add_low k hi lo : 0 ≤ k → 0 ≤ lo < 2 ^ k → Z.lor (hi * 2 ^ k) lo = hi * 2 ^ k + lo.
Proof.
  intros Hk Hlo. pose proof (Z.add_lor_land (hi * 2 ^ k) lo) as H.
  enough (Z.land (hi * 2 ^ k) lo = 0) by lia. clear H.
  apply Z.bits_inj'. intros n Hn. rewrite Z.land_spec, Z.bits_0.
  destruct (Z.ltb_spec n k).
  - rewrite Z.mul_pow2_bits_low by lia. done.
  - replace lo with (lo mod 2 ^ k) by (by apply Z.mod_small).
    rewrite Z.mod_pow2_bits_high by lia. apply andb_false_r.
Qed.

(** ** Lists indexed by [Z], as Go slices

    The capacity of a slice is its length unless a component says otherwise. *)
Definition zlen {A} (l : list A) : Z := Z.of_nat (length l).
Definition ztake {A} (n : Z) (l : list A) : list A := take (Z.to_nat n) l.
Definition zdrop {A} (n : Z) (l : list A) : list A := drop (Z.to_nat n) l.

(** [l[i]] *)
Definition index {A} (l : list A) (i : Z) : res A :=
  if decide (0 ≤ i) then
    match l !! Z.to_nat i with
    | Some x => Ret x
    | None => Panic "index out of range"
    end
  else Panic "index out of range".

(** [l[i] = x] *)
Definition update {A} (l : list A) (i : Z) (x : A) : res (list A) :=
  if decide (0 ≤ i < zlen l) then Ret (<[Z.to_nat i := x]> l)
  else Panic "index out of range".

(** [l[i:j]] *)
Definition slice {A} (l : list A) (i j : Z) : res (list A) :=
  if decide (0 ≤ i ∧ i ≤ j ∧ j ≤ zlen l) then Ret (ztake (j - i) (zdrop i l))
  else Panic "slice bounds out of range".

(** [l[i:]] *)
Definition slice_from {A} (l : list A) (i : Z) : res (list A) := slice l i (zlen l).

Create HintDb golist.
Create Rewrite HintDb golist.

Lemma zlen_nonneg {A} (l : list A) : 0 ≤ zlen l.
Proof. unfold zlen. lia. Qed.
Lemma zlen_nil {A} : zlen (@nil A) = 0.
Proof. reflexivity. Qed.
Lemma zlen_cons {A} (x : A) l : zlen (x :: l) = 1 + zlen l.
Proof. unfold zlen. simpl. lia. Qed.
Lemma zlen_app {A} (l k : list A) : zlen (l ++ k) = zlen l + zlen k.
Proof. unfold zlen. rewrite length_app. lia. Qed.
Lemma zlen_ztake {A} n (l : list A) : zlen (ztake n l) = Z.min (Z.max 0 n) (zlen l).
Proof. unfold zlen, ztake. rewrite length_take. lia. Qed.
Lemma zlen_zdrop {A} n (l : list A) : zlen (zdrop n l) = Z.max 0 (zlen l - Z.max 0 n).
Proof. unfold zlen, zdrop. rewrite length_drop. lia. Qed.
Lemma zlen_insert {A} i (x : A) l : zlen (<[i := x]> l) = zlen l.
Proof. unfold zlen. by rewrite length_insert. Qed.
Lemma zlen_replicate {A} n (x : A) : zlen (replicate n x) = Z.of_nat n.
Proof. unfold zlen. by rewrite length_replicate. Qed.
Lemma zlen_rev {A} (l : list A) : zlen (rev l) = zlen l.
Proof. unfold zlen. by rewrite length_rev. Qed.
Lemma zlen_fmap {A B} (f : A → B) l : zlen (f <$> l) = zlen l.
Proof. unfold zlen. by rewrite length_fmap. Qed.
#[export] Hint Rewrite @zlen_nil @zlen_cons @zlen_app @zlen_ztake @zlen_zdrop
  @zlen_insert @zlen_replicate @zlen_rev @zlen_fmap : golist.

(** Normalise lengths everywhere, recall that lengths are not negative, and
    call [lia]. *)
Ltac pose_lens :=
  repeat match goal with
  | |- context [zlen ?l] =>
      lazymatch goal with
      | _ : 0 ≤ zlen l |- _ => fail
      | _ => pose proof (zlen_nonneg l)
      end
  | _ : context [zlen ?l] |- _ =>
      lazymatch goal with
      | _ : 0 ≤ zlen l |- _ => fail
      | _ => pose proof (zlen_nonneg l)
      end
  end.
Ltac len := autorewrite with golist in *; pose_lens; lia.

Lemma zdrop_0 {A} (l : list A) : zdrop 0 l = l.
Proof. reflexivity. Qed.
Lemma ztake_0 {A} (l : list A) : ztake 0 l = [].
Proof. reflexivity. Qed.
Lemma ztake_all {A} n (l : list A) : zlen l ≤ n → ztake n l = l.
Proof. intros. apply take_ge. unfold zlen in *. lia. Qed.
Lemma ztake_nil {A} n : ztake n (@nil A) = [].
Proof. apply take_nil. Qed.
Lemma zdrop_nil {A} n : zdrop n (@nil A) = [].
Proof. apply drop_nil. Qed.
Lemma zdrop_all {A} n (l : list A) : zlen l ≤ n → zdrop n l = [].
Proof. intros. apply drop_ge. unfold zlen in *. lia. Qed.
Lemma ztake_zdrop {A} n (l : list A) : ztake n l ++ zdrop n l = l.
Proof. apply take_drop. Qed.
Lemma zdrop_zdrop {A} i j (l : list A) :
  0 ≤ i → 0 ≤ j → zdrop i (zdrop j l) = zdrop (j + i) l.
Proof. intros. unfold zdrop. rewrite drop_drop. f_equal. lia. Qed.
Lemma ztake_app_eq {A} n (l k : list A) : zlen l = n → ztake n (l ++ k) = l.
Proof.
  intros <-. unfold ztake, zlen. rewrite Nat2Z.id. apply take_app_length.
Qed.
Lemma zdrop_app_eq {A} n (l k : list A) : zlen l = n → zdrop n (l ++ k) = k.
Proof.
  intros <-. unfold zdrop, zlen. rewrite Nat2Z.id. apply drop_app_length.
Qed.
Lemma zdrop_app_ge {A} n (l k : list A) :
  zlen l ≤ n → zdrop n (l ++ k) = zdrop (n - zlen l) k.
Proof.
  intros. unfold zdrop, zlen in *. rewrite drop_app_ge by lia. f_equal. lia.
Qed.
Lemma ztake_app_le {A} n (l k : list A) :
  n ≤ zlen l → ztake n (l ++ k) = ztake n l.
Proof. intros. unfold ztake, zlen in *. apply take_app_le. lia. Qed.
Lemma zdrop_app_le {A} n (l k : list A) :
  n ≤ zlen l → zdrop n (l ++ k) = zdrop n l ++ k.
Proof. intros. unfold zdrop, zlen in *. apply drop_app_le. lia. Qed.

Lemma slice_ok {A} (l : list A) i j :
  0 ≤ i → i ≤ j → j ≤ zlen l → slice l i j = Ret (ztake (j - i) (zdrop i l)).
Proof. intros. unfold slice. rewrite decide_True; [done|lia]. Qed.
Lemma slice_panic {A} (l : list A) i j :
  ¬ (0 ≤ i ∧ i ≤ j ∧ j ≤ zlen l) → slice l i j = Panic "slice bounds out of range".
Proof. intros. unfold slice. rewrite decide_False; done. Qed.
(** The slice that covers the middle part of a concatenation. *)
Lemma slice_app {A} (p m s : list A) i j :
  zlen p = i → i + zlen m = j → slice (p ++ m ++ s) i j = Ret m.
Proof.
  intros <- <-. rewrite slice_ok; try len.
  rewrite zdrop_app_eq by done. rewrite ztake_app_eq by lia. done.
Qed.
(** Stepping through a concatenation, one piece at a time. *)
Lemma slice_skip {A} (a l : list A) i j :
  zlen a ≤ i → slice (a ++ l) i j = slice l (i - zlen a) (j - zlen a).
Proof.
  intros. unfold slice. pose proof (zlen_nonneg a). rewrite zlen_app.
  repeat case_decide; try (exfalso; lia); [|done].
  rewrite zdrop_app_ge by done. f_equal. f_equal. lia.
Qed.
Lemma slice_hd {A} (a l : list A) i j :
  i = 0 → j = zlen a → slice (a ++ l) i j = Ret a.
Proof.
  intros -> ->. rewrite slice_ok by len. rewrite zdrop_0, ztake_app_eq by lia. done.
Qed.
Lemma slice_full {A} (a : list A) i j : i = 0 → j = zlen a → slice a i j = Ret a.
Proof. intros -> ->. rewrite slice_ok by len. rewrite zdrop_0, ztake_all by lia. done. Qed.
Lemma index_skip {A} (a l : list A) i :
  zlen a ≤ i → index (a ++ l) i = index l (i - zlen a).
Proof.
  intros. unfold index. pose proof (zlen_nonneg a).
  rewrite !decide_True by lia. unfold zlen in *.
  rewrite lookup_app_r by lia.
  by replace (Z.to_nat i - length a)%nat with (Z.to_nat (i - Z.of_nat (length a))) by lia.
Qed.
Lemma index_hd {A} (x : A) l i : i = 0 → index (x :: l) i = Ret x.
Proof. intros ->. done. Qed.
Lemma index_hd1 {A} (x : A) l i : i = 0 → index ([x] ++ l) i = Ret x.
Proof. intros ->. done. Qed.
(** One bit of a word, as Go tests it. *)
Lemma land_bit a k : 0 ≤ k → negb (Z.land a (2 ^ k) =? 0) = Z.testbit a k.
Proof.
  intros Hk. destruct (Z.testbit a k) eqn:E.
  - apply negb_true_iff, Z.eqb_neq. intros Hz. apply (f_equal (λ z, Z.testbit z k)) in Hz.
    by rewrite Z.land_spec, E, Z.pow2_bits_true, Z.bits_0 in Hz.
  - apply negb_false_iff, Z.eqb_eq, Z.bits_inj'. intros i Hi. rewrite Z.land_spec, Z.bits_0.
    destruct (decide (i = k)) as [->|Hne]; [by rewrite E|]. by rewrite Z.pow2_bits_false, andb_false_r by done.
Qed.
(** Adjacent slices make up the slice of both. *)
Lemma slice_join {A} (l : list A) i j k a b :
  slice l i j = Ret a → slice l j k = Ret b → slice l i k = Ret (a ++ b).
Proof.
  unfold slice. intros Ha Hb.
  destruct (decide (0 ≤ i ∧ i ≤ j ∧ j ≤ zlen l)) as [Hi|]; [|discriminate Ha].
  destruct (decide (0 ≤ j ∧ j ≤ k ∧ k ≤ zlen l)) as [Hj|]; [|discriminate Hb].
  injection Ha as <-. injection Hb as <-. rewrite decide_True by lia. f_equal.
  unfold ztake, zdrop. replace (Z.to_nat (k - i)) with (Z.to_nat (j - i) + Z.to_nat (k - j))%nat by lia.
  rewrite <- take_take_drop, drop_drop. do 3 f_equal. lia.
Qed.
Lemma slice_index {A} (l : list A) i c : index l i = Ret c → slice l i (i + 1) = Ret [c].
Proof.
  unfold index, slice. case_decide; [|done]. destruct (l !! Z.to_nat i) as [x|] eqn:Hx; [|done].
  intros [= ->]. pose proof (lookup_lt_Some _ _ _ Hx).
  rewrite decide_True by (unfold zlen; lia). f_equal.
  replace (i + 1 - i) with 1 by lia. unfold ztake, zdrop.
  rewrite (drop_S _ _ _ Hx). done.
Qed.
Lemma index_ok {A} (l : list A) i x :
  0 ≤ i → l !! Z.to_nat i = Some x → index l i = Ret x.
Proof. intros ? H. unfold index. rewrite decide_True by done. by rewrite H. Qed.
Lemma update_ok {A} (l : list A) i x :
  0 ≤ i < zlen l → update l i x = Ret (<[Z.to_nat i := x]> l).
Proof. intros. unfold update. by rewrite decide_True. Qed.

(** ** Arrays

    [arr a n f]: the array [a] has [n] elements and [a[i] = f i].  Loops over
    arrays are specified by what they do to the function. *)
Definition arr {A} (a : list A) (n : Z) (f : Z → A) : Prop :=
  zlen a = n ∧ ∀ i, 0 ≤ i < n → index a i = Ret (f i).

Definition upd {A} (f : Z → A) (i : Z) (x : A) : Z → A := λ j, if decide (j = i) then x else f j.

Lemma upd_eq {A} (f : Z → A) i x : upd f i x i = x.
Proof. unfold upd. by rewrite decide_True. Qed.
Lemma upd_ne {A} (f : Z → A) i j x : j ≠ i → upd f i x j = f j.
Proof. intros. unfold upd. by rewrite decide_False. Qed.

Lemma arr_zlen {A} (a : list A) n f : arr a n f → zlen a = n.
Proof. by intros [? _]. Qed.
Lemma index_Ret {A} (a : list A) i x :
  0 ≤ i → index a i = Ret x ↔ a !! Z.to_nat i = Some x.
Proof.
  intros Hi. unfold index. rewrite decide_True by done.
  destruct (a !! Z.to_nat i); [|done]. split; by intros [= ->].
Qed.
Lemma arr_index {A} (a : list A) n f i : arr a n f → 0 ≤ i < n → index a i = Ret (f i).
Proof. intros [_ H]. apply H. Qed.
Lemma arr_ext {A} (a : list A) n f g :
  arr a n f → (∀ i, 0 ≤ i < n → f i = g i) → arr a n g.
Proof. intros [Hl H] Hfg. split; [done|]. intros i Hi. by rewrite <- Hfg, H by done. Qed.
Lemma arr_replicate {A} (x : A) (n : nat) : arr (replicate n x) (Z.of_nat n) (λ _, x).
Proof.
  split; [apply zlen_replicate|]. intros i Hi. apply index_Ret; [lia|].
  apply lookup_replicate_2. lia.
Qed.
Lemma arr_update {A} (a : list A) n f i x :
  arr a n f → 0 ≤ i < n → ∃ a', update a i x = Ret a' ∧ arr a' n (upd f i x).
Proof.
  intros [Hl H] Hi. eexists. split; [apply update_ok; by rewrite Hl|].
  split; [by rewrite zlen_insert|]. intros j Hj. apply index_Ret; [lia|]. unfold upd.
  destruct (decide (j = i)) as [->|Hne].
  - apply list_lookup_insert_eq. unfold zlen in Hl. lia.
  - rewrite list_lookup_insert_ne by lia. apply index_Ret; [lia|]. by apply H.
Qed.
Lemma arr_self (a : list Z) : arr a (zlen a) (λ i, a !!! Z.to_nat i).
Proof.
  split; [done|]. intros i Hi. apply index_Ret; [lia|].
  apply list_lookup_lookup_total_lt. unfold zlen in Hi. lia.
Qed.

(** [for j := 0; j < k; j++ { a[p+j] = v }] *)
Fixpoint fill_range {A} (k : nat) (a : list A) (p : Z) (v : A) : res (list A) :=
  match k with
  | O => Ret a
  | S k => a' ← update a p v; fill_range k a' (p + 1) v
  end.

Lemma fill_range_arr {A} k (a : list A) n f p v :
  arr a n f → 0 ≤ p → p + Z.of_nat k ≤ n →
  ∃ a', fill_range k a p v = Ret a' ∧
        arr a' n (λ j, if decide (p ≤ j < p + Z.of_nat k) then v else f j).
Proof.
  revert a f p. induction k as [|k IH]; intros a f p Ha Hp Hn; cbn [fill_range].
  - exists a. split; [done|]. apply (arr_ext _ _ _ _ Ha). intros. rewrite decide_False; [done|lia].
  - destruct (arr_update a n f p v Ha ltac:(lia)) as (a1 & -> & Ha1). cbn [mbind res_bind].
    destruct (IH a1 _ (p + 1) Ha1) as (a2 & -> & Ha2); [lia..|]. exists a2. split; [done|].
    apply (arr_ext _ _ _ _ Ha2). intros i Hi. unfold upd.
    repeat case_decide; done || lia.
Qed.

(** [copy(l[off:], bs)], for [off + len(bs) <= len(l)]. *)
Definition overwrite {A} (l : list A) (off : Z) (bs : list A) : list A :=
  ztake off l ++ bs ++ zdrop (off + zlen bs) l.

Lemma zlen_overwrite {A} (l : list A) off bs :
  0 ≤ off → off + zlen bs ≤ zlen l → zlen (overwrite l off bs) = zlen l.
Proof. intros. unfold overwrite. len. Qed.

(** ** Bytes *)
Definition byte_ok (b : Z) : Prop := 0 ≤ b < 256.
Abbreviation bytes_ok := (Forall byte_ok).

#[export] Instance byte_ok_dec b : Decision (byte_ok b).
Proof. unfold byte_ok. apply _. Defined.

Lemma bytes_ok_app l k : bytes_ok l → bytes_ok k → bytes_ok (l ++ k).
Proof. intros. by apply Forall_app. Qed.
Lemma bytes_ok_ztake n l : bytes_ok l → bytes_ok (ztake n l).
Proof. apply Forall_take. Qed.
Lemma bytes_ok_zdrop n l : bytes_ok l → bytes_ok (zdrop n l).
Proof. apply Forall_drop. Qed.
#[export] Hint Resolve bytes_ok_app bytes_ok_ztake bytes_ok_zdrop : golist.

(** Little-endian encodings on [n] bytes; [binary.LittleEndian.PutUint*] and
    [Uint*] are the instances [n = 2, 4, 8]. *)
Fixpoint le_bytes (n : nat) (z : Z) : list Z :=
  match n with
  | O => []
  | S n => z mod 256 :: le_bytes n (z / 256)
  end.
Fixpoint le_val (l : list Z) : Z :=
  match l with
  | [] => 0
  | b :: t => b + 256 * le_val t
  end.
Definition be_bytes (n : nat) (z : Z) : list Z := rev (le_bytes n z).
Definition be_val (l : list Z) : Z := le_val (rev l).

Lemma length_le_bytes n z : length (le_bytes n z) = n.
Proof. revert z. induction n; simpl; auto. Qed.
Lemma zlen_le_bytes n z : zlen (le_bytes n z) = Z.of_nat n.
Proof. unfold zlen. by rewrite length_le_bytes. Qed.
Lemma zlen_be_bytes n z : zlen (be_bytes n z) = Z.of_nat n.
Proof. unfold be_bytes. by rewrite zlen_rev, zlen_le_bytes. Qed.
#[export] Hint Rewrite zlen_le_bytes zlen_be_bytes : golist.

Lemma bytes_ok_le_bytes n z : bytes_ok (le_bytes n z).
Proof.
  revert z. induction n; intros; simpl; constructor; [|done].
  apply Z.mod_pos_bound. lia.
Qed.
Lemma bytes_ok_be_bytes n z : bytes_ok (be_bytes n z).
Proof. apply Forall_rev, bytes_ok_le_bytes. Qed.
#[export] Hint Resolve bytes_ok_le_bytes bytes_ok_be_bytes : golist.

Lemma le_val_le_bytes n z : le_val (le_bytes n z) = z mod 256 ^ Z.of_nat n.
Proof.
  revert z. induction n as [|n IH]; intros z.
  - simpl. rewrite Z.mod_1_r. done.
  - cbn [le_bytes le_val]. rewrite IH, Nat2Z.inj_succ, Z.pow_succ_r by lia.
    rewrite Z.rem_mul_r by lia. done.
Qed.
Lemma le_val_range l : bytes_ok l → 0 ≤ le_val l < 256 ^ zlen l.
Proof.
  induction 1 as [|b l Hb Hl IH]; [by split|].
  rewrite zlen_cons, Z.pow_add_r, Z.pow_1_r by (try apply zlen_nonneg; lia).
  unfold byte_ok in Hb. cbn [le_val]. lia.
Qed.
Lemma le_bytes_le_val l : bytes_ok l → le_bytes (length l) (le_val l) = l.
Proof.
  induction 1 as [|b l Hb Hl IH]; [done|]. unfold byte_ok in Hb.
  cbn [length le_bytes le_val]. f_equal.
  - rewrite (Z.mul_comm 256), Z.mod_add, Z.mod_small by lia. done.
  - rewrite (Z.mul_comm 256), Z.div_add, Z.div_small by lia. done.
Qed.
(** The bytes of a number depend on its low bits only. *)
Lemma le_bytes_mod n z : le_bytes n (z mod 256 ^ Z.of_nat n) = le_bytes n z.
Proof.
  rewrite <- le_val_le_bytes. rewrite <- (length_le_bytes n z) at 1. apply le_bytes_le_val, bytes_ok_le_bytes.
Qed.
Lemma be_val_be_bytes n z : be_val (be_bytes n z) = z mod 256 ^ Z.of_nat n.
Proof. unfold be_val, be_bytes. by rewrite rev_involutive, le_val_le_bytes. Qed.
Lemma be_bytes_be_val l : bytes_ok l → be_bytes (length l) (be_val l) = l.
Proof.
  intros H. unfold be_bytes, be_val. rewrite <- (length_rev l), le_bytes_le_val.
  - apply rev_involutive.
  - by apply Forall_rev.
Qed.

(** The instances for the widths of [encoding/binary]. *)
Lemma le_val_le16 z : 0 ≤ z < 65536 → le_val (le_bytes 2 z) = z.
Proof. intros. rewrite le_val_le_bytes. apply Z.mod_small. simpl. lia. Qed.
Lemma le_val_le32 z : 0 ≤ z < 4294967296 → le_val (le_bytes 4 z) = z.
Proof. intros. rewrite le_val_le_bytes. apply Z.mod_small. simpl. lia. Qed.
Lemma le_val_le64 z : 0 ≤ z < 18446744073709551616 → le_val (le_bytes 8 z) = z.
Proof. intros. rewrite le_val_le_bytes. apply Z.mod_small. simpl. lia. Qed.

(** ** Tactics *)

(** Split the first monadic bind of a hypothesis on the result of its head. *)
Ltac step_in H :=
  match type of H with
  | context [mbind _ ?m] => destruct m eqn:?; simpl in H; try discriminate H
  end.

(** Run the binds of a computation applied to a state, as far as they evaluate. *)
Ltac st_red := cbv beta iota delta [mbind St_bind mret St_ret lift modify get put].

(** Prove a closed decidable proposition by evaluation. *)
Ltac decide_now := apply (bool_decide_unpack _); vm_compute; exact I.

(** Evaluate the slices and indexings of a concatenation whose pieces have
    lengths known to [len]. *)
Ltac slices :=
  repeat first
    [ rewrite slice_hd by len
    | rewrite slice_full by len
    | rewrite index_hd by len
    | rewrite index_hd1 by len
    | rewrite slice_skip by len
    | rewrite index_skip by len ].
