(* ===== verification/Program.v ===== *)
(** * Programs that may end early

    A part of a command returns to its caller or ends the process: [os.Exit] runs no
    deferred calls, a panic that nobody recovers ends the process too. *)
From S2P Require Import Prelude.

Inductive outcome (A : Type) : Type :=
| Done (a : A)
| Exit (code : Z)
| Crash.
Arguments Done {A} _.
Arguments Exit {A} _.
Arguments Crash {A}.

Definition prog (W A : Type) : Type := W → outcome A * W.
#[export] Instance prog_ret {W} : MRet (prog W) := λ _ a w, (Done a, w).
#[export] Instance prog_bind {W} : MBind (prog W) := λ _ _ f m w,
  match m w with
  | (Done a, w') => f a w'
  | (Exit c, w') => (Exit c, w')
  | (Crash, w') => (Crash, w')
  end.
Lemma prog_bind_eq {W A B} (f : A → prog W B) (m : prog W A) w :
  (m ≫= f) w = match m w with
               | (Done a, w') => f a w'
               | (Exit c, w') => (Exit c, w')
               | (Crash, w') => (Crash, w')
               end.
Proof. reflexivity. Qed.
Lemma prog_bind_Done {W A B} (f : A → prog W B) (m : prog W A) w a w' :
  m w = (Done a, w') → (m ≫= f) w = f a w'.
Proof. intros E. by rewrite prog_bind_eq, E. Qed.
Lemma prog_ret_eq {W A} (a : A) (w : W) : (mret a : prog W A) w = (Done a, w).
Proof. reflexivity. Qed.

Definition os_Exit {W A} (code : Z) : prog W A := λ w, (Exit code, w).

(** [defer f()] around the rest of a function. *)
Definition deferred {W A} (f : prog W unit) (body : prog W A) : prog W A := λ w,
  match body w with
  | (Done a, w') => (_ ← f; mret a) w'
  | (Exit c, w') => (Exit c, w')
  | (Crash, w') => match f w' with (Exit c, w'') => (Exit c, w'') | (_, w'') => (Crash, w'') end
  end.
