(* ===== verification/FsFlags.v ===== *)
(** * Flags of files (internal/fs/fs.go, internal/fs/security.go)

    The constants of the file API, and how their bits fit together. *)
From S2P Require Import Prelude.

(** ** Impersonation levels (security.go) *)
Definition SecurityAnonymous : Z := 0.
Definition SecurityIdentification : Z := 1.
Definition SecurityImpersonation : Z := 2.
Definition SecurityDelegation : Z := 3.

(** ** The constants (fs.go) *)
Definition NullHandle : Z := 0.

(** *** [AccessMask] *)
Definition FILE_ANY_ACCESS : Z := 0.
Definition GENERIC_READ : Z := 0x80000000.
Definition GENERIC_WRITE : Z := 0x40000000.
Definition GENERIC_EXECUTE : Z := 0x20000000.
Definition GENERIC_ALL : Z := 0x10000000.
Definition ACCESS_SYSTEM_SECURITY : Z := 0x01000000.
Definition FILE_READ_DATA : Z := 0x0001.
Definition FILE_LIST_DIRECTORY : Z := 0x0001.
Definition FILE_WRITE_DATA : Z := 0x0002.
Definition FILE_ADD_FILE : Z := 0x0002.
Definition FILE_APPEND_DATA : Z := 0x0004.
Definition FILE_ADD_SUBDIRECTORY : Z := 0x0004.
Definition FILE_CREATE_PIPE_INSTANCE : Z := 0x0004.
Definition FILE_READ_EA : Z := 0x0008.
Definition FILE_READ_PROPERTIES : Z := FILE_READ_EA.
Definition FILE_WRITE_EA : Z := 0x0010.
Definition FILE_WRITE_PROPERTIES : Z := FILE_WRITE_EA.
Definition FILE_EXECUTE : Z := 0x0020.
Definition FILE_TRAVERSE : Z := 0x0020.
Definition FILE_DELETE_CHILD : Z := 0x0040.
Definition FILE_READ_ATTRIBUTES : Z := 0x0080.
Definition FILE_WRITE_ATTRIBUTES : Z := 0x0100.
Definition STANDARD_RIGHTS_REQUIRED : Z := 0x000F0000.
Definition SYNCHRONIZE : Z := 0x00100000.
Definition FILE_ALL_ACCESS : Z := Z.lor (Z.lor STANDARD_RIGHTS_REQUIRED SYNCHRONIZE) 0x1FF.
Definition READ_CONTROL : Z := 0x00020000.
Definition STANDARD_RIGHTS_READ : Z := READ_CONTROL.
Definition FILE_GENERIC_READ : Z := Z.lor (Z.lor (Z.lor (Z.lor STANDARD_RIGHTS_READ FILE_READ_DATA) FILE_READ_ATTRIBUTES) FILE_READ_EA) SYNCHRONIZE.
Definition STANDARD_RIGHTS_WRITE : Z := READ_CONTROL.
Definition FILE_GENERIC_WRITE : Z := Z.lor (Z.lor (Z.lor (Z.lor (Z.lor STANDARD_RIGHTS_WRITE FILE_WRITE_DATA) FILE_WRITE_ATTRIBUTES) FILE_WRITE_EA) FILE_APPEND_DATA) SYNCHRONIZE.
Definition STANDARD_RIGHTS_EXECUTE : Z := READ_CONTROL.
Definition FILE_GENERIC_EXECUTE : Z := Z.lor (Z.lor (Z.lor STANDARD_RIGHTS_EXECUTE FILE_READ_ATTRIBUTES) FILE_EXECUTE) SYNCHRONIZE.
Definition SPECIFIC_RIGHTS_ALL : Z := 0x0000FFFF.
Definition DELETE : Z := 0x00010000.
Definition WRITE_DAC : Z := 0x00040000.
Definition WRITE_OWNER : Z := 0x00080000.
Definition STANDARD_RIGHTS_ALL : Z := 0x001F0000.

(** *** [FileShareMode] *)
Definition FILE_SHARE_NONE : Z := 0x00.
Definition FILE_SHARE_READ : Z := 0x01.
Definition FILE_SHARE_WRITE : Z := 0x02.
Definition FILE_SHARE_DELETE : Z := 0x04.
Definition FILE_SHARE_VALID_FLAGS : Z := 0x07.

(** *** [FileCreationDisposition] *)
Definition CREATE_NEW : Z := 0x01.
Definition CREATE_ALWAYS : Z := 0x02.
Definition OPEN_EXISTING : Z := 0x03.
Definition OPEN_ALWAYS : Z := 0x04.
Definition TRUNCATE_EXISTING : Z := 0x05.

(** *** [NTFileCreationDisposition] *)
Definition FILE_SUPERSEDE : Z := 0x00.
Definition FILE_OPEN : Z := 0x01.
Definition FILE_CREATE : Z := 0x02.
Definition FILE_OPEN_IF : Z := 0x03.
Definition FILE_OVERWRITE : Z := 0x04.
Definition FILE_OVERWRITE_IF : Z := 0x05.
Definition FILE_MAXIMUM_DISPOSITION : Z := 0x05.

(** *** [FileFlagOrAttribute] *)
Definition FILE_FLAG_WRITE_THROUGH : Z := 0x80000000.
Definition FILE_FLAG_OVERLAPPED : Z := 0x40000000.
Definition FILE_FLAG_NO_BUFFERING : Z := 0x20000000.
Definition FILE_FLAG_RANDOM_ACCESS : Z := 0x10000000.
Definition FILE_FLAG_SEQUENTIAL_SCAN : Z := 0x08000000.
Definition FILE_FLAG_DELETE_ON_CLOSE : Z := 0x04000000.
Definition FILE_FLAG_BACKUP_SEMANTICS : Z := 0x02000000.
Definition FILE_FLAG_POSIX_SEMANTICS : Z := 0x01000000.
Definition FILE_FLAG_OPEN_REPARSE_POINT : Z := 0x00200000.
Definition FILE_FLAG_OPEN_NO_RECALL : Z := 0x00100000.
Definition FILE_FLAG_FIRST_PIPE_INSTANCE : Z := 0x00080000.

(** *** [NTCreateOptions] *)
Definition FILE_DIRECTORY_FILE : Z := 0x00000001.
Definition FILE_WRITE_THROUGH : Z := 0x00000002.
Definition FILE_SEQUENTIAL_ONLY : Z := 0x00000004.
Definition FILE_NO_INTERMEDIATE_BUFFERING : Z := 0x00000008.
Definition FILE_SYNCHRONOUS_IO_ALERT : Z := 0x00000010.
Definition FILE_SYNCHRONOUS_IO_NONALERT : Z := 0x00000020.
Definition FILE_NON_DIRECTORY_FILE : Z := 0x00000040.
Definition FILE_CREATE_TREE_CONNECTION : Z := 0x00000080.
Definition FILE_COMPLETE_IF_OPLOCKED : Z := 0x00000100.
Definition FILE_NO_EA_KNOWLEDGE : Z := 0x00000200.
Definition FILE_DISABLE_TUNNELING : Z := 0x00000400.
Definition FILE_RANDOM_ACCESS : Z := 0x00000800.
Definition FILE_DELETE_ON_CLOSE : Z := 0x00001000.
Definition FILE_OPEN_BY_FILE_ID : Z := 0x00002000.
Definition FILE_OPEN_FOR_BACKUP_INTENT : Z := 0x00004000.
Definition FILE_NO_COMPRESSION : Z := 0x00008000.

(** *** [FileSQSFlag] *)
Definition SECURITY_ANONYMOUS : Z := Z.shiftl SecurityAnonymous 16.
Definition SECURITY_IDENTIFICATION : Z := Z.shiftl SecurityIdentification 16.
Definition SECURITY_IMPERSONATION : Z := Z.shiftl SecurityImpersonation 16.
Definition SECURITY_DELEGATION : Z := Z.shiftl SecurityDelegation 16.
Definition SECURITY_SQOS_PRESENT : Z := 0x00100000.
Definition SECURITY_VALID_SQOS_FLAGS : Z := 0x001F0000.

(** *** [GetFinalPathFlag] *)
Definition GetFinalPathDefaultFlag : Z := 0x0.
Definition FILE_NAME_NORMALIZED : Z := 0x0.
Definition FILE_NAME_OPENED : Z := 0x8.
Definition VOLUME_NAME_DOS : Z := 0x0.
Definition VOLUME_NAME_GUID : Z := 0x1.
Definition VOLUME_NAME_NT : Z := 0x2.
Definition VOLUME_NAME_NONE : Z := 0x4.

(** ** How the bits fit together *)
Definition within (mask flag : Z) : bool := Z.land flag mask =? flag.
Definition disjoint_flags (a b : Z) : bool := Z.land a b =? 0.
Definition all_bits (l : list Z) : Z := foldr Z.lor 0 l.

Definition specific_rights : list Z :=
  [FILE_READ_DATA; FILE_WRITE_DATA; FILE_APPEND_DATA; FILE_READ_EA; FILE_WRITE_EA; FILE_EXECUTE;
   FILE_DELETE_CHILD; FILE_READ_ATTRIBUTES; FILE_WRITE_ATTRIBUTES].
Definition standard_rights : list Z := [DELETE; READ_CONTROL; WRITE_DAC; WRITE_OWNER; SYNCHRONIZE].
Definition generic_rights : list Z := [GENERIC_READ; GENERIC_WRITE; GENERIC_EXECUTE; GENERIC_ALL].

(** The diagram of [AccessMask]: specific rights are in the low 16 bits, standard rights in the
    five above, the system's security in bit 24, and generic rights in the top four; the nine
    specific rights of a file are single bits, all of which [FILE_ALL_ACCESS] adds to the standard
    ones, and the generic mappings are parts of it. *)
Lemma access_mask_layout :
  all_bits specific_rights = 0x1ff ∧ all_bits standard_rights = STANDARD_RIGHTS_ALL ∧
  all_bits generic_rights = 0xf0000000 ∧
  NoDup (specific_rights ++ standard_rights ++ [ACCESS_SYSTEM_SECURITY] ++ generic_rights) ∧
  forallb (λ z, 2 ^ Z.log2 z =? z)
    (specific_rights ++ standard_rights ++ [ACCESS_SYSTEM_SECURITY] ++ generic_rights) = true ∧
  forallb (within SPECIFIC_RIGHTS_ALL) specific_rights = true ∧
  disjoint_flags SPECIFIC_RIGHTS_ALL STANDARD_RIGHTS_ALL = true ∧
  FILE_ALL_ACCESS = Z.lor STANDARD_RIGHTS_ALL (all_bits specific_rights) ∧
  forallb (within FILE_ALL_ACCESS) [FILE_GENERIC_READ; FILE_GENERIC_WRITE; FILE_GENERIC_EXECUTE] = true.
Proof. split_and!; try (by vm_compute). decide_now. Qed.

(** Options of [NtCreateFile] are the sixteen low bits, share modes the three of their mask. *)
Definition create_options : list Z :=
  [FILE_DIRECTORY_FILE; FILE_WRITE_THROUGH; FILE_SEQUENTIAL_ONLY; FILE_NO_INTERMEDIATE_BUFFERING;
   FILE_SYNCHRONOUS_IO_ALERT; FILE_SYNCHRONOUS_IO_NONALERT; FILE_NON_DIRECTORY_FILE;
   FILE_CREATE_TREE_CONNECTION; FILE_COMPLETE_IF_OPLOCKED; FILE_NO_EA_KNOWLEDGE;
   FILE_DISABLE_TUNNELING; FILE_RANDOM_ACCESS; FILE_DELETE_ON_CLOSE; FILE_OPEN_BY_FILE_ID;
   FILE_OPEN_FOR_BACKUP_INTENT; FILE_NO_COMPRESSION].
Lemma create_options_bits : create_options = (λ i, 2 ^ Z.of_nat i) <$> seq 0 16.
Proof. by vm_compute. Qed.
Lemma share_modes : all_bits [FILE_SHARE_READ; FILE_SHARE_WRITE; FILE_SHARE_DELETE] = FILE_SHARE_VALID_FLAGS.
Proof. by vm_compute. Qed.

(** A quality of service can be read off the flags it is passed with: the flags that a dial
    combines share no bit with it, unlike [FILE_FLAG_OPEN_NO_RECALL], which is the bit of
    [SECURITY_SQOS_PRESENT]. *)
Definition security_levels : list Z :=
  [SECURITY_ANONYMOUS; SECURITY_IDENTIFICATION; SECURITY_IMPERSONATION; SECURITY_DELEGATION].
Lemma security_of_flags level :
  level ∈ security_levels →
  Z.land (Z.lor (Z.lor FILE_FLAG_OVERLAPPED SECURITY_SQOS_PRESENT) level) SECURITY_VALID_SQOS_FLAGS =
    Z.lor SECURITY_SQOS_PRESENT level.
Proof.
  intros Hl. assert (F : Forall (λ level, Z.land (Z.lor (Z.lor FILE_FLAG_OVERLAPPED SECURITY_SQOS_PRESENT) level)
    SECURITY_VALID_SQOS_FLAGS = Z.lor SECURITY_SQOS_PRESENT level) security_levels) by decide_now.
  rewrite Forall_forall in F. by apply F.
Qed.
Example no_recall_is_sqos : FILE_FLAG_OPEN_NO_RECALL = SECURITY_SQOS_PRESENT.
Proof. reflexivity. Qed.
