(* ===== verification/VhdFlags.v ===== *)
(** * Flags of virtual disks (vhd/vhd.go) *)
From S2P Require Import Prelude FsFlags.

(** *** [VirtualDiskAccessMask] *)
Definition VirtualDiskAccessNone : Z := 0x00000000.
Definition VirtualDiskAccessAttachRO : Z := 0x00010000.
Definition VirtualDiskAccessAttachRW : Z := 0x00020000.
Definition VirtualDiskAccessDetach : Z := 0x00040000.
Definition VirtualDiskAccessGetInfo : Z := 0x00080000.
Definition VirtualDiskAccessCreate : Z := 0x00100000.
Definition VirtualDiskAccessMetaOps : Z := 0x00200000.
Definition VirtualDiskAccessRead : Z := 0x000d0000.
Definition VirtualDiskAccessAll : Z := 0x003f0000.
Definition VirtualDiskAccessWritable : Z := 0x00320000.

(** *** [CreateVirtualDiskFlag] *)
Definition CreateVirtualDiskFlagNone : Z := 0x0.
Definition CreateVirtualDiskFlagFullPhysicalAllocation : Z := 0x1.
Definition CreateVirtualDiskFlagPreventWritesToSourceDisk : Z := 0x2.
Definition CreateVirtualDiskFlagDoNotCopyMetadataFromParent : Z := 0x4.
Definition CreateVirtualDiskFlagCreateBackingStorage : Z := 0x8.
Definition CreateVirtualDiskFlagUseChangeTrackingSourceLimit : Z := 0x10.
Definition CreateVirtualDiskFlagPreserveParentChangeTrackingState : Z := 0x20.
Definition CreateVirtualDiskFlagVhdSetUseOriginalBackingStorage : Z := 0x40.
Definition CreateVirtualDiskFlagSparseFile : Z := 0x80.
Definition CreateVirtualDiskFlagPmemCompatible : Z := 0x100.
Definition CreateVirtualDiskFlagSupportCompressedVolumes : Z := 0x200.

(** *** [VirtualDiskFlag] *)
Definition OpenVirtualDiskFlagNone : Z := 0x00000000.
Definition OpenVirtualDiskFlagNoParents : Z := 0x00000001.
Definition OpenVirtualDiskFlagBlankFile : Z := 0x00000002.
Definition OpenVirtualDiskFlagBootDrive : Z := 0x00000004.
Definition OpenVirtualDiskFlagCachedIO : Z := 0x00000008.
Definition OpenVirtualDiskFlagCustomDiffChain : Z := 0x00000010.
Definition OpenVirtualDiskFlagParentCachedIO : Z := 0x00000020.
Definition OpenVirtualDiskFlagVhdsetFileOnly : Z := 0x00000040.
Definition OpenVirtualDiskFlagIgnoreRelativeParentLocator : Z := 0x00000080.
Definition OpenVirtualDiskFlagNoWriteHardening : Z := 0x00000100.
Definition OpenVirtualDiskFlagSupportCompressedVolumes : Z := 0x00000200.

(** *** [AttachVirtualDiskFlag] *)
Definition AttachVirtualDiskFlagNone : Z := 0x00000000.
Definition AttachVirtualDiskFlagReadOnly : Z := 0x00000001.
Definition AttachVirtualDiskFlagNoDriveLetter : Z := 0x00000002.
Definition AttachVirtualDiskFlagPermanentLifetime : Z := 0x00000004.
Definition AttachVirtualDiskFlagNoLocalHost : Z := 0x00000008.
Definition AttachVirtualDiskFlagNoSecurityDescriptor : Z := 0x00000010.
Definition AttachVirtualDiskFlagBypassDefaultEncryptionPolicy : Z := 0x00000020.
Definition AttachVirtualDiskFlagNonPnp : Z := 0x00000040.
Definition AttachVirtualDiskFlagRestrictedRange : Z := 0x00000080.
Definition AttachVirtualDiskFlagSinglePartition : Z := 0x00000100.
Definition AttachVirtualDiskFlagRegisterVolume : Z := 0x00000200.

(** *** [DetachVirtualDiskFlag] *)
Definition DetachVirtualDiskFlagNone : Z := 0x0.

(** ** How the bits fit together *)
Definition access_rights : list Z :=
  [VirtualDiskAccessAttachRO; VirtualDiskAccessAttachRW; VirtualDiskAccessDetach;
   VirtualDiskAccessGetInfo; VirtualDiskAccessCreate; VirtualDiskAccessMetaOps].
(** The six rights are single bits, of which [VirtualDiskAccessAll] is all, reading needs three
    and writing the other three. *)
Lemma access_masks :
  forallb (λ z, 2 ^ Z.log2 z =? z) access_rights = true ∧ NoDup access_rights ∧
  all_bits access_rights = VirtualDiskAccessAll ∧
  VirtualDiskAccessRead =
    all_bits [VirtualDiskAccessAttachRO; VirtualDiskAccessDetach; VirtualDiskAccessGetInfo] ∧
  VirtualDiskAccessWritable =
    all_bits [VirtualDiskAccessAttachRW; VirtualDiskAccessCreate; VirtualDiskAccessMetaOps] ∧
  disjoint_flags VirtualDiskAccessRead VirtualDiskAccessWritable = true.
Proof. split_and!; try (by vm_compute). decide_now. Qed.

(** The flags of creating and of attaching are the low ten bits, one by one. *)
Lemma create_attach_bits :
  [CreateVirtualDiskFlagFullPhysicalAllocation; CreateVirtualDiskFlagPreventWritesToSourceDisk;
   CreateVirtualDiskFlagDoNotCopyMetadataFromParent; CreateVirtualDiskFlagCreateBackingStorage;
   CreateVirtualDiskFlagUseChangeTrackingSourceLimit; CreateVirtualDiskFlagPreserveParentChangeTrackingState;
   CreateVirtualDiskFlagVhdSetUseOriginalBackingStorage; CreateVirtualDiskFlagSparseFile;
   CreateVirtualDiskFlagPmemCompatible; CreateVirtualDiskFlagSupportCompressedVolumes] =
    (λ i, 2 ^ Z.of_nat i) <$> seq 0 10 ∧
  [AttachVirtualDiskFlagReadOnly; AttachVirtualDiskFlagNoDriveLetter;
   AttachVirtualDiskFlagPermanentLifetime; AttachVirtualDiskFlagNoLocalHost;
   AttachVirtualDiskFlagNoSecurityDescriptor; AttachVirtualDiskFlagBypassDefaultEncryptionPolicy;
   AttachVirtualDiskFlagNonPnp; AttachVirtualDiskFlagRestrictedRange;
   AttachVirtualDiskFlagSinglePartition; AttachVirtualDiskFlagRegisterVolume] =
    (λ i, 2 ^ Z.of_nat i) <$> seq 0 10.
Proof. split; by vm_compute. Qed.
