(* ===== verification/GoStrings.v ===== *)
(** * Go strings, [strings] and [strconv]

    A Go string is a sequence of bytes; it is modelled as a [list Z] whose
    elements are bytes.  This file models what the repository uses of the
    packages [strings], [strconv] and [fmt] (number formatting), with the
    parse/print lemmas the components share. *)
From S2P Require Import Prelude.

(** A string literal as bytes. *)
Definition str (s : string) : list Z :=
  (λ a, Z.of_N (Ascii.N_of_ascii a)) <$> String.list_ascii_of_string s.

(** ** package strings *)
Fixpoint HasPrefix (s p : list Z) : bool :=
  match p, s with
  | [], _ => true
  | _ :: _, [] => false
  | a :: p, b :: s => (a =? b) && HasPrefix s p
  end.
Definition HasSuffix (s p : list Z) : bool := HasPrefix (rev s) (rev p).
Definition TrimSuffix (s p : list Z) : list Z :=
  if HasSuffix s p then ztake (zlen s - zlen p) s else s.

Fixpoint Contains (s sub : list Z) : bool :=
  HasPrefix s sub || match s with [] => false | _ :: t => Contains t sub end.

(** [strings.IndexByte], [None] for -1. *)
Fixpoint IndexByte (s : list Z) (c : Z) : option Z :=
  match s with
  | [] => None
  | b :: t => if b =? c then Some 0 else Z.succ <$> IndexByte t c
  end.

(** [strings.Trim(s, cutset) != ""] only needs: some byte is outside. *)
Definition all_in (cutset s : list Z) : bool := forallb (λ b, existsb (Z.eqb b) cutset) s.

(** [strings.TrimRight(s, c)] for a one-byte cutset. *)
Fixpoint trim_left_byte (c : Z) (s : list Z) : list Z :=
  match s with
  | [] => []
  | b :: t => if b =? c then trim_left_byte c t else s
  end.
Definition TrimRightByte (s : list Z) (c : Z) : list Z := rev (trim_left_byte c (rev s)).

(** ** package strconv *)
Definition ErrSyntax : error := New "invalid syntax".
Definition ErrRange : error := New "value out of range".

(** The value of a digit character, as the switch in [strconv.ParseUint];
    [lower(c)] is [c | 0x20]. *)
Definition digit_val (c : Z) : option Z :=
  if (48 <=? c) && (c <=? 57) then Some (c - 48)
  else if (97 <=? Z.lor c 32) && (Z.lor c 32 <=? 122) then Some (Z.lor c 32 - 97 + 10)
  else None.

(** The loop of [ParseUint]; the two overflow tests on 64-bit words together
    reject exactly the values above [maxVal]. *)
Fixpoint parse_digits (base maxVal n : Z) (s : list Z) : res Z :=
  match s with
  | [] => Ret n
  | c :: t =>
      match digit_val c with
      | None => Fail ErrSyntax
      | Some d =>
          if base <=? d then Fail ErrSyntax
          else if maxVal <? n * base + d then Fail ErrRange
          else parse_digits base maxVal (n * base + d) t
      end
  end.

Definition ParseUint (s : list Z) (base bitSize : Z) : res Z :=
  match s with
  | [] => Fail ErrSyntax
  | _ => parse_digits base (2 ^ bitSize - 1) 0 s
  end.

Definition ParseInt (s : list Z) (base bitSize : Z) : res Z :=
  match s with
  | [] => Fail ErrSyntax
  | c :: t =>
      let neg := c =? 45 in
      let s' := if (c =? 43) || (c =? 45) then t else s in
      un ← ParseUint s' base bitSize;
      if negb neg && (2 ^ (bitSize - 1) <=? un) then Fail ErrRange
      else if neg && (2 ^ (bitSize - 1) <? un) then Fail ErrRange
      else Ret (if neg then - un else un)
  end.

Definition digit_char (d : Z) : Z := if d <? 10 then 48 + d else 97 + d - 10.

(** Digits of [z], most significant first. *)
Fixpoint digits (fuel : nat) (base z : Z) : list Z :=
  match fuel with
  | O => []
  | S f => if z <? base then [z] else digits f base (z / base) ++ [z mod base]
  end.
Definition ndigits (z : Z) : nat := S (Z.to_nat (Z.log2 z)).
Definition FormatUint (z base : Z) : list Z := digit_char <$> digits (ndigits z) base z.
Definition FormatInt (z base : Z) : list Z :=
  if z <? 0 then 45 :: FormatUint (- z) base else FormatUint z base.

(** [%0wx] and [%0wd] of a non-negative number: pad with zeros to width [w]. *)
Definition pad0 (w : nat) (s : list Z) : list Z := replicate (w - length s) 48 ++ s.

(** ** Lemmas *)
Lemma bytes_ok_str s : bytes_ok (str s).
Proof.
  unfold str. apply Forall_fmap, Forall_true. intros a. unfold byte_ok. simpl.
  pose proof (Ascii.N_ascii_bounded a). lia.
Qed.
#[export] Hint Resolve bytes_ok_str : golist.

Lemma HasPrefix_app p s : HasPrefix (p ++ s) p = true.
Proof. induction p as [|a p IH]; [by destruct s|]. simpl. by rewrite Z.eqb_refl. Qed.
Lemma HasPrefix_spec s p : HasPrefix s p = true ↔ ∃ t, s = p ++ t.
Proof.
  split; [|intros [t ->]; apply HasPrefix_app].
  revert s. induction p as [|a p IH]; intros s H; [by exists s|].
  destruct s as [|b s]; [done|]. simpl in H. apply andb_true_iff in H as [Hab H].
  apply Z.eqb_eq in Hab as ->. destruct (IH _ H) as [t ->]. by exists t.
Qed.
Lemma HasSuffix_spec s p : HasSuffix s p = true ↔ ∃ t, s = t ++ p.
Proof.
  unfold HasSuffix. rewrite HasPrefix_spec. split.
  - intros [t Ht]. exists (rev t).
    rewrite <- (rev_involutive s), Ht, rev_app_distr, rev_involutive. done.
  - intros [t ->]. exists (rev t). by rewrite rev_app_distr.
Qed.
Lemma TrimSuffix_app s p : TrimSuffix (s ++ p) p = s.
Proof.
  unfold TrimSuffix. replace (HasSuffix (s ++ p) p) with true
    by (symmetry; apply HasSuffix_spec; eauto).
  apply ztake_app_eq. len.
Qed.

Lemma IndexByte_app s c t :
  Forall (λ b, b ≠ c) s → IndexByte (s ++ c :: t) c = Some (zlen s).
Proof.
  induction 1 as [|b s Hb Hs IH]; simpl; [by rewrite Z.eqb_refl|].
  destruct (Z.eqb_spec b c); [done|]. rewrite IH. simpl. f_equal. len.
Qed.
Lemma IndexByte_None s c : Forall (λ b, b ≠ c) s → IndexByte s c = None.
Proof.
  induction 1 as [|b s Hb Hs IH]; simpl; [done|].
  destruct (Z.eqb_spec b c); [done|]. by rewrite IH.
Qed.

Lemma trim_left_byte_replicate c n s :
  trim_left_byte c (replicate n c ++ s) = trim_left_byte c s.
Proof. induction n; simpl; [done|]. by rewrite Z.eqb_refl. Qed.

(** What [TrimRight] removes is a run of the byte, and what it leaves does not
    end in the byte. *)
Lemma TrimRightByte_spec s c :
  ∃ n, s = TrimRightByte s c ++ replicate n c ∧
       ∀ t, TrimRightByte s c ≠ t ++ [c].
Proof.
  unfold TrimRightByte.
  enough (H : ∀ r, ∃ n, rev r = rev (trim_left_byte c r) ++ replicate n c ∧
                        ∀ t, rev (trim_left_byte c r) ≠ t ++ [c]).
  { destruct (H (rev s)) as (n & Hn & ?). rewrite rev_involutive in Hn. eauto. }
  clear s. induction r as [|b s IH]; simpl.
  - exists O. split; [done|]. intros t H. by destruct t.
  - destruct (Z.eqb_spec b c) as [->|Hb].
    + destruct IH as (n & Heq & Hend). exists (S n). split; [|done].
      rewrite Heq, <- app_assoc. f_equal. by rewrite <- replicate_cons_app.
    + exists O. simpl. split; [by rewrite app_nil_r|].
      intros t H. apply app_inj_tail in H as [_ H]. done.
Qed.

Section Digits.
Context (base : Z) (Hbase : 2 ≤ base ≤ 36).

Definition digit_ok (d : Z) : Prop := 0 ≤ d < base.
Definition digits_val (n : Z) (ds : list Z) : Z := fold_left (λ n d, n * base + d) ds n.

Lemma lor32_lower c : 97 ≤ c ≤ 122 → Z.lor c 32 = c.
Proof.
  intros H. assert (Hc : ∃ k, (k < 26)%nat ∧ c = 97 + Z.of_nat k).
  { exists (Z.to_nat (c - 97)). lia. }
  destruct Hc as (k & Hk & ->).
  do 26 (destruct k as [|k]; [reflexivity|]). lia.
Qed.

Lemma digit_val_char d : digit_ok d → digit_val (digit_char d) = Some d.
Proof.
  unfold digit_ok, digit_val, digit_char. intros Hd.
  destruct (Z.ltb_spec d 10).
  - replace ((48 <=? 48 + d) && (48 + d <=? 57)) with true by lia. f_equal. lia.
  - replace ((48 <=? 97 + d - 10) && (97 + d - 10 <=? 57)) with false by lia.
    rewrite lor32_lower by lia.
    replace ((97 <=? 97 + d - 10) && (97 + d - 10 <=? 122)) with true by lia.
    f_equal. lia.
Qed.

Lemma digit_char_byte d : digit_ok d → byte_ok (digit_char d).
Proof. unfold digit_ok, byte_ok, digit_char. intros. destruct (d <? 10) eqn:?; lia. Qed.

Lemma digits_val_mono ds n : Forall digit_ok ds → 0 ≤ n → n ≤ digits_val n ds.
Proof.
  intros H. revert n. induction H as [|d ds Hd Hds IH]; intros n Hn; [simpl; lia|].
  unfold digit_ok in Hd. cbn [digits_val fold_left]. fold (digits_val (n * base + d) ds).
  etrans; [|apply IH]; nia.
Qed.

Lemma parse_digits_chars maxVal ds n :
  Forall digit_ok ds → 0 ≤ n → digits_val n ds ≤ maxVal →
  parse_digits base maxVal n (digit_char <$> ds) = Ret (digits_val n ds).
Proof.
  intros H. revert n. induction H as [|d ds Hd Hds IH]; intros n Hn Hmax; [done|].
  cbn [fmap list_fmap parse_digits]. rewrite digit_val_char by done.
  cbn [digits_val fold_left] in *. fold (digits_val (n * base + d) ds) in *.
  pose proof Hd as [? ?].
  assert (0 ≤ n * base + d) by nia.
  pose proof (digits_val_mono ds (n * base + d) Hds ltac:(done)).
  replace (base <=? d) with false by lia.
  replace (maxVal <? n * base + d) with false by lia. by apply IH.
Qed.

Lemma digits_val_app n ds es : digits_val n (ds ++ es) = digits_val (digits_val n ds) es.
Proof. apply fold_left_app. Qed.
Lemma digits_val_replicate n : digits_val 0 (replicate n 0) = 0.
Proof. induction n; [done|]. simpl. done. Qed.

Lemma digits_ok fuel z : 0 ≤ z → Forall digit_ok (digits fuel base z).
Proof.
  revert z. induction fuel as [|f IH]; intros z Hz; simpl; [constructor|].
  destruct (Z.ltb_spec z base); [repeat constructor; lia|].
  apply Forall_app. split; [apply IH, Z.div_pos; lia|].
  repeat constructor; apply Z.mod_pos_bound; lia.
Qed.
Lemma digits_val_digits fuel z :
  0 ≤ z < base ^ Z.of_nat fuel → digits_val 0 (digits fuel base z) = z.
Proof.
  revert z. induction fuel as [|f IH]; intros z Hz; [simpl in *; lia|].
  simpl. destruct (Z.ltb_spec z base); [simpl; lia|].
  rewrite Nat2Z.inj_succ, Z.pow_succ_r in Hz by lia.
  rewrite digits_val_app, IH.
  - cbn. pose proof (Z.div_mod z base). lia.
  - split; [apply Z.div_pos; lia|]. apply Z.div_lt_upper_bound; lia.
Qed.
Lemma length_digits fuel z : (length (digits fuel base z) ≤ fuel)%nat.
Proof.
  revert z. induction fuel as [|f IH]; intros z; simpl; [lia|].
  destruct (z <? base); simpl; [lia|]. rewrite length_app. simpl. specialize (IH (z / base)). lia.
Qed.
Lemma digits_nonempty fuel z : digits (S fuel) base z ≠ [].
Proof. simpl. destruct (z <? base); [done|]. by destruct (digits _ _ _). Qed.
(** No more digits than needed. *)
Lemma length_digits_width fuel z w :
  0 ≤ z < base ^ Z.of_nat w → (0 < w)%nat → (length (digits fuel base z) ≤ w)%nat.
Proof.
  revert z w. induction fuel as [|f IH]; intros z w Hz Hw; simpl; [lia|].
  destruct (Z.ltb_spec z base); [simpl; lia|]. rewrite length_app. simpl.
  destruct w as [|w]; [lia|]. rewrite Nat2Z.inj_succ, Z.pow_succ_r in Hz by lia.
  destruct w as [|w]; [simpl in Hz; lia|].
  enough (length (digits f base (z / base)) ≤ S w)%nat by lia.
  apply IH; [|lia]. split; [apply Z.div_pos; lia|]. apply Z.div_lt_upper_bound; lia.
Qed.

Lemma ndigits_enough z : 0 ≤ z → z < base ^ Z.of_nat (ndigits z).
Proof.
  intros Hz. unfold ndigits. rewrite Nat2Z.inj_succ, Z2Nat.id by apply Z.log2_nonneg.
  destruct (Z.eq_dec z 0) as [->|]; [simpl; lia|].
  pose proof (Z.log2_spec z ltac:(lia)) as [_ H].
  eapply Z.lt_le_trans; [exact H|]. apply Z.pow_le_mono_l. lia.
Qed.

(** The printed digits, possibly padded, parse back to the number. *)
Lemma ParseUint_pad0_FormatUint w z bitSize :
  0 ≤ z < 2 ^ bitSize → ParseUint (pad0 w (FormatUint z base)) base bitSize = Ret z.
Proof.
  intros Hz. unfold pad0, FormatUint.
  set (n := (w - _)%nat). set (ds := digits (ndigits z) base z).
  assert (Hpad : replicate n 48 ++ (digit_char <$> ds) = digit_char <$> (replicate n 0 ++ ds)).
  { by rewrite fmap_app, fmap_replicate. }
  rewrite Hpad.
  assert (Hne : replicate n 0 ++ ds ≠ []).
  { intros [_ H]%app_eq_nil. by apply (digits_nonempty (Z.to_nat (Z.log2 z)) z). }
  assert (Hval : digits_val 0 (replicate n 0 ++ ds) = z).
  { rewrite digits_val_app, digits_val_replicate. apply digits_val_digits.
    split; [lia|]. apply ndigits_enough. lia. }
  assert (Hp : parse_digits base (2 ^ bitSize - 1) 0 (digit_char <$> (replicate n 0 ++ ds)) = Ret z).
  { rewrite parse_digits_chars; [by rewrite Hval| |lia|rewrite Hval; lia].
    apply Forall_app. split; [apply Forall_replicate; split; lia|]. apply digits_ok. lia. }
  unfold ParseUint. destruct (replicate n 0 ++ ds) eqn:E; [done|]. exact Hp.
Qed.

Lemma FormatUint_bytes z : 0 ≤ z → bytes_ok (FormatUint z base).
Proof.
  intros. apply Forall_fmap. eapply Forall_impl; [by apply digits_ok|]. apply digit_char_byte.
Qed.
Lemma length_FormatUint_width z w :
  0 ≤ z < base ^ Z.of_nat w → (0 < w)%nat → (length (FormatUint z base) ≤ w)%nat.
Proof. intros. unfold FormatUint. rewrite length_fmap. by apply length_digits_width. Qed.
Lemma length_pad0_FormatUint z w :
  0 ≤ z < base ^ Z.of_nat w → (0 < w)%nat → length (pad0 w (FormatUint z base)) = w.
Proof.
  intros. unfold pad0. rewrite length_app, length_replicate.
  pose proof (length_FormatUint_width z w). lia.
Qed.
Lemma pad0_bytes w s : bytes_ok s → bytes_ok (pad0 w s).
Proof. intros. apply bytes_ok_app; [|done]. apply Forall_replicate. unfold byte_ok. lia. Qed.
End Digits.

(** A character of a printed number is a letter or digit of the base. *)
Lemma FormatUint_chars base z (P : Z → Prop) :
  2 ≤ base ≤ 36 → 0 ≤ z → (∀ d, 0 ≤ d < base → P (digit_char d)) → Forall P (FormatUint z base).
Proof.
  intros. apply Forall_fmap. eapply Forall_impl; [by apply digits_ok|]. auto.
Qed.

Lemma ParseUint_FormatUint base z bitSize :
  2 ≤ base ≤ 36 → 0 ≤ z < 2 ^ bitSize → ParseUint (FormatUint z base) base bitSize = Ret z.
Proof. intros. apply (ParseUint_pad0_FormatUint base ltac:(done) 0). done. Qed.

Lemma ParseInt_FormatInt z bitSize :
  0 < bitSize → - 2 ^ (bitSize - 1) ≤ z < 2 ^ (bitSize - 1) →
  ParseInt (FormatInt z 10) 10 bitSize = Ret z.
Proof.
  intros Hb Hz.
  assert (H2 : 2 ^ bitSize = 2 * 2 ^ (bitSize - 1)).
  { rewrite <- Z.pow_succ_r by lia. f_equal. lia. }
  unfold FormatInt. destruct (Z.ltb_spec z 0).
  - cbn [ParseInt Z.eqb Pos.eqb orb]. rewrite ParseUint_FormatUint by lia.
    cbn [mbind res_bind negb andb].
    replace (2 ^ (bitSize - 1) <? - z) with false by lia. f_equal. lia.
  - pose proof (FormatUint_chars 10 z (λ c, c ≠ 43 ∧ c ≠ 45) ltac:(lia) ltac:(lia)) as Hc.
    assert (Hall : Forall (λ c, c ≠ 43 ∧ c ≠ 45) (FormatUint z 10)).
    { apply Hc. intros d Hd. unfold digit_char. destruct (d <? 10) eqn:?; lia. }
    clear Hc. pose proof (ParseUint_FormatUint 10 z bitSize ltac:(lia) ltac:(lia)) as Hp.
    unfold ParseInt. destruct (FormatUint z 10) as [|c t] eqn:E; [done|].
    apply Forall_cons in Hall as [[Hc1 Hc2] _].
    replace (c =? 43) with false by lia. replace (c =? 45) with false by lia.
    cbn [orb]. rewrite Hp. cbn [mbind res_bind negb andb].
    replace (2 ^ (bitSize - 1) <=? z) with false by lia. done.
Qed.

(** ** Inverting the parser

    A string that parses is the string of its digits, and fixed-width digit
    strings are determined by their value. *)
Section ParseInv.
Context (base : Z) (Hbase : 2 ≤ base ≤ 36).

Lemma parse_digits_inv maxVal s n v :
  parse_digits base maxVal n s = Ret v → bytes_ok s →
  ∃ ds, Forall2 (λ c d, digit_val c = Some d ∧ digit_ok base d) s ds ∧
        v = digits_val base n ds.
Proof.
  revert n. induction s as [|c s IH]; intros n Hp Hs; simpl in Hp.
  { injection Hp as <-. exists []. done. }
  apply Forall_cons in Hs as [Hc Hs].
  destruct (digit_val c) as [d|] eqn:Hd; [|done].
  destruct (Z.leb_spec base d); [done|].
  destruct (maxVal <? n * base + d); [done|].
  destruct (IH _ Hp Hs) as (ds & Hds & ->). exists (d :: ds). split; [|done].
  constructor; [|done]. split; [done|]. split; [|lia].
  unfold digit_val in Hd.
  repeat case_match; simplify_eq; lia.
Qed.

Lemma digits_val_shift ds n : digits_val base n ds = n * base ^ zlen ds + digits_val base 0 ds.
Proof.
  revert n. induction ds as [|d ds IH]; intros n; [unfold zlen; simpl; lia|].
  unfold digits_val in *. cbn [fold_left]. rewrite IH, (IH (0 * base + d)).
  rewrite zlen_cons, Z.pow_add_r by (try apply zlen_nonneg; lia). lia.
Qed.
Lemma digits_val_bound ds : Forall (digit_ok base) ds → 0 ≤ digits_val base 0 ds < base ^ zlen ds.
Proof.
  induction 1 as [|d ds [Hd1 Hd2] Hds IH]; [unfold zlen; simpl; lia|].
  unfold digits_val in *. cbn [fold_left]. fold (digits_val base (0 * base + d) ds).
  rewrite digits_val_shift, zlen_cons, Z.pow_add_r, Z.pow_1_r
    by (try apply zlen_nonneg; lia). unfold digits_val. nia.
Qed.
Lemma digits_val_inj ds es :
  Forall (digit_ok base) ds → Forall (digit_ok base) es → length ds = length es →
  digits_val base 0 ds = digits_val base 0 es → ds = es.
Proof.
  intros Hds. revert es. induction Hds as [|d ds Hd Hds IH]; intros [|e es] Hes Hlen Hval; try done.
  apply Forall_cons in Hes as [He Hes]. injection Hlen as Hlen.
  unfold digits_val in Hval. cbn [fold_left] in Hval.
  fold (digits_val base (0 * base + d) ds) in Hval. fold (digits_val base (0 * base + e) es) in Hval.
  rewrite digits_val_shift, (digits_val_shift es) in Hval.
  assert (Hz : zlen ds = zlen es) by (unfold zlen; lia). rewrite Hz in Hval.
  pose proof (digits_val_bound ds Hds). pose proof (digits_val_bound es Hes). rewrite Hz in *.
  assert (d = e) by nia. subst e. f_equal. apply IH; try done. lia.
Qed.

(** Printing a parsed fixed-width number gives the digits back, in the
    printer's case. *)
Lemma pad0_FormatUint_parsed s bitSize v :
  ParseUint s base bitSize = Ret v → bytes_ok s →
  ∃ ds, Forall2 (λ c d, digit_val c = Some d ∧ digit_ok base d) s ds ∧
        pad0 (length s) (FormatUint v base) = digit_char <$> ds ∧ 0 ≤ v < base ^ zlen s.
Proof.
  intros Hp Hs. assert (Hp' : parse_digits base (2 ^ bitSize - 1) 0 s = Ret v).
  { by destruct s. }
  destruct (parse_digits_inv _ _ _ _ Hp' Hs) as (ds & Hds & ->).
  assert (Hok : Forall (digit_ok base) ds).
  { eapply Forall2_Forall_r; [exact Hds|]. eapply Forall_impl; [exact Hs|]. naive_solver. }
  pose proof (Forall2_length _ _ _ Hds) as Hlen.
  pose proof (digits_val_bound ds Hok) as Hb.
  assert (Hz : zlen s = zlen ds) by (unfold zlen; lia).
  exists ds. split; [done|]. split; [|by rewrite Hz].
  set (v := digits_val base 0 ds) in *.
  assert (Hpos : (0 < length s)%nat) by (destruct s; simpl; [done|lia]).
  unfold pad0, FormatUint. rewrite length_fmap.
  set (es := digits (ndigits v) base v).
  replace (replicate (length s - length es) 48) with (digit_char <$> replicate (length s - length es) 0)
    by (by rewrite fmap_replicate).
  rewrite <- fmap_app. f_equal.
  assert (Hes : (length es ≤ length s)%nat).
  { apply length_digits_width; [done| |done]. unfold zlen in Hb. rewrite Hlen. done. }
  apply digits_val_inj; [|done| |].
  - apply Forall_app. split; [apply Forall_replicate; split; lia|]. apply digits_ok; lia.
  - rewrite length_app, length_replicate. lia.
  - rewrite digits_val_app, digits_val_replicate. apply digits_val_digits; [done|].
    split; [lia|]. apply ndigits_enough; lia.
Qed.
End ParseInv.

(** [lower], as [strings.ToLower] acts on hexadecimal digits. *)
Definition to_lower (c : Z) : Z := if (65 <=? c) && (c <=? 90) then c + 32 else c.

Lemma digit_char_lower c d : byte_ok c → digit_val c = Some d → digit_char d = to_lower c.
Proof.
  unfold digit_val, digit_char, to_lower, byte_ok. intros Hc Hd.
  destruct ((48 <=? c) && (c <=? 57)) eqn:H1.
  { injection Hd as <-. replace (c - 48 <? 10) with true by lia.
    replace ((65 <=? c) && (c <=? 90)) with false by lia. lia. }
  destruct ((97 <=? Z.lor c 32) && (Z.lor c 32 <=? 122)) eqn:H2; [|done].
  injection Hd as <-. replace (Z.lor c 32 - 97 + 10 <? 10) with false by lia.
  assert (Hk : ∃ k, (k < 256)%nat ∧ c = Z.of_nat k) by (exists (Z.to_nat c); lia).
  destruct Hk as (k & Hk & ->). clear Hc H1.
  do 256 (destruct k as [|k]; [vm_compute in H2; (discriminate H2 || reflexivity)|]). lia.
Qed.

Lemma pad0_FormatUint_lower base s bitSize v :
  2 ≤ base ≤ 36 → ParseUint s base bitSize = Ret v → bytes_ok s →
  pad0 (length s) (FormatUint v base) = to_lower <$> s.
Proof.
  intros Hb Hp Hs. destruct (pad0_FormatUint_parsed base Hb s bitSize v Hp Hs) as (ds & Hds & -> & _).
  clear Hp. induction Hds as [|c d s ds [Hc _] Hds IH]; [done|].
  apply Forall_cons in Hs as [? Hs]. cbn. f_equal; [by apply digit_char_lower|by apply IH].
Qed.
