(* ===== verification/Unicode.v ===== *)
(** * UTF-8 and UTF-16 conversions

    Go's [string(runes)], [[]rune(s)], [unicode/utf16.Encode] and
    [unicode/utf16.Decode], which the Win32 string structures of the
    repository go through, and their round trips on valid text. *)
From S2P Require Import Prelude.

Definition RuneError : Z := 0xFFFD.

Definition valid_rune (r : Z) : Prop := 0 ≤ r < 0xD800 ∨ 0xE000 ≤ r ≤ 0x10FFFF.
#[export] Instance valid_rune_dec r : Decision (valid_rune r).
Proof. unfold valid_rune. apply _. Defined.

Definition between (lo x hi : Z) : bool := (lo <=? x) && (x <=? hi).

(** [utf8.AppendRune] *)
Definition encode_rune (r : Z) : list Z :=
  if between 0 r 0x7F then [r]
  else if between 0 r 0x7FF then [0xC0 + r / 64; 0x80 + r mod 64]
  else
    let r := if decide (valid_rune r) then r else RuneError in
    if r <=? 0xFFFF then [0xE0 + r / 4096; 0x80 + (r / 64) mod 64; 0x80 + r mod 64]
    else [0xF0 + r / 262144; 0x80 + (r / 4096) mod 64; 0x80 + (r / 64) mod 64; 0x80 + r mod 64].

(** [string(rs)] *)
Definition string_of_runes (rs : list Z) : list Z := concat (encode_rune <$> rs).

(** The accept range of the second byte and the length, by first byte
    (the tables [first] and [acceptRanges] of [unicode/utf8]). *)
Definition second_ok (b0 b1 : Z) : bool :=
  if b0 =? 0xE0 then between 0xA0 b1 0xBF
  else if b0 =? 0xED then between 0x80 b1 0x9F
  else if b0 =? 0xF0 then between 0x90 b1 0xBF
  else if b0 =? 0xF4 then between 0x80 b1 0x8F
  else between 0x80 b1 0xBF.
Definition cont_ok (b : Z) : bool := between 0x80 b 0xBF.

(** [[]rune(s)]: an invalid byte decodes to [RuneError] and is skipped. *)
Fixpoint runes_of_string (s : list Z) : list Z :=
  match s with
  | [] => []
  | b0 :: t0 =>
      if b0 <=? 0x7F then b0 :: runes_of_string t0
      else match t0 with
      | b1 :: t1 =>
          if between 0xC2 b0 0xDF && cont_ok b1 then
            ((b0 - 0xC0) * 64 + (b1 - 0x80)) :: runes_of_string t1
          else match t1 with
          | b2 :: t2 =>
              if between 0xE0 b0 0xEF && second_ok b0 b1 && cont_ok b2 then
                ((b0 - 0xE0) * 4096 + (b1 - 0x80) * 64 + (b2 - 0x80)) :: runes_of_string t2
              else match t2 with
              | b3 :: t3 =>
                  if between 0xF0 b0 0xF4 && second_ok b0 b1 && cont_ok b2 && cont_ok b3 then
                    ((b0 - 0xF0) * 262144 + (b1 - 0x80) * 4096 + (b2 - 0x80) * 64
                      + (b3 - 0x80)) :: runes_of_string t3
                  else RuneError :: runes_of_string t0
              | [] => RuneError :: runes_of_string t0
              end
          | [] => RuneError :: runes_of_string t0
          end
      | [] => RuneError :: runes_of_string t0
      end
  end.

(** [utf16.Encode] *)
Definition utf16_encode_rune (r : Z) : list Z :=
  if (0 <=? r) && (r <? 0xD800) || (0xE000 <=? r) && (r <? 0x10000) then [r]
  else if between 0x10000 r 0x10FFFF then
    [0xD800 + ((r - 0x10000) / 1024) mod 1024; 0xDC00 + (r - 0x10000) mod 1024]
  else [RuneError].
Definition utf16_encode (rs : list Z) : list Z := concat (utf16_encode_rune <$> rs).

(** [utf16.Decode] *)
Fixpoint utf16_decode (ws : list Z) : list Z :=
  match ws with
  | [] => []
  | w :: t =>
      if (w <? 0xD800) || (0xE000 <=? w) then w :: utf16_decode t
      else match t with
      | w' :: t' =>
          if (w <? 0xDC00) && (0xDC00 <=? w') && (w' <? 0xE000) then
            ((w - 0xD800) * 1024 + (w' - 0xDC00) + 0x10000) :: utf16_decode t'
          else RuneError :: utf16_decode t
      | [] => RuneError :: utf16_decode t
      end
  end.

(** [utf16.Encode([]rune(s))] and [string(utf16.Decode(ws))]. *)
Definition to_utf16 (s : list Z) : list Z := utf16_encode (runes_of_string s).
Definition of_utf16 (ws : list Z) : list Z := string_of_runes (utf16_decode ws).

(** Valid UTF-8 text. *)
Definition valid_utf8 (s : list Z) : Prop := ∃ rs, Forall valid_rune rs ∧ s = string_of_runes rs.

(** ** Round trips *)
#[local] Ltac Zify.zify_post_hook ::= Z.to_euclidean_division_equations.

Lemma between_spec lo x hi : between lo x hi = true ↔ lo ≤ x ≤ hi.
Proof. unfold between. lia. Qed.

(** Bytes of a valid rune decode to it, whatever follows. *)
Lemma runes_encode_rune r s :
  valid_rune r → runes_of_string (encode_rune r ++ s) = r :: runes_of_string s.
Proof.
  intros Hr. unfold encode_rune. unfold valid_rune in Hr.
  pose proof (Z.mod_pos_bound r 64 ltac:(lia)).
  pose proof (Z.mod_pos_bound (r / 64) 64 ltac:(lia)).
  pose proof (Z.mod_pos_bound (r / 4096) 64 ltac:(lia)).
  destruct (between 0 r 0x7F) eqn:Hb1; [apply between_spec in Hb1|].
  { cbn [app runes_of_string]. replace (r <=? 127) with true by lia. done. }
  destruct (between 0 r 0x7FF) eqn:Hb2; [apply between_spec in Hb2|].
  { cbn [app runes_of_string]. unfold between, cont_ok, between in *.
    replace (192 + r / 64 <=? 127) with false by lia.
    match goal with |- context [if ?c then _ else _] => replace c with true by lia end.
    f_equal. lia. }
  rewrite decide_True by done. unfold between in *.
  assert (Hhi : r / 4096 = (r / 64) / 64) by (rewrite Z.div_div; lia).
  assert (Hhi2 : r / 262144 = (r / 4096) / 64) by (rewrite Z.div_div; lia).
  pose proof (Z.div_mod r 64 ltac:(lia)). pose proof (Z.div_mod (r / 64) 64 ltac:(lia)).
  pose proof (Z.div_mod (r / 4096) 64 ltac:(lia)).
  destruct (Z.leb_spec r 0xFFFF); cbn [app runes_of_string]; unfold second_ok, cont_ok, between.
  - rewrite Hhi in *. clear Hhi2.
    replace (224 + r / 64 / 64 <=? 127) with false by lia.
    match goal with |- context [if ?c then _ else _] => replace c with false by lia end.
    match goal with |- context [if ?c then _ :: _ else _] => replace c with true end.
    + f_equal. lia.
    + symmetry. repeat case_match; lia.
  - rewrite Hhi2, Hhi in *.
    replace (240 + r / 64 / 64 / 64 <=? 127) with false by lia.
    match goal with |- context [if ?c then _ else _] => replace c with false by lia end.
    match goal with |- context [if ?c then _ :: _ else match _ with _ => _ end] =>
      replace c with false by lia end.
    match goal with |- context [if ?c then _ :: _ else _] => replace c with true end.
    + f_equal. lia.
    + symmetry. repeat case_match; lia.
Qed.

Lemma runes_string_of_runes rs :
  Forall valid_rune rs → runes_of_string (string_of_runes rs) = rs.
Proof.
  unfold string_of_runes. induction 1 as [|r rs Hr Hrs IH]; [done|].
  cbn [fmap list_fmap concat]. rewrite runes_encode_rune by done. by f_equal.
Qed.

Lemma string_of_runes_of_string s :
  valid_utf8 s → string_of_runes (runes_of_string s) = s.
Proof. intros (rs & Hrs & ->). by rewrite runes_string_of_runes. Qed.

Lemma utf16_decode_encode_rune r ws :
  valid_rune r → utf16_decode (utf16_encode_rune r ++ ws) = r :: utf16_decode ws.
Proof.
  intros Hr. unfold valid_rune, utf16_encode_rune, between in *.
  destruct ((0 <=? r) && (r <? 0xD800) || (0xE000 <=? r) && (r <? 0x10000)) eqn:Hb1.
  { cbn [app utf16_decode]. replace ((r <? 55296) || (57344 <=? r)) with true by lia. done. }
  replace ((65536 <=? r) && (r <=? 1114111)) with true by lia.
  cbn [app utf16_decode].
  pose proof (Z.mod_pos_bound (r - 65536) 1024 ltac:(lia)).
  pose proof (Z.div_mod (r - 65536) 1024 ltac:(lia)).
  rewrite (Z.mod_small ((r - 65536) / 1024)) by lia.
  match goal with |- context [if ?c then _ else _] => replace c with false by lia end.
  match goal with |- context [if ?c then _ else _] => replace c with true by lia end.
  f_equal. lia.
Qed.

Lemma utf16_decode_encode rs : Forall valid_rune rs → utf16_decode (utf16_encode rs) = rs.
Proof.
  unfold utf16_encode. induction 1 as [|r rs Hr Hrs IH]; [done|].
  cbn [fmap list_fmap concat]. rewrite utf16_decode_encode_rune by done. by f_equal.
Qed.

(** Through UTF-16 and back, valid text is unchanged. *)
Lemma of_to_utf16 s : valid_utf8 s → of_utf16 (to_utf16 s) = s.
Proof.
  intros (rs & Hrs & ->). unfold of_utf16, to_utf16.
  by rewrite runes_string_of_runes, utf16_decode_encode.
Qed.

(** Every 16-bit word of an encoding fits in 16 bits. *)
Definition word_ok (w : Z) : Prop := 0 ≤ w < 65536.
Abbreviation words_ok := (Forall word_ok).

Lemma words_ok_utf16_encode rs : words_ok (utf16_encode rs).
Proof.
  unfold utf16_encode. induction rs as [|r rs IH]; [constructor|].
  cbn [fmap list_fmap concat]. apply Forall_app. split; [|done].
  unfold utf16_encode_rune, between, RuneError, word_ok.
  pose proof (Z.mod_pos_bound ((r - 65536) / 1024) 1024 ltac:(lia)).
  pose proof (Z.mod_pos_bound (r - 65536) 1024 ltac:(lia)).
  repeat case_match; repeat constructor; lia.
Qed.

Lemma utf16_encode_app rs ss : utf16_encode (rs ++ ss) = utf16_encode rs ++ utf16_encode ss.
Proof. unfold utf16_encode. by rewrite fmap_app, concat_app. Qed.

Lemma string_of_runes_app rs ss :
  string_of_runes (rs ++ ss) = string_of_runes rs ++ string_of_runes ss.
Proof. unfold string_of_runes. by rewrite fmap_app, concat_app. Qed.

Lemma valid_utf8_app s t : valid_utf8 s → valid_utf8 t → valid_utf8 (s ++ t).
Proof.
  intros (rs & ? & ->) (ts & ? & ->). exists (rs ++ ts).
  split; [by apply Forall_app|]. by rewrite string_of_runes_app.
Qed.

Lemma runes_of_string_app s t :
  valid_utf8 s → valid_utf8 t →
  runes_of_string (s ++ t) = runes_of_string s ++ runes_of_string t.
Proof.
  intros (rs & ? & ->) (ts & ? & ->).
  rewrite <- string_of_runes_app, !runes_string_of_runes; try done. by apply Forall_app.
Qed.

Lemma to_utf16_app s t :
  valid_utf8 s → valid_utf8 t → to_utf16 (s ++ t) = to_utf16 s ++ to_utf16 t.
Proof. intros. unfold to_utf16. by rewrite runes_of_string_app, utf16_encode_app. Qed.

(** ASCII text is valid UTF-8 and encodes to itself. *)
Lemma string_of_runes_ascii s : Forall (λ b, 0 ≤ b < 128) s → string_of_runes s = s.
Proof.
  unfold string_of_runes. induction 1 as [|b s Hb Hs IH]; [done|].
  cbn [fmap list_fmap concat]. rewrite IH. unfold encode_rune, between.
  replace ((0 <=? b) && (b <=? 127)) with true by lia. done.
Qed.
Lemma ascii_valid_utf8 s : Forall (λ b, 0 ≤ b < 128) s → valid_utf8 s.
Proof.
  intros H. exists s. split; [|by rewrite string_of_runes_ascii].
  eapply Forall_impl; [exact H|]. unfold valid_rune. simpl. lia.
Qed.

(** Little-endian bytes of a list of 16-bit words, and back
    ([binary.Write] and [binary.Read] of a [[]uint16]). *)
Definition le_words (ws : list Z) : list Z := concat (le_bytes 2 <$> ws).
Fixpoint words_of_le (n : nat) (b : list Z) : list Z :=
  match n with
  | O => []
  | S n => le_val (ztake 2 b) :: words_of_le n (zdrop 2 b)
  end.

Lemma zlen_le_words ws : zlen (le_words ws) = 2 * zlen ws.
Proof.
  unfold le_words. induction ws as [|w ws IH]; [done|].
  cbn [fmap list_fmap concat]. rewrite zlen_app, IH. len.
Qed.
#[export] Hint Rewrite zlen_le_words : golist.
Lemma words_of_le_words ws rest :
  words_ok ws → words_of_le (length ws) (le_words ws ++ rest) = ws.
Proof.
  unfold le_words. induction 1 as [|w ws Hw Hws IH]; [done|].
  cbn [fmap list_fmap concat length words_of_le]. rewrite <- app_assoc.
  rewrite ztake_app_eq, zdrop_app_eq by done. rewrite le_val_le16 by done. by f_equal.
Qed.
Lemma bytes_ok_le_words ws : bytes_ok (le_words ws).
Proof.
  unfold le_words. induction ws as [|w ws IH]; [constructor|].
  cbn [fmap list_fmap concat]. auto with golist.
Qed.
#[export] Hint Resolve bytes_ok_le_words words_ok_utf16_encode : golist.

(** An ASCII prefix decodes to itself, whatever follows. *)
Lemma runes_ascii_app p s :
  Forall (λ b, 0 ≤ b < 128) p → runes_of_string (p ++ s) = p ++ runes_of_string s.
Proof.
  induction 1 as [|b p Hb Hp IH]; [done|]. cbn [app].
  assert (E : encode_rune b = [b]).
  { unfold encode_rune, between. by replace ((0 <=? b) && (b <=? 127)) with true by lia. }
  change (b :: p ++ s) with ([b] ++ (p ++ s)). rewrite <- E, runes_encode_rune, IH by (unfold valid_rune; lia).
  done.
Qed.
Lemma valid_utf8_app_ascii p s :
  Forall (λ b, 0 ≤ b < 128) p → valid_utf8 (p ++ s) → valid_utf8 s.
Proof.
  intros Hp (rs & Hrs & E). exists (runes_of_string s).
  pose proof (runes_string_of_runes rs Hrs) as Hr. rewrite <- E, runes_ascii_app in Hr by done.
  subst rs. split; [by apply Forall_app in Hrs as [_ ?]|].
  rewrite string_of_runes_app, string_of_runes_ascii in E by done. by apply app_inv_head in E.
Qed.

(** ** [windows.UTF16ToString]

    The function of [golang.org/x/sys/windows] is an argument of the code that
    calls it; this is the part of its documentation the callers rely on: it
    decodes the words before the first NUL, or all of them. *)
Class UTF16ToStringSpec (UTF16ToString : list Z → list Z) : Prop := {
  utf16_to_string s : valid_utf8 s → 0 ∉ s → UTF16ToString (to_utf16 s) = s;
  utf16_to_string_nul s ws : valid_utf8 s → 0 ∉ s → UTF16ToString (to_utf16 s ++ 0 :: ws) = s
}.

(** A function with that behaviour. *)
Fixpoint until_nul (ws : list Z) : list Z :=
  match ws with
  | [] => []
  | w :: t => if w =? 0 then [] else w :: until_nul t
  end.
Definition utf16_cstring (ws : list Z) : list Z := of_utf16 (until_nul ws).

Lemma until_nul_none ws : 0 ∉ ws → until_nul ws = ws.
Proof.
  induction ws as [|w ws IH]; [done|]. intros Hn. apply not_elem_of_cons in Hn as [Hw Hn].
  cbn [until_nul]. replace (w =? 0) with false by lia. by rewrite IH.
Qed.
Lemma until_nul_app ws t : 0 ∉ ws → until_nul (ws ++ 0 :: t) = ws.
Proof.
  induction ws as [|w ws IH]; [done|]. intros Hn. apply not_elem_of_cons in Hn as [Hw Hn].
  cbn [until_nul app]. replace (w =? 0) with false by lia. by rewrite IH.
Qed.
Lemma utf16_encode_nonzero rs : Forall valid_rune rs → 0 ∉ rs → 0 ∉ utf16_encode rs.
Proof.
  unfold utf16_encode. induction 1 as [|r rs Hr Hrs IH]; intros Hn; [by apply not_elem_of_nil|].
  apply not_elem_of_cons in Hn as [Hr0 Hn]. cbn [fmap list_fmap concat].
  intros [Hin|Hin]%elem_of_app; [|by apply IH].
  unfold utf16_encode_rune in Hin. unfold valid_rune in Hr.
  pose proof (Z.mod_pos_bound ((r - 65536) / 1024) 1024 ltac:(lia)).
  pose proof (Z.mod_pos_bound (r - 65536) 1024 ltac:(lia)).
  unfold RuneError in Hin.
  repeat case_match; repeat (apply elem_of_cons in Hin as [?|Hin]; [lia|]);
    by apply elem_of_nil in Hin.
Qed.
Lemma to_utf16_nonzero s : valid_utf8 s → 0 ∉ s → 0 ∉ to_utf16 s.
Proof.
  intros (rs & Hrs & ->) Hn. unfold to_utf16. rewrite runes_string_of_runes by done.
  apply utf16_encode_nonzero; [done|]. intros Hin. apply Hn. unfold string_of_runes.
  apply list_elem_of_In, in_concat. exists (encode_rune 0). split; [|by left].
  apply list_elem_of_In, list_elem_of_fmap_2. done.
Qed.

#[export] Instance utf16_cstring_spec : UTF16ToStringSpec utf16_cstring.
Proof.
  split; intros s; intros; unfold utf16_cstring.
  - rewrite until_nul_none by by apply to_utf16_nonzero. by apply of_to_utf16.
  - rewrite until_nul_app by by apply to_utf16_nonzero. by apply of_to_utf16.
Qed.
