(* ===== verification/Guid.v ===== *)
(** * pkg/guid

    The GUID type, its two binary encodings, its text form, and its variant
    and version fields ([pkg/guid/guid.go], [guid_nonwindows.go],
    [variant_string.go]). *)
From S2P Require Import Prelude GoStrings.

Record GUID := mkGUID { Data1 : Z; Data2 : Z; Data3 : Z; Data4 : list Z }.

#[export] Instance GUID_eq_dec : EqDecision GUID.
Proof. solve_decision. Defined.

(** The Go type: [uint32], [uint16], [uint16], [[8]byte]. *)
Definition guid_ok (g : GUID) : Prop :=
  0 ≤ Data1 g < 4294967296 ∧ 0 ≤ Data2 g < 65536 ∧ 0 ≤ Data3 g < 65536 ∧
  length (Data4 g) = 8%nat ∧ bytes_ok (Data4 g).

Definition zero_GUID : GUID := mkGUID 0 0 0 (replicate 8 0).

(** ** Variants and versions *)
Definition VariantUnknown : Z := 0.
Definition VariantNCS : Z := 1.
Definition VariantRFC4122 : Z := 2.
Definition VariantMicrosoft : Z := 3.
Definition VariantFuture : Z := 4.

Definition Variant_name : list Z := str "UnknownNCSRFC 4122MicrosoftFuture".
Definition Variant_index : list Z := [0; 7; 10; 18; 27; 33].

Definition Variant_String (i : Z) : res (list Z) :=
  if zlen Variant_index - 1 <=? i then
    Ret (str "Variant(" ++ FormatInt i 10 ++ str ")")
  else
    lo ← index Variant_index i;
    hi ← index Variant_index (i + 1);
    slice Variant_name lo hi.

Definition Version_String (v : Z) : list Z := FormatUint v 10.

Definition setVariant (g : GUID) (v : Z) : res GUID :=
  let d := default 0 (Data4 g !! 0%nat) in
  d' ← (if v =? VariantNCS then Ret (Z.land d 0x7f)
        else if v =? VariantRFC4122 then Ret (Z.lor (Z.land d 0x3f) 0x80)
        else if v =? VariantMicrosoft then Ret (Z.lor (Z.land d 0x1f) 0xc0)
        else if v =? VariantFuture then Ret (Z.lor (Z.land d 0x0f) 0xe0)
        else Panic "invalid variant");
  Ret (mkGUID (Data1 g) (Data2 g) (Data3 g) (<[0%nat := d']> (Data4 g))).

Definition Variant (g : GUID) : Z :=
  let b := default 0 (Data4 g !! 0%nat) in
  if Z.land b 0x80 =? 0 then VariantNCS
  else if Z.land b 0xc0 =? 0x80 then VariantRFC4122
  else if Z.land b 0xe0 =? 0xc0 then VariantMicrosoft
  else if Z.land b 0xe0 =? 0xe0 then VariantFuture
  else VariantUnknown.

Definition setVersion (g : GUID) (v : Z) : GUID :=
  mkGUID (Data1 g) (Data2 g) (Z.lor (Z.land (Data3 g) 0x0fff) (u16 (Z.shiftl v 12))) (Data4 g).

Definition Version (g : GUID) : Z := u8 (Z.shiftr (Z.land (Data3 g) 0xF000) 12).

(** ** Binary encodings *)
Inductive ByteOrder := LittleEndian | BigEndian.

Definition order_val (o : ByteOrder) (b : list Z) : Z :=
  match o with LittleEndian => le_val b | BigEndian => be_val b end.
Definition order_bytes (o : ByteOrder) (n : nat) (z : Z) : list Z :=
  match o with LittleEndian => le_bytes n z | BigEndian => be_bytes n z end.

Definition fromArray (b : list Z) (order : ByteOrder) : GUID :=
  mkGUID (order_val order (ztake 4 b))
         (order_val order (ztake 2 (zdrop 4 b)))
         (order_val order (ztake 2 (zdrop 6 b)))
         (ztake 8 (zdrop 8 b)).

Definition toArray (g : GUID) (order : ByteOrder) : list Z :=
  order_bytes order 4 (Data1 g) ++ order_bytes order 2 (Data2 g) ++
  order_bytes order 2 (Data3 g) ++ Data4 g.

Definition FromArray (b : list Z) : GUID := fromArray b BigEndian.
Definition ToArray (g : GUID) : list Z := toArray g BigEndian.
Definition FromWindowsArray (b : list Z) : GUID := fromArray b LittleEndian.
Definition ToWindowsArray (g : GUID) : list Z := toArray g LittleEndian.

(** [NewV4]: [rnd] is the outcome of [crypto/rand.Read] on 16 bytes. *)
Definition NewV4 (rnd : res (list Z)) : res GUID :=
  b ← rnd;
  let g := setVersion (FromArray b) 4 in
  setVariant g VariantRFC4122.

(** [NewV5]: [sha1] is [crypto/sha1.Sum]. *)
Definition NewV5 (sha1 : list Z → list Z) (namespace : GUID) (name : list Z) : res GUID :=
  let sum := sha1 (ToArray namespace ++ name) in
  let a := ztake 16 sum ++ replicate (16 - length sum) 0 in
  let g := setVersion (FromArray a) 5 in
  setVariant g VariantRFC4122.

(** ** Text form *)
(** [%x] of a byte slice. *)
Definition hex_bytes (b : list Z) : list Z := concat ((λ x, pad0 2 (FormatUint x 16)) <$> b).

Definition GUID_String (g : GUID) : list Z :=
  pad0 8 (FormatUint (Data1 g) 16) ++ str "-" ++
  pad0 4 (FormatUint (Data2 g) 16) ++ str "-" ++
  pad0 4 (FormatUint (Data3 g) 16) ++ str "-" ++
  pad0 4 (hex_bytes (ztake 2 (Data4 g))) ++ str "-" ++
  pad0 12 (hex_bytes (zdrop 2 (Data4 g))).

Definition invalid_GUID (s : list Z) : error := Errorf "invalid GUID %q" [] [s].

(** The result of a failing parse is replaced by the error of the caller. *)
Definition or_invalid (s : list Z) (r : res Z) : res Z :=
  match r with Fail _ => Fail (invalid_GUID s) | _ => r end.

(** The loop over the offsets of the eight bytes of [Data4]. *)
Fixpoint parse_Data4 (s : list Z) (offs : list Z) : res (list Z) :=
  match offs with
  | [] => Ret []
  | x :: t =>
      sub ← slice s x (x + 2);
      v ← or_invalid s (ParseUint sub 16 8);
      rest ← parse_Data4 s t;
      Ret (u8 v :: rest)
  end.
Definition Data4_offsets : list Z := [19; 21; 24; 26; 28; 30; 32; 34].

Definition FromString (s : list Z) : res GUID :=
  if negb (zlen s =? 36) then Fail (invalid_GUID s)
  else
    c8 ← index s 8; c13 ← index s 13; c18 ← index s 18; c23 ← index s 23;
    if negb (c8 =? 45) || negb (c13 =? 45) || negb (c18 =? 45) || negb (c23 =? 45)
    then Fail (invalid_GUID s)
    else
      s1 ← slice s 0 8;   data1 ← or_invalid s (ParseUint s1 16 32);
      s2 ← slice s 9 13;  data2 ← or_invalid s (ParseUint s2 16 16);
      s3 ← slice s 14 18; data3 ← or_invalid s (ParseUint s3 16 16);
      data4 ← parse_Data4 s Data4_offsets;
      Ret (mkGUID (u32 data1) (u16 data2) (u16 data3) data4).

Definition MarshalText (g : GUID) : res (list Z) := Ret (GUID_String g).

(** [UnmarshalText]: the receiver is replaced only on success. *)
Definition UnmarshalText (text : list Z) : St GUID unit := λ g,
  match FromString text with
  | Ret g2 => (Ret (), g2)
  | Fail e => (Fail e, g)
  | Panic w => (Panic w, g)
  | NoFuel => (NoFuel, g)
  end.

(** ** Binary encodings are inverse to each other *)
Lemma order_val_bytes o n z : 0 ≤ z < 256 ^ Z.of_nat n → order_val o (order_bytes o n z) = z.
Proof.
  intros. destruct o; simpl; rewrite ?le_val_le_bytes, ?be_val_be_bytes; by apply Z.mod_small.
Qed.
Lemma order_bytes_val o n b : length b = n → bytes_ok b → order_bytes o n (order_val o b) = b.
Proof. intros <- ?. destruct o; simpl; [by apply le_bytes_le_val|by apply be_bytes_be_val]. Qed.
Lemma zlen_order_bytes o n z : zlen (order_bytes o n z) = Z.of_nat n.
Proof. destruct o; simpl; len. Qed.
Lemma order_val_range o b : bytes_ok b → 0 ≤ order_val o b < 256 ^ zlen b.
Proof.
  intros. destruct o; simpl; [by apply le_val_range|].
  unfold be_val. rewrite <- (zlen_rev b). apply le_val_range. by apply Forall_rev.
Qed.
#[local] Hint Rewrite zlen_order_bytes : golist.

Lemma fromArray_toArray_eq g o : guid_ok g → fromArray (toArray g o) o = g.
Proof.
  intros (H1 & H2 & H3 & H4 & H5). unfold fromArray, toArray. destruct g as [d1 d2 d3 d4]. cbn in *.
  rewrite <- (zdrop_zdrop 2 4), <- (zdrop_zdrop 2 6), <- (zdrop_zdrop 2 4) by lia.
  repeat first [rewrite ztake_app_eq by len | rewrite zdrop_app_eq by len].
  rewrite !order_val_bytes by (cbn; lia).
  rewrite ztake_all by (unfold zlen; lia). done.
Qed.

(** reading back the array a GUID was written to gives the GUID, in
    either byte order ([FromArray]/[ToArray] and
    [FromWindowsArray]/[ToWindowsArray]). *)
Theorem fromArray_toArray g o : guid_ok g → fromArray (toArray g o) o = g.
Proof. apply fromArray_toArray_eq. Qed.

(** Reading an array and writing it back gives the array. *)
Lemma toArray_fromArray b o : length b = 16%nat → bytes_ok b → toArray (fromArray b o) o = b.
Proof.
  intros Hl Hb. unfold toArray, fromArray. cbn [Data1 Data2 Data3 Data4].
  assert (Hz : zlen b = 16) by (unfold zlen; lia).
  assert (Hlen : ∀ i n, 0 ≤ i → 0 ≤ n → i + n ≤ 16 → length (ztake n (zdrop i b)) = Z.to_nat n).
  { intros. unfold ztake, zdrop. rewrite length_take, length_drop. lia. }
  rewrite !order_bytes_val; auto with golist; try (apply Hlen; lia); [|rewrite <- (zdrop_0 b); apply Hlen; lia].
  rewrite (ztake_all 8) by len.
  rewrite <- (zdrop_zdrop 2 6), ztake_zdrop, <- (zdrop_zdrop 2 4), ztake_zdrop, ztake_zdrop by lia.
  done.
Qed.

Lemma guid_ok_fromArray b o : length b = 16%nat → bytes_ok b → guid_ok (fromArray b o).
Proof.
  intros Hl Hb. assert (Hz : zlen b = 16) by (unfold zlen; lia).
  unfold guid_ok, fromArray. cbn.
  assert (Hr : ∀ i n, 0 ≤ i → 0 ≤ n → i + n ≤ 16 →
                 0 ≤ order_val o (ztake n (zdrop i b)) < 256 ^ n).
  { intros i n ???. pose proof (order_val_range o (ztake n (zdrop i b)) ltac:(auto with golist)) as Hv.
    replace (zlen (ztake n (zdrop i b))) with n in Hv by len. done. }
  pose proof (Hr 0 4). pose proof (Hr 4 2). pose proof (Hr 6 2). rewrite zdrop_0 in *.
  repeat split; try lia; auto with golist.
  unfold ztake, zdrop. rewrite length_take, length_drop. lia.
Qed.

(** ** The text form *)
Lemma zlen_hex_byte x : byte_ok x → zlen (pad0 2 (FormatUint x 16)) = 2.
Proof.
  intros. unfold zlen. rewrite length_pad0_FormatUint; [done|lia| |lia].
  unfold byte_ok in *. simpl. lia.
Qed.
Lemma pad0_long w s : (w ≤ length s)%nat → pad0 w s = s.
Proof. intros. unfold pad0. by replace (w - length s)%nat with O by lia. Qed.

(** The layout of the 36 characters. *)
Definition guid_text (p1 p2 p3 : list Z) (q : list (list Z)) : list Z :=
  p1 ++ str "-" ++ p2 ++ str "-" ++ p3 ++ str "-" ++
  concat (take 2 q) ++ str "-" ++ concat (drop 2 q).

Lemma FromString_parts p1 p2 p3 q0 q1 q2 q3 q4 q5 q6 q7 :
  zlen p1 = 8 → zlen p2 = 4 → zlen p3 = 4 →
  Forall (λ q, zlen q = 2) [q0; q1; q2; q3; q4; q5; q6; q7] →
  let s := guid_text p1 p2 p3 [q0; q1; q2; q3; q4; q5; q6; q7] in
  FromString s =
    data1 ← or_invalid s (ParseUint p1 16 32);
    data2 ← or_invalid s (ParseUint p2 16 16);
    data3 ← or_invalid s (ParseUint p3 16 16);
    data4 ← foldr (λ q acc, v ← or_invalid s (ParseUint q 16 8); rest ← acc; Ret (u8 v :: rest))
              (Ret []) [q0; q1; q2; q3; q4; q5; q6; q7];
    Ret (mkGUID (u32 data1) (u16 data2) (u16 data3) data4).
Proof.
  intros L1 L2 L3 Hq s.
  repeat (apply Forall_cons in Hq as [? Hq]).
  assert (Hs : s = p1 ++ [45] ++ p2 ++ [45] ++ p3 ++ [45] ++ q0 ++ q1 ++ [45] ++
                   q2 ++ q3 ++ q4 ++ q5 ++ q6 ++ q7).
  { subst s. unfold guid_text. cbn [take drop concat]. rewrite !app_nil_r, <- !app_assoc. done. }
  assert (Hl : zlen s = 36) by (rewrite Hs; clear s Hs; len).
  clearbody s. unfold FromString. rewrite Hl. cbn [Z.eqb Pos.eqb negb].
  cbn [parse_Data4 Data4_offsets foldr].
  assert (index s 8 = Ret 45 ∧ index s 13 = Ret 45 ∧ index s 18 = Ret 45 ∧ index s 23 = Ret 45)
    as (-> & -> & -> & ->) by (rewrite Hs; clear Hs Hl; repeat split; slices; done).
  cbn [mbind res_bind orb negb Z.eqb Pos.eqb].
  assert (slice s 0 8 = Ret p1 ∧ slice s 9 13 = Ret p2 ∧ slice s 14 18 = Ret p3)
    as (Hs1 & Hs2 & Hs3) by (rewrite Hs; clear Hs Hl; repeat split; slices; done).
  assert (slice s 19 (19 + 2) = Ret q0 ∧ slice s 21 (21 + 2) = Ret q1 ∧ slice s 24 (24 + 2) = Ret q2 ∧
          slice s 26 (26 + 2) = Ret q3 ∧ slice s 28 (28 + 2) = Ret q4 ∧ slice s 30 (30 + 2) = Ret q5 ∧
          slice s 32 (32 + 2) = Ret q6 ∧ slice s 34 (34 + 2) = Ret q7)
    as (Hq0 & Hq1 & Hq2 & Hq3 & Hq4 & Hq5 & Hq6 & Hq7)
    by (rewrite Hs; clear Hs Hl; repeat split; slices; done).
  rewrite Hs1. cbn [mbind res_bind].
  destruct (or_invalid s (ParseUint p1 _ _)); [|done..]. cbn [mbind res_bind]. rewrite Hs2.
  cbn [mbind res_bind].
  destruct (or_invalid s (ParseUint p2 _ _)); [|done..]. cbn [mbind res_bind]. rewrite Hs3.
  cbn [mbind res_bind].
  destruct (or_invalid s (ParseUint p3 _ _)); [|done..]. cbn [mbind res_bind].
  repeat match goal with
  | H : slice s ?i ?j = Ret ?q |- context [slice s ?i ?j] =>
      rewrite H; cbn [mbind res_bind];
      destruct (or_invalid s (ParseUint q _ _)); [|done..]; cbn [mbind res_bind]
  end. done.
Qed.

Lemma GUID_String_parts d1 d2 d3 d4 :
  length d4 = 8%nat → bytes_ok d4 →
  GUID_String (mkGUID d1 d2 d3 d4) =
    guid_text (pad0 8 (FormatUint d1 16)) (pad0 4 (FormatUint d2 16)) (pad0 4 (FormatUint d3 16))
              ((λ x, pad0 2 (FormatUint x 16)) <$> d4).
Proof.
  intros Hl Hb. unfold GUID_String, guid_text, hex_bytes. cbn [Data1 Data2 Data3 Data4].
  rewrite <- fmap_take, <- fmap_drop.
  assert (Hc : ∀ l, bytes_ok l →
    length (concat ((λ x, pad0 2 (FormatUint x 16)) <$> l)) = (2 * length l)%nat).
  { induction 1 as [|x l Hx Hxs IH]; [done|]. cbn [fmap list_fmap concat length].
    rewrite length_app, IH. pose proof (zlen_hex_byte x Hx). unfold zlen in *. lia. }
  rewrite (pad0_long 4 (concat _)), (pad0_long 12); [reflexivity| |].
  all: unfold ztake, zdrop; rewrite Hc by (by first [apply Forall_drop|apply Forall_take]);
    rewrite ?length_take, ?length_drop, Hl; simpl; lia.
Qed.

(** C35: [FromString] inverts [String]: a GUID survives being printed and
    parsed. *)
Theorem FromString_String g : guid_ok g → FromString (GUID_String g) = Ret g.
Proof.
  intros (H1 & H2 & H3 & H4 & H5). destruct g as [d1 d2 d3 d4].
  cbn [Data1 Data2 Data3 Data4] in *. rewrite GUID_String_parts by done.
  do 9 (destruct d4 as [|? d4]; try discriminate H4). clear H4.
  cbn [fmap list_fmap]. rewrite FromString_parts.
  - assert (P : ∀ x, byte_ok x → ParseUint (pad0 2 (FormatUint x 16)) 16 8 = Ret x).
    { intros. by apply ParseUint_pad0_FormatUint. }
    repeat (apply Forall_cons in H5 as [? H5]).
    rewrite !ParseUint_pad0_FormatUint by lia. cbn [or_invalid mbind res_bind foldr].
    repeat (rewrite P by done; cbn [or_invalid mbind res_bind]).
    rewrite !u8_small, u16_small, u16_small, u32_small by done. done.
  - unfold zlen. rewrite length_pad0_FormatUint; simpl; lia.
  - unfold zlen. rewrite length_pad0_FormatUint; simpl; lia.
  - unfold zlen. rewrite length_pad0_FormatUint; simpl; lia.
  - repeat (apply Forall_cons in H5 as [? H5]). repeat constructor; by apply zlen_hex_byte.
Qed.

(** ** Variant and version fields *)

(** A byte property proved by trying the 256 bytes. *)
Lemma byte_ind (P : Z → bool) : forallb (λ k, P (Z.of_nat k)) (seq 0 256) = true →
  ∀ b, byte_ok b → P b = true.
Proof.
  intros H b Hb. rewrite forallb_forall in H.
  replace b with (Z.of_nat (Z.to_nat b)) by (unfold byte_ok in *; lia).
  apply H, in_seq. unfold byte_ok in *. lia.
Qed.

(** What each variant keeps of the first byte of [Data4], and what it sets. *)
Definition variant_mask (v : Z) : Z :=
  if v =? VariantNCS then 0x7f else if v =? VariantRFC4122 then 0x3f
  else if v =? VariantMicrosoft then 0x1f else 0x0f.

Lemma Data4_head g : guid_ok g →
  ∃ b t, Data4 g = b :: t ∧ byte_ok b ∧ length t = 7%nat ∧ bytes_ok t.
Proof.
  intros (_ & _ & _ & Hl & Hb). destruct (Data4 g) as [|b t]; [done|].
  apply Forall_cons in Hb as [? ?]. exists b, t. auto.
Qed.

(** Setting a valid variant succeeds, is read back by [Variant], keeps the GUID
    well-formed and changes only the variant bits of [Data4[0]]; the unknown
    variant panics. *)
Lemma setVariant_spec g v :
  guid_ok g → 1 ≤ v ≤ 4 →
  ∃ g', setVariant g v = Ret g' ∧ guid_ok g' ∧ Variant g' = v ∧
        Data1 g' = Data1 g ∧ Data2 g' = Data2 g ∧ Data3 g' = Data3 g ∧
        tail (Data4 g') = tail (Data4 g) ∧
        Z.land (default 0 (head (Data4 g'))) (variant_mask v) =
        Z.land (default 0 (head (Data4 g))) (variant_mask v).
Proof.
  intros Hg Hv. destruct (Data4_head g Hg) as (b & t & Hd & Hb & Hlt & Ht).
  destruct Hg as (H1 & H2 & H3 & _).
  assert (Hc : v = 1 ∨ v = 2 ∨ v = 3 ∨ v = 4) by lia.
  pose (vb b' := (0 <=? b') && (b' <? 256)).
  pose (rd b' := Variant (mkGUID 0 0 0 [b'])).
  pose (same b' m := Z.land b' m =? Z.land b m).
  assert (Hgen : ∀ b', vb b' = true → rd b' = v → Z.land b' (variant_mask v) = Z.land b (variant_mask v) →
    ∃ g', Ret (mkGUID (Data1 g) (Data2 g) (Data3 g) (<[0%nat := b']> (Data4 g))) = Ret g' ∧ guid_ok g' ∧
        Variant g' = v ∧ Data1 g' = Data1 g ∧ Data2 g' = Data2 g ∧ Data3 g' = Data3 g ∧
        tail (Data4 g') = tail (Data4 g) ∧
        Z.land (default 0 (head (Data4 g'))) (variant_mask v) =
        Z.land (default 0 (head (Data4 g))) (variant_mask v)).
  { intros b' Hb' Hrd Hsame. eexists. split; [done|]. rewrite Hd. cbn [head tail Data1 Data2 Data3 Data4 default insert list_insert from_option].
    unfold guid_ok. cbn [Data1 Data2 Data3 Data4].
    split_and!; try lia; try done; [by cbn; rewrite Hlt|].
    constructor; [unfold vb in Hb'; unfold byte_ok; lia|done]. }
  unfold setVariant.
  assert (Hhd : default 0 (Data4 g !! 0%nat) = b) by (by rewrite Hd). rewrite Hhd. clear Hhd.
  pose proof (byte_ind (λ b, vb (Z.land b 0x7f) && (Variant (mkGUID 0 0 0 [Z.land b 0x7f]) =? 1)
     && (Z.land (Z.land b 0x7f) 0x7f =? Z.land b 0x7f)) ltac:(vm_compute; reflexivity) b Hb) as B1.
  pose proof (byte_ind (λ b, let b' := Z.lor (Z.land b 0x3f) 0x80 in vb b' &&
     (Variant (mkGUID 0 0 0 [b']) =? 2) && (Z.land b' 0x3f =? Z.land b 0x3f))
     ltac:(vm_compute; reflexivity) b Hb) as B2.
  pose proof (byte_ind (λ b, let b' := Z.lor (Z.land b 0x1f) 0xc0 in vb b' &&
     (Variant (mkGUID 0 0 0 [b']) =? 3) && (Z.land b' 0x1f =? Z.land b 0x1f))
     ltac:(vm_compute; reflexivity) b Hb) as B3.
  pose proof (byte_ind (λ b, let b' := Z.lor (Z.land b 0x0f) 0xe0 in vb b' &&
     (Variant (mkGUID 0 0 0 [b']) =? 4) && (Z.land b' 0x0f =? Z.land b 0x0f))
     ltac:(vm_compute; reflexivity) b Hb) as B4.
  cbv zeta in B2, B3, B4. rewrite !andb_true_iff, !Z.eqb_eq in B1, B2, B3, B4.
  destruct Hc as [->|[->|[->| ->]]]; (apply Hgen; [apply B1 || apply B2 || apply B3 || apply B4..]).
Qed.

Lemma setVersion_spec g v :
  guid_ok g → 0 ≤ v < 16 →
  let g' := setVersion g v in
  guid_ok g' ∧ Version g' = v ∧ Data1 g' = Data1 g ∧ Data2 g' = Data2 g ∧
  Data4 g' = Data4 g ∧ Data3 g' mod 4096 = Data3 g mod 4096.
Proof.
  intros (H1 & H2 & H3 & H4 & H5) Hv. cbn.
  assert (Hd : Z.lor (Z.land (Data3 g) 0x0fff) (u16 (Z.shiftl v 12)) = Data3 g mod 4096 + v * 4096).
  { change 0x0fff with (Z.ones 12). rewrite Z.land_ones by lia.
    rewrite Z.shiftl_mul_pow2 by lia. change (2 ^ 12) with 4096.
    rewrite u16_small by lia. rewrite Z.lor_comm. change 4096 with (2 ^ 12).
    pose proof (Z.mod_pos_bound (Data3 g) (2 ^ 12) ltac:(lia)).
    rewrite lor_add_low by lia. lia. }
  unfold setVersion, guid_ok, Version. cbn [Data1 Data2 Data3 Data4]. rewrite Hd.
  pose proof (Z.mod_pos_bound (Data3 g) 4096 ltac:(lia)).
  split_and!; try done; try lia.
  - change 0xF000 with (Z.shiftl (Z.ones 4) 12).
    rewrite Z.shiftr_land, Z.shiftr_shiftl_l by lia. change (12 - 12) with 0.
    rewrite Z.shiftl_0_r, Z.land_ones, Z.shiftr_div_pow2 by lia.
    change (2 ^ 12) with 4096. rewrite Z.div_add, Z.div_small by lia.
    cbn [Z.add]. rewrite Z.mod_small by (simpl; lia). apply u8_small. lia.
  - rewrite Z.mod_add, Z.mod_mod by lia. done.
Qed.

(** Stamping a version and the RFC 4122 variant on the GUID read from 16 bytes
    ([NewV4] and [NewV5] both end this way). *)
Lemma stamp_spec a v :
  length a = 16%nat → bytes_ok a → 0 ≤ v < 16 →
  ∃ g, setVariant (setVersion (FromArray a) v) VariantRFC4122 = Ret g ∧ guid_ok g ∧
       Version g = v ∧ Variant g = VariantRFC4122 ∧
       Data1 g = Data1 (FromArray a) ∧ Data2 g = Data2 (FromArray a) ∧
       Data3 g mod 4096 = Data3 (FromArray a) mod 4096 ∧
       tail (Data4 g) = tail (Data4 (FromArray a)) ∧
       Z.land (default 0 (head (Data4 g))) 0x3f =
       Z.land (default 0 (head (Data4 (FromArray a)))) 0x3f.
Proof.
  intros Hl Hb Hv. pose proof (guid_ok_fromArray a BigEndian Hl Hb) as Hok.
  destruct (setVersion_spec _ v Hok Hv) as (Hok' & Hver & E1 & E2 & E4 & E3).
  destruct (setVariant_spec _ VariantRFC4122 Hok' ltac:(unfold VariantRFC4122; lia))
    as (g & Hg & Hgok & Hvar & F1 & F2 & F3 & F4 & F5).
  exists g. fold (FromArray a) in *. unfold Version in *. rewrite F3.
  rewrite E4 in F4, F5. split_and!; try done; congruence.
Qed.

(** [NewV5] never panics or fails; its GUID is well-formed, is version 5
    and variant RFC 4122, and every other bit is that of the SHA-1 sum of the
    namespace and the name. *)
Theorem NewV5_spec (sha1 : list Z → list Z) ns name :
  (∀ m, length (sha1 m) = 20%nat ∧ bytes_ok (sha1 m)) →
  let h := FromArray (ztake 16 (sha1 (ToArray ns ++ name))) in
  ∃ g, NewV5 sha1 ns name = Ret g ∧ guid_ok g ∧ Version g = 5 ∧ Variant g = VariantRFC4122 ∧
       Data1 g = Data1 h ∧ Data2 g = Data2 h ∧ Data3 g mod 4096 = Data3 h mod 4096 ∧
       tail (Data4 g) = tail (Data4 h) ∧
       Z.land (default 0 (head (Data4 g))) 0x3f = Z.land (default 0 (head (Data4 h))) 0x3f.
Proof.
  intros Hsha h. unfold NewV5. destruct (Hsha (ToArray ns ++ name)) as [Hl Hb].
  set (sum := sha1 _) in *. rewrite Hl. cbn [Nat.sub replicate]. rewrite app_nil_r.
  apply stamp_spec; [|auto with golist|lia].
  unfold ztake. rewrite length_take, Hl. reflexivity.
Qed.

(** [NewV4] the same, on 16 random bytes; the error of the random source is
    passed on. *)
Lemma NewV4_spec rnd b :
  length b = 16%nat → bytes_ok b → rnd = Ret b →
  ∃ g, NewV4 rnd = Ret g ∧ guid_ok g ∧ Version g = 4 ∧ Variant g = VariantRFC4122.
Proof.
  intros Hl Hb ->. destruct (stamp_spec b 4 Hl Hb ltac:(lia)) as (g & Hg & ? & ? & ? & _).
  exists g. auto.
Qed.

(** ** What [FromString] accepts *)
Lemma slice_bytes_ok s i j t : slice s i j = Ret t → bytes_ok s → bytes_ok t ∧ zlen t = j - i.
Proof.
  unfold slice. case_decide; [|done]. intros [= <-] ?. split; [auto with golist|len].
Qed.

Lemma or_invalid_Ret s r v : or_invalid s r = Ret v → r = Ret v.
Proof. by destruct r. Qed.

Lemma parse_Data4_spec s offs l :
  bytes_ok s → parse_Data4 s offs = Ret l →
  length l = length offs ∧ bytes_ok l ∧
  ∃ subs, Forall2 (λ x t, slice s x (x + 2) = Ret t) offs subs ∧
          (λ x, pad0 2 (FormatUint x 16)) <$> l = (λ t, to_lower <$> t) <$> subs.
Proof.
  intros Hs. revert l. induction offs as [|x offs IH]; intros l Hp; cbn [parse_Data4] in Hp.
  { injection Hp as <-. split; [done|]. split; [constructor|]. exists []. done. }
  destruct (slice s x (x + 2)) as [sub| | |] eqn:Hsub; cbn in Hp; try done.
  destruct (or_invalid s _) as [v| | |] eqn:Hv; cbn in Hp; try done.
  destruct (parse_Data4 s offs) as [rest| | |] eqn:Hr; cbn in Hp; try done.
  injection Hp as <-. apply or_invalid_Ret in Hv.
  destruct (slice_bytes_ok _ _ _ _ Hsub Hs) as [Hsubok Hsublen].
  destruct (IH rest eq_refl) as (Hl & Hb & subs & Hsubs & Hmap).
  destruct (pad0_FormatUint_parsed 16 ltac:(lia) sub 8 v Hv Hsubok) as (ds & _ & _ & Hrange).
  assert (Hsl : zlen sub = 2) by lia. rewrite Hsl in Hrange.
  assert (H2 : length sub = 2%nat) by (unfold zlen in Hsl; lia).
  rewrite u8_small by (simpl in Hrange; lia).
  split; [by cbn; rewrite Hl|]. split; [constructor; [exact Hrange|done]|].
  exists (sub :: subs). split; [by constructor|]. cbn. f_equal; [|done].
  rewrite <- H2. apply (pad0_FormatUint_lower 16 sub 8); [lia|done|done].
Qed.

Lemma parsed_range s t bitSize v :
  ParseUint t 16 bitSize = Ret v → bytes_ok t → zlen t = s → 0 ≤ v < 16 ^ s.
Proof.
  intros Hp Hb <-. by destruct (pad0_FormatUint_parsed 16 ltac:(lia) t bitSize v Hp Hb) as (_ & _ & _ & ?).
Qed.
Lemma parsed_lower t bitSize w v :
  ParseUint t 16 bitSize = Ret v → bytes_ok t → zlen t = Z.of_nat w →
  pad0 w (FormatUint v 16) = to_lower <$> t.
Proof.
  intros Hp Hb Hl. replace w with (length t) by (unfold zlen in Hl; lia).
  apply (pad0_FormatUint_lower 16 t bitSize); [lia|done|done].
Qed.

(** The string [FromString] slices, put together again. *)
Lemma pieces_joined s s1 s2 s3 subs :
  zlen s = 36 → index s 8 = Ret 45 → index s 13 = Ret 45 → index s 18 = Ret 45 → index s 23 = Ret 45 →
  slice s 0 8 = Ret s1 → slice s 9 13 = Ret s2 → slice s 14 18 = Ret s3 →
  Forall2 (λ x t, slice s x (x + 2) = Ret t) Data4_offsets subs →
  s = s1 ++ [45] ++ s2 ++ [45] ++ s3 ++ [45] ++ concat (take 2 subs) ++ [45] ++ concat (drop 2 subs).
Proof.
  intros Hlen H8 H13 H18 H23 S1 S2 S3 Hsubs. unfold Data4_offsets in Hsubs.
  repeat match goal with H : Forall2 _ (_ :: _) _ |- _ => apply Forall2_cons_inv_l in H as (? & ? & ? & H & ->) end.
  apply Forall2_nil_inv_l in Hsubs as ->. apply slice_index in H8, H13, H18, H23.
  pose proof (slice_join _ _ _ _ _ _ S1 (slice_join _ _ _ _ _ _ H8 (slice_join _ _ _ _ _ _ S2
    (slice_join _ _ _ _ _ _ H13 (slice_join _ _ _ _ _ _ S3 H18))))) as Hall.
  repeat match goal with
  | H : slice s ?j _ = Ret _, H' : slice s 0 ?j' = Ret _ |- _ =>
      unify j j'; pose proof (slice_join _ _ _ _ _ _ H' H); clear H H'
  end.
  match goal with H : slice s 0 ?k = Ret ?w |- _ =>
    assert (Hw : s = w) by (rewrite slice_full in H by (simpl; lia); by injection H) end.
  rewrite Hw. cbn [take drop concat]. by rewrite !app_nil_r, <- !app_assoc.
Qed.

(** a string that [FromString] accepts is a printed GUID up to the case of
    its hexadecimal digits, and the GUID it yields is well-formed: printing it
    gives the string back in lower case. *)
Theorem String_FromString s g :
  bytes_ok s → FromString s = Ret g → guid_ok g ∧ GUID_String g = to_lower <$> s.
Proof.
  intros Hs. unfold FromString.
  destruct (Z.eqb_spec (zlen s) 36) as [Hlen|]; [|done]. cbn [negb].
  destruct (index s 8) as [c8| | |] eqn:H8; cbn [mbind res_bind]; try done.
  destruct (index s 13) as [c13| | |] eqn:H13; cbn [mbind res_bind]; try done.
  destruct (index s 18) as [c18| | |] eqn:H18; cbn [mbind res_bind]; try done.
  destruct (index s 23) as [c23| | |] eqn:H23; cbn [mbind res_bind]; try done.
  destruct (negb (c8 =? 45) || negb (c13 =? 45) || negb (c18 =? 45) || negb (c23 =? 45)) eqn:Hdash;
    [done|].
  destruct (slice s 0 8) as [s1| | |] eqn:S1; cbn [mbind res_bind]; try done.
  destruct (or_invalid s (ParseUint s1 16 32)) as [d1| | |] eqn:P1; cbn [mbind res_bind]; try done.
  destruct (slice s 9 13) as [s2| | |] eqn:S2; cbn [mbind res_bind]; try done.
  destruct (or_invalid s (ParseUint s2 16 16)) as [d2| | |] eqn:P2; cbn [mbind res_bind]; try done.
  destruct (slice s 14 18) as [s3| | |] eqn:S3; cbn [mbind res_bind]; try done.
  destruct (or_invalid s (ParseUint s3 16 16)) as [d3| | |] eqn:P3; cbn [mbind res_bind]; try done.
  destruct (parse_Data4 s Data4_offsets) as [d4| | |] eqn:P4; cbn [mbind res_bind]; try done.
  intros [= <-].
  destruct (parse_Data4_spec s _ d4 Hs P4) as (Hl4 & Hb4 & subs & Hsubs & Hmap).
  apply or_invalid_Ret in P1, P2, P3.
  destruct (slice_bytes_ok _ _ _ _ S1 Hs) as [B1 L1].
  destruct (slice_bytes_ok _ _ _ _ S2 Hs) as [B2 L2].
  destruct (slice_bytes_ok _ _ _ _ S3 Hs) as [B3 L3].
  pose proof (parsed_range _ _ _ _ P1 B1 L1) as R1.
  pose proof (parsed_range _ _ _ _ P2 B2 L2) as R2.
  pose proof (parsed_range _ _ _ _ P3 B3 L3) as R3.
  cbn in R1, R2, R3. rewrite u32_small, !u16_small by lia.
  split; [split_and!; cbn; done || lia|].
  rewrite GUID_String_parts, Hmap by done.
  rewrite (parsed_lower s1 32 8), (parsed_lower s2 16 4), (parsed_lower s3 16 4) by done.
  assert (Hc : c8 = 45 ∧ c13 = 45 ∧ c18 = 45 ∧ c23 = 45) by lia. destruct Hc as (-> & -> & -> & ->).
  rewrite (pieces_joined s s1 s2 s3 subs) by done. unfold guid_text.
  assert (Hc : ∀ l : list (list Z), to_lower <$> concat l = concat ((λ t, to_lower <$> t) <$> l))
    by (intros l; apply (concat_map to_lower)).
  by rewrite !fmap_app, !Hc, fmap_take, fmap_drop.
Qed.

(** ** Witnesses: the silo host address of [hvsock.go] *)
Definition GUID_example : GUID :=
  mkGUID 0x36bd0c5c 0x7276 0x4223 [0x88; 0xba; 0x7d; 0x03; 0xb6; 0x54; 0xc5; 0x68].

Lemma GUID_example_ok : guid_ok GUID_example.
Proof. repeat split; try (cbn; lia). repeat constructor; cbn; lia. Qed.

Lemma fromArray_toArray_witness :
  fromArray (toArray GUID_example LittleEndian) LittleEndian = GUID_example.
Proof. apply fromArray_toArray, GUID_example_ok. Defined.

Lemma FromString_String_witness :
  GUID_String GUID_example = str "36bd0c5c-7276-4223-88ba-7d03b654c568" ∧
  FromString (GUID_String GUID_example) = Ret GUID_example.
Proof. split; [vm_compute; reflexivity|]. apply FromString_String, GUID_example_ok. Defined.

Lemma NewV5_spec_witness :
  let sha1 := λ m : list Z, replicate 20 (u8 (zlen m)) in
  ∃ g, NewV5 sha1 GUID_example (str "x") = Ret g ∧ Version g = 5.
Proof.
  intros sha1. destruct (NewV5_spec sha1 GUID_example (str "x")) as (g & Hg & _ & Hv & _).
  - intros m. split; [done|]. apply Forall_replicate, u8_range.
  - exists g. split; [exact Hg|exact Hv].
Defined.

Lemma String_FromString_witness :
  FromString (str "36BD0c5c-7276-4223-88BA-7d03b654C568") = Ret GUID_example ∧
  GUID_String GUID_example = to_lower <$> str "36BD0c5c-7276-4223-88BA-7d03b654C568".
Proof.
  assert (H : FromString (str "36BD0c5c-7276-4223-88BA-7d03b654C568") = Ret GUID_example)
    by (vm_compute; reflexivity).
  split; [exact H|].
  exact (proj2 (String_FromString _ _ (bytes_ok_str _) H)).
Defined.
