(* ===== verification/Ea.v ===== *)
(** * Extended attributes ([ea.go])

    Encoding and decoding of a FILE_FULL_EA_INFORMATION buffer. *)
From S2P Require Import Prelude GoStrings.

Record fileFullEaInformation := mkInfo {
  NextEntryOffset : Z;
  info_Flags : Z;
  NameLength : Z;
  ValueLength : Z }.

(** [binary.Size(&fileFullEaInformation{})] *)
Definition fileFullEaInformationSize : Z := 4 + 1 + 1 + 2.

Definition errInvalidEaBuffer : error := New "invalid extended attribute buffer".
Definition errEaNameTooLarge : error := New "extended attribute name too large".
Definition errEaValueTooLarge : error := New "extended attribute value too large".

Record ExtendedAttribute := mkEA { Name : list Z; Value : list Z; Flags : Z }.

#[export] Instance ExtendedAttribute_eq_dec : EqDecision ExtendedAttribute.
Proof. solve_decision. Defined.

(** [binary.Read] of the fixed-size header from the front of a buffer. *)
Definition read_info (b : list Z) : res fileFullEaInformation :=
  if zlen b <? fileFullEaInformationSize then Fail ErrUnexpectedEOF
  else Ret (mkInfo (le_val (ztake 4 b)) (le_val (ztake 1 (zdrop 4 b)))
                   (le_val (ztake 1 (zdrop 5 b))) (le_val (ztake 2 (zdrop 6 b)))).

Definition write_info (i : fileFullEaInformation) : list Z :=
  le_bytes 4 (NextEntryOffset i) ++ le_bytes 1 (info_Flags i) ++
  le_bytes 1 (NameLength i) ++ le_bytes 2 (ValueLength i).

Definition parseEa (b : list Z) : res (ExtendedAttribute * list Z) :=
  match read_info b with
  | Ret info =>
      let nameOffset := fileFullEaInformationSize in
      let nameLen := NameLength info in
      let valueOffset := nameOffset + NameLength info + 1 in
      let valueLen := ValueLength info in
      let nextOffset := NextEntryOffset info in
      if (zlen b <? valueLen + valueOffset) || (nextOffset <? 0) || (zlen b <? nextOffset)
      then Fail errInvalidEaBuffer
      else
        name ← slice b nameOffset (nameOffset + nameLen);
        value ← slice b valueOffset (valueOffset + valueLen);
        nb ← (if negb (NextEntryOffset info =? 0) then slice_from b (NextEntryOffset info)
              else Ret []);
        Ret (mkEA name value (info_Flags info), nb)
  | _ => Fail errInvalidEaBuffer
  end.

(** The loop of [DecodeExtendedAttributes]; a buffer of [n] bytes needs at most
    [n] iterations, as every entry consumes a byte. *)
Fixpoint decode_loop (fuel : nat) (b : list Z) : res (list ExtendedAttribute) :=
  match b with
  | [] => Ret []
  | _ =>
      match fuel with
      | O => NoFuel
      | S fuel =>
          '(ea, nb) ← parseEa b;
          eas ← decode_loop fuel nb;
          Ret (ea :: eas)
      end
  end.
Definition DecodeExtendedAttributes (b : list Z) : res (list ExtendedAttribute) :=
  decode_loop (length b) b.

Definition writeEa (buf : list Z) (ea : ExtendedAttribute) (last : bool) : res (list Z) :=
  if negb (u8 (zlen (Name ea)) =? zlen (Name ea)) then Fail errEaNameTooLarge
  else if negb (u16 (zlen (Value ea)) =? zlen (Value ea)) then Fail errEaValueTooLarge
  else
    let entrySize := u32 (fileFullEaInformationSize + zlen (Name ea) + 1 + zlen (Value ea)) in
    let withPadding := Z.ldiff (u32 (entrySize + 3)) 3 in
    let nextOffset := if negb last then withPadding else 0 in
    let info := mkInfo nextOffset (Flags ea) (u8 (zlen (Name ea))) (u16 (zlen (Value ea))) in
    padding ← slice [0; 0; 0] 0 (withPadding - entrySize);
    Ret (buf ++ write_info info ++ Name ea ++ [0] ++ Value ea ++ padding).

Fixpoint encode_loop (buf : list Z) (eas : list ExtendedAttribute) : res (list Z) :=
  match eas with
  | [] => Ret buf
  | ea :: t =>
      buf' ← writeEa buf ea (bool_decide (t = []));
      encode_loop buf' t
  end.
Definition EncodeExtendedAttributes (eas : list ExtendedAttribute) : res (list Z) :=
  encode_loop [] eas.

(** ** Theorems *)

(** The Go types of the fields. *)
Definition ea_ok (ea : ExtendedAttribute) : Prop :=
  bytes_ok (Name ea) ∧ bytes_ok (Value ea) ∧ byte_ok (Flags ea).
(** The lengths the on-disk format can hold. *)
Definition ea_fits (ea : ExtendedAttribute) : Prop := zlen (Name ea) < 256 ∧ zlen (Value ea) < 65536.

#[export] Instance ea_ok_dec ea : Decision (ea_ok ea).
Proof. unfold ea_ok. apply _. Defined.
#[export] Instance ea_fits_dec ea : Decision (ea_fits ea).
Proof. unfold ea_fits. apply _. Defined.

Lemma pad4 n : 0 ≤ n < 4294967200 →
  Z.ldiff (u32 (n + 3)) 3 = (n + 3) / 4 * 4.
Proof.
  intros. rewrite u32_small by lia. change 3 with (Z.ones 2) at 2.
  rewrite Z.ldiff_ones_r by lia. rewrite Z.shiftr_div_pow2, Z.shiftl_mul_pow2 by lia. done.
Qed.

(** The bytes of one entry. *)
Definition entry_size (ea : ExtendedAttribute) : Z := 9 + zlen (Name ea) + zlen (Value ea).
Definition padded_size (ea : ExtendedAttribute) : Z := (entry_size ea + 3) / 4 * 4.
Definition entry (ea : ExtendedAttribute) (last : bool) : list Z :=
  write_info (mkInfo (if last then 0 else padded_size ea) (Flags ea) (zlen (Name ea)) (zlen (Value ea)))
  ++ Name ea ++ [0] ++ Value ea ++ replicate (Z.to_nat (padded_size ea - entry_size ea)) 0.

Lemma padded_bounds ea : entry_size ea ≤ padded_size ea < entry_size ea + 4.
Proof. unfold padded_size. pose proof (Z.div_mod (entry_size ea + 3) 4). 
  pose proof (Z.mod_pos_bound (entry_size ea + 3) 4). lia. Qed.

Lemma writeEa_fits buf ea last : ea_fits ea → writeEa buf ea last = Ret (buf ++ entry ea last).
Proof.
  intros [Hn Hv]. unfold writeEa. pose_lens. rewrite u8_small, u16_small, !Z.eqb_refl by lia.
  cbn [negb].
  assert (He : u32 (fileFullEaInformationSize + zlen (Name ea) + 1 + zlen (Value ea)) = entry_size ea).
  { rewrite u32_small; unfold fileFullEaInformationSize, entry_size; lia. }
  rewrite He, pad4 by (unfold entry_size; lia). fold (padded_size ea).
  pose proof (padded_bounds ea) as Hp.
  unfold entry. set (k := padded_size ea - entry_size ea) in *.
  assert (Hk : k = 0 ∨ k = 1 ∨ k = 2 ∨ k = 3) by lia.
  assert (Hs : slice [0; 0; 0] 0 k = Ret (replicate (Z.to_nat k) 0))
    by (destruct Hk as [->|[->|[->| ->]]]; reflexivity).
  rewrite Hs. cbn [mbind res_bind]. by destruct last.
Qed.

(** Encoding succeeds exactly on attributes whose sizes fit the format. *)
Lemma writeEa_too_large buf ea last :
  ¬ ea_fits ea →
  writeEa buf ea last = Fail (if zlen (Name ea) <? 256 then errEaValueTooLarge else errEaNameTooLarge).
Proof.
  intros Hf. unfold writeEa, ea_fits in *. pose_lens.
  destruct (Z.ltb_spec (zlen (Name ea)) 256).
  - rewrite u8_small, Z.eqb_refl by lia. cbn [negb].
    pose proof (u16_range (zlen (Value ea))).
    replace (u16 (zlen (Value ea)) =? zlen (Value ea)) with false by lia. done.
  - pose proof (u8_range (zlen (Name ea))).
    replace (u8 (zlen (Name ea)) =? zlen (Name ea)) with false by lia. done.
Qed.

Fixpoint encoding (eas : list ExtendedAttribute) : list Z :=
  match eas with
  | [] => []
  | ea :: t => entry ea (bool_decide (t = [])) ++ encoding t
  end.

Lemma encode_loop_fits buf eas :
  Forall ea_fits eas → encode_loop buf eas = Ret (buf ++ encoding eas).
Proof.
  intros H. revert buf. induction H as [|ea eas Hea Heas IH]; intros buf; cbn [encode_loop encoding].
  - by rewrite app_nil_r.
  - rewrite writeEa_fits by done. cbn [mbind res_bind]. by rewrite IH, <- app_assoc.
Qed.

Lemma zlen_write_info i : zlen (write_info i) = 8.
Proof. unfold write_info. len. Qed.
#[local] Hint Rewrite zlen_write_info : golist.
Lemma zlen_entry ea last : ea_fits ea → zlen (entry ea last) = padded_size ea.
Proof.
  intros [Hn Hv]. pose proof (padded_bounds ea). unfold entry.
  rewrite !zlen_app, zlen_write_info. unfold entry_size in *. len.
Qed.

Lemma read_write_info i rest :
  0 ≤ NextEntryOffset i < 4294967296 → byte_ok (info_Flags i) → byte_ok (NameLength i) →
  0 ≤ ValueLength i < 65536 → read_info (write_info i ++ rest) = Ret i.
Proof.
  intros H1 H2 H3 H4. unfold read_info.
  replace (zlen (write_info i ++ rest) <? fileFullEaInformationSize) with false
    by (rewrite zlen_app, zlen_write_info; pose_lens; unfold fileFullEaInformationSize; lia).
  unfold write_info. rewrite <- !app_assoc.
  rewrite <- (zdrop_zdrop 1 5), <- (zdrop_zdrop 1 4) by lia.
  repeat first [rewrite ztake_app_eq by len | rewrite zdrop_app_eq by len].
  rewrite le_val_le32, le_val_le16 by done.
  rewrite !le_val_le_bytes. unfold byte_ok in *. rewrite !Z.mod_small by (simpl; lia).
  by destruct i.
Qed.

Lemma parseEa_entry ea (last : bool) rest :
  ea_ok ea → ea_fits ea → (last = true → rest = []) →
  parseEa (entry ea last ++ rest) = Ret (ea, rest).
Proof.
  intros (Hnb & Hvb & Hfl) Hfit Hlast. pose proof Hfit as [Hn Hv].
  pose proof (padded_bounds ea) as Hp. pose proof (zlen_entry ea last Hfit) as Hl.
  pose_lens. unfold entry_size in Hp.
  assert (Hnext : zlen (entry ea last ++ rest) = padded_size ea + zlen rest) by (rewrite zlen_app; lia).
  unfold parseEa. unfold entry at 1. rewrite <- app_assoc, read_write_info;
    cbn [NextEntryOffset info_Flags NameLength ValueLength]; try (unfold byte_ok in *; lia);
    [|destruct last; lia].
  rewrite Hnext. pose_lens. unfold fileFullEaInformationSize.
  replace ((_ <? _) || _ || _) with false by (destruct last; cbn [orb]; lia).
  assert (Hname : slice (entry ea last ++ rest) (4 + 1 + 1 + 2) (4 + 1 + 1 + 2 + zlen (Name ea)) = Ret (Name ea)).
  { unfold entry. rewrite <- !app_assoc. apply slice_app; [apply zlen_write_info|lia]. }
  assert (Hval : slice (entry ea last ++ rest) (4 + 1 + 1 + 2 + zlen (Name ea) + 1)
                   (4 + 1 + 1 + 2 + zlen (Name ea) + 1 + zlen (Value ea)) = Ret (Value ea)).
  { unfold entry. rewrite <- !app_assoc. slices. done. }
  rewrite Hname, Hval. cbn [mbind res_bind].
  destruct last; cbn [Z.eqb negb].
  - rewrite Hlast by done. by destruct ea.
  - replace (padded_size ea =? 0) with false by lia. cbn [negb]. unfold slice_from.
    rewrite slice_ok by lia. rewrite zdrop_app_eq, ztake_all by lia. by destruct ea.
Qed.

Lemma encoding_length eas :
  Forall ea_fits eas → zlen (encoding eas) mod 4 = 0 ∧ (length eas ≤ length (encoding eas))%nat.
Proof.
  induction 1 as [|ea eas Hea Heas [IH1 IH2]]; [done|]. cbn [encoding length].
  rewrite zlen_app, zlen_entry by done. pose proof (padded_bounds ea).
  split.
  - unfold padded_size. rewrite Z.add_comm, Z.mod_add by lia. done.
  - rewrite length_app. pose proof (zlen_entry ea (bool_decide (eas = [])) Hea) as Hl.
    unfold entry_size in *. pose_lens. unfold zlen in *. lia.
Qed.

Lemma decode_encoding eas fuel :
  Forall ea_ok eas → Forall ea_fits eas → (length eas ≤ fuel)%nat →
  decode_loop fuel (encoding eas) = Ret eas.
Proof.
  intros H Hfit. revert fuel. induction Hfit as [|ea eas Hea Heas IH]; intros fuel Hf.
  - by destruct fuel.
  - apply Forall_cons in H as [Hok H]. destruct fuel as [|fuel]; [simpl in Hf; lia|].
    cbn [encoding]. set (last := bool_decide (eas = [])).
    assert (Hne : ∃ x l, entry ea last ++ encoding eas = x :: l) by (cbn; eauto).
    pose proof (parseEa_entry ea last (encoding eas) Hok Hea) as Hp.
    destruct Hne as (x & l & Hxl). rewrite Hxl in *. cbn [decode_loop]. rewrite Hp.
    + cbn [mbind res_bind]. rewrite IH; [done|done|simpl in Hf; lia].
    + subst last. intros ->%bool_decide_eq_true. done.
Qed.

(** The format of a buffer, FILE_FULL_EA_INFORMATION: each entry holds the offset of the
    next one (0 in the last), the flags, the lengths, the name and a NUL, the value, and
    zeros up to the next multiple of four. *)
Inductive ea_format : list ExtendedAttribute → list Z → Prop :=
| format_nil : ea_format [] []
| format_entry ea eas pad rest n :
    n = 8 + zlen (Name ea) + 1 + zlen (Value ea) + zlen pad → n mod 4 = 0 → zlen pad < 4 → Forall (λ x, x = 0) pad →
    ea_format eas rest →
    ea_format (ea :: eas)
      (le_bytes 4 (if decide (eas = []) then 0 else n) ++ [Flags ea; zlen (Name ea)] ++ le_bytes 2 (zlen (Value ea)) ++
       Name ea ++ [0] ++ Value ea ++ pad ++ rest).

Lemma le_bytes_1 z : 0 ≤ z < 256 → le_bytes 1 z = [z].
Proof. intros Hz. cbn. by rewrite Z.mod_small. Qed.
Lemma encoding_format eas : Forall ea_ok eas → Forall ea_fits eas → ea_format eas (encoding eas).
Proof.
  induction 1 as [|ea eas (_ & _ & Hfl) Hok IH]; intros Hfit; [constructor|].
  apply Forall_cons in Hfit as [[Hn Hv] Hfit]. cbn [encoding]. pose proof (padded_bounds ea) as Hp. pose_lens.
  assert (Hz : zlen (replicate (Z.to_nat (padded_size ea - entry_size ea)) 0) = padded_size ea - entry_size ea).
  { rewrite zlen_replicate. lia. }
  unfold entry, write_info. cbn [NextEntryOffset info_Flags NameLength ValueLength].
  rewrite !le_bytes_1 by (unfold byte_ok in Hfl; lia). rewrite <- !app_assoc. cbn [app].
  replace (if bool_decide (eas = []) then 0 else padded_size ea) with (if decide (eas = []) then 0 else padded_size ea)
    by (rewrite decide_bool_decide; done).
  apply (format_entry ea eas (replicate _ 0) (encoding eas)); [..|by apply IH].
  - rewrite Hz. unfold entry_size. lia.
  - unfold padded_size. by rewrite Z.mod_mul.
  - rewrite Hz. lia.
  - by apply Forall_replicate.
Qed.

(** C7: decoding inverts encoding, for attributes whose sizes the format can hold (names
    of less than 256 bytes and values of less than 65536; [EncodeExtendedAttributes] refuses others):
    [EncodeExtendedAttributes] succeeds, the buffer it yields has the format
    above, so each entry starts at a multiple of four, and [DecodeExtendedAttributes] reads the same
    attributes back. *)
Theorem Decode_Encode eas :
  Forall ea_ok eas → Forall ea_fits eas →
  ∃ b, EncodeExtendedAttributes eas = Ret b ∧ ea_format eas b ∧ DecodeExtendedAttributes b = Ret eas.
Proof.
  intros Hok Hfit. exists (encoding eas). pose proof (encoding_length eas Hfit) as [? ?].
  split; [unfold EncodeExtendedAttributes; by rewrite encode_loop_fits|].
  split; [by apply encoding_format|]. by apply decode_encoding.
Qed.

(** the first attribute that does not fit decides the error of
    [EncodeExtendedAttributes]: its name is checked before its value, and
    nothing is returned of the attributes before it. *)
Theorem Encode_error pre ea post :
  Forall ea_fits pre → ¬ ea_fits ea →
  EncodeExtendedAttributes (pre ++ ea :: post) =
    Fail (if zlen (Name ea) <? 256 then errEaValueTooLarge else errEaNameTooLarge).
Proof.
  intros Hpre Hea. unfold EncodeExtendedAttributes. generalize (@nil Z).
  induction Hpre as [|ea' pre Hea' Hpre IH]; intros buf; cbn [app encode_loop].
  - by rewrite writeEa_too_large.
  - rewrite writeEa_fits by done. cbn [mbind res_bind]. apply IH.
Qed.

Lemma parseEa_total b :
  bytes_ok b →
  (∃ ea nb, parseEa b = Ret (ea, nb) ∧ zlen nb < zlen b ∧ bytes_ok nb ∧ ea_ok ea ∧ ea_fits ea)
  ∨ parseEa b = Fail errInvalidEaBuffer.
Proof.
  intros Hb. unfold parseEa, read_info, fileFullEaInformationSize.
  destruct (Z.ltb_spec (zlen b) (4 + 1 + 1 + 2)); [by right|]. cbn [NextEntryOffset info_Flags NameLength ValueLength].
  assert (Hr : ∀ i n, 0 ≤ n → 0 ≤ le_val (ztake n (zdrop i b)) < 256 ^ n).
  { intros i n Hn. pose proof (le_val_range (ztake n (zdrop i b)) ltac:(auto with golist)) as Hv.
    split; [lia|]. eapply Z.lt_le_trans; [apply Hv|]. apply Z.pow_le_mono_r; len. }
  pose proof (Hr 0 4 ltac:(lia)) as R0. rewrite zdrop_0 in R0. pose proof (Hr 4 1 ltac:(lia)) as R1.
  pose proof (Hr 5 1 ltac:(lia)) as R2. pose proof (Hr 6 2 ltac:(lia)) as R3.
  set (next := le_val (ztake 4 b)) in *. set (nl := le_val (ztake 1 (zdrop 5 b))) in *.
  set (vl := le_val (ztake 2 (zdrop 6 b))) in *. clearbody next nl vl. clear Hr.
  destruct ((_ <? _) || _ || _) eqn:Hchk; [by right|]. left.
  rewrite !slice_ok by lia. cbn [mbind res_bind].
  assert (Hea : ∀ n v, n = ztake (8 + nl - 8) (zdrop 8 b) → v = ztake vl (zdrop (8 + nl + 1) b) →
    ea_ok (mkEA n v (le_val (ztake 1 (zdrop 4 b)))) ∧ ea_fits (mkEA n v (le_val (ztake 1 (zdrop 4 b))))).
  { intros n v -> ->. split; [split_and!; cbn; auto with golist|split; cbn; len]. }
  destruct (Z.eqb_spec next 0); cbn [negb mbind res_bind].
  - do 2 eexists. split; [done|]. split; [len|]. split; [constructor|].
    apply Hea; do 2 f_equal; lia.
  - unfold slice_from. rewrite slice_ok by len. cbn [mbind res_bind].
    do 2 eexists. split; [done|]. split; [len|]. split; [auto with golist|].
    apply Hea; do 2 f_equal; lia.
Qed.

(** C39: [DecodeExtendedAttributes] is total: on any bytes it terminates without
    panicking (every slice it takes is in bounds), and it either decodes
    attributes that could have been encoded or returns
    [errInvalidEaBuffer]. *)
Theorem Decode_total b :
  bytes_ok b →
  (∃ eas, DecodeExtendedAttributes b = Ret eas ∧ Forall ea_ok eas ∧ Forall ea_fits eas)
  ∨ DecodeExtendedAttributes b = Fail errInvalidEaBuffer.
Proof.
  unfold DecodeExtendedAttributes. intros Hb.
  assert (Hf : (length b ≤ length b)%nat) by lia. revert Hf Hb.
  generalize (length b) at 2 3 4 as fuel. intros fuel. revert b.
  induction fuel as [|fuel IH]; intros b Hf Hb.
  - destruct b; [|simpl in Hf; lia]. left. by exists [].
  - destruct b as [|x b']; [left; by exists []|]. cbn [decode_loop]. set (b := x :: b') in *.
    destruct (parseEa_total b Hb) as [(ea & nb & -> & Hlt & Hnb & Hok & Hfit)| ->]; [|by right].
    cbn [mbind res_bind]. destruct (IH nb) as [(eas & -> & ? & ?)| ->]; [unfold zlen in *; lia|done| |by right].
    left. eexists. split; [done|]. split; by constructor.
Qed.

(** ** Witnesses *)
Definition ea_example : list ExtendedAttribute :=
  [mkEA (str "foo") (str "bar") 0; mkEA (str "fizz") (str "buzz") 128].

Lemma ea_example_ok : Forall ea_ok ea_example ∧ Forall ea_fits ea_example.
Proof. decide_now. Qed.

Lemma Decode_Encode_witness :
  ∃ b, EncodeExtendedAttributes ea_example = Ret b ∧ ea_format ea_example b ∧
       DecodeExtendedAttributes b = Ret ea_example.
Proof. exact (Decode_Encode ea_example (proj1 ea_example_ok) (proj2 ea_example_ok)). Defined.

Lemma Encode_error_witness :
  EncodeExtendedAttributes (ea_example ++ mkEA (replicate 256 97) [] 0 :: []) = Fail errEaNameTooLarge.
Proof.
  refine (Encode_error ea_example (mkEA (replicate 256 97) [] 0) [] (proj2 ea_example_ok) _).
  intros [H _]. vm_compute in H. discriminate H.
Defined.

Lemma Decode_total_witness :
  DecodeExtendedAttributes [0; 0; 0; 0; 0; 4; 0; 0; 102] = Fail errInvalidEaBuffer.
Proof.
  destruct (Decode_total [0; 0; 0; 0; 0; 4; 0; 0; 102]) as [(eas & H & _)|H].
  - repeat constructor; cbn; lia.
  - vm_compute in H. discriminate H.
  - exact H.
Defined.
