(* ===== verification/Streams.v ===== *)
(** * Go streams: the interfaces [io.Reader], [io.Seeker] and [io.Writer]

    A reader is a state with a [Read] operation.  [ReaderSpec] states what the
    documentation of [io.Reader] promises to its clients: the reader holds a
    sequence of bytes still to come and the error that ends it, each call
    returns a non-empty prefix or the final error, and may return fewer bytes
    than asked for.  The components that read are proved against this
    interface; [bytes.Reader], a reader of short reads, [io.LimitedReader] and
    the readers of the repository implement it. *)
From S2P Require Import Prelude.

(** ** Readers *)
Class Reader (R : Type) : Type :=
  rd_read : Z → R → res (list Z * option error) * R.

Class ReaderSpec (R : Type) `{Reader R} : Type := {
  rd_inv : R → Prop;
  rd_rest : R → list Z;
  rd_fin : R → error;
  rd_read_spec n r : rd_inv r → 0 < n →
    ∃ bs e r', rd_read n r = (Ret (bs, e), r') ∧ rd_inv r' ∧
      rd_rest r = bs ++ rd_rest r' ∧ zlen bs ≤ n ∧ rd_fin r' = rd_fin r ∧
      match e with
      | None => bs ≠ []
      | Some x => x = rd_fin r ∧ rd_rest r' = []
      end
}.

(** Two reader states with the same content to come are interchangeable for a
    client; this is the equivalence the stream functions respect. *)
Definition rd_equiv {R1 R2} `{ReaderSpec R1} `{ReaderSpec R2} (r1 : R1) (r2 : R2) : Prop :=
  rd_inv r1 ∧ rd_inv r2 ∧ rd_rest r1 = rd_rest r2 ∧ rd_fin r1 = rd_fin r2.

(** ** [io.ReadAtLeast], [io.ReadFull], [io.ReadAll], [io.Copy] *)
Section ReadFunctions.
Context {R : Type} `{Reader R}.

Definition short_error (l : list Z) (e : error) : error :=
  if (0 <? zlen l) && bool_decide (e = EOF) then ErrUnexpectedEOF else e.

(** The loop of [io.ReadAtLeast] with a buffer of [cap] bytes, of which [acc]
    has been filled. *)
Fixpoint read_at_least (fuel : nat) (cap min : Z) (acc : list Z) (r : R) :
    res (list Z * option error) * R :=
  if min <=? zlen acc then (Ret (acc, None), r)
  else match fuel with
  | O => (NoFuel, r)
  | S fuel =>
      match rd_read (cap - zlen acc) r with
      | (Ret (bs, None), r') => read_at_least fuel cap min (acc ++ bs) r'
      | (Ret (bs, Some e), r') =>
          let acc' := acc ++ bs in
          (Ret (acc', if min <=? zlen acc' then None else Some (short_error acc' e)), r')
      | (Fail e, r') => (Fail e, r')
      | (Panic w, r') => (Panic w, r')
      | (NoFuel, r') => (NoFuel, r')
      end
  end.

(** Every iteration that goes on adds a byte, so [min] iterations are enough. *)
Definition ErrShortBuffer : error := New "short buffer".
Definition ReadAtLeast (cap min : Z) (r : R) : res (list Z * option error) * R :=
  if cap <? min then (Ret ([], Some ErrShortBuffer), r)
  else read_at_least (Z.to_nat min) cap min [] r.
Definition ReadFull (n : Z) (r : R) := ReadAtLeast n n r.

(** [binary.Read] of data of [n] bytes. *)
Definition ReadBytes (n : Z) : St R (list Z) := λ r,
  match ReadFull n r with
  | (Ret (bs, None), r') => (Ret bs, r')
  | (Ret (_, Some e), r') => (Fail e, r')
  | (Fail e, r') => (Fail e, r')
  | (Panic w, r') => (Panic w, r')
  | (NoFuel, r') => (NoFuel, r')
  end.

(** Read to the end with a buffer of [chunk] bytes: [io.ReadAll] and [io.Copy].
    [io.EOF] is not an error here. *)
Fixpoint drain (fuel : nat) (chunk : Z) (acc : list Z) (r : R) :
    res (list Z * option error) * R :=
  match fuel with
  | O => (NoFuel, r)
  | S fuel =>
      match rd_read chunk r with
      | (Ret (bs, None), r') => drain fuel chunk (acc ++ bs) r'
      | (Ret (bs, Some e), r') =>
          (Ret (acc ++ bs, if bool_decide (e = EOF) then None else Some e), r')
      | (Fail e, r') => (Fail e, r')
      | (Panic w, r') => (Panic w, r')
      | (NoFuel, r') => (NoFuel, r')
      end
  end.
Definition ReadAll (fuel : nat) (r : R) := drain fuel 512 [] r.
End ReadFunctions.

Section ReadSpecs.
Context {R : Type} `{ReaderSpec R}.
Implicit Types r : R.

Lemma read_at_least_spec fuel cap min acc r :
  rd_inv r → min ≤ cap → (Z.to_nat min ≤ fuel + length acc)%nat → zlen acc ≤ cap →
  (min ≤ zlen acc + zlen (rd_rest r) →
    ∃ bs r', read_at_least fuel cap min acc r = (Ret (acc ++ bs, None), r') ∧ rd_inv r' ∧
      rd_rest r = bs ++ rd_rest r' ∧ min ≤ zlen acc + zlen bs ≤ Z.max cap (zlen acc) ∧
      rd_fin r' = rd_fin r) ∧
  (zlen acc + zlen (rd_rest r) < min →
    ∃ r', read_at_least fuel cap min acc r =
        (Ret (acc ++ rd_rest r, Some (short_error (acc ++ rd_rest r) (rd_fin r))), r') ∧
      rd_inv r' ∧ rd_rest r' = [] ∧ rd_fin r' = rd_fin r).
Proof.
  revert acc r. induction fuel as [|fuel IH]; intros acc r Hi Hmc Hf Hac; cbn [read_at_least];
    destruct (Z.leb_spec min (zlen acc)) as [Hle|Hgt].
  1, 3: split; [|pose_lens; lia]; intros _; exists [], r; rewrite app_nil_r; split_and!; try done; len.
  - exfalso. unfold zlen in *. lia.
  - destruct (rd_read_spec (cap - zlen acc) r Hi ltac:(lia))
      as (bs & e & r' & -> & Hi' & Hrest & Hlen & Hfin & He).
    destruct e as [x|].
    + destruct He as [-> Hnil]. rewrite Hnil, app_nil_r in Hrest. rewrite Hrest.
      split; intros Hc.
      * replace (min <=? zlen (acc ++ bs)) with true by len.
        exists bs, r'. rewrite Hnil, app_nil_r. split_and!; try done; len.
      * replace (min <=? zlen (acc ++ bs)) with false by len.
        exists r'. split_and!; done.
    + assert (0 < zlen bs) by (destruct bs; [done|]; rewrite zlen_cons; pose_lens; lia).
      destruct (IH (acc ++ bs) r' Hi' Hmc) as [IH1 IH2].
      { unfold zlen in *. rewrite length_app. lia. }
      { len. }
      rewrite Hrest. split; intros Hc; rewrite zlen_app in Hc.
      * destruct IH1 as (bs' & r'' & Hr & ? & ? & ? & ?); [len|].
        exists (bs ++ bs'), r''. rewrite Hr, <- !app_assoc. split_and!; try done; try congruence; len.
      * destruct IH2 as (r'' & Hr & ? & ? & ?); [len|].
        exists r''. rewrite Hr, <- !app_assoc, Hfin. split_and!; try done; congruence.
Qed.

Lemma ReadFull_ok n r :
  rd_inv r → 0 ≤ n → n ≤ zlen (rd_rest r) →
  ∃ r', ReadFull n r = (Ret (ztake n (rd_rest r), None), r') ∧ rd_inv r' ∧
        rd_rest r' = zdrop n (rd_rest r) ∧ rd_fin r' = rd_fin r.
Proof.
  intros Hi Hn Hl. unfold ReadFull, ReadAtLeast. rewrite Z.ltb_irrefl.
  destruct (read_at_least_spec (Z.to_nat n) n n [] r) as [Hs _]; [done|lia|lia|len|].
  destruct Hs as (bs & r' & Hr & ? & Hrest & ? & ?); [len|].
  assert (zlen bs = n) by len.
  exists r'. rewrite Hr, Hrest, ztake_app_eq, zdrop_app_eq by done. done.
Qed.

Lemma ReadFull_short n r :
  rd_inv r → zlen (rd_rest r) < n →
  ∃ r', ReadFull n r = (Ret (rd_rest r, Some (short_error (rd_rest r) (rd_fin r))), r') ∧
        rd_inv r' ∧ rd_rest r' = [] ∧ rd_fin r' = rd_fin r.
Proof.
  intros Hi Hl. unfold ReadFull, ReadAtLeast. rewrite Z.ltb_irrefl. pose_lens.
  destruct (read_at_least_spec (Z.to_nat n) n n [] r) as [_ Hs]; [done|lia|lia|len|].
  destruct Hs as (r' & Hr & ? & ? & ?); [len|].
  exists r'. by rewrite Hr.
Qed.

(** [binary.Read] takes exactly the bytes it needs from the front. *)
Lemma ReadBytes_app n r bs tl :
  rd_inv r → rd_rest r = bs ++ tl → zlen bs = n →
  ∃ r', ReadBytes n r = (Ret bs, r') ∧ rd_inv r' ∧ rd_rest r' = tl ∧ rd_fin r' = rd_fin r.
Proof.
  intros Hi Hrest <-. unfold ReadBytes. pose proof (zlen_nonneg bs).
  destruct (ReadFull_ok (zlen bs) r) as (r' & -> & ? & Hr' & ?); [done|done|rewrite Hrest; len|].
  exists r'. rewrite Hr', Hrest, ztake_app_eq, zdrop_app_eq by done. done.
Qed.
Lemma ReadBytes_short n r :
  rd_inv r → zlen (rd_rest r) < n →
  ∃ r', ReadBytes n r = (Fail (short_error (rd_rest r) (rd_fin r)), r') ∧
        rd_inv r' ∧ rd_rest r' = [] ∧ rd_fin r' = rd_fin r.
Proof.
  intros Hi Hl. unfold ReadBytes.
  destruct (ReadFull_short n r) as (r' & -> & ? & ? & ?); [done|done|]. by exists r'.
Qed.

(** Draining a reader yields all its content; one call per byte and one for the
    final error are enough. *)
Lemma drain_spec fuel chunk acc r :
  rd_inv r → 0 < chunk → (length (rd_rest r) < fuel)%nat →
  ∃ r', drain fuel chunk acc r =
      (Ret (acc ++ rd_rest r, if bool_decide (rd_fin r = EOF) then None else Some (rd_fin r)), r') ∧
    rd_inv r' ∧ rd_rest r' = [] ∧ rd_fin r' = rd_fin r.
Proof.
  revert acc r. induction fuel as [|fuel IH]; intros acc r Hi Hc Hf; [lia|]. cbn [drain].
  destruct (rd_read_spec chunk r Hi Hc) as (bs & e & r' & -> & Hi' & Hrest & Hlen & Hfin & He).
  destruct e as [x|].
  - destruct He as [-> Hnil]. rewrite Hnil, app_nil_r in Hrest. subst bs. by exists r'.
  - assert (length bs ≠ O) by (by destruct bs).
    destruct (IH (acc ++ bs) r' Hi' Hc) as (r'' & Hr & ? & ? & ?).
    { rewrite Hrest, length_app in Hf. lia. }
    exists r''. rewrite Hr, Hrest, Hfin, app_assoc. split_and!; congruence.
Qed.
End ReadSpecs.

(** ** Readers that return their final error by itself

    [io.Reader] allows the final error together with the last bytes.
    [bytes.Reader], files and pipes never do that; [eager] always does (as
    [iotest.DataErrReader]). *)
Class SeparateReader (R : Type) `{ReaderSpec R} : Prop :=
  rd_separate n r bs e r' :
    rd_inv r → 0 < n → rd_read n r = (Ret (bs, Some e), r') → bs = [].

(** ** [bytes.Reader] *)
#[export] Instance bytes_Reader : Reader (list Z) := λ n l,
  if bool_decide (l = []) then (Ret ([], Some EOF), l)
  else (Ret (ztake n l, None), zdrop n l).

#[export, program] Instance bytes_ReaderSpec : ReaderSpec (list Z) := {|
  rd_inv := λ _, True;
  rd_rest := λ l, l;
  rd_fin := λ _, EOF
|}.
Next Obligation.
  intros n r _ Hn. unfold rd_read, bytes_Reader. cbn beta. case_bool_decide as Hr.
  - subst r. exists [], (Some EOF), []. split_and!; first [done | rewrite zlen_nil; lia].
  - exists (ztake n r), None, (zdrop n r). rewrite ztake_zdrop. split_and!; try done; [len|].
    destruct r as [|b r]; [done|]. intros Hz. apply (f_equal zlen) in Hz. len.
Qed.

(** ** A reader of short reads that ends with any error

    The environment of a network or pipe reader: each call returns at most one
    of the pending chunks. *)
Record chunked := mkChunked { chunks : list (list Z); final : error }.

Definition chunked_next (n : Z) (c : chunked) : res (list Z * option error) * chunked :=
  match chunks c with
  | [] => (Ret ([], Some (final c)), c)
  | b :: t =>
      if zlen b <=? n then (Ret (b, None), mkChunked t (final c))
      else (Ret (ztake n b, None), mkChunked (zdrop n b :: t) (final c))
  end.
#[export] Instance chunked_Reader : Reader chunked := chunked_next.

#[export, program] Instance chunked_ReaderSpec : ReaderSpec chunked := {|
  rd_inv := λ c, Forall (λ b, b ≠ []) (chunks c);
  rd_rest := λ c, concat (chunks c);
  rd_fin := final
|}.
Next Obligation.
  intros n [cs fin] Hi Hn. unfold rd_read, chunked_Reader, chunked_next. cbn in *.
  destruct cs as [|b t].
  { exists [], (Some fin), (mkChunked [] fin). split_and!; first [done | rewrite zlen_nil; lia]. }
  apply Forall_cons in Hi as [Hb Ht]. destruct (Z.leb_spec (zlen b) n).
  - exists b, None, (mkChunked t fin). by split_and!.
  - exists (ztake n b), None, (mkChunked (zdrop n b :: t) fin). cbn.
    split_and!; try done.
    + constructor; [|done]. intros Hz. apply (f_equal zlen) in Hz. len.
    + by rewrite app_assoc, ztake_zdrop.
    + len.
    + intros Hz. apply (f_equal zlen) in Hz. len.
Qed.

(** ** [io.SectionReader]

    A section of a file of which [sec_size] bytes are declared and [sec_data]
    are there; reads start at [sec_pos].  [sec_fin] is the error at the end. *)
Record SectionReader := mkSection { sec_data : list Z; sec_size : Z; sec_pos : Z; sec_fin : error }.

Definition sec_rest (s : SectionReader) : list Z := zdrop (sec_pos s) (sec_data s).
Definition section_read (n : Z) (s : SectionReader) : res (list Z * option error) * SectionReader :=
  if bool_decide (sec_rest s = []) then (Ret ([], Some (sec_fin s)), s)
  else
    let bs := ztake n (sec_rest s) in
    (Ret (bs, None), mkSection (sec_data s) (sec_size s) (sec_pos s + zlen bs) (sec_fin s)).
#[export] Instance section_Reader : Reader SectionReader := section_read.

#[export, program] Instance section_ReaderSpec : ReaderSpec SectionReader := {|
  rd_inv := λ s, 0 ≤ sec_pos s;
  rd_rest := sec_rest;
  rd_fin := sec_fin
|}.
Next Obligation.
  intros n s Hs Hn. cbn beta in Hs. unfold rd_read, section_Reader, section_read. case_bool_decide as Hr.
  - exists [], (Some (sec_fin s)), s. rewrite Hr. split_and!; first [done | rewrite zlen_nil; lia].
  - set (bs := ztake n (sec_rest s)). do 3 eexists. split; [done|]. unfold sec_rest at 2.
    cbn [sec_data sec_pos sec_fin]. split; [pose_lens; lia|]. rewrite <- (ztake_zdrop n (sec_rest s)) at 1. fold bs.
    split_and!; try done; [|subst bs; len|].
    + pose proof (zlen_nonneg bs). unfold sec_rest. rewrite <- zdrop_zdrop by lia. fold (sec_rest s).
      f_equal.
      destruct (Z.le_gt_cases (zlen (sec_rest s)) n).
      * rewrite !zdrop_all; [done| |done]. subst bs. len.
      * replace (zlen bs) with n by (subst bs; len). done.
    + intros Hz. apply Hr. apply (f_equal zlen) in Hz. subst bs. destruct (sec_rest s); [done|]. len.
Qed.
#[export] Instance section_SeparateReader : SeparateReader SectionReader.
Proof.
  intros n s bs e s' _ Hn. unfold rd_read, section_Reader, section_read.
  case_bool_decide; intros [= <-]; done.
Qed.

(** [io.NewSectionReader(r, off, n)] of a file and of a section; reading before
    the start is an error of the file, and the end of a section. *)
Definition NewSectionReader (file : list Z) (off n : Z) : SectionReader :=
  if off <? 0 then mkSection [] n 0 (New "negative offset")
  else mkSection (ztake n (zdrop off file)) n 0 EOF.
Definition SubSection (s : SectionReader) (off n : Z) : SectionReader :=
  if (off <? 0) || (sec_size s <=? off) then mkSection [] n 0 EOF
  else mkSection (ztake n (zdrop off (sec_data s))) n 0 (sec_fin s).

(** ** [io.LimitedReader] and [io.CopyN] to [io.Discard] *)
Record LimitedReader (R : Type) := mkLimited { lr_R : R; lr_N : Z }.
Arguments mkLimited {R} _ _.
Arguments lr_R {R} _.
Arguments lr_N {R} _.

#[export] Instance limited_Reader {R} `{Reader R} : Reader (LimitedReader R) := λ n l,
  if lr_N l <=? 0 then (Ret ([], Some EOF), l)
  else match rd_read (Z.min n (lr_N l)) (lr_R l) with
  | (Ret (bs, e), r') => (Ret (bs, e), mkLimited r' (lr_N l - zlen bs))
  | (Fail e, r') => (Fail e, mkLimited r' (lr_N l))
  | (Panic w, r') => (Panic w, mkLimited r' (lr_N l))
  | (NoFuel, r') => (NoFuel, mkLimited r' (lr_N l))
  end.

Lemma limited_read {R} `{Reader R} n (l : LimitedReader R) :
  rd_read n l =
    if lr_N l <=? 0 then (Ret ([], Some EOF), l)
    else match rd_read (Z.min n (lr_N l)) (lr_R l) with
    | (Ret (bs, e), r') => (Ret (bs, e), mkLimited r' (lr_N l - zlen bs))
    | (Fail e, r') => (Fail e, mkLimited r' (lr_N l))
    | (Panic w, r') => (Panic w, mkLimited r' (lr_N l))
    | (NoFuel, r') => (NoFuel, mkLimited r' (lr_N l))
    end.
Proof. reflexivity. Qed.

(** [io.CopyN(io.Discard, r, n)]: the error is [io.EOF] when fewer than [n]
    bytes were there. *)
Definition DiscardN {R} `{Reader R} (fuel : nat) (n : Z) : St R unit := λ r,
  match drain fuel 8192 [] (mkLimited r n) with
  | (Ret (bs, e), l) =>
      if zlen bs =? n then (Ret (), lr_R l)
      else if (zlen bs <? n) && bool_decide (e = None) then (Fail EOF, lr_R l)
      else (match e with Some x => Fail x | None => Ret () end, lr_R l)
  | (Fail e, l) => (Fail e, lr_R l)
  | (Panic w, l) => (Panic w, lr_R l)
  | (NoFuel, l) => (NoFuel, lr_R l)
  end.


(** Draining a limited reader takes the next [n] bytes, or all there is. *)
Lemma drain_limited {R} `{ReaderSpec R} fuel chunk acc (r : R) n :
  rd_inv r → 0 < chunk → (Z.to_nat (Z.min n (zlen (rd_rest r))) < fuel)%nat →
  ∃ r' k e, drain fuel chunk acc (mkLimited r n) =
      (Ret (acc ++ ztake n (rd_rest r), e), mkLimited r' k) ∧
    rd_inv r' ∧ rd_rest r' = zdrop n (rd_rest r) ∧ rd_fin r' = rd_fin r ∧
    (zlen (rd_rest r) < n → e = if bool_decide (rd_fin r = EOF) then None else Some (rd_fin r)).
Proof.
  revert acc r n. induction fuel as [|fuel IH]; intros acc r n Hi Hc Hf; [lia|].
  cbn [drain]. rewrite limited_read. cbn [lr_N lr_R].
  destruct (Z.leb_spec n 0) as [Hn|Hn].
  { exists r, n, None. cbn. pose_lens. unfold ztake, zdrop.
    replace (Z.to_nat n) with O by lia. split_and!; try done. lia. }
  destruct (rd_read_spec (Z.min chunk n) r Hi ltac:(lia))
    as (bs & e & r' & -> & Hi' & Hrest & Hlen & Hfin & He).
  destruct e as [x|].
  - destruct He as [-> Hnil]. rewrite Hnil, app_nil_r in Hrest. subst bs.
    exists r', (n - zlen (rd_rest r)), (if bool_decide (rd_fin r = EOF) then None else Some (rd_fin r)).
    rewrite ztake_all, zdrop_all by lia. done.
  - assert (0 < zlen bs) by (destruct bs; [done|]; len).
    destruct (IH (acc ++ bs) r' (n - zlen bs) Hi' Hc) as (r'' & k & e & Hr & ? & Hd & ? & He').
    { rewrite Hrest in Hf. autorewrite with golist in Hf. pose_lens. lia. }
    exists r'', k, e. rewrite Hr, Hrest, Hd. split_and!; try congruence.
    + do 3 f_equal. rewrite <- app_assoc. f_equal.
      rewrite <- (ztake_app_eq (zlen bs) bs (ztake (n - zlen bs) (rd_rest r'))) at 1 by done.
      unfold ztake, zlen in *. rewrite take_app_length', take_app_ge by lia.
      f_equal. f_equal. lia.
    + rewrite zdrop_app_ge by lia. done.
    + intros. rewrite <- Hfin. apply He'. len.
Qed.

(** [io.CopyN(io.Discard, r, n)] drops [n] bytes, or fails at the end. *)
Lemma DiscardN_ok {R} `{ReaderSpec R} fuel n (r : R) :
  rd_inv r → 0 ≤ n ≤ zlen (rd_rest r) → (Z.to_nat n < fuel)%nat →
  ∃ r', DiscardN fuel n r = (Ret (), r') ∧ rd_inv r' ∧
    rd_rest r' = zdrop n (rd_rest r) ∧ rd_fin r' = rd_fin r.
Proof.
  intros Hi Hn Hf. unfold DiscardN.
  destruct (drain_limited fuel 8192 [] r n) as (r' & k & e & -> & ? & ? & ? & _); [done|lia|lia|].
  exists r'. cbn [app]. rewrite (proj2 (Z.eqb_eq _ _)) by len. done.
Qed.
Lemma DiscardN_short {R} `{ReaderSpec R} fuel n (r : R) :
  rd_inv r → zlen (rd_rest r) < n → (length (rd_rest r) < fuel)%nat →
  ∃ r', DiscardN fuel n r = (Fail (rd_fin r), r') ∧ rd_inv r' ∧ rd_rest r' = [].
Proof.
  intros Hi Hn Hf. unfold DiscardN.
  destruct (drain_limited fuel 8192 [] r n) as (r' & k & e & -> & ? & Hr & ? & He).
  { done. } { lia. } { unfold zlen. lia. }
  exists r'. cbn [app lr_R]. rewrite ztake_all by lia.
  replace (zlen (rd_rest r) =? n) with false by lia.
  replace (zlen (rd_rest r) <? n) with true by lia. rewrite (He Hn), Hr, zdrop_all by lia.
  case_bool_decide as Hfin; [|done]. rewrite Hfin. done.
Qed.

#[export] Instance bytes_SeparateReader : SeparateReader (list Z).
Proof.
  intros n r bs e r' _ Hn. unfold rd_read, bytes_Reader. cbn beta.
  case_bool_decide; intros [= <-]; done.
Qed.
#[export] Instance chunked_SeparateReader : SeparateReader chunked.
Proof.
  intros n [cs fin] bs e r' _ Hn. unfold rd_read, chunked_Reader, chunked_next. cbn [chunks final].
  destruct cs; [intros [= <-]; done|]. case_match; done.
Qed.

Record eager := mkEager { e_rest : list Z }.
#[export] Instance eager_Reader : Reader eager := λ n r,
  if zlen (e_rest r) <=? n then (Ret (e_rest r, Some EOF), mkEager [])
  else (Ret (ztake n (e_rest r), None), mkEager (zdrop n (e_rest r))).
#[export, program] Instance eager_ReaderSpec : ReaderSpec eager := {|
  rd_inv := λ _, True;
  rd_rest := e_rest;
  rd_fin := λ _, EOF
|}.
Next Obligation.
  intros n [r] _ Hn. unfold rd_read, eager_Reader. cbn [e_rest].
  destruct (Z.leb_spec (zlen r) n).
  - exists r, (Some EOF), (mkEager []). rewrite app_nil_r. by split_and!.
  - exists (ztake n r), None, (mkEager (zdrop n r)). cbn [e_rest].
    rewrite ztake_zdrop. split_and!; try done; [len|].
    intros Hz. apply (f_equal zlen) in Hz. len.
Qed.

(** ** [io.Seeker], as far as the repository uses it: [Seek(n, io.SeekCurrent)]

    [sk_seek] is [None] for a type that does not implement [io.Seeker]; a type
    that does may still refuse every seek ([os.File] on a pipe). *)
Class Seeker (R : Type) : Type := sk_seek : option (Z → R → res Z * R).

Class SeekerSpec (R : Type) `{ReaderSpec R} `{Seeker R} : Type := {
  sk_can : R → bool;
  sk_seek_spec f n r : sk_seek = Some f → rd_inv r → 0 ≤ n ≤ zlen (rd_rest r) →
    if sk_can r then
      ∃ p r', f n r = (Ret p, r') ∧ rd_inv r' ∧ rd_rest r' = zdrop n (rd_rest r) ∧
        rd_fin r' = rd_fin r ∧ sk_can r' = true
    else ∃ e, f n r = (Fail e, r)
}.

(** [chunked] is not a seeker, a [seekable] file is one unless it is a pipe. *)
#[export] Instance chunked_Seeker : Seeker chunked := None.
#[export, program] Instance chunked_SeekerSpec : SeekerSpec chunked := {| sk_can := λ _, false |}.
Next Obligation. done. Qed.

#[export] Instance eager_Seeker : Seeker eager := None.
#[export, program] Instance eager_SeekerSpec : SeekerSpec eager := {| sk_can := λ _, false |}.
Next Obligation. done. Qed.

#[export] Instance bytes_Seeker : Seeker (list Z) :=
  Some (λ n l, (Ret (zlen l - n), zdrop n l)).
#[export, program] Instance bytes_SeekerSpec : SeekerSpec (list Z) := {| sk_can := λ _, true |}.
Next Obligation. intros f n r [= <-] _ Hn. by exists (zlen r - n), (zdrop n r). Qed.

(** ** Writers

    [wr_write b w] returns the count of bytes taken and an error. *)
Class Writer (W : Type) : Type := wr_write : list Z → W → res (Z * option error) * W.

Class WriterSpec (W : Type) `{Writer W} : Type := {
  wr_out : W → list Z;
  wr_write_spec b w : ∃ n e w', wr_write b w = (Ret (n, e), w') ∧ 0 ≤ n ≤ zlen b ∧
    wr_out w' = wr_out w ++ ztake n b ∧ (e = None → n = zlen b)
}.

(** [binary.Write]: one [Write] of the whole encoding. *)
Definition WriteBytes {W} `{Writer W} (b : list Z) : St W unit := λ w,
  match wr_write b w with
  | (Ret (_, None), w') => (Ret (), w')
  | (Ret (_, Some e), w') => (Fail e, w')
  | (Fail e, w') => (Fail e, w')
  | (Panic m, w') => (Panic m, w')
  | (NoFuel, w') => (NoFuel, w')
  end.

(** A successful write appends everything; a failed one a prefix. *)
Lemma WriteBytes_spec {W} `{WriterSpec W} b w :
  (∃ w', WriteBytes b w = (Ret (), w') ∧ wr_out w' = wr_out w ++ b) ∨
  (∃ e w' k, WriteBytes b w = (Fail e, w') ∧ wr_out w' = wr_out w ++ ztake k b).
Proof.
  unfold WriteBytes. destruct (wr_write_spec b w) as (n & [e|] & w' & -> & Hn & Ho & He).
  - right. by exists e, w', n.
  - left. exists w'. rewrite Ho, He, ztake_all by done. done.
Qed.

(** [bytes.Buffer], and a writer that accepts a limited number of bytes. *)
Definition Buffer := list Z.
#[export] Instance Buffer_Writer : Writer Buffer := λ b w, (Ret (zlen b, None), w ++ b).
#[export, program] Instance Buffer_WriterSpec : WriterSpec Buffer := {| wr_out := λ w, w |}.
Next Obligation.
  intros b w. exists (zlen b), None, (w ++ b). rewrite ztake_all by lia. split_and!; try done; len.
Qed.

Record limited_writer := mkLW { lw_out : list Z; lw_left : Z; lw_err : error }.
#[export] Instance limited_Writer : Writer limited_writer := λ b w,
  if zlen b <=? lw_left w then
    (Ret (zlen b, None), mkLW (lw_out w ++ b) (lw_left w - zlen b) (lw_err w))
  else let n := Z.max 0 (lw_left w) in
    (Ret (n, Some (lw_err w)), mkLW (lw_out w ++ ztake n b) 0 (lw_err w)).
#[export, program] Instance limited_WriterSpec : WriterSpec limited_writer := {| wr_out := lw_out |}.
Next Obligation.
  intros b [o l e]. unfold wr_write, limited_Writer. cbn [lw_left lw_out lw_err].
  destruct (Z.leb_spec (zlen b) l).
  - exists (zlen b), None, (mkLW (o ++ b) (l - zlen b) e). cbn [lw_out].
    rewrite ztake_all by lia. split_and!; try done; len.
  - do 3 eexists. split; [done|]. cbn [lw_out]. split_and!; try done; len.
Qed.

(** ** [io.Copy] between a reader and a writer

    The count of bytes copied and the error; a reader that ends with [io.EOF]
    ends the copy without one. *)
Definition ErrShortWrite : error := New "short write".
Fixpoint copy_loop {R W} `{Reader R} `{Writer W} (fuel : nat) (written : Z) (s : R * W) :
    res (Z * option error) * (R * W) :=
  match fuel with
  | O => (NoFuel, s)
  | S fuel =>
      let '(r, w) := s in
      match rd_read 32768 r with
      | (Ret (bs, er), r) =>
          let '(x, w) := if zlen bs =? 0 then (Ret (0, None), w) else wr_write bs w in
          match x with
          | Ret (nw, ew) =>
              let written := written + nw in
              match ew with
              | Some e => (Ret (written, Some e), (r, w))
              | None =>
                  if negb (nw =? zlen bs) then (Ret (written, Some ErrShortWrite), (r, w))
                  else match er with
                  | None => copy_loop fuel written (r, w)
                  | Some e => (Ret (written, if bool_decide (e = EOF) then None else Some e), (r, w))
                  end
              end
          | Fail e => (Fail e, (r, w))
          | Panic m => (Panic m, (r, w))
          | NoFuel => (NoFuel, (r, w))
          end
      | (Fail e, r) => (Fail e, (r, w))
      | (Panic m, r) => (Panic m, (r, w))
      | (NoFuel, r) => (NoFuel, (r, w))
      end
  end.

(** Copying to a writer that takes up to [cap] bytes; [acc l] is the writer that
    has taken [l]. *)
Lemma copy_loop_spec {R W} `{ReaderSpec R} `{Writer W} (acc : list Z → W) cap fuel l (r : R) written :
  (∀ l b, zlen (l ++ b) ≤ cap → wr_write b (acc l) = (Ret (zlen b, None), acc (l ++ b))) →
  rd_inv r → zlen (l ++ rd_rest r) ≤ cap → (length (rd_rest r) < fuel)%nat →
  ∃ r', copy_loop fuel written (r, acc l) =
      (Ret (written + zlen (rd_rest r), if bool_decide (rd_fin r = EOF) then None else Some (rd_fin r)),
       (r', acc (l ++ rd_rest r))) ∧ rd_inv r' ∧ rd_rest r' = [] ∧ rd_fin r' = rd_fin r.
Proof.
  intros Hw. revert l r written. induction fuel as [|fuel IH]; intros l r written Hi Hc Hf; [lia|]. cbn [copy_loop].
  destruct (rd_read_spec 32768 r Hi) as (bs & e & r' & -> & Hi' & Hrest & Hlen & Hfin & He); [lia|].
  assert (Hx : (if zlen bs =? 0 then (Ret (0, None), acc l) else wr_write bs (acc l)) = (Ret (zlen bs, None), acc (l ++ bs))).
  { destruct (Z.eqb_spec (zlen bs) 0) as [E|].
    - destruct bs; [by rewrite app_nil_r|]. rewrite zlen_cons in E. pose_lens. lia.
    - apply Hw. rewrite Hrest, !zlen_app in Hc. rewrite zlen_app. pose_lens. lia. }
  rewrite Hx, Z.eqb_refl. cbn [negb]. destruct e as [x|].
  - destruct He as [-> Hnil]. rewrite Hnil, app_nil_r in Hrest. exists r'. by rewrite <- Hrest.
  - assert (length bs ≠ O) by (by destruct bs).
    destruct (IH (l ++ bs) r' (written + zlen bs) Hi') as (r2 & -> & ? & ? & ?).
    { rewrite <- app_assoc, <- Hrest. done. } { rewrite Hrest, length_app in Hf. lia. }
    exists r2. rewrite Hrest, zlen_app, Hfin, app_assoc, Z.add_assoc. split_and!; (done || congruence).
Qed.
