(* ===== verification/Backup.v ===== *)
(** * Backup streams ([backup.go])

    The Win32 backup stream format: [BackupStreamReader] over any reader of
    [Streams], [BackupStreamWriter] over any writer, and the file reader and
    writer on top of the BackupRead and BackupWrite calls. *)
From S2P Require Import Prelude GoStrings Unicode Streams.

Definition BackupData : Z := 1.
Definition BackupEaData : Z := 2.
Definition BackupSecurity : Z := 3.
Definition BackupAlternateData : Z := 4.
Definition BackupLink : Z := 5.
Definition BackupPropertyData : Z := 6.
Definition BackupObjectId : Z := 7.
Definition BackupReparseData : Z := 8.
Definition BackupSparseBlock : Z := 9.
Definition BackupTxfsData : Z := 10.

Definition StreamSparseAttributes : Z := 8.

Record BackupHeader := mkHdr {
  Id : Z;
  Attributes : Z;
  Size : Z;
  Name : list Z;
  Offset : Z }.

#[export] Instance BackupHeader_eq_dec : EqDecision BackupHeader.
Proof. solve_decision. Defined.

Record win32StreamID := mkSID {
  sid_StreamID : Z;
  sid_Attributes : Z;
  sid_Size : Z;
  sid_NameSize : Z }.

Definition sid_bytes (w : win32StreamID) : list Z :=
  le_bytes 4 (sid_StreamID w) ++ le_bytes 4 (sid_Attributes w) ++
  le_bytes 8 (sid_Size w) ++ le_bytes 4 (sid_NameSize w).
(** [binary.Size(win32StreamID{})] *)
Definition sid_size : Z := 20.
Definition sid_of_bytes (b : list Z) : win32StreamID :=
  mkSID (le_val (ztake 4 b)) (le_val (ztake 4 (zdrop 4 b)))
        (le_val (ztake 8 (zdrop 8 b))) (le_val (ztake 4 (zdrop 16 b))).

(** ** [BackupStreamReader] *)
Record BackupStreamReader (R : Type) := mkBSR { bsr_r : R; bytesLeft : Z }.
Arguments mkBSR {R} _ _.
Arguments bsr_r {R} _.
Arguments bytesLeft {R} _.

Definition NewBackupStreamReader {R} (r : R) : BackupStreamReader R := mkBSR r 0.

Section StreamReader.
Context {R : Type} `{Reader R} `{Seeker R}.

(** [BackupStreamReader.Read]; [n] is the length of the buffer. *)
Definition Read (n : Z) (s : BackupStreamReader R) :
    res (list Z * option error) * BackupStreamReader R :=
  if bytesLeft s =? 0 then (Ret ([], Some EOF), s)
  else if (n >? bytesLeft s) && (bytesLeft s <? 0) then (Panic "slice bounds out of range", s)
  else
    let n := if n >? bytesLeft s then bytesLeft s else n in
    match rd_read n (bsr_r s) with
    | (Ret (bs, err), r') =>
        let left := bytesLeft s - zlen bs in
        let err' := if bool_decide (err = Some EOF) then Some ErrUnexpectedEOF
                    else if (left =? 0) && bool_decide (err = None) then Some EOF
                    else err in
        (Ret (bs, err'), mkBSR r' left)
    | (Fail e, r') => (Fail e, mkBSR r' (bytesLeft s))
    | (Panic w, r') => (Panic w, mkBSR r' (bytesLeft s))
    | (NoFuel, r') => (NoFuel, mkBSR r' (bytesLeft s))
    end.
#[export] Instance BackupStreamReader_Reader : Reader (BackupStreamReader R) := Read.

(** The operations on the underlying reader. *)
Definition on_r {A} (f : St R A) : St (BackupStreamReader R) A := λ s,
  let '(x, r') := f (bsr_r s) in (x, mkBSR r' (bytesLeft s)).

(** The seeks at the start of [Next]. *)
Definition seek_rest : St (BackupStreamReader R) unit := λ s,
  match sk_seek with
  | Some seek =>
      match seek 0 (bsr_r s) with
      | (Ret _, r0) =>
          match seek (bytesLeft s) r0 with
          | (Ret _, r1) => (Ret (), mkBSR r1 0)
          | (Fail e, r1) => (Fail e, mkBSR r1 (bytesLeft s))
          | (Panic w, r1) => (Panic w, mkBSR r1 (bytesLeft s))
          | (NoFuel, r1) => (NoFuel, mkBSR r1 (bytesLeft s))
          end
      | (Fail _, r0) => (Ret (), mkBSR r0 (bytesLeft s))
      | (Panic w, r0) => (Panic w, mkBSR r0 (bytesLeft s))
      | (NoFuel, r0) => (NoFuel, mkBSR r0 (bytesLeft s))
      end
  | None => (Ret (), s)
  end.

(** [io.Copy(io.Discard, r)]: a call per byte and a final one are enough. *)
Definition discard_rest : St (BackupStreamReader R) unit := λ s,
  match drain (S (Z.to_nat (bytesLeft s))) 8192 [] s with
  | (Ret (_, None), s') => (Ret (), s')
  | (Ret (_, Some e), s') => (Fail e, s')
  | (Fail e, s') => (Fail e, s')
  | (Panic w, s') => (Panic w, s')
  | (NoFuel, s') => (NoFuel, s')
  end.

(** The skipping of the rest of the current stream, in [Next]. *)
Definition skip_rest : St (BackupStreamReader R) unit := λ s,
  if 0 <? bytesLeft s then (_ ← seek_rest; discard_rest) s else (Ret (), s).

(** The variable parts of the header: the name, and the block offset with the
    size that is left for the data. *)
Definition read_name (UTF16ToString : list Z → list Z) (wsi : win32StreamID) :
    St (BackupStreamReader R) (list Z) :=
  if negb (sid_NameSize wsi =? 0) then
    let n := sid_NameSize wsi / 2 in
    nb ← on_r (ReadBytes (2 * n));
    mret (UTF16ToString (words_of_le (Z.to_nat n) nb))
  else mret [].
Definition read_offset (wsi : win32StreamID) : St (BackupStreamReader R) (Z * Z) :=
  if sid_StreamID wsi =? BackupSparseBlock then
    ob ← on_r (ReadBytes 8);
    mret (i64 (le_val ob), i64 (i64 (sid_Size wsi) - 8))
  else mret (0, i64 (sid_Size wsi)).

Definition Next (UTF16ToString : list Z → list Z) : St (BackupStreamReader R) BackupHeader :=
  _ ← skip_rest;
  b ← on_r (ReadBytes sid_size);
  let wsi := sid_of_bytes b in
  name ← read_name UTF16ToString wsi;
  '(offset, size) ← read_offset wsi;
  _ ← modify (λ s, mkBSR (bsr_r s) size);
  mret (mkHdr (sid_StreamID wsi) (sid_Attributes wsi) size name offset).
End StreamReader.

(** ** [BackupStreamWriter] *)
Record BackupStreamWriter (W : Type) := mkBSW { bsw_w : W; bsw_left : Z }.
Arguments mkBSW {W} _ _.
Arguments bsw_w {W} _.
Arguments bsw_left {W} _.

Definition NewBackupStreamWriter {W} (w : W) : BackupStreamWriter W := mkBSW w 0.

Section StreamWriter.
Context {W : Type} `{Writer W}.

Definition on_w {A} (f : St W A) : St (BackupStreamWriter W) A := λ s,
  let '(x, w') := f (bsw_w s) in (x, mkBSW w' (bsw_left s)).

Definition WriteHeader (hdr : BackupHeader) : St (BackupStreamWriter W) unit :=
  w ← get;
  if negb (bsw_left w =? 0) then fail (Errorf "missing %d bytes" [bsw_left w] [])
  else
    let name := to_utf16 (Name hdr) in
    let sparse := Id hdr =? BackupSparseBlock in
    let size := if sparse then u64 (u64 (Size hdr) + 8) else u64 (Size hdr) in
    let wsi := mkSID (Id hdr) (Attributes hdr) size (u32 (zlen name * 2)) in
    _ ← on_w (WriteBytes (sid_bytes wsi));
    _ ← (if negb (zlen name =? 0) then on_w (WriteBytes (le_words name)) else mret ());
    _ ← (if sparse then on_w (WriteBytes (le_bytes 8 (u64 (Offset hdr)))) else mret ());
    modify (λ w, mkBSW (bsw_w w) (Size hdr)).

Definition Write (b : list Z) (s : BackupStreamWriter W) :
    res (Z * option error) * BackupStreamWriter W :=
  if bsw_left s <? zlen b then
    (Ret (0, Some (Errorf "too many bytes by %d" [zlen b - bsw_left s] [])), s)
  else match wr_write b (bsw_w s) with
  | (Ret (n, err), w') => (Ret (n, err), mkBSW w' (bsw_left s - n))
  | (Fail e, w') => (Fail e, mkBSW w' (bsw_left s))
  | (Panic m, w') => (Panic m, mkBSW w' (bsw_left s))
  | (NoFuel, w') => (NoFuel, mkBSW w' (bsw_left s))
  end.
#[export] Instance BackupStreamWriter_Writer : Writer (BackupStreamWriter W) := Write.
End StreamWriter.

(** ** [BackupFileReader] and [BackupFileWriter]

    The Win32 calls are arguments: they take the handle, the buffer (its length
    for a read), the abort and security flags and the context cookie, and
    return a result, the new cookie and the new state of the system. *)
Record BackupFile := mkBF { bf_path : list Z; includeSecurity : bool; bf_ctx : Z }.

Definition NewBackupFileReader (f : list Z) (sec : bool) : BackupFile := mkBF f sec 0.
Definition NewBackupFileWriter (f : list Z) (sec : bool) : BackupFile := mkBF f sec 0.

Definition PathError (op : string) (path : list Z) (e : error) : error := Wrapf op [] [path] e.

Section FileReader.
Context {OS : Type} (h : Z).
Context (backupRead : Z → Z → bool → bool → Z → OS → res (list Z) * Z * OS).
Context (backupWrite : Z → list Z → bool → bool → Z → OS → res Z * Z * OS).

Definition FileRead (n : Z) (s : BackupFile * OS) : res (list Z * option error) * (BackupFile * OS) :=
  let '(r, os) := s in
  let '(x, ctx, os') := backupRead h n false (includeSecurity r) (bf_ctx r) os in
  let r' := mkBF (bf_path r) (includeSecurity r) ctx in
  match x with
  | Ret bs => (Ret (bs, if zlen bs =? 0 then Some EOF else None), (r', os'))
  | Fail e => (Ret ([], Some (PathError "BackupRead" (bf_path r) e)), (r', os'))
  | Panic w => (Panic w, (r', os'))
  | NoFuel => (NoFuel, (r', os'))
  end.

Definition FileReadClose (s : BackupFile * OS) : res unit * (BackupFile * OS) :=
  let '(r, os) := s in
  if negb (bf_ctx r =? 0) then
    let '(_, _, os') := backupRead h 0 true false (bf_ctx r) os in
    (Ret (), (mkBF (bf_path r) (includeSecurity r) 0, os'))
  else (Ret (), s).

Definition FileWrite (b : list Z) (s : BackupFile * OS) : res (Z * option error) * (BackupFile * OS) :=
  let '(w, os) := s in
  let '(x, ctx, os') := backupWrite h b false (includeSecurity w) (bf_ctx w) os in
  let w' := mkBF (bf_path w) (includeSecurity w) ctx in
  match x with
  | Ret n => (Ret (if negb (n =? zlen b) then (n, Some (New "not all bytes could be written"))
                   else (zlen b, None)), (w', os'))
  | Fail e => (Ret (0, Some (PathError "BackupWrite" (bf_path w) e)), (w', os'))
  | Panic m => (Panic m, (w', os'))
  | NoFuel => (NoFuel, (w', os'))
  end.

Definition FileWriteClose (s : BackupFile * OS) : res unit * (BackupFile * OS) :=
  let '(w, os) := s in
  if negb (bf_ctx w =? 0) then
    let '(_, _, os') := backupWrite h [] true false (bf_ctx w) os in
    (Ret (), (mkBF (bf_path w) (includeSecurity w) 0, os'))
  else (Ret (), s).
End FileReader.

(** ** Reading one stream *)
Section ReadProofs.
Context {R : Type} `{SeparateReader R} `{!Seeker R} `{!SeekerSpec R}.

Lemma ztake_cut (l bs l' : list Z) n :
  l = bs ++ l' → zlen bs ≤ n → ztake n l = bs ++ ztake (n - zlen bs) l'.
Proof.
  intros -> Hn. unfold ztake, zlen in *. rewrite take_app_ge by lia. do 2 f_equal. lia.
Qed.

(** The bytes of the current stream, and the error that ends them. *)
Definition stream_rest (s : BackupStreamReader R) : list Z :=
  ztake (bytesLeft s) (rd_rest (bsr_r s)).
Definition stream_fin (s : BackupStreamReader R) : error :=
  if bytesLeft s <=? zlen (rd_rest (bsr_r s)) then EOF
  else if bool_decide (rd_fin (bsr_r s) = EOF) then ErrUnexpectedEOF else rd_fin (bsr_r s).

Lemma Read_spec n s :
  rd_inv (bsr_r s) → 0 ≤ bytesLeft s → 0 < n →
  ∃ bs e s', Read n s = (Ret (bs, e), s') ∧ rd_inv (bsr_r s') ∧ 0 ≤ bytesLeft s' ∧
    stream_rest s = bs ++ stream_rest s' ∧ zlen bs ≤ n ∧ stream_fin s' = stream_fin s ∧
    match e with None => bs ≠ [] | Some x => x = stream_fin s ∧ stream_rest s' = [] end ∧
    zdrop (bytesLeft s') (rd_rest (bsr_r s')) = zdrop (bytesLeft s) (rd_rest (bsr_r s)) ∧
    rd_fin (bsr_r s') = rd_fin (bsr_r s).
Proof.
  destruct s as [r left]. cbn [bsr_r bytesLeft]. intros Hi Hl Hn.
  unfold Read, stream_rest, stream_fin. cbn [bsr_r bytesLeft].
  destruct (Z.eqb_spec left 0) as [->|Hl0].
  { exists [], (Some EOF), (mkBSR r 0). cbn [bsr_r bytesLeft].
    replace (0 <=? _) with true by len. split_and!; first [done | rewrite zlen_nil; lia]. }
  replace (left <? 0) with false by lia. rewrite andb_false_r.
  set (n' := if n >? left then left else n).
  assert (Hn' : 0 < n' ∧ n' ≤ n ∧ n' ≤ left) by (subst n'; destruct (n >? left) eqn:?; lia).
  clearbody n'.
  destruct (rd_read_spec n' r Hi ltac:(lia)) as (bs & e & r' & Hr & Hi' & Hrest & Hlen & Hfin & He).
  rewrite Hr. do 3 eexists. split; [done|]. cbn [bsr_r bytesLeft].
  split; [done|]. split; [lia|]. rewrite (ztake_cut _ _ _ left Hrest) by lia.
  assert (Hz : zlen (rd_rest r) = zlen bs + zlen (rd_rest r')) by (rewrite Hrest; len).
  split_and!; [done|lia| | |by rewrite Hrest, zdrop_app_ge by lia|done].
  - rewrite Hfin, Hz. replace (left - zlen bs <=? zlen (rd_rest r'))
      with (left <=? zlen bs + zlen (rd_rest r')) by lia. done.
  - destruct e as [x|].
    + destruct He as [-> Hnil]. pose proof (rd_separate _ _ _ _ _ Hi (proj1 Hn') Hr) as ->.
      rewrite Hnil in *. rewrite Hz, ztake_nil. rewrite !zlen_nil in *.
      replace (left <=? 0 + 0) with false by lia.
      rewrite (bool_decide_ext _ (rd_fin r = EOF)) by (split; [by intros [=]|by intros ->]).
      case_bool_decide; [done|].
      rewrite (bool_decide_eq_false_2 (Some _ = None)) by done. by rewrite andb_false_r.
    + rewrite (bool_decide_eq_false_2 (None = Some EOF)) by done.
      rewrite (bool_decide_eq_true_2 (None = None)) by done. rewrite andb_true_r.
      destruct (Z.eqb_spec (left - zlen bs) 0) as [E|]; [|done].
      rewrite E, Hz. pose_lens. replace (left <=? zlen bs + _) with true by lia. done.
Qed.

#[export, program] Instance BackupStreamReader_spec : ReaderSpec (BackupStreamReader R) := {|
  rd_inv := λ s, rd_inv (bsr_r s) ∧ 0 ≤ bytesLeft s;
  rd_rest := stream_rest;
  rd_fin := stream_fin
|}.
Next Obligation.
  intros n s [Hi Hl] Hn. destruct (Read_spec n s) as (bs & e & s' & ?); [done..|].
  exists bs, e, s'. destruct_and!; split_and!; done || congruence.
Qed.

(** The same, for a client that also wants to know where the next header is. *)
Program Definition stream_view (tl : list Z) (f : error) : ReaderSpec (BackupStreamReader R) := {|
  rd_inv := λ s, rd_inv (bsr_r s) ∧ 0 ≤ bytesLeft s ∧
                 zdrop (bytesLeft s) (rd_rest (bsr_r s)) = tl ∧ rd_fin (bsr_r s) = f;
  rd_rest := stream_rest;
  rd_fin := stream_fin
|}.
Next Obligation.
  intros tl f n s (Hi & Hl & Ht & Hf) Hn. destruct (Read_spec n s) as (bs & e & s' & ?); [done..|].
  exists bs, e, s'. destruct_and!; split_and!; done || congruence.
Qed.

(** ** Skipping the unread rest of a stream *)
Lemma stream_done s :
  0 ≤ bytesLeft s → stream_rest s = [] → stream_fin s = EOF → bytesLeft s = 0.
Proof.
  intros Hl Hr Hf. apply (f_equal zlen) in Hr. unfold stream_rest, stream_fin in *.
  autorewrite with golist in Hr. pose_lens.
  destruct (Z.leb_spec (bytesLeft s) (zlen (rd_rest (bsr_r s)))); [lia|].
  case_bool_decide; [discriminate Hf|congruence].
Qed.

Lemma discard_rest_spec s :
  rd_inv (bsr_r s) → 0 ≤ bytesLeft s ≤ zlen (rd_rest (bsr_r s)) →
  ∃ s', discard_rest s = (Ret (), s') ∧ rd_inv (bsr_r s') ∧
    rd_rest (bsr_r s') = zdrop (bytesLeft s) (rd_rest (bsr_r s)) ∧
    rd_fin (bsr_r s') = rd_fin (bsr_r s) ∧ bytesLeft s' = 0.
Proof.
  intros Hi Hl. unfold discard_rest.
  pose (V := stream_view (zdrop (bytesLeft s) (rd_rest (bsr_r s))) (rd_fin (bsr_r s))).
  destruct (drain_spec (H0 := V) (S (Z.to_nat (bytesLeft s))) 8192 [] s)
    as (s' & -> & (Hi' & Hl' & Ht & Hf) & Hrest & Hfin).
  { cbn. split_and!; done || lia. } { lia. }
  { cbn. unfold stream_rest, ztake. rewrite length_take. lia. }
  cbn [rd_fin rd_rest V stream_view] in *.
  assert (Hs : stream_fin s = EOF) by (unfold stream_fin; rewrite (proj2 (Z.leb_le _ _)); done || lia).
  rewrite Hs in *. rewrite bool_decide_eq_true_2 by done.
  exists s'. pose proof (stream_done s' Hl' Hrest Hfin) as Hz.
  rewrite Hz in Ht. by rewrite <- Ht.
Qed.

Lemma skip_rest_spec s :
  rd_inv (bsr_r s) → 0 ≤ bytesLeft s ≤ zlen (rd_rest (bsr_r s)) →
  ∃ s', skip_rest s = (Ret (), s') ∧ rd_inv (bsr_r s') ∧
    rd_rest (bsr_r s') = zdrop (bytesLeft s) (rd_rest (bsr_r s)) ∧
    rd_fin (bsr_r s') = rd_fin (bsr_r s) ∧ bytesLeft s' = 0.
Proof.
  intros Hi Hl. unfold skip_rest. destruct (Z.ltb_spec 0 (bytesLeft s)) as [Hp|Hp].
  2: { exists s. replace (bytesLeft s) with 0 by lia. done. }
  rewrite St_bind_eq. unfold seek_rest.
  destruct sk_seek as [seek|] eqn:Hs; [|by apply discard_rest_spec].
  pose proof (sk_seek_spec seek 0 (bsr_r s) Hs Hi ltac:(lia)) as H0s.
  destruct (sk_can (bsr_r s)).
  - destruct H0s as (p0 & r0 & -> & Hi0 & Hr0 & Hf0 & Hc0). rewrite zdrop_0 in Hr0.
    pose proof (sk_seek_spec seek (bytesLeft s) r0 Hs Hi0 ltac:(by rewrite Hr0)) as H1s.
    rewrite Hc0 in H1s. destruct H1s as (p1 & r1 & -> & Hi1 & Hr1 & Hf1 & _).
    destruct (discard_rest_spec (mkBSR r1 0)) as (s' & -> & ? & Hr' & Hf' & ?);
      [done|cbn [bsr_r bytesLeft]; len|].
    exists s'. rewrite Hr', Hf'. cbn [bsr_r bytesLeft]. by rewrite zdrop_0, Hr1, Hr0, Hf1, Hf0.
  - destruct H0s as (e & ->). destruct s. by apply discard_rest_spec.
Qed.

(** ** Reading a header *)
Definition header_sid (h : BackupHeader) : win32StreamID :=
  mkSID (Id h) (Attributes h) (if Id h =? BackupSparseBlock then Size h + 8 else Size h)
        (2 * zlen (to_utf16 (Name h))).
Definition header_bytes (h : BackupHeader) : list Z :=
  sid_bytes (header_sid h) ++ le_words (to_utf16 (Name h)) ++
  (if Id h =? BackupSparseBlock then le_bytes 8 (u64 (Offset h)) else []).

(** The headers the format can hold. *)
Definition hdr_ok (h : BackupHeader) : Prop :=
  0 ≤ Id h < 4294967296 ∧ 0 ≤ Attributes h < 4294967296 ∧
  0 ≤ Size h < 9223372036854775800 ∧
  (valid_utf8 (Name h) ∧ (0 ∉ Name h) ∧ zlen (to_utf16 (Name h)) < 2147483648) ∧
  (if Id h =? BackupSparseBlock then -9223372036854775808 ≤ Offset h < 9223372036854775808
   else Offset h = 0).

Lemma sid_of_sid_bytes w :
  0 ≤ sid_StreamID w < 4294967296 → 0 ≤ sid_Attributes w < 4294967296 →
  0 ≤ sid_Size w < 18446744073709551616 → 0 ≤ sid_NameSize w < 4294967296 →
  sid_of_bytes (sid_bytes w) = w.
Proof.
  intros. unfold sid_of_bytes, sid_bytes.
  rewrite <- (zdrop_zdrop 8 8), <- (zdrop_zdrop 4 4) by lia.
  repeat first [rewrite ztake_app_eq by len | rewrite zdrop_app_eq by len].
  rewrite ztake_all by len. rewrite !le_val_le32, le_val_le64 by done. by destruct w.
Qed.

Lemma on_r_ReadBytes n s bs tl :
  rd_inv (bsr_r s) → rd_rest (bsr_r s) = bs ++ tl → zlen bs = n →
  ∃ r', on_r (ReadBytes n) s = (Ret bs, mkBSR r' (bytesLeft s)) ∧ rd_inv r' ∧ rd_rest r' = tl ∧
    rd_fin r' = rd_fin (bsr_r s).
Proof.
  intros Hi Hr Hn. unfold on_r.
  destruct (ReadBytes_app n (bsr_r s) bs tl Hi Hr Hn) as (r' & -> & ?). by exists r'.
Qed.

Lemma read_name_ok (U : list Z → list Z) `{!UTF16ToStringSpec U} s h tl :
  rd_inv (bsr_r s) → hdr_ok h → rd_rest (bsr_r s) = le_words (to_utf16 (Name h)) ++ tl →
  ∃ r', read_name U (header_sid h) s = (Ret (Name h), mkBSR r' (bytesLeft s)) ∧ rd_inv r' ∧
    rd_rest r' = tl ∧ rd_fin r' = rd_fin (bsr_r s).
Proof.
  intros Hi (_ & _ & _ & (Hu & Hnul & _) & _) Hrest.
  pose proof (utf16_to_string (Name h) Hu Hnul) as HU.
  unfold read_name, header_sid. cbn [sid_NameSize]. set (ws := to_utf16 (Name h)) in *. pose_lens.
  destruct (Z.eqb_spec (2 * zlen ws) 0) as [E|E]; cbn [negb].
  - assert (ws = []) as Hws by (destruct ws; [done|]; len). rewrite Hws in *.
    destruct s as [r l]. exists r. split_and!; try done.
    cbn [bsr_r bytesLeft]. rewrite St_ret_eq. do 2 f_equal.
    subst ws. rewrite <- (of_to_utf16 (Name h)) by done. by rewrite Hws.
  - replace (2 * zlen ws / 2) with (zlen ws) by (rewrite Z.mul_comm, Z.div_mul; lia).
    destruct (on_r_ReadBytes (2 * zlen ws) s _ tl Hi Hrest) as (r' & E' & Hr); [len|].
    rewrite (St_bind_Ret _ _ _ _ _ E'). exists r'. split; [|done]. rewrite St_ret_eq. do 2 f_equal.
    rewrite <- HU. f_equal. unfold zlen. rewrite Nat2Z.id, <- (app_nil_r (le_words ws)).
    apply words_of_le_words. apply words_ok_utf16_encode.
Qed.

Lemma read_offset_ok s h tl :
  rd_inv (bsr_r s) → hdr_ok h →
  rd_rest (bsr_r s) = (if Id h =? BackupSparseBlock then le_bytes 8 (u64 (Offset h)) else []) ++ tl →
  ∃ r', read_offset (header_sid h) s = (Ret (Offset h, Size h), mkBSR r' (bytesLeft s)) ∧ rd_inv r' ∧
    rd_rest r' = tl ∧ rd_fin r' = rd_fin (bsr_r s).
Proof.
  intros Hi (_ & _ & Hsz & _ & Hof) Hrest. unfold read_offset, header_sid.
  cbn [sid_StreamID sid_Size]. destruct (Id h =? BackupSparseBlock).
  - destruct (on_r_ReadBytes 8 s _ tl Hi Hrest) as (r' & E' & Hr); [len|].
    rewrite (St_bind_Ret _ _ _ _ _ E'). exists r'. split; [|done]. cbn [mret St_ret].
    rewrite le_val_le64 by apply u64_range. rewrite i64_u64, (i64_small (Size h + 8)), i64_small by lia.
    by replace (Size h + 8 - 8) with (Size h) by lia.
  - destruct s as [r l]. exists r. rewrite i64_small, Hof by lia. done.
Qed.

Lemma Next_header (U : list Z → list Z) `{!UTF16ToStringSpec U} s cur h tl :
  rd_inv (bsr_r s) → hdr_ok h →
  rd_rest (bsr_r s) = cur ++ header_bytes h ++ tl → zlen cur = bytesLeft s →
  ∃ r', Next U s = (Ret h, mkBSR r' (Size h)) ∧ rd_inv r' ∧ rd_rest r' = tl ∧
    rd_fin r' = rd_fin (bsr_r s).
Proof.
  intros Hi Hok Hrest Hcur. pose_lens.
  destruct (skip_rest_spec s) as ([r1 l1] & Hskip & Hi1 & Hr1 & Hf1 & Hl1); [done|rewrite Hrest; len|].
  cbn [bsr_r bytesLeft] in *. rewrite Hrest, zdrop_app_eq in Hr1 by done. unfold header_bytes in Hr1.
  rewrite <- !app_assoc in Hr1. unfold Next. rewrite (St_bind_Ret _ _ _ _ _ Hskip).
  destruct (on_r_ReadBytes sid_size (mkBSR r1 l1) _ _ Hi1 Hr1) as (r2 & E2 & Hi2 & Hr2 & Hf2);
    [unfold sid_bytes, sid_size; len|].
  rewrite (St_bind_Ret _ _ _ _ _ E2). cbn [bsr_r bytesLeft] in *.
  assert (Hsid : sid_of_bytes (sid_bytes (header_sid h)) = header_sid h).
  { destruct Hok as (? & ? & ? & (_ & _ & ?) & _). pose_lens.
    apply sid_of_sid_bytes; unfold header_sid; cbn; try case_match; lia. }
  rewrite Hsid.
  destruct (read_name_ok U (mkBSR r2 l1) h _ Hi2 Hok Hr2) as (r3 & E3 & Hi3 & Hr3 & Hf3).
  rewrite (St_bind_Ret _ _ _ _ _ E3). cbn [bsr_r bytesLeft] in *.
  destruct (read_offset_ok (mkBSR r3 l1) h _ Hi3 Hok Hr3) as (r4 & E4 & Hi4 & Hr4 & Hf4).
  rewrite (St_bind_Ret _ _ _ _ _ E4). cbn [bsr_r bytesLeft] in *.
  exists r4. split_and!; [by destruct h|done..|congruence].
Qed.
End ReadProofs.

(** ** Writing *)
Section WriteProofs.
Context {W : Type} `{WriterSpec W}.

(** [m] writes [b]: all of it when it succeeds, else a prefix. *)
Definition emits (m : St (BackupStreamWriter W) unit) (b : list Z) : Prop := ∀ s,
  (∃ w', m s = (Ret (), mkBSW w' (bsw_left s)) ∧ wr_out w' = wr_out (bsw_w s) ++ b) ∨
  (∃ e w' p t, m s = (Fail e, mkBSW w' (bsw_left s)) ∧ b = p ++ t ∧
     wr_out w' = wr_out (bsw_w s) ++ p).

Lemma emits_WriteBytes b : emits (on_w (WriteBytes b)) b.
Proof.
  intros s. unfold on_w. destruct (WriteBytes_spec b (bsw_w s)) as [(w' & -> & Ho)|(e & w' & k & -> & Ho)].
  - left. by exists w'.
  - right. exists e, w', (ztake k b), (zdrop k b). by rewrite ztake_zdrop.
Qed.
Lemma emits_ret : emits (mret ()) [].
Proof. intros [w l]. left. exists w. by rewrite app_nil_r. Qed.
Lemma emits_bind m1 b1 m2 b2 : emits m1 b1 → emits m2 b2 → emits (m1 ≫= λ _, m2) (b1 ++ b2).
Proof.
  intros E1 E2 s. destruct (E1 s) as [(w1 & Hm & O1)|(e & w1 & p & t & Hm & -> & O1)].
  - rewrite (St_bind_Ret _ _ _ _ _ Hm).
    destruct (E2 (mkBSW w1 (bsw_left s))) as [(w2 & -> & O2)|(e & w2 & p & t & -> & -> & O2)];
      cbn [bsw_w bsw_left] in *.
    + left. exists w2. by rewrite O2, O1, app_assoc.
    + right. exists e, w2, (b1 ++ p), t. by rewrite O2, O1, !app_assoc.
  - rewrite (St_bind_Fail _ _ _ _ _ Hm). right. exists e, w1, p, (t ++ b2). by rewrite app_assoc.
Qed.

(** The three writes of [WriteHeader] are the encoding [Next] reads. *)
Lemma WriteHeader_emits h :
  hdr_ok h → ∃ m, emits m (header_bytes h) ∧
    ∀ w, WriteHeader h (mkBSW w 0) = (m ≫= λ _, modify (λ w, mkBSW (bsw_w w) (Size h))) (mkBSW w 0).
Proof.
  intros (_ & _ & Hsz & (Hu & _ & Hnl) & Hof). unfold WriteHeader, header_bytes.
  set (ws := to_utf16 (Name h)) in *. pose_lens.
  set (sparse := Id h =? BackupSparseBlock) in *.
  set (name := if negb (zlen ws =? 0) then on_w (WriteBytes (le_words ws)) else mret ()).
  set (off := if sparse then on_w (WriteBytes (le_bytes 8 (u64 (Offset h)))) else mret ()).
  assert (En : emits name (le_words ws)).
  { subst name. destruct (Z.eqb_spec (zlen ws) 0) as [E|]; [|apply emits_WriteBytes].
    destruct ws; [apply emits_ret|len]. }
  assert (Eo : emits off (if sparse then le_bytes 8 (u64 (Offset h)) else [])).
  { subst off. destruct sparse; [apply emits_WriteBytes|apply emits_ret]. }
  exists (on_w (WriteBytes (sid_bytes (header_sid h))) ≫= λ _, name ≫= λ _, off).
  split; [by apply emits_bind; [apply emits_WriteBytes|apply emits_bind]|].
  intros w. rewrite (St_bind_Ret _ get _ (mkBSW w 0) (mkBSW w 0)) by done. cbn [bsw_left].
  replace (negb (0 =? 0)) with false by done.
  assert (mkSID (Id h) (Attributes h) (if sparse then u64 (u64 (Size h) + 8) else u64 (Size h))
      (u32 (zlen ws * 2)) = header_sid h) as ->.
  { unfold header_sid. fold ws sparse. rewrite u32_small by lia. f_equal; [|lia].
    destruct sparse; rewrite !u64_small; rewrite ?u64_small; lia. }
  rewrite !St_bind_eq. destruct (on_w _ _) as [[] s1]; try done.
  rewrite !St_bind_eq. destruct (name s1) as [[] s2]; done.
Qed.

Lemma WriteHeader_bytes h (w : W) :
  hdr_ok h →
  (∃ w', WriteHeader h (mkBSW w 0) = (Ret (), mkBSW w' (Size h)) ∧ wr_out w' = wr_out w ++ header_bytes h) ∨
  (∃ e w' p t, WriteHeader h (mkBSW w 0) = (Fail e, mkBSW w' 0) ∧ header_bytes h = p ++ t ∧
             wr_out w' = wr_out w ++ p).
Proof.
  intros Hok. destruct (WriteHeader_emits h Hok) as (m & Hm & ->).
  destruct (Hm (mkBSW w 0)) as [(w' & E & O)|(e & w' & p & t & E & Hp & O)].
  - left. exists w'. by rewrite (St_bind_Ret _ _ _ _ _ E).
  - right. exists e, w', p, t. by rewrite (St_bind_Fail _ _ _ _ _ E).
Qed.
End WriteProofs.

(** ** A whole file *)

(** A client that writes the streams of a file, the data of each in pieces. *)
Fixpoint write_pieces {W} `{Writer W} (ds : list (list Z)) : St (BackupStreamWriter W) unit :=
  match ds with
  | [] => mret ()
  | d :: ds => _ ← WriteBytes d; write_pieces ds
  end.
Fixpoint write_streams {W} `{Writer W} (l : list (BackupHeader * list (list Z))) :
    St (BackupStreamWriter W) unit :=
  match l with
  | [] => mret ()
  | (h, ds) :: l => _ ← WriteHeader h; _ ← write_pieces ds; write_streams l
  end.

(** A client that takes each header and the first bytes of each stream. *)
Fixpoint walk {R} `{Reader R} `{!Seeker R} (U : list Z → list Z) (ks : list Z) :
    St (BackupStreamReader R) (list (BackupHeader * list Z)) :=
  match ks with
  | [] => mret []
  | k :: ks => h ← Next U; d ← ReadBytes k; t ← walk U ks; mret ((h, d) :: t)
  end.

Definition stream_ok (x : BackupHeader * list (list Z)) : Prop :=
  hdr_ok (fst x) ∧ Size (fst x) = zlen (concat (snd x)).
Definition stream_bytes (x : BackupHeader * list (list Z)) : list Z :=
  header_bytes (fst x) ++ concat (snd x).

Lemma write_pieces_Buffer ds (out : Buffer) left :
  zlen (concat ds) ≤ left →
  write_pieces ds (mkBSW out left) = (Ret (), mkBSW (out ++ concat ds) (left - zlen (concat ds))).
Proof.
  revert out left. induction ds as [|d ds IH]; intros out left Hl; cbn [write_pieces concat] in *.
  { by rewrite app_nil_r, Z.sub_0_r. }
  rewrite zlen_app in *. pose_lens.
  assert (E : WriteBytes d (mkBSW out left) = (Ret (), mkBSW (out ++ d) (left - zlen d))).
  { unfold WriteBytes, wr_write, BackupStreamWriter_Writer, Write. cbn [bsw_left bsw_w].
    by replace (left <? zlen d) with false by lia. }
  rewrite (St_bind_Ret _ _ _ _ _ E), IH by lia. rewrite <- app_assoc. by rewrite Z.sub_add_distr.
Qed.

Lemma write_streams_Buffer l (out : Buffer) :
  Forall stream_ok l →
  write_streams l (mkBSW out 0) = (Ret (), mkBSW (out ++ concat (stream_bytes <$> l)) 0).
Proof.
  intros H. revert out. induction H as [|[h ds] l [Hok Hsz] Hl IH]; intros out; cbn [write_streams fmap list_fmap concat].
  { by rewrite app_nil_r. }
  cbn [fst snd] in *.
  destruct (WriteHeader_bytes h out Hok) as [(w & E & Ho)|(e & w & p & t & E & _)].
  - rewrite (St_bind_Ret _ _ _ _ _ E). change (w = out ++ header_bytes h) in Ho. subst w.
    rewrite (St_bind_Ret _ _ _ _ _ (write_pieces_Buffer ds _ (Size h) ltac:(lia))).
    rewrite Hsz, Z.sub_diag, IH. unfold stream_bytes at 2. cbn [fst snd].
    by rewrite <- !app_assoc.
  - exfalso. revert E. unfold WriteHeader. cbn.
    repeat case_match; by intros [=].
Qed.

Section WalkProofs.
Context {R : Type} `{SeparateReader R} `{!Seeker R} `{!SeekerSpec R}.
Context (U : list Z → list Z) `{!UTF16ToStringSpec U}.

Lemma Next_end (s : BackupStreamReader R) :
  rd_inv (bsr_r s) → zlen (rd_rest (bsr_r s)) = bytesLeft s → rd_fin (bsr_r s) = EOF →
  ∃ s', Next U s = (Fail EOF, s').
Proof.
  intros Hi Hl Hf. pose_lens. destruct (skip_rest_spec s) as (s1 & E1 & Hi1 & Hr1 & Hf1 & _); [done|lia|].
  rewrite zdrop_all in Hr1 by lia. unfold Next. rewrite (St_bind_Ret _ _ _ _ _ E1).
  destruct (ReadBytes_short sid_size (bsr_r s1)) as (r' & Er & _); [done|by rewrite Hr1|].
  rewrite (St_bind_Fail _ (on_r _) s1 EOF (mkBSR r' (bytesLeft s1))); [by eexists|].
  unfold on_r. by rewrite Er, Hr1, Hf1, Hf.
Qed.

Lemma walk_streams l ks (s : BackupStreamReader R) cur :
  Forall stream_ok l → Forall2 (λ x k, 0 ≤ k ≤ Size (fst x)) l ks →
  rd_inv (bsr_r s) → rd_fin (bsr_r s) = EOF → zlen cur = bytesLeft s →
  rd_rest (bsr_r s) = cur ++ concat (stream_bytes <$> l) →
  ∃ s', walk U ks s = (Ret (zip_with (λ x k, (fst x, ztake k (concat (snd x)))) l ks), s') ∧
    rd_inv (bsr_r s') ∧ rd_fin (bsr_r s') = EOF ∧ zlen (rd_rest (bsr_r s')) = bytesLeft s'.
Proof.
  intros Hl Hks. revert s cur Hl. induction Hks as [|[h ds] k l ks Hk Hks IH];
    intros s cur Hl Hi Hf Hc Hr.
  { exists s. split_and!; try done. rewrite Hr. cbn. by rewrite app_nil_r. }
  apply Forall_cons in Hl as [[Hok Hsz] Hl]. cbn [fst snd fmap list_fmap concat] in *.
  unfold stream_bytes at 1 in Hr. cbn [fst snd] in Hr. rewrite <- app_assoc in Hr.
  destruct (Next_header U s cur h _ Hi Hok Hr Hc) as (r1 & E1 & Hi1 & Hr1 & Hf1).
  cbn [walk]. rewrite (St_bind_Ret _ _ _ _ _ E1). set (data := concat ds) in *.
  set (tl := concat (stream_bytes <$> l)) in *. pose_lens.
  pose (V := stream_view tl EOF).
  destruct (ReadBytes_app (H0 := V) k (mkBSR r1 (Size h)) (ztake k data) (zdrop k data))
    as (s2 & E2 & (Hi2 & Hl2 & Ht2 & Hf2) & Hr2 & Hfin2).
  { cbn [rd_inv V stream_view bsr_r bytesLeft]. rewrite Hr1, zdrop_app_eq by done.
    split_and!; [done|len|done|congruence]. }
  { change (stream_rest (mkBSR r1 (Size h)) = ztake k data ++ zdrop k data).
    unfold stream_rest. cbn [bsr_r bytesLeft]. by rewrite Hr1, Hsz, ztake_app_eq, ztake_zdrop. }
  { len. }
  rewrite (St_bind_Ret _ _ _ _ _ E2).
  cbn [rd_rest rd_fin V stream_view] in Hr2, Hfin2.
  assert (Hs2 : rd_rest (bsr_r s2) = zdrop k data ++ tl).
  { rewrite <- (ztake_zdrop (bytesLeft s2) (rd_rest (bsr_r s2))), Ht2. f_equal. exact Hr2. }
  assert (Hl2' : zlen (zdrop k data) = bytesLeft s2).
  { unfold stream_fin in Hfin2. cbn [bsr_r bytesLeft] in Hfin2. rewrite Hr1 in Hfin2.
    rewrite (proj2 (Z.leb_le (Size h) _)) in Hfin2 by len.
    rewrite <- Hr2. unfold stream_rest. rewrite zlen_ztake.
    destruct (Z.leb_spec (bytesLeft s2) (zlen (rd_rest (bsr_r s2)))); [pose_lens; lia|].
    case_bool_decide; [discriminate Hfin2|done]. }
  destruct (IH s2 (zdrop k data) Hl Hi2 Hf2 Hl2' Hs2) as (s3 & E3 & Hs3).
  rewrite (St_bind_Ret _ _ _ _ _ E3). by exists s3.
Qed.
End WalkProofs.

(** C4: backup streams round-trip: whatever the streams of a file (sparse
    blocks, named streams and empty ones included) and however their data is
    split into [Write] calls, the bytes [BackupStreamWriter] produces give
    [BackupStreamReader] the same headers and data back, through any reader that keeps the
    contract of [io.Reader] and reports [io.EOF] only after its last bytes, not with them
    (short reads, seekable or not; [Read_eager] shows what happens with the other readers), however much of each
    stream the client leaves unread; and after the last stream [Next] returns [io.EOF]. *)
Theorem Backup_roundtrip (U : list Z → list Z) `{!UTF16ToStringSpec U}
    {R : Type} `{SeparateReader R} `{!Seeker R} `{!SeekerSpec R}
    (l : list (BackupHeader * list (list Z))) (ks : list Z) (r : R) (out : Buffer) s :
  Forall stream_ok l → Forall2 (λ x k, 0 ≤ k ≤ Size (fst x)) l ks →
  write_streams l (NewBackupStreamWriter []) = (Ret (), s) → out = bsw_w s →
  rd_inv r → rd_rest r = out → rd_fin r = EOF →
  bsw_left s = 0 ∧
  ∃ s1 s2, walk U ks (NewBackupStreamReader r) =
      (Ret (zip_with (λ x k, (fst x, ztake k (concat (snd x)))) l ks), s1) ∧
    Next U s1 = (Fail EOF, s2).
Proof.
  intros Hl Hks Hw -> Hi Hr Hf. unfold NewBackupStreamWriter in Hw.
  rewrite write_streams_Buffer in Hw by done. injection Hw as <-. split; [done|].
  destruct (walk_streams U l ks (mkBSR r 0) []) as (s1 & E1 & Hi1 & Hf1 & Hl1); try done.
  destruct (Next_end U s1 Hi1 Hl1 Hf1) as (s2 & E2). by exists s1, s2.
Qed.

(** [io.ReadAll] of the current stream, with the state it leaves. *)
Lemma ReadAll_rest {R : Type} `{SeparateReader R} fuel (s : BackupStreamReader R) :
  rd_inv (bsr_r s) → 0 ≤ bytesLeft s → (Z.to_nat (bytesLeft s) < fuel)%nat →
  let rest := rd_rest (bsr_r s) in
  ∃ s', rd_inv (bsr_r s') ∧ rd_fin (bsr_r s') = rd_fin (bsr_r s) ∧
    (bytesLeft s ≤ zlen rest → bytesLeft s' = 0) ∧
    rd_rest (bsr_r s') = zdrop (bytesLeft s) rest ∧
    ReadAll fuel s =
      (if bytesLeft s <=? zlen rest then Ret (ztake (bytesLeft s) rest, None)
       else Ret (rest, Some (if bool_decide (rd_fin (bsr_r s) = EOF) then ErrUnexpectedEOF
                             else rd_fin (bsr_r s))), s').
Proof.
  intros Hi Hl Hf rest.
  pose (V := stream_view (zdrop (bytesLeft s) rest) (rd_fin (bsr_r s))).
  destruct (drain_spec (H0 := V) fuel 512 [] s) as (s' & E & (Hi' & Hl' & Ht & Hfin') & Hrest & Hsf).
  { cbn [rd_inv V stream_view]. by split_and!. } { lia. }
  { change (length (stream_rest s) < fuel)%nat. unfold stream_rest, ztake. rewrite length_take. lia. }
  exists s'. unfold ReadAll. rewrite E. clear E.
  change (stream_rest s' = []) in Hrest. change (@rd_rest _ _ V s) with (stream_rest s).
  change (@rd_fin _ _ V s) with (stream_fin s) in *. change (stream_fin s' = stream_fin s) in Hsf.
  split; [done|]. split; [done|]. split; [|split].
  - intros Hle. apply stream_done; [done|done|]. rewrite Hsf. unfold stream_fin. fold rest.
    by rewrite (proj2 (Z.leb_le _ _) Hle).
  - rewrite <- Ht. rewrite <- (ztake_zdrop (bytesLeft s') (rd_rest (bsr_r s'))) at 1.
    unfold stream_rest in Hrest.
    by rewrite Hrest.
  - cbn [app]. unfold stream_rest, stream_fin. fold rest.
    destruct (Z.leb_spec (bytesLeft s) (zlen rest)).
    + by rewrite bool_decide_eq_true_2.
    + rewrite ztake_all by lia. case_bool_decide; case_bool_decide; done.
Qed.

(** [io.ReadAll] of the current stream returns exactly its bytes and leaves
    the underlying reader at the next header; if the underlying data ends
    early, it returns what there was with [io.ErrUnexpectedEOF] (or the
    reader's own error), never a clean end. *)
Theorem ReadAll_stream {R : Type} `{SeparateReader R} fuel (s : BackupStreamReader R) :
  rd_inv (bsr_r s) → 0 ≤ bytesLeft s → (Z.to_nat (bytesLeft s) < fuel)%nat →
  let rest := rd_rest (bsr_r s) in
  ∃ s', rd_rest (bsr_r s') = zdrop (bytesLeft s) rest ∧
    ReadAll fuel s =
      (if bytesLeft s <=? zlen rest then Ret (ztake (bytesLeft s) rest, None)
       else Ret (rest, Some (if bool_decide (rd_fin (bsr_r s) = EOF) then ErrUnexpectedEOF
                             else rd_fin (bsr_r s))), s').
Proof.
  intros Hi Hl Hf. destruct (ReadAll_rest fuel s Hi Hl Hf) as (s' & _ & _ & _ & Hr & E). by exists s'.
Qed.

(** ** Behaviour outside the contract *)

(** A negative [bytesLeft] makes every [Read] panic. *)
Lemma Read_negative {R} `{Reader R} n (s : BackupStreamReader R) :
  0 ≤ n → bytesLeft s < 0 → Read n s = (Panic "slice bounds out of range", s).
Proof.
  intros Hn Hl. unfold Read. replace (bytesLeft s =? 0) with false by lia.
  by replace ((n >? bytesLeft s) && (bytesLeft s <? 0)) with true by lia.
Qed.

(** A sparse block header with an on-disk size below 8 leaves such a state. *)
Example sparse_block_size_0 :
  let b := sid_bytes (mkSID BackupSparseBlock 0 0 0) ++ le_bytes 8 0 in
  let '(h, s) := Next utf16_cstring (NewBackupStreamReader b) in
  h = Ret (mkHdr BackupSparseBlock 0 (-8) [] 0) ∧ is_panic (fst (Read 1 s)) = true.
Proof. by vm_compute. Qed.

(** A reader that returns [io.EOF] together with its last bytes makes [Read]
    report [io.ErrUnexpectedEOF] at the end of a complete stream. *)
Lemma Read_eager n d :
  0 < zlen d ≤ n →
  Read n (mkBSR (mkEager d) (zlen d)) = (Ret (d, Some ErrUnexpectedEOF), mkBSR (mkEager []) 0).
Proof.
  intros Hd. unfold Read. cbn [bsr_r bytesLeft]. replace (zlen d =? 0) with false by lia.
  replace (zlen d <? 0) with false by lia. rewrite andb_false_r.
  assert ((if n >? zlen d then zlen d else n) = zlen d) as -> by (case_match; lia).
  unfold rd_read, eager_Reader. cbn [e_rest]. rewrite Z.leb_refl, Z.sub_diag. done.
Qed.

(** ** Witnesses *)
#[export] Instance valid_utf8_ascii_dec s : Decision (Forall (λ b, 0 ≤ b < 128) s).
Proof. apply _. Defined.

Definition backup_example : list (BackupHeader * list (list Z)) :=
  [ (mkHdr BackupData StreamSparseAttributes 0 [] 0, []);
    (mkHdr BackupSparseBlock 0 3 [] 4096, [[1; 2]; [3]]);
    (mkHdr BackupAlternateData 0 5 (str ":foo:$DATA") 0, [[1; 2; 3; 4; 5]]) ].

Lemma backup_example_ok : Forall stream_ok backup_example.
Proof.
  unfold stream_ok, hdr_ok.
  repeat constructor; cbn; try lia;
    first [ apply ascii_valid_utf8; decide_now | decide_now | set_solver ].
Qed.

Definition backup_example_bytes : list Z := concat (stream_bytes <$> backup_example).
Definition backup_reader : chunked := mkChunked ((λ b, [b]) <$> backup_example_bytes) EOF.

Lemma Backup_roundtrip_witness :
  ∃ s1 s2, walk utf16_cstring [0; 1; 5] (NewBackupStreamReader backup_reader) =
    (Ret [ (mkHdr BackupData StreamSparseAttributes 0 [] 0, []);
           (mkHdr BackupSparseBlock 0 3 [] 4096, [1]);
           (mkHdr BackupAlternateData 0 5 (str ":foo:$DATA") 0, [1; 2; 3; 4; 5]) ], s1) ∧
    Next utf16_cstring s1 = (Fail EOF, s2).
Proof.
  refine (proj2 (Backup_roundtrip utf16_cstring backup_example [0; 1; 5] backup_reader
    backup_example_bytes (mkBSW backup_example_bytes 0) backup_example_ok _ _ _ _ _ _)).
  - repeat constructor; cbn; lia.
  - by vm_compute.
  - done.
  - decide_now.
  - by vm_compute.
  - done.
Defined.

Lemma ReadAll_stream_witness :
  ∃ s', rd_rest (bsr_r s') = [] ∧
    ReadAll 10 (mkBSR [1; 2] 3) = (Ret ([1; 2], Some ErrUnexpectedEOF), s').
Proof. exact (ReadAll_stream 10 (mkBSR [1; 2] 3) I ltac:(cbn; lia) ltac:(cbn; lia)). Defined.
