(* ===== verification/Reparse.v ===== *)
(** * Reparse points ([reparse.go])

    Encoding and decoding of REPARSE_DATA_BUFFER structures for symlinks and
    mount points. *)
From S2P Require Import Prelude GoStrings Unicode.

Definition reparseTagMountPoint : Z := 0xA0000003.
Definition reparseTagSymlink : Z := 0xA000000C.

Record reparseDataBuffer := mkRDB {
  ReparseTag : Z;
  ReparseDataLength : Z;
  Reserved : Z;
  SubstituteNameOffset : Z;
  SubstituteNameLength : Z;
  PrintNameOffset : Z;
  PrintNameLength : Z }.

Definition rdb_bytes (d : reparseDataBuffer) : list Z :=
  le_bytes 4 (ReparseTag d) ++ le_bytes 2 (ReparseDataLength d) ++ le_bytes 2 (Reserved d) ++
  le_bytes 2 (SubstituteNameOffset d) ++ le_bytes 2 (SubstituteNameLength d) ++
  le_bytes 2 (PrintNameOffset d) ++ le_bytes 2 (PrintNameLength d).
(** [unsafe.Sizeof(reparseDataBuffer{})] *)
Definition rdb_size : Z := 16.

Record ReparsePoint := mkRP { Target : list Z; IsMountPoint : bool }.

#[export] Instance ReparsePoint_eq_dec : EqDecision ReparsePoint.
Proof. solve_decision. Defined.

Definition UnsupportedReparsePointError (tag : Z) : error :=
  Errorf "unsupported reparse point %x" [tag] [].

Definition DecodeReparsePointData (tag : Z) (b : list Z) : res ReparsePoint :=
  let isMountPoint := tag =? reparseTagMountPoint in
  if negb (isMountPoint || (tag =? reparseTagSymlink)) then Fail (UnsupportedReparsePointError tag)
  else
    o ← slice b 4 6;
    let nameOffset := u16 (8 + le_val o) in
    let nameOffset := if negb isMountPoint then u16 (nameOffset + 4) else nameOffset in
    l ← slice b 6 8;
    let nameLength := le_val l in
    nb ← slice b nameOffset (u16 (nameOffset + nameLength));
    let n := nameLength / 2 in
    if zlen nb <? 2 * n then Fail ErrUnexpectedEOF
    else Ret (mkRP (of_utf16 (words_of_le (Z.to_nat n) nb)) isMountPoint).

Definition DecodeReparsePoint (b : list Z) : res ReparsePoint :=
  t ← slice b 0 4;
  let tag := le_val t in
  d ← slice_from b 8;
  DecodeReparsePointData tag d.

Definition isDriveLetter (c : Z) : bool :=
  ((97 <=? c) && (c <=? 122)) || ((65 <=? c) && (c <=? 90)).

(** The NT path of a target, and whether the target is relative. *)
Definition nt_target (target : list Z) : list Z * bool :=
  if HasPrefix target (str "\\?\") then (str "\??\" ++ zdrop 4 target, false)
  else if HasPrefix target (str "\\") then (str "\??\UNC\" ++ zdrop 2 target, false)
  else match target with
  | c0 :: c1 :: _ =>
      if isDriveLetter c0 && (c1 =? 58) then (str "\??\" ++ target, false) else (target, true)
  | _ => (target, true)
  end.

Definition EncodeReparsePoint (rp : ReparsePoint) : list Z :=
  let '(ntTarget, relative) := nt_target (Target rp) in
  let target16 := to_utf16 (Target rp ++ [0]) in
  let ntTarget16 := to_utf16 (ntTarget ++ [0]) in
  let size := rdb_size - 8 + (zlen ntTarget16 * 2 + zlen target16 * 2) in
  let tag := if negb (IsMountPoint rp) then reparseTagSymlink else reparseTagMountPoint in
  let size := if negb (IsMountPoint rp) then size + 4 else size in
  let data := mkRDB tag (u16 size) 0 0 (u16 ((zlen ntTarget16 - 1) * 2))
                (u16 (zlen ntTarget16 * 2)) (u16 ((zlen target16 - 1) * 2)) in
  let flags := if relative then Z.lor 0 1 else 0 in
  rdb_bytes data ++
  (if negb (IsMountPoint rp) then le_bytes 4 flags else []) ++
  le_words ntTarget16 ++ le_words target16.

(** ** The targets the format can hold *)
Definition rp_size (rp : ReparsePoint) : Z :=
  (if IsMountPoint rp then 8 else 12) + 2 * zlen (to_utf16 (fst (nt_target (Target rp)) ++ [0])) +
  2 * zlen (to_utf16 (Target rp ++ [0])).
Definition rp_ok (rp : ReparsePoint) : Prop := valid_utf8 (Target rp) ∧ rp_size rp < 65536.

Lemma nt_target_valid t : valid_utf8 t → valid_utf8 (fst (nt_target t)).
Proof.
  intros Ht. assert (Ha : ∀ s, Forall (λ b, 0 ≤ b < 128) (str s) → valid_utf8 (str s))
    by (intros; by apply ascii_valid_utf8).
  unfold nt_target. destruct (HasPrefix t (str "\\?\")) eqn:E1.
  { apply HasPrefix_spec in E1 as [t' ->]. cbn [fst]. apply valid_utf8_app; [apply Ha; decide_now|].
    rewrite zdrop_app_eq by done. apply (valid_utf8_app_ascii (str "\\?\")); [decide_now|done]. }
  destruct (HasPrefix t (str "\\")) eqn:E2.
  { apply HasPrefix_spec in E2 as [t' ->]. cbn [fst]. apply valid_utf8_app; [apply Ha; decide_now|].
    rewrite zdrop_app_eq by done. apply (valid_utf8_app_ascii (str "\\")); [decide_now|done]. }
  repeat case_match; try done. cbn [fst]. apply valid_utf8_app; [apply Ha; decide_now|done].
Qed.

Lemma to_utf16_nul s : valid_utf8 s → to_utf16 (s ++ [0]) = to_utf16 s ++ [0].
Proof. intros. rewrite to_utf16_app; [done|done|]. apply ascii_valid_utf8. repeat constructor; lia. Qed.

Lemma words_of_le_prefix ws rest n :
  words_ok ws → zlen ws = n → words_of_le (Z.to_nat n) (le_words ws ++ rest) = ws.
Proof. intros Hw <-. unfold zlen. rewrite Nat2Z.id. by apply words_of_le_words. Qed.

(** The bytes of an encoded reparse point, field by field. *)
Definition rp_tag (rp : ReparsePoint) : Z :=
  if IsMountPoint rp then reparseTagMountPoint else reparseTagSymlink.
Definition rp_flags (rp : ReparsePoint) : list Z :=
  if IsMountPoint rp then [] else le_bytes 4 (if snd (nt_target (Target rp)) then 1 else 0).
Lemma Encode_bytes rp :
  rp_ok rp →
  let nt := to_utf16 (fst (nt_target (Target rp))) in
  let tg := to_utf16 (Target rp) in
  EncodeReparsePoint rp =
    le_bytes 4 (rp_tag rp) ++ le_bytes 2 (rp_size rp) ++ le_bytes 2 0 ++
    le_bytes 2 0 ++ le_bytes 2 (2 * zlen nt) ++ le_bytes 2 (2 * zlen nt + 2) ++ le_bytes 2 (2 * zlen tg) ++
    rp_flags rp ++ le_words (nt ++ [0]) ++ le_words (tg ++ [0]).
Proof.
  intros [Hv Hs] nt tg. pose proof (nt_target_valid _ Hv) as Hnv.
  unfold EncodeReparsePoint, rp_size, rp_tag, rp_flags in *.
  destruct (nt_target (Target rp)) as [ntt rel]. cbn [fst snd] in *.
  rewrite !to_utf16_nul in * by done. fold nt tg in Hs |- *. rewrite !zlen_app in *.
  change (zlen [0]) with 1 in *. unfold rdb_bytes, rdb_size.
  cbn [ReparseTag ReparseDataLength Reserved SubstituteNameOffset SubstituteNameLength PrintNameOffset PrintNameLength].
  pose_lens. rewrite <- !app_assoc.
  destruct (IsMountPoint rp); cbn [negb]; rewrite !u16_small by lia;
    repeat (apply (f_equal2 app); [first [done | f_equal; lia | by destruct rel]|]); done.
Qed.

Lemma le_words_app v w : le_words (v ++ w) = le_words v ++ le_words w.
Proof. unfold le_words. by rewrite fmap_app, concat_app. Qed.
Lemma zlen_rp_flags rp : zlen (rp_flags rp) = if IsMountPoint rp then 0 else 4.
Proof. unfold rp_flags. case_match; [done|]. by rewrite zlen_le_bytes. Qed.
#[local] Hint Rewrite zlen_rp_flags : golist.

(** The part after the common header. *)
Lemma Decode_data rp nt tg :
  (if IsMountPoint rp then 0 else 4) + zlen nt * 2 + zlen tg * 2 + 12 < 65536 → words_ok tg → of_utf16 tg = Target rp →
  DecodeReparsePointData (rp_tag rp)
    (le_bytes 2 0 ++ le_bytes 2 (2 * zlen nt) ++ le_bytes 2 (2 * zlen nt + 2) ++ le_bytes 2 (2 * zlen tg) ++
     rp_flags rp ++ le_words (nt ++ [0]) ++ le_words (tg ++ [0])) = Ret rp.
Proof.
  intros Hs Hw Htg. assert (Hs0 : zlen nt * 2 + zlen tg * 2 + 12 < 65536) by (revert Hs; case_match; lia).
  unfold DecodeReparsePointData. rewrite (le_words_app tg). pose_lens.
  assert (Htag : (rp_tag rp =? reparseTagMountPoint) = IsMountPoint rp ∧
    (rp_tag rp =? reparseTagMountPoint) || (rp_tag rp =? reparseTagSymlink) = true)
    by (unfold rp_tag; by destruct (IsMountPoint rp)).
  destruct Htag as [Htag ->]. rewrite Htag. cbn [negb].
  slices. cbn [mbind res_bind]. rewrite !le_val_le16 by lia.
  replace (if negb (IsMountPoint rp) then u16 (u16 (8 + (2 * zlen nt + 2)) + 4) else u16 (8 + (2 * zlen nt + 2)))
    with (8 + (if IsMountPoint rp then 0 else 4) + (2 * zlen nt + 2))
    by (revert Hs; destruct (IsMountPoint rp); intros; cbn [negb]; rewrite (u16_small (8 + (2 * zlen nt + 2))) by lia;
        rewrite ?u16_small by lia; lia).
  set (fl := if IsMountPoint rp then 0 else 4).
  assert (Hfl : 0 ≤ fl ≤ 4) by (subst fl; case_match; lia). fold fl in Hs.
  assert (Hzf : zlen (rp_flags rp) = fl) by (by rewrite zlen_rp_flags).
  rewrite u16_small by lia. rewrite (slice_skip (le_bytes 2 0)) by len. rewrite (slice_skip (le_bytes 2 _)) by len.
  rewrite (slice_skip (le_bytes 2 _)) by len. rewrite (slice_skip (le_bytes 2 _)) by len.
  rewrite (slice_skip (rp_flags rp)) by (rewrite ?Hzf; len).
  rewrite (slice_skip (le_words (nt ++ [0]))) by (rewrite ?Hzf, ?zlen_le_words, ?zlen_app; change (zlen [0]) with 1; len).
  rewrite slice_hd; rewrite ?Hzf, ?zlen_le_words, ?zlen_app, ?zlen_le_bytes; change (zlen [0]) with 1; try lia.
  cbn [mbind res_bind]. replace (2 * zlen tg / 2) with (zlen tg) by (rewrite Z.mul_comm, Z.div_mul; lia).
  rewrite ?zlen_le_words.
  replace (2 * zlen tg <? 2 * zlen tg) with false by lia.
  rewrite <- (app_nil_r (le_words tg)), words_of_le_prefix by done. rewrite Htg. by destruct rp.
Qed.

Lemma Decode_Encode_eq rp :
  rp_ok rp →
  DecodeReparsePoint (EncodeReparsePoint rp) = Ret rp ∧
  zlen (EncodeReparsePoint rp) = 8 + rp_size rp ∧
  slice (EncodeReparsePoint rp) 4 6 = Ret (le_bytes 2 (rp_size rp)).
Proof.
  intros Hok. rewrite Encode_bytes by done. destruct Hok as [Hv Hs].
  pose proof (nt_target_valid _ Hv) as Hnv. unfold rp_size in *.
  rewrite !to_utf16_nul in * by done. rewrite !zlen_app in *. change (zlen [0]) with 1 in *.
  set (nt := to_utf16 (fst (nt_target (Target rp)))) in *. set (tg := to_utf16 (Target rp)) in *.
  pose_lens. split_and!.
  - unfold DecodeReparsePoint. rewrite slice_hd by len. cbn [mbind res_bind].
    rewrite le_val_le32 by (unfold rp_tag; case_match; done). unfold slice_from.
    rewrite slice_skip, slice_skip, slice_skip by len.
    rewrite slice_full by len. cbn [mbind res_bind].
    apply Decode_data; [revert Hs; case_match; lia|apply words_ok_utf16_encode|].
    by apply of_to_utf16.
  - rewrite !zlen_le_bytes, !zlen_le_words, zlen_rp_flags, !zlen_app. change (zlen [0]) with 1.
    case_match; lia.
  - rewrite slice_skip by len. by rewrite slice_hd by len.
Qed.

(** C17: reparse points round-trip: [DecodeReparsePoint] inverts
    [EncodeReparsePoint] for every symlink or mount point whose buffer fits the
    16-bit sizes of the format, and the encoded data length is the length of
    the buffer after its 8-byte header. *)
Theorem Decode_EncodeReparsePoint rp :
  rp_ok rp →
  DecodeReparsePoint (EncodeReparsePoint rp) = Ret rp ∧
  zlen (EncodeReparsePoint rp) = 8 + rp_size rp ∧
  slice (EncodeReparsePoint rp) 4 6 = Ret (le_bytes 2 (rp_size rp)).
Proof. apply Decode_Encode_eq. Qed.

(** Short buffers make [DecodeReparsePoint] panic instead of failing. *)
Example Decode_short : DecodeReparsePoint (le_bytes 4 reparseTagSymlink) = Panic "slice bounds out of range".
Proof. by vm_compute. Qed.
(** So does a name that reaches past 65535. *)
Example Decode_wrap :
  is_panic (DecodeReparsePointData reparseTagMountPoint
    (le_bytes 4 0 ++ le_bytes 2 0xfff0 ++ le_bytes 2 0x20 ++ replicate 100 0)) = true.
Proof. by vm_compute. Qed.

Lemma Decode_EncodeReparsePoint_witness :
  let rp := mkRP (str "C:\dir") false in
  DecodeReparsePoint (EncodeReparsePoint rp) = Ret rp ∧
  zlen (EncodeReparsePoint rp) = 8 + rp_size rp ∧
  slice (EncodeReparsePoint rp) 4 6 = Ret (le_bytes 2 (rp_size rp)).
Proof.
  apply (Decode_EncodeReparsePoint (mkRP (str "C:\dir") false)).
  split; [apply ascii_valid_utf8; decide_now|by vm_compute].
Defined.
