(* ===== verification/PaxTime.v ===== *)
(** * PAX times ([backuptar/strconv.go])

    Times of PAX records, decimal seconds with a fraction, negative ones
    included. *)
From S2P Require Import Prelude GoStrings.

(** [time.Time] as the pair ([Unix()], [Nanosecond()]), and [time.Unix]. *)
Record Time := mkTime { t_sec : Z; t_nsec : Z }.
#[export] Instance Time_eq_dec : EqDecision Time.
Proof. solve_decision. Defined.

Definition Unix (sec nsec : Z) : Time := mkTime (i64 (sec + nsec / 1000000000)) (nsec mod 1000000000).

Definition ErrHeader : error := New "archive/tar: invalid tar header".

Definition maxNanoSecondDigits : Z := 9.

Definition parsePAXTime (s : list Z) : res Time :=
  let '(ss, sn) := match IndexByte s 46 with
                   | Some pos => (ztake pos s, zdrop (pos + 1) s)
                   | None => (s, [])
                   end in
  match ParseInt ss 10 64 with
  | Ret secs =>
      if zlen sn =? 0 then Ret (Unix secs 0)
      else if negb (all_in (str "0123456789") sn) then Fail ErrHeader
      else
        let sn := if zlen sn <? maxNanoSecondDigits
                  then sn ++ replicate (Z.to_nat (maxNanoSecondDigits - zlen sn)) 48
                  else ztake maxNanoSecondDigits sn in
        let nsecs := match ParseInt sn 10 64 with Ret n => n | _ => 0 end in
        if match ss with c :: _ => c =? 45 | [] => false end then Ret (Unix secs (-1 * nsecs))
        else Ret (Unix secs nsecs)
  | _ => Fail ErrHeader
  end.

Definition formatPAXTime (ts : Time) : list Z :=
  let secs := t_sec ts in
  let nsecs := t_nsec ts in
  if nsecs =? 0 then FormatInt secs 10
  else
    let '(sign, secs, nsecs) :=
      if secs <? 0 then (str "-", - (secs + 1), - (nsecs - 1000000000)) else ([], secs, nsecs) in
    TrimRightByte (sign ++ FormatInt secs 10 ++ str "." ++ pad0 9 (FormatInt nsecs 10)) 48.

(** ** Theorems *)
#[local] Ltac Zify.zify_post_hook ::= Z.to_euclidean_division_equations.

Definition time_ok (ts : Time) : Prop :=
  -9223372036854775808 ≤ t_sec ts < 9223372036854775808 ∧ 0 ≤ t_nsec ts < 1000000000.

Lemma TrimRightByte_app a b c :
  TrimRightByte b c ≠ [] → TrimRightByte (a ++ b) c = a ++ TrimRightByte b c.
Proof.
  unfold TrimRightByte. rewrite rev_app_distr. intros Hb.
  assert (Ht : trim_left_byte c (rev b ++ rev a) = trim_left_byte c (rev b) ++ rev a).
  { induction (rev b) as [|x l IH]; [done|]. cbn [trim_left_byte app] in *.
    destruct (x =? c); [by apply IH|done]. }
  by rewrite Ht, rev_app_distr, rev_involutive.
Qed.

(** Parsing of decimal digits, with and without a sign. *)
Definition is_digit (c : Z) : Prop := 48 ≤ c ≤ 57.

Lemma FormatUint_digits z : 0 ≤ z → Forall is_digit (FormatUint z 10).
Proof.
  intros. apply FormatUint_chars; [lia..|]. intros d Hd. unfold is_digit, digit_char.
  destruct (d <? 10) eqn:?; lia.
Qed.
Lemma FormatUint_nonempty z : FormatUint z 10 ≠ [].
Proof.
  unfold FormatUint, ndigits. intros E%fmap_nil_inv. by apply digits_nonempty in E.
Qed.
Lemma ParseInt_digits s u :
  Forall is_digit s → ParseUint s 10 64 = Ret u → u < 2 ^ 63 → ParseInt s 10 64 = Ret u.
Proof.
  intros Hs Hp Hu. unfold ParseInt. destruct s as [|c t]; [done|].
  apply Forall_cons in Hs as [Hc _]. unfold is_digit in Hc.
  replace ((c =? 43) || (c =? 45)) with false by lia. rewrite Hp. cbn [mbind res_bind].
  replace (c =? 45) with false by lia. cbn [negb andb].
  by replace (2 ^ (64 - 1) <=? u) with false by (change (64 - 1) with 63; lia).
Qed.
Lemma ParseInt_minus s u :
  ParseUint s 10 64 = Ret u → u ≤ 2 ^ 63 → ParseInt (45 :: s) 10 64 = Ret (- u).
Proof.
  intros Hp Hu. cbn [ParseInt Z.eqb Pos.eqb orb]. rewrite Hp. cbn [mbind res_bind negb andb].
  by replace (2 ^ (64 - 1) <? u) with false by (change (64 - 1) with 63; lia).
Qed.

Lemma all_in_digits s : Forall is_digit s → all_in (str "0123456789") s = true.
Proof.
  unfold all_in. induction 1 as [|c s Hc Hs IH]; [done|]. cbn [forallb]. rewrite IH, andb_true_r.
  unfold is_digit in Hc. assert (Hex : ∃ k, (k < 10)%nat ∧ c = 48 + Z.of_nat k)
    by (exists (Z.to_nat (c - 48)); lia).
  destruct Hex as (k & Hk & ->). do 10 (destruct k as [|k]; [done|]). lia.
Qed.

(** The fraction of a formatted time: nine digits without the trailing zeros. *)
Lemma fraction_spec n :
  0 < n < 1000000000 →
  let f := TrimRightByte (pad0 9 (FormatUint n 10)) 48 in
  ∃ k, f ++ replicate k 48 = pad0 9 (FormatUint n 10) ∧ zlen f = 9 - Z.of_nat k ∧
    f ≠ [] ∧ Forall is_digit f ∧ ParseInt (f ++ replicate k 48) 10 64 = Ret n.
Proof.
  intros Hn f. destruct (TrimRightByte_spec (pad0 9 (FormatUint n 10)) 48) as (k & Hk & _). fold f in Hk.
  assert (Hlen : zlen (pad0 9 (FormatUint n 10)) = 9).
  { unfold zlen. rewrite length_pad0_FormatUint; lia. }
  assert (Hd : Forall is_digit (pad0 9 (FormatUint n 10))).
  { unfold pad0. apply Forall_app. split; [|apply FormatUint_digits; lia].
    apply Forall_replicate. unfold is_digit. lia. }
  assert (Hp : ParseInt (pad0 9 (FormatUint n 10)) 10 64 = Ret n).
  { apply ParseInt_digits; [done|apply ParseUint_pad0_FormatUint; lia|lia]. }
  exists k. rewrite <- Hk. split_and!; try done.
  - rewrite Hk in Hlen. len.
  - intros Hnil. rewrite Hnil in Hk. cbn [app] in Hk. rewrite Hk in Hp, Hlen.
    rewrite zlen_replicate in Hlen. replace k with 9%nat in Hp by lia.
    vm_compute in Hp. injection Hp as <-. lia.
  - rewrite Hk in Hd. by apply Forall_app in Hd as [? _].
Qed.

(** Parsing of seconds, a dot and a fraction. *)
Lemma parse_fraction ss f k secs n :
  Forall (λ b, b ≠ 46) ss → ParseInt ss 10 64 = Ret secs →
  f ≠ [] → Forall is_digit f → zlen f = 9 - Z.of_nat k → ParseInt (f ++ replicate k 48) 10 64 = Ret n →
  parsePAXTime (ss ++ str "." ++ f) =
    Ret (Unix secs (if match ss with c :: _ => c =? 45 | [] => false end then -1 * n else n)).
Proof.
  intros Hdot Hss Hne Hd Hl Hn. unfold parsePAXTime. change (str ".") with [46].
  change (ss ++ [46] ++ f) with (ss ++ 46 :: f).
  rewrite (IndexByte_app ss 46 f Hdot). rewrite ztake_app_eq by done.
  replace (zdrop (zlen ss + 1) (ss ++ 46 :: f)) with f
    by (change (46 :: f) with ([46] ++ f); rewrite app_assoc; symmetry; apply zdrop_app_eq; len).
  rewrite Hss. destruct f as [|c f]; [done|]. replace (zlen (c :: f) =? 0) with false by len.
  rewrite all_in_digits by done. cbn [negb]. unfold maxNanoSecondDigits.
  assert (E : (if zlen (c :: f) <? 9 then (c :: f) ++ replicate (Z.to_nat (9 - zlen (c :: f))) 48
               else ztake 9 (c :: f)) = (c :: f) ++ replicate k 48).
  { rewrite Hl. destruct k as [|k].
    - change (9 - Z.of_nat 0 <? 9) with false. cbn iota. rewrite ztake_all by lia.
      cbn [replicate]. by rewrite app_nil_r.
    - clear. rewrite (proj2 (Z.ltb_lt _ _)) by lia. do 2 f_equal. lia. }
  rewrite E, Hn. by repeat case_match.
Qed.

Lemma parse_formatPAXTime_eq ts : time_ok ts → parsePAXTime (formatPAXTime ts) = Ret ts.
Proof.
  destruct ts as [sec nsec]. unfold time_ok, formatPAXTime. cbn [t_sec t_nsec]. intros [Hs Hn].
  assert (Hdig : ∀ s, Forall is_digit s → Forall (λ b, b ≠ 46) s).
  { intros s H. eapply Forall_impl; [exact H|]. unfold is_digit. simpl. lia. }
  destruct (Z.eqb_spec nsec 0) as [->|Hn0].
  - unfold parsePAXTime. rewrite IndexByte_None.
    + rewrite ParseInt_FormatInt by lia. unfold Unix.
      change (0 / 1000000000) with 0. by rewrite Z.add_0_r, i64_small by lia.
    + unfold FormatInt. case_match; [constructor; [lia|]|]; apply Hdig, FormatUint_digits; lia.
  - destruct (Z.ltb_spec sec 0) as [Hneg|Hpos].
    + set (S' := - (sec + 1)). set (n' := - (nsec - 1000000000)).
      destruct (fraction_spec n') as (k & Hk & Hl & Hne & Hd & Hp); [lia|].
      unfold FormatInt. replace (S' <? 0) with false by lia. replace (n' <? 0) with false by lia.
      rewrite !app_assoc, TrimRightByte_app, <- !app_assoc by done.
      rewrite (app_assoc (str "-")). rewrite (parse_fraction _ _ k (- S') n'); try done.
      * replace (match str "-" ++ FormatUint S' 10 with c :: _ => c =? 45 | [] => false end) with true by done.
        subst S' n'. unfold Unix. f_equal. f_equal; [rewrite i64_small|]; lia.
      * constructor; [done|]. apply Hdig, FormatUint_digits. lia.
      * apply ParseInt_minus; [apply ParseUint_FormatUint; lia|lia].
    + destruct (fraction_spec nsec) as (k & Hk & Hl & Hne & Hd & Hp); [lia|].
      unfold FormatInt. replace (sec <? 0) with false by lia. replace (nsec <? 0) with false by lia.
      cbn [app]. rewrite !app_assoc, TrimRightByte_app, <- !app_assoc by done.
      rewrite (parse_fraction _ _ k sec nsec); try done.
      * pose proof (FormatUint_digits sec Hpos) as Hf. destruct (FormatUint sec 10) as [|c t].
        { unfold Unix. f_equal. f_equal; [rewrite i64_small|]; lia. }
        apply Forall_cons in Hf as [Hc _]. unfold is_digit in Hc. replace (c =? 45) with false by lia.
        unfold Unix. f_equal. f_equal; [rewrite i64_small|]; lia.
      * apply Hdig, FormatUint_digits. lia.
      * apply ParseInt_digits; [apply FormatUint_digits; lia|apply ParseUint_FormatUint; lia|lia].
Qed.

(** C21: PAX times round-trip: [parsePAXTime] reads back every time
    [formatPAXTime] writes, to the nanosecond, for all 64-bit seconds, before
    1970 included (where the fraction is written as a negative correction). *)
Theorem parse_formatPAXTime ts : time_ok ts → parsePAXTime (formatPAXTime ts) = Ret ts.
Proof. apply parse_formatPAXTime_eq. Qed.

Example format_examples :
  formatPAXTime (mkTime (-1) 500000000) = str "-0.5" ∧
  formatPAXTime (mkTime 1350244992 23960108) = str "1350244992.023960108" ∧
  parsePAXTime (str "1.") = Ret (mkTime 1 0) ∧
  parsePAXTime (str "1.x") = Fail ErrHeader.
Proof. by vm_compute. Qed.

Lemma parse_formatPAXTime_witness :
  parsePAXTime (formatPAXTime (mkTime (-2) 999999990)) = Ret (mkTime (-2) 999999990).
Proof. apply parse_formatPAXTime. split; cbn; lia. Defined.
