(* ===== verification/LzxHuffman.v ===== *)
(** * LZX: Huffman tables ([buildTable] and the table lookup of [getCode] in
    [wim/lzx/lzx.go])

    [buildTable] is compared with the canonical code of the code lengths: the
    code of a symbol is the first code of its length plus the number of earlier
    symbols of that length. *)
From S2P Require Import Prelude.

Definition lenshift : Z := 9.
Definition codemask : Z := 0x1ff.
Definition tablebits : Z := 9.
Definition tablesize : Z := Z.shiftl 1 tablebits.
Definition maxTreePathLen : Z := 16.

Record huffman := mkHuffman {
  extra : list (list Z);
  maxbits : Z;
  table : list Z }.

Definition zero_table : list Z := replicate (Z.to_nat tablesize) 0.

(** [for _, cl := range codelens { count[cl]++; if max < cl { max = cl } }] *)
Fixpoint count_lens (codelens : list Z) (count : list Z) (max : Z) : res (list Z * Z) :=
  match codelens with
  | [] => Ret (count, max)
  | cl :: t =>
      n ← index count cl;
      count' ← update count cl (n + 1);
      count_lens t count' (if max <? cl then cl else max)
  end.

(** [for i := byte(1); i <= max; i++ { code <<= 1; first[i] = code; code += count[i] }],
    [k] iterations from [i] on.  A code is at most the number of symbols times
    [2^16], so the 64-bit [uint] does not wrap. *)
Fixpoint first_codes (k : nat) (i : Z) (count first : list Z) (code : Z) : res (list Z * Z) :=
  match k with
  | O => Ret (first, code)
  | S k =>
      let code := Z.shiftl code 1 in
      first' ← update first i code;
      n ← index count i;
      first_codes k (i + 1) count first' (code + n)
  end.

(** [for code := core; code < 1<<tablebits; code++ { h.table[code] = uint16(code - core) ... }] *)
Fixpoint link_extra (k : nat) (code core : Z) (table : list Z) : res (list Z) :=
  match k with
  | O => Ret table
  | S k =>
      table' ← update table code (u16 (code - core));
      link_extra k (code + 1) core table'
  end.

(** The body of the loop over the symbols. *)
Definition add_code (h : huffman) (first : list Z) (i cl : Z) : res (huffman * list Z) :=
  if negb (cl =? 0) then
    code ← index first cl;
    first' ← update first cl (code + 1);
    let v := Z.lor (u16 (Z.shiftl cl lenshift)) (u16 i) in
    if cl <=? tablebits then
      let extendedCode := Z.shiftl code (tablebits - cl) in
      table' ← fill_range (Z.to_nat (Z.shiftl 1 (tablebits - cl))) (table h) extendedCode v;
      Ret (mkHuffman (extra h) (maxbits h) table', first')
    else
      let prefix := Z.shiftr code (cl - tablebits) in
      let suffix := Z.land code (Z.shiftl 1 (cl - tablebits) - 1) in
      let extendedCode := Z.shiftl suffix (maxbits h - cl) in
      k ← index (table h) prefix;
      row ← index (extra h) k;
      row' ← fill_range (Z.to_nat (Z.shiftl 1 (maxbits h - cl))) row extendedCode v;
      extra' ← update (extra h) k row';
      Ret (mkHuffman extra' (maxbits h) (table h), first')
  else Ret (h, first).

Fixpoint add_codes (h : huffman) (first : list Z) (i : Z) (codelens : list Z) : res huffman :=
  match codelens with
  | [] => Ret h
  | cl :: t =>
      '(h', first') ← add_code h first i cl;
      add_codes h' first' (i + 1) t
  end.

(** [nil] is [None]. *)
Definition buildTable (codelens : list Z) : res (option huffman) :=
  let zeros := replicate (Z.to_nat (maxTreePathLen + 1)) 0 in
  '(count, max) ← count_lens codelens zeros 0;
  if max =? 0 then Ret (Some (mkHuffman [] 0 zero_table))
  else
    '(first, code) ← first_codes (Z.to_nat max) 1 count zeros 0;
    if negb (code =? Z.shiftl 1 max) then Ret None
    else
      '(table, extra) ←
        (if tablebits <? max then
           f ← index first (tablebits + 1);
           let core := f / 2 in
           let nextra := Z.shiftl 1 tablebits - core in
           table ← link_extra (Z.to_nat nextra) core core zero_table;
           Ret (table, replicate (Z.to_nat nextra)
                         (replicate (Z.to_nat (Z.shiftl 1 (max - tablebits))) 0))
         else Ret (zero_table, []));
      h ← add_codes (mkHuffman extra max table) first 0 codelens;
      Ret (Some h).

(** The two table accesses of [getCode], on the 32 bits [c] of the stream. *)
Definition lookup_code (h : huffman) (c : Z) : res Z :=
  v ← index (table h) (Z.shiftr c (32 - tablebits));
  if negb (v >=? Z.shiftl 1 lenshift) then
    row ← index (extra h) v;
    index row (Z.shiftr (u32 (Z.shiftl c tablebits)) (32 - (maxbits h - tablebits)))
  else Ret v.

(** ** The canonical code *)
Section Canonical.
Variable lens : list Z.

Definition count (l : nat) : Z := Z.of_nat (count_occ Z.eq_dec lens (Z.of_nat l)).

(** The first code of each length: the codes of length [l] follow those of
    length [l - 1], extended by a bit. *)
Fixpoint first_code (l : nat) : Z :=
  match l with
  | O => 0
  | S l' => 2 * (first_code l' + match l' with O => 0 | _ => count l' end)
  end.
Definition end_code (l : nat) : Z := first_code l + match l with O => 0 | _ => count l end.

(** The code of the symbol [i]. *)
Definition code_of (i : nat) : Z :=
  let l := lens !!! i in
  first_code (Z.to_nat l) + Z.of_nat (count_occ Z.eq_dec (take i lens) l).

(** The longest code, and the Kraft equality that makes the code complete. *)
Definition max_len : Z := foldr Z.max 0 lens.
Definition complete : Prop := end_code (Z.to_nat max_len) = 2 ^ max_len.
End Canonical.
#[export] Instance complete_dec lens : Decision (complete lens).
Proof. unfold complete. apply _. Defined.

(** ** Arithmetic of the canonical code *)
Section CodeFacts.
Variable lens : list Z.
Hypothesis Hlens : Forall (λ cl, 0 ≤ cl ≤ 16) lens.

Lemma first_code_S l : first_code lens (S l) = 2 * end_code lens l.
Proof. destruct l; done. Qed.
Lemma end_code_ge l : first_code lens l ≤ end_code lens l.
Proof. unfold end_code, count. destruct l; lia. Qed.
Lemma first_code_nonneg l : 0 ≤ first_code lens l.
Proof.
  induction l as [|l IH]; [done|]. rewrite first_code_S. pose proof (end_code_ge l). lia.
Qed.

(** Codes of length [l], extended to a longer length, come before its first code. *)
Lemma end_code_mono l l' :
  (l < l')%nat → end_code lens l * 2 ^ (Z.of_nat l' - Z.of_nat l) ≤ first_code lens l'.
Proof.
  induction 1 as [|l' Hl IH].
  - rewrite first_code_S. replace (Z.of_nat (S l) - Z.of_nat l) with 1 by lia. lia.
  - rewrite first_code_S. pose proof (end_code_ge l').
    replace (Z.of_nat (S l') - Z.of_nat l) with (1 + (Z.of_nat l' - Z.of_nat l)) by lia.
    rewrite Z.pow_add_r, Z.pow_1_r by lia.
    set (d := 2 ^ _) in *. clearbody d. nia.
Qed.

Lemma max_len_ge i cl : lens !! i = Some cl → cl ≤ max_len lens.
Proof.
  unfold max_len. revert i. clear Hlens. induction lens as [|x l IH]; intros i Hi; [done|].
  destruct i as [|i]; simpl in *; [injection Hi as ->; lia|]. specialize (IH i Hi). lia.
Qed.
Lemma max_len_range : 0 ≤ max_len lens ≤ 16.
Proof. unfold max_len. clear -Hlens. induction Hlens as [|x l Hx Hl IH]; [simpl; lia|]. cbn [foldr]. specialize (IH Hl). lia. Qed.

Lemma lens_range i cl : lens !! i = Some cl → 0 ≤ cl ≤ 16.
Proof. intros Hi. rewrite Forall_lookup in Hlens. by apply Hlens in Hi. Qed.

(** With the Kraft equality, the codes of each length fit in that many bits. *)
Lemma end_code_bound l :
  complete lens → (l ≤ Z.to_nat (max_len lens))%nat → end_code lens l ≤ 2 ^ Z.of_nat l.
Proof.
  intros Hc Hl. pose proof max_len_range. unfold complete in Hc.
  destruct (decide (l = Z.to_nat (max_len lens))) as [->|Hne].
  - rewrite Hc, Z2Nat.id by lia. lia.
  - pose proof (end_code_mono l (Z.to_nat (max_len lens)) ltac:(lia)) as Hm.
    pose proof (end_code_ge (Z.to_nat (max_len lens))). rewrite Z2Nat.id in Hm by lia.
    set (d := max_len lens - Z.of_nat l) in *.
    assert (2 ^ max_len lens = 2 ^ Z.of_nat l * 2 ^ d) as Hp
      by (rewrite <- Z.pow_add_r by lia; f_equal; lia).
    assert (0 < 2 ^ d) by (apply Z.pow_pos_nonneg; lia). nia.
Qed.

Lemma code_of_range i cl :
  lens !! i = Some cl → 0 < cl →
  first_code lens (Z.to_nat cl) ≤ code_of lens i < end_code lens (Z.to_nat cl).
Proof.
  intros Hi Hcl. unfold code_of. rewrite (list_lookup_total_correct _ _ _ Hi).
  unfold end_code, count. destruct (Z.to_nat cl) as [|n] eqn:En; [lia|]. rewrite <- En, Z2Nat.id by lia.
  split; [lia|]. apply Z.add_lt_mono_l, inj_lt.
  rewrite <- (take_drop_middle lens i cl Hi) at 2. rewrite count_occ_app, count_occ_cons_eq by done. lia.
Qed.

(** Two symbols with codes that begin the same word are equal. *)
Lemma code_of_disjoint N y i j cl cl' :
  lens !! i = Some cl → lens !! j = Some cl' → 0 < cl ≤ N → 0 < cl' ≤ N →
  y / 2 ^ (N - cl) = code_of lens i → y / 2 ^ (N - cl') = code_of lens j → i = j.
Proof.
  assert (Hlt : ∀ i j cl cl', lens !! i = Some cl → lens !! j = Some cl' → 0 < cl ≤ N → 0 < cl' ≤ N →
    y / 2 ^ (N - cl) = code_of lens i → y / 2 ^ (N - cl') = code_of lens j → cl < cl' → False).
  { clear i j cl cl'. intros i j cl cl' Hi Hj Hcl Hcl' Ey Ey' Hlt.
    pose proof (code_of_range i cl Hi ltac:(lia)) as [_ Hr].
    pose proof (code_of_range j cl' Hj ltac:(lia)) as [Hr' _].
    pose proof (end_code_mono (Z.to_nat cl) (Z.to_nat cl') ltac:(lia)) as Hm.
    rewrite !Z2Nat.id in Hm by lia. rewrite <- Ey in Hr. rewrite <- Ey' in Hr'.
    replace (N - cl) with ((N - cl') + (cl' - cl)) in Hr by lia.
    rewrite Z.pow_add_r, <- Z.div_div in Hr by (try apply Z.pow_nonzero; try apply Z.pow_pos_nonneg; lia).
    set (y' := y / 2 ^ (N - cl')) in *.
    pose proof (Z.mul_succ_div_gt y' (2 ^ (cl' - cl)) ltac:(apply Z.pow_pos_nonneg; lia)).
    assert (0 < 2 ^ (cl' - cl)) by (apply Z.pow_pos_nonneg; lia). nia. }
  intros Hi Hj Hcl Hcl' Ey Ey'.
  destruct (Z.lt_trichotomy cl cl') as [Hl|[<-|Hl]].
  { exfalso. by apply (Hlt i j cl cl'). } 2: { exfalso. by apply (Hlt j i cl' cl). }
  clear Hlt. rewrite Ey' in Ey. unfold code_of in Ey.
  rewrite (list_lookup_total_correct _ _ _ Hi), (list_lookup_total_correct _ _ _ Hj) in Ey.
  assert (Hmono : ∀ i j, lens !! i = Some cl → (i < j)%nat →
    (count_occ Z.eq_dec (take i lens) cl < count_occ Z.eq_dec (take j lens) cl)%nat).
  { clear. intros i j Hi Hij. rewrite <- (take_drop i (take j lens)), count_occ_app, take_take.
    rewrite Nat.min_l by lia. rewrite skipn_firstn_comm.
    rewrite (drop_S _ _ _ Hi). destruct (j - i)%nat eqn:E; [lia|]. cbn [take].
    rewrite count_occ_cons_eq by done. lia. }
  destruct (Nat.lt_trichotomy i j) as [Hl|[->|Hl]]; [|done|].
  - specialize (Hmono i j Hi Hl). lia.
  - specialize (Hmono j i Hj Hl). lia.
Qed.
End CodeFacts.

(** ** The loops of [buildTable] *)
Definition occ (l : list Z) (cl : Z) : Z := Z.of_nat (count_occ Z.eq_dec l cl).

Lemma occ_app l k cl : occ (l ++ k) cl = occ l cl + occ k cl.
Proof. unfold occ. rewrite count_occ_app. lia. Qed.
Lemma occ_one x cl : occ [x] cl = if decide (cl = x) then 1 else 0.
Proof. unfold occ. cbn. destruct (Z.eq_dec x cl), (decide (cl = x)); done || congruence. Qed.

Lemma count_lens_spec t pre cnt max :
  Forall (λ cl, 0 ≤ cl ≤ 16) t → arr cnt 17 (occ pre) → 0 ≤ max →
  ∃ cnt', count_lens t cnt max = Ret (cnt', Z.max max (max_len t)) ∧ arr cnt' 17 (occ (pre ++ t)).
Proof.
  intros Ht. revert pre cnt max. induction Ht as [|cl t Hcl Ht IH]; intros pre cnt max Ha Hm; cbn [count_lens].
  - exists cnt. rewrite app_nil_r. split; [|done]. do 2 f_equal. unfold max_len. simpl. lia.
  - rewrite (arr_index _ _ _ _ Ha) by lia. cbn [mbind res_bind].
    destruct (arr_update _ _ _ cl (occ pre cl + 1) Ha ltac:(lia)) as (c1 & -> & Ha1).
    cbn [mbind res_bind].
    destruct (IH (pre ++ [cl]) c1 (if max <? cl then cl else max)) as (c2 & -> & Ha2).
    { apply (arr_ext _ _ _ _ Ha1). intros i _. rewrite occ_app, occ_one. unfold upd.
      repeat case_decide; subst; lia || done. }
    { case_match; lia. }
    exists c2. rewrite <- app_assoc in Ha2. split; [|done]. do 2 f_equal.
    unfold max_len. cbn [foldr]. destruct (Z.ltb_spec max cl); lia.
Qed.

Lemma first_codes_spec lens cnt k i first code f :
  arr cnt 17 (occ lens) → arr first 17 f → (0 < i)%nat → (i + k ≤ 17)%nat →
  code = end_code lens (i - 1) →
  ∃ first', first_codes k (Z.of_nat i) cnt first code = Ret (first', end_code lens (i + k - 1)) ∧
    arr first' 17 (λ j, if decide (Z.of_nat i ≤ j < Z.of_nat (i + k)) then first_code lens (Z.to_nat j) else f j).
Proof.
  intros Hc. revert i first code f. induction k as [|k IH]; intros i first code f Hf Hi Hk ->; cbn [first_codes].
  - exists first. rewrite Nat.add_0_r. split; [done|]. apply (arr_ext _ _ _ _ Hf).
    intros. rewrite decide_False; [done|lia].
  - rewrite Z.shiftl_mul_pow2, Z.pow_1_r, Z.mul_comm by lia.
    assert (Hfc : 2 * end_code lens (i - 1) = first_code lens i).
    { destruct i as [|i]; [lia|]. rewrite first_code_S. do 2 f_equal. lia. }
    rewrite Hfc.
    destruct (arr_update _ _ _ (Z.of_nat i) (first_code lens i) Hf ltac:(lia)) as (f1 & -> & Hf1).
    rewrite (arr_index _ _ _ _ Hc) by lia. cbn [mbind res_bind].
    replace (Z.of_nat i + 1) with (Z.of_nat (S i)) by lia.
    destruct (IH (S i) f1 (first_code lens i + occ lens (Z.of_nat i)) _ Hf1) as (f2 & -> & Hf2);
      [lia|lia| |].
    { replace (S i - 1)%nat with i by lia. unfold end_code, count, occ. destruct i; [lia|done]. }
    exists f2. replace (S i + k - 1)%nat with (i + S k - 1)%nat by lia. split; [done|].
    apply (arr_ext _ _ _ _ Hf2). intros j Hj. unfold upd.
    repeat case_decide; try lia; try done. f_equal. lia.
Qed.

Lemma link_extra_spec k code core t f :
  arr t 512 f → 0 ≤ core ≤ code → code + Z.of_nat k ≤ 512 →
  ∃ t', link_extra k code core t = Ret t' ∧
    arr t' 512 (λ p, if decide (code ≤ p < code + Z.of_nat k) then p - core else f p).
Proof.
  revert code t f. induction k as [|k IH]; intros code t f Ha Hc Hk; cbn [link_extra].
  - exists t. split; [done|]. apply (arr_ext _ _ _ _ Ha). intros. rewrite decide_False; [done|lia].
  - rewrite u16_small by lia.
    destruct (arr_update _ _ _ code (code - core) Ha ltac:(lia)) as (t1 & -> & Ha1).
    cbn [mbind res_bind]. destruct (IH (code + 1) t1 _ Ha1) as (t2 & -> & Ha2); [lia..|].
    exists t2. split; [done|]. apply (arr_ext _ _ _ _ Ha2). intros p Hp. unfold upd.
    repeat case_decide; try lia; done.
Qed.

Lemma count_occ_nth l x k :
  (k < count_occ Z.eq_dec l x)%nat → ∃ i, l !! i = Some x ∧ count_occ Z.eq_dec (take i l) x = k.
Proof.
  revert k. induction l as [|y l IH]; intros k Hk; cbn [count_occ] in Hk; [lia|].
  destruct (Z.eq_dec y x) as [->|Hne].
  - destruct k as [|k]; [by exists O|]. destruct (IH k ltac:(lia)) as (i & Hi & Hc).
    exists (S i). split; [done|]. cbn [take firstn]. by rewrite count_occ_cons_eq, <- Hc.
  - destruct (IH k Hk) as (i & Hi & Hc). exists (S i). split; [done|].
    cbn [take firstn]. by rewrite count_occ_cons_neq.
Qed.

(** ** The table invariant *)
Section Fill.
Variable lens : list Z.
Hypothesis Hlens : Forall (λ cl, 0 ≤ cl ≤ 16) lens.
Hypothesis Hlen : zlen lens ≤ 512.
Hypothesis Hcomp : complete lens.

Let max : Z := max_len lens.
Let core : Z := end_code lens 9.

(** The table entry of a symbol. *)
Definition entry (j : nat) (cl : Z) : Z := cl * 512 + Z.of_nat j.

(** What the table, its rows of extra entries and the next codes look like once
    the first [n] symbols are added: every word that begins with the code of one
    of them leads to its entry, and, when there are codes longer than 9 bits, the
    entries from [core] on link to the rows. *)
Record filled (n : nat) (h : huffman) (first : list Z)
    (T : Z → Z) (R : Z → list Z) (X : Z → Z → Z) (ff : Z → Z) : Prop := {
  fl_maxbits : maxbits h = max;
  fl_first : arr first 17 ff;
  fl_codes l : 1 ≤ l ≤ max → ff l = first_code lens (Z.to_nat l) + occ (take n lens) l;
  fl_table : arr (table h) 512 T;
  fl_short j cl p : (j < n)%nat → lens !! j = Some cl → 0 < cl ≤ 9 → 0 ≤ p < 512 →
    p / 2 ^ (9 - cl) = code_of lens j → T p = entry j cl;
  fl_link p : 9 < max → core ≤ p < 512 → T p = p - core;
  fl_extra : 9 < max → arr (extra h) (512 - core) R;
  fl_rows k : 9 < max → 0 ≤ k < 512 - core → arr (R k) (2 ^ (max - 9)) (X k);
  fl_long j cl p s : (j < n)%nat → lens !! j = Some cl → 9 < cl → core ≤ p < 512 →
    0 ≤ s < 2 ^ (max - 9) → (p * 2 ^ (max - 9) + s) / 2 ^ (max - cl) = code_of lens j →
    X (p - core) s = entry j cl
}.

Lemma lens_len_range j cl : lens !! j = Some cl → (Z.of_nat j < 512) ∧ 0 ≤ cl ≤ 16 ∧ cl ≤ max.
Proof.
  intros Hj. pose proof (lookup_lt_Some _ _ _ Hj). unfold zlen in Hlen.
  split; [lia|]. split; [by apply (lens_range lens Hlens j)|by apply (max_len_ge lens j)].
Qed.

Lemma entry_value j cl :
  lens !! j = Some cl → Z.lor (u16 (Z.shiftl cl lenshift)) (u16 (Z.of_nat j)) = entry j cl.
Proof.
  intros Hj. apply lens_len_range in Hj as (Hj & Hcl & _). unfold lenshift, entry.
  rewrite Z.shiftl_mul_pow2 by lia. change (2 ^ 9) with 512.
  rewrite !u16_small by lia. apply (lor_add_low 9); simpl; lia.
Qed.

Lemma next_code n h first T R X ff cl :
  filled n h first T R X ff → lens !! n = Some cl → 0 < cl →
  index first cl = Ret (code_of lens n) ∧
  ∃ first', update first cl (code_of lens n + 1) = Ret first' ∧
    arr first' 17 (upd ff cl (code_of lens n + 1)) ∧
    ∀ l, 1 ≤ l ≤ max → upd ff cl (code_of lens n + 1) l = first_code lens (Z.to_nat l) + occ (take (S n) lens) l.
Proof.
  intros Hf Hn Hcl. pose proof (lens_len_range _ _ Hn) as (_ & Hc & Hm).
  assert (Hff : ff cl = code_of lens n).
  { rewrite (fl_codes _ _ _ _ _ _ _ Hf) by lia. unfold code_of.
    by rewrite (list_lookup_total_correct _ _ _ Hn). }
  split; [rewrite (arr_index _ _ _ _ (fl_first _ _ _ _ _ _ _ Hf)), Hff by lia; done|].
  destruct (arr_update _ _ _ cl (code_of lens n + 1) (fl_first _ _ _ _ _ _ _ Hf) ltac:(lia)) as (f' & E & Ha).
  exists f'. split_and!; [done|done|]. intros l Hl.
  rewrite (take_S_r _ _ _ Hn), occ_app, occ_one. unfold upd. case_decide as Hl'.
  - subst l. rewrite <- Hff, (fl_codes _ _ _ _ _ _ _ Hf) by lia. lia.
  - rewrite (fl_codes _ _ _ _ _ _ _ Hf) by lia. lia.
Qed.

(** A symbol with a short code fills a range of the table. *)
Lemma code_of_short_bound j cl :
  lens !! j = Some cl → 0 < cl ≤ 9 → (code_of lens j + 1) * 2 ^ (9 - cl) ≤ core ∧ (0 ≤ code_of lens j).
Proof.
  intros Hj Hcl. pose proof (code_of_range lens j cl Hj ltac:(lia)) as [Hlo Hhi].
  pose proof (first_code_nonneg lens (Z.to_nat cl)). split; [|lia].
  transitivity (end_code lens (Z.to_nat cl) * 2 ^ (9 - cl)); [apply Z.mul_le_mono_nonneg_r; [apply Z.pow_nonneg|]; lia|].
  subst core. destruct (Z.eq_dec cl 9) as [->|]; [change (2 ^ (9 - 9)) with 1; change (Z.to_nat 9) with 9%nat; lia|].
  pose proof (end_code_mono lens (Z.to_nat cl) 9 ltac:(lia)) as Hm. rewrite Z2Nat.id in Hm by lia.
  pose proof (end_code_ge lens 9). change (Z.of_nat 9) with 9 in Hm. lia.
Qed.

Lemma range_div p c d : 0 ≤ d → c * 2 ^ d ≤ p < c * 2 ^ d + 2 ^ d ↔ p / 2 ^ d = c.
Proof.
  intros Hd. assert (0 < 2 ^ d) by (apply Z.pow_pos_nonneg; lia). split.
  - intros Hp. symmetry. apply (Z.div_unique_pos _ _ c (p - c * 2 ^ d)); lia.
  - intros <-. pose proof (Z.div_mod p (2 ^ d)). pose proof (Z.mod_pos_bound p (2 ^ d)). lia.
Qed.

Lemma code_of_bound j cl :
  lens !! j = Some cl → 0 < cl → 0 ≤ code_of lens j ∧ code_of lens j + 1 ≤ 2 ^ cl.
Proof.
  intros Hj Hcl. pose proof (lens_len_range _ _ Hj) as (_ & Hc & Hm).
  pose proof (code_of_range lens j cl Hj Hcl) as [Hlo Hhi].
  pose proof (first_code_nonneg lens (Z.to_nat cl)).
  pose proof (end_code_bound lens Hlens (Z.to_nat cl) Hcomp ltac:(subst max; lia)) as Hb.
  rewrite Z2Nat.id in Hb by lia. lia.
Qed.

Lemma add_short n h first T R X ff cl :
  filled n h first T R X ff → lens !! n = Some cl → 0 < cl ≤ 9 →
  ∃ h' first' T' ff', add_code h first (Z.of_nat n) cl = Ret (h', first') ∧
    filled (S n) h' first' T' R X ff'.
Proof.
  intros Hf Hn Hcl.
  destruct (next_code _ _ _ _ _ _ _ _ Hf Hn ltac:(lia)) as (E1 & first' & E2 & Ha & Hff).
  pose proof (code_of_bound _ _ Hn ltac:(lia)) as [Hc0 Hc1].
  pose proof (code_of_short_bound _ _ Hn Hcl) as [Hcore _].
  unfold add_code. replace (cl =? 0) with false by lia. cbn [negb].
  rewrite E1. cbn [mbind res_bind]. rewrite E2. cbn [mbind res_bind].
  rewrite (entry_value n cl Hn). unfold tablebits.
  replace (cl <=? 9) with true by lia. rewrite !Z.shiftl_mul_pow2, Z.mul_1_l by lia.
  set (c := code_of lens n) in *. set (d := 9 - cl) in *.
  assert (0 < 2 ^ d) by (apply Z.pow_pos_nonneg; lia).
  assert (Hbound : (c + 1) * 2 ^ d ≤ 512).
  { change 512 with (2 ^ 9). replace 9 with (cl + d) at 1 by lia. rewrite Z.pow_add_r by lia. nia. }
  destruct (fill_range_arr (Z.to_nat (2 ^ d)) (table h) 512 T (c * 2 ^ d) (entry n cl)
    (fl_table _ _ _ _ _ _ _ Hf)) as (t' & -> & Ht); [nia|lia|]. rewrite Z2Nat.id in Ht by lia.
  cbn [mbind res_bind]. do 4 eexists. split; [done|].
  split; cbn [maxbits table extra]; [apply Hf|exact Ha|exact Hff|exact Ht| | |apply Hf|apply Hf|].
  - intros j cl' p Hj Hj' Hcl' Hp Hpc. pose proof (range_div p c d ltac:(lia)) as Hr.
    cbn beta. case_decide as Hin.
    + apply Hr in Hin. assert (n = j) as <- by (apply (code_of_disjoint lens 9 p n j cl cl'); done || lia).
      congruence.
    + destruct (decide (j = n)) as [->|].
      * exfalso. apply Hin, Hr. rewrite Hn in Hj'. injection Hj' as <-. exact Hpc.
      * apply (fl_short _ _ _ _ _ _ _ Hf j cl' p); done || lia.
  - intros p Hm Hp. cbn beta. rewrite decide_False by lia. by apply (fl_link _ _ _ _ _ _ _ Hf).
  - intros j cl' p s' Hj Hj' Hcl'. destruct (decide (j = n)) as [->|].
    + rewrite Hn in Hj'. injection Hj' as <-. lia.
    + apply (fl_long _ _ _ _ _ _ _ Hf j cl' p s'); done || lia.
Qed.

(** A symbol with a long code fills a range of one row of extra entries. *)
Lemma core_bounds : 9 < max → 0 ≤ core ≤ 512.
Proof.
  intros Hm. pose proof (end_code_bound lens Hlens 9 Hcomp ltac:(subst max; lia)) as Hb.
  change (2 ^ Z.of_nat 9) with 512 in Hb. subst core.
  pose proof (first_code_nonneg lens 9). pose proof (end_code_ge lens 9). lia.
Qed.

Lemma long_prefix j cl :
  lens !! j = Some cl → 9 < cl →
  core ≤ code_of lens j / 2 ^ (cl - 9) < 512.
Proof.
  intros Hj Hcl. pose proof (code_of_bound _ _ Hj ltac:(lia)) as [_ Hb].
  pose proof (code_of_range lens j cl Hj ltac:(lia)) as [Hlo _].
  pose proof (end_code_mono lens 9 (Z.to_nat cl) ltac:(lia)) as Hm. fold core in Hm.
  rewrite Z2Nat.id in Hm by lia. change (Z.of_nat 9) with 9 in Hm.
  assert (0 < 2 ^ (cl - 9)) by (apply Z.pow_pos_nonneg; lia). split.
  - apply Z.div_le_lower_bound; lia.
  - apply Z.div_lt_upper_bound; [done|].
    assert (2 ^ (cl - 9) * 512 = 2 ^ cl) as ->; [|lia].
    change 512 with (2 ^ 9). rewrite <- Z.pow_add_r by lia. f_equal. lia.
Qed.

(** Words that begin with a code, split into the table index and the row index. *)
Lemma long_split cl p s c :
  9 < cl ≤ max → 0 ≤ s < 2 ^ (max - 9) →
  (p * 2 ^ (max - 9) + s) / 2 ^ (max - cl) = c ↔
  p = c / 2 ^ (cl - 9) ∧ s / 2 ^ (max - cl) = c mod 2 ^ (cl - 9).
Proof.
  intros Hcl Hs. set (d := max - cl). set (e := cl - 9).
  replace (max - 9) with (e + d) in * by lia. rewrite Z.pow_add_r in * by lia.
  assert (0 < 2 ^ d) by (apply Z.pow_pos_nonneg; lia).
  assert (0 < 2 ^ e) by (apply Z.pow_pos_nonneg; lia).
  rewrite Z.mul_assoc, Z.add_comm, Z.div_add by lia. rewrite Z.add_comm.
  assert (0 ≤ s / 2 ^ d < 2 ^ e).
  { split; [apply Z.div_pos; lia|apply Z.div_lt_upper_bound; lia]. }
  split.
  - intros <-. rewrite Z.add_comm, Z.div_add, Z.mod_add by lia.
    rewrite Z.div_small, Z.mod_small by lia. lia.
  - intros [-> ->]. pose proof (Z.div_mod c (2 ^ e)). lia.
Qed.

(** The row of a long symbol, after its entries are written. *)
Definition long_row (X : Z → Z → Z) (j : nat) (cl k : Z) : Z → Z := λ s,
  let a := code_of lens j mod 2 ^ (cl - 9) * 2 ^ (max - cl) in
  if decide (a ≤ s < a + 2 ^ (max - cl)) then entry j cl else X k s.

Lemma filled_long n h first T R X ff first' row' extra' cl :
  filled n h first T R X ff → lens !! n = Some cl → 9 < cl →
  let k := code_of lens n / 2 ^ (cl - 9) - core in
  let ff' := upd ff cl (code_of lens n + 1) in
  arr first' 17 ff' →
  (∀ l, 1 ≤ l ≤ max → ff' l = first_code lens (Z.to_nat l) + occ (take (S n) lens) l) →
  arr row' (2 ^ (max - 9)) (long_row X n cl k) → arr extra' (512 - core) (upd R k row') →
  filled (S n) (mkHuffman extra' max (table h)) first' T (upd R k row') (upd X k (long_row X n cl k)) ff'.
Proof.
  intros Hf Hn Hcl k ff' Ha Hff Hrow Hextra.
  pose proof (lens_len_range _ _ Hn) as (_ & Hc & Hm).
  split; cbn [maxbits table extra];
    [done|exact Ha|exact Hff|apply Hf| |apply Hf|intros _; exact Hextra| |].
  - intros j cl' p Hj Hj' Hcl'. destruct (decide (j = n)) as [->|].
    + rewrite Hn in Hj'. injection Hj' as <-. lia.
    + apply (fl_short _ _ _ _ _ _ _ Hf); done || lia.
  - intros k' _ Hk'. unfold upd. case_decide; [by subst|].
    by apply (fl_rows _ _ _ _ _ _ _ Hf); [lia|].
  - intros j cl' p s' Hj Hj' Hcl' Hp Hs Hdiv. pose proof (lens_len_range _ _ Hj') as (_ & Hc' & Hm').
    destruct (decide (j = n)) as [->|Hne].
    + rewrite Hn in Hj'. injection Hj' as <-.
      apply long_split in Hdiv as [-> Hmod]; [|lia|done]. unfold k. rewrite upd_eq.
      unfold long_row. rewrite decide_True; [done|]. apply range_div; [lia|done].
    + assert (Hj0 : (j < n)%nat) by lia.
      pose proof (fl_long _ _ _ _ _ _ _ Hf j cl' p s' Hj0 Hj' Hcl' Hp Hs Hdiv) as HX.
      unfold upd. case_decide as Hk; [|done]. unfold long_row.
      case_decide as Hin; [|by rewrite <- Hk]. exfalso. apply Hne.
      apply range_div in Hin; [|lia].
      assert (Hp' : p = code_of lens n / 2 ^ (cl - 9)) by (unfold k in Hk; lia).
      apply (code_of_disjoint lens max (p * 2 ^ (max - 9) + s') j n cl' cl); try done; try lia.
      apply long_split; [lia|done|]. done.
Qed.

Lemma add_long n h first T R X ff cl :
  filled n h first T R X ff → lens !! n = Some cl → 9 < cl →
  ∃ h' first' R' X' ff', add_code h first (Z.of_nat n) cl = Ret (h', first') ∧
    filled (S n) h' first' T R' X' ff'.
Proof.
  intros Hf Hn Hcl. pose proof (lens_len_range _ _ Hn) as (_ & Hc & Hm).
  destruct (next_code _ _ _ _ _ _ _ _ Hf Hn ltac:(lia)) as (E1 & first' & E2 & Ha & Hff).
  pose proof (long_prefix _ _ Hn Hcl) as Hp. pose proof (core_bounds ltac:(lia)) as Hcore.
  unfold add_code. replace (cl =? 0) with false by lia. cbn [negb].
  rewrite E1. cbn [mbind res_bind]. rewrite E2. cbn [mbind res_bind].
  rewrite (entry_value n cl Hn). unfold tablebits.
  replace (cl <=? 9) with false by lia. rewrite (fl_maxbits _ _ _ _ _ _ _ Hf).
  rewrite !Z.shiftl_mul_pow2, Z.shiftr_div_pow2, !Z.mul_1_l by lia.
  replace (2 ^ (cl - 9) - 1) with (Z.ones (cl - 9)) by (rewrite Z.ones_equiv; lia).
  rewrite Z.land_ones by lia.
  set (c := code_of lens n) in *. set (prefix := c / 2 ^ (cl - 9)) in *.
  set (suffix := c mod 2 ^ (cl - 9)).
  assert (0 < 2 ^ (max - cl)) by (apply Z.pow_pos_nonneg; lia).
  assert (Hsuf : 0 ≤ suffix < 2 ^ (cl - 9)) by (apply Z.mod_pos_bound, Z.pow_pos_nonneg; lia).
  assert (Hrow : 2 ^ (max - 9) = 2 ^ (cl - 9) * 2 ^ (max - cl)).
  { rewrite <- Z.pow_add_r by lia. f_equal. lia. }
  rewrite (arr_index _ _ _ _ (fl_table _ _ _ _ _ _ _ Hf)) by lia. cbn [mbind res_bind].
  rewrite (fl_link _ _ _ _ _ _ _ Hf) by lia. set (k := prefix - core).
  rewrite (arr_index _ _ _ _ (fl_extra _ _ _ _ _ _ _ Hf ltac:(lia))) by lia. cbn [mbind res_bind].
  destruct (fill_range_arr (Z.to_nat (2 ^ (max - cl))) (R k) (2 ^ (max - 9)) (X k)
    (suffix * 2 ^ (max - cl)) (entry n cl) (fl_rows _ _ _ _ _ _ _ Hf k ltac:(lia) ltac:(lia)))
    as (row' & -> & Hrow'); [nia|nia|]. rewrite Z2Nat.id in Hrow' by lia. cbn [mbind res_bind].
  destruct (arr_update _ _ _ k row' (fl_extra _ _ _ _ _ _ _ Hf ltac:(lia)) ltac:(lia))
    as (extra' & -> & Hextra). cbn [mbind res_bind].
  exists (mkHuffman extra' max (table h)), first', (upd R k row'), (upd X k (long_row X n cl k)),
    (upd ff cl (c + 1)).
  split; [done|]. exact (filled_long n h first T R X ff first' row' extra' cl Hf Hn Hcl Ha Hff Hrow' Hextra).
Qed.

Lemma add_codes_filled t n h first T R X ff :
  filled n h first T R X ff → t = drop n lens →
  ∃ h' first' T' R' X' ff', add_codes h first (Z.of_nat n) t = Ret h' ∧
    filled (length lens) h' first' T' R' X' ff'.
Proof.
  revert n h first T R X ff. induction t as [|cl t IH]; intros n h first T R X ff Hf Ht; cbn [add_codes].
  - exists h, first, T, R, X, ff. split; [done|]. symmetry in Ht.
    assert (Hn : (length lens ≤ n)%nat) by (apply (f_equal length) in Ht; rewrite length_drop in Ht; simpl in Ht; lia).
    destruct Hf. split; try done.
    + intros l Hl. rewrite fl_codes0, !take_ge by (done || lia). done.
    + intros j cl p Hj. apply fl_short0. lia.
    + intros j cl p s Hj. apply fl_long0. lia.
  - assert (Hn : lens !! n = Some cl).
    { rewrite <- (Nat.add_0_r n), <- lookup_drop, <- Ht. done. }
    assert (Ht' : t = drop (S n) lens) by (by rewrite (drop_S _ _ _ Hn) in Ht; injection Ht).
    pose proof (lens_len_range _ _ Hn) as (_ & Hc & _).
    assert (Hstep : ∃ h' first' T' R' X' ff', add_code h first (Z.of_nat n) cl = Ret (h', first') ∧
      filled (S n) h' first' T' R' X' ff').
    { destruct (Z.eq_dec cl 0) as [->|]; [|destruct (Z.le_gt_cases cl 9)].
      - exists h, first, T, R, X, ff. split; [done|].
        destruct Hf. split; try done.
        + intros l Hl. rewrite fl_codes0, (take_S_r _ _ _ Hn), occ_app, occ_one by done.
          rewrite decide_False by lia. lia.
        + intros j cl p Hj Hj' Hcl. apply fl_short0; [|done..]. destruct (decide (j = n)); [|lia].
          subst j. rewrite Hn in Hj'. injection Hj' as <-. lia.
        + intros j cl p s Hj Hj' Hcl. apply fl_long0; [|done..]. destruct (decide (j = n)); [|lia].
          subst j. rewrite Hn in Hj'. injection Hj' as <-. lia.
      - destruct (add_short _ _ _ _ _ _ _ _ Hf Hn ltac:(lia)) as (h' & f' & T' & ff' & ?).
        by exists h', f', T', R, X, ff'.
      - destruct (add_long _ _ _ _ _ _ _ _ Hf Hn ltac:(lia)) as (h' & f' & R' & X' & ff' & ?).
        by exists h', f', T, R', X', ff'. }
    destruct Hstep as (h' & f' & T' & R' & X' & ff' & -> & Hf'). cbn [mbind res_bind].
    replace (Z.of_nat n + 1) with (Z.of_nat (S n)) by lia. by apply (IH (S n) h' f' T' R' X' ff').
Qed.

(** The second access of a lookup uses the bits after the first nine. *)
Lemma lookup_split c m :
  9 < m ≤ 16 → 0 ≤ c < 2 ^ 32 →
  let p := c / 2 ^ (32 - 9) in
  let s := u32 (c * 2 ^ 9) / 2 ^ (32 - (m - 9)) in
  p * 2 ^ (m - 9) + s = c / 2 ^ (32 - m) ∧ 0 ≤ s < 2 ^ (m - 9).
Proof.
  intros Hm Hc p s. set (K := 2 ^ (32 - m)). assert (0 < K) by (apply Z.pow_pos_nonneg; lia).
  assert (HK : 2 ^ 23 = 2 ^ (m - 9) * K) by (subst K; rewrite <- Z.pow_add_r by lia; f_equal; lia).
  assert (HK' : 2 ^ (32 - (m - 9)) = K * 2 ^ 9) by (subst K; rewrite <- Z.pow_add_r by lia; f_equal; lia).
  change (2 ^ (32 - 9)) with (2 ^ 23) in p. set (r := c mod 2 ^ 23).
  assert (Hr : 0 ≤ r < 2 ^ 23) by (apply Z.mod_pos_bound; lia).
  assert (Hs : s = r / K).
  { subst s. unfold u32. change 4294967296 with (2 ^ 23 * 2 ^ 9).
    rewrite Z.mul_mod_distr_r, HK', Z.div_mul_cancel_r by lia. done. }
  assert (Hc' : c = p * 2 ^ 23 + r) by (subst p r; pose proof (Z.div_mod c (2 ^ 23)); lia).
  rewrite Hs. split.
  - rewrite Hc', HK, Z.mul_assoc, Z.add_comm, (Z.add_comm _ r), Z.div_add by lia. done.
  - split; [apply Z.div_pos; lia|apply Z.div_lt_upper_bound; lia].
Qed.

(** The lookup follows a filled table. *)
Lemma lookup_filled h first T R X ff c j cl :
  filled (length lens) h first T R X ff → lens !! j = Some cl → 0 < cl →
  0 ≤ c < 2 ^ 32 → c / 2 ^ (32 - cl) = code_of lens j → lookup_code h c = Ret (entry j cl).
Proof.
  intros Hf Hj Hcl Hc Hcode. pose proof (lens_len_range _ _ Hj) as (Hj' & Hc' & Hm).
  pose proof (lookup_lt_Some _ _ _ Hj) as Hlt. pose proof (max_len_range lens Hlens) as Hmax.
  fold max in Hmax. unfold lookup_code, tablebits, lenshift.
  rewrite (Z.shiftr_div_pow2 c) by lia. set (p := c / 2 ^ (32 - 9)).
  assert (Hp : 0 ≤ p < 512).
  { subst p. split; [apply Z.div_pos; lia|apply Z.div_lt_upper_bound; simpl in *; lia]. }
  rewrite (arr_index _ _ _ _ (fl_table _ _ _ _ _ _ _ Hf) Hp). cbn [mbind res_bind].
  change (Z.shiftl 1 9) with 512. destruct (Z.le_gt_cases cl 9) as [Hs|Hs].
  - rewrite (fl_short _ _ _ _ _ _ _ Hf j cl p Hlt Hj) by
      (try lia; subst p; rewrite Z.div_div, <- Z.pow_add_r by (try apply Z.pow_nonzero; try apply Z.pow_pos_nonneg; lia);
       rewrite <- Hcode; do 2 f_equal; lia).
    unfold entry. replace (_ >=? 512) with true by lia. done.
  - rewrite (fl_maxbits _ _ _ _ _ _ _ Hf), Z.shiftl_mul_pow2, Z.shiftr_div_pow2 by lia.
    set (s := u32 (c * 2 ^ 9) / 2 ^ (32 - (max - 9))).
    assert (Hsplit : p * 2 ^ (max - 9) + s = c / 2 ^ (32 - max) ∧ 0 ≤ s < 2 ^ (max - 9)).
    { apply lookup_split; lia. }
    destruct Hsplit as [Hsplit Hs'].
    assert (Hcode' : (p * 2 ^ (max - 9) + s) / 2 ^ (max - cl) = code_of lens j).
    { rewrite Hsplit, Z.div_div, <- Z.pow_add_r by (try apply Z.pow_nonzero; try apply Z.pow_pos_nonneg; lia).
      rewrite <- Hcode. do 2 f_equal. lia. }
    pose proof (long_prefix _ _ Hj Hs) as Hpre. pose proof (core_bounds ltac:(lia)).
    assert (Hp' : p = code_of lens j / 2 ^ (cl - 9)) by (by apply (long_split cl p s); [lia|..]).
    rewrite (fl_link _ _ _ _ _ _ _ Hf) by lia.
    replace (p - core >=? 512) with false by lia. cbn [negb].
    rewrite (arr_index _ _ _ _ (fl_extra _ _ _ _ _ _ _ Hf ltac:(lia))) by lia. cbn [mbind res_bind].
    rewrite (arr_index _ _ _ _ (fl_rows _ _ _ _ _ _ _ Hf (p - core) ltac:(lia) ltac:(lia))) by done.
    rewrite (fl_long _ _ _ _ _ _ _ Hf j cl p s) by (done || lia). done.
Qed.

(** Every word begins with a code. *)
Lemma code_exists c :
  0 < max → 0 ≤ c < 2 ^ 32 →
  ∃ j cl, lens !! j = Some cl ∧ 0 < cl ∧ c / 2 ^ (32 - cl) = code_of lens j.
Proof.
  intros Hmax Hc. pose proof (max_len_range lens Hlens) as Hm. fold max in Hm.
  assert (Hex : ∀ l, (l ≤ Z.to_nat max)%nat → c < end_code lens l * 2 ^ (32 - Z.of_nat l) →
    ∃ j cl, lens !! j = Some cl ∧ 0 < cl ∧ c / 2 ^ (32 - cl) = code_of lens j).
  { induction l as [|l IH]; intros Hl Hlt; [unfold end_code, first_code in Hlt; lia|].
    destruct (Z.lt_ge_cases c (first_code lens (S l) * 2 ^ (32 - Z.of_nat (S l)))) as [Hf|Hf].
    - apply IH; [lia|]. rewrite first_code_S in Hf.
      replace (32 - Z.of_nat l) with (1 + (32 - Z.of_nat (S l))) by lia.
      rewrite Z.pow_add_r, Z.pow_1_r by lia. lia.
    - clear IH. set (d := 32 - Z.of_nat (S l)) in *. assert (0 < 2 ^ d) by (apply Z.pow_pos_nonneg; lia).
      assert (Hq : first_code lens (S l) ≤ c / 2 ^ d < end_code lens (S l)).
      { split; [apply Z.div_le_lower_bound; lia|apply Z.div_lt_upper_bound; lia]. }
      unfold end_code, count in Hq.
      destruct (count_occ_nth lens (Z.of_nat (S l)) (Z.to_nat (c / 2 ^ d - first_code lens (S l))))
        as (j & Hj & Hocc); [lia|].
      exists j, (Z.of_nat (S l)). split_and!; [done|lia|]. unfold code_of.
      rewrite (list_lookup_total_correct _ _ _ Hj), Hocc, Nat2Z.id. fold d.
      rewrite Z2Nat.id by lia. lia. }
  apply (Hex (Z.to_nat max)); [lia|]. unfold complete in Hcomp. fold max in Hcomp.
  rewrite Hcomp, Z2Nat.id, <- Z.pow_add_r by lia. replace (max + (32 - max)) with 32 by lia. lia.
Qed.

(** The tables [buildTable] starts from. *)
Lemma filled_0 first ff tbl ext T :
  arr first 17 ff → (∀ l, 1 ≤ l ≤ max → ff l = first_code lens (Z.to_nat l)) →
  arr tbl 512 T → (∀ p, 9 < max → core ≤ p < 512 → T p = p - core) →
  (9 < max → ext = replicate (Z.to_nat (512 - core)) (replicate (Z.to_nat (2 ^ (max - 9))) 0)) →
  filled 0 (mkHuffman ext max tbl) first T
    (λ _, replicate (Z.to_nat (2 ^ (max - 9))) 0) (λ _ _, 0) ff.
Proof.
  intros Hf Hff Ht HT Hext. split; cbn [maxbits table extra]; try done || (intros; lia).
  - intros l Hl. rewrite Hff by done. cbn [take firstn]. unfold occ. simpl. lia.
  - intros Hm. pose proof (core_bounds Hm). rewrite (Hext Hm).
    replace (512 - core) with (Z.of_nat (Z.to_nat (512 - core))) at 2 by lia. apply arr_replicate.
  - intros k Hm _. assert (0 < 2 ^ (max - 9)) by (apply Z.pow_pos_nonneg; lia).
    replace (2 ^ (max - 9)) with (Z.of_nat (Z.to_nat (2 ^ (max - 9)))) at 2 by lia. apply arr_replicate.
Qed.
End Fill.

(** ** [buildTable] *)
Lemma buildTable_counts lens :
  Forall (λ cl, 0 ≤ cl ≤ 16) lens →
  ∃ cnt, count_lens lens (replicate 17 0) 0 = Ret (cnt, max_len lens) ∧ arr cnt 17 (occ lens).
Proof.
  intros Hl. destruct (count_lens_spec lens [] (replicate 17 0) 0) as (cnt & E & Ha); [done| |lia|].
  - apply (arr_ext _ _ (λ _, 0)); [apply (arr_replicate 0 17)|]. done.
  - exists cnt. pose proof (max_len_range lens Hl). rewrite E. split; [|done]. do 2 f_equal. lia.
Qed.

Lemma buildTable_complete lens :
  Forall (λ cl, 0 ≤ cl ≤ 16) lens → zlen lens ≤ 512 → 0 < max_len lens → complete lens →
  ∃ h first T R X ff, buildTable lens = Ret (Some h) ∧ filled lens (length lens) h first T R X ff.
Proof.
  intros Hl Hlen Hmax Hc. pose proof (max_len_range lens Hl) as Hm.
  destruct (buildTable_counts lens Hl) as (cnt & E & Ha).
  destruct (first_codes_spec lens cnt (Z.to_nat (max_len lens)) 1 (replicate 17 0) 0 (λ _, 0) Ha)
    as (first & E1 & Hf); [apply (arr_replicate 0 17)|lia..|done|].
  unfold buildTable. change (Z.to_nat (maxTreePathLen + 1)) with 17%nat.
  rewrite E. cbn [mbind res_bind]. replace (max_len lens =? 0) with false by lia.
  change (Z.of_nat 1) with 1 in E1. rewrite E1. cbn [mbind res_bind].
  replace (1 + Z.to_nat (max_len lens) - 1)%nat with (Z.to_nat (max_len lens)) by lia.
  unfold complete in Hc. rewrite Hc, Z.shiftl_mul_pow2, Z.mul_1_l, Z.eqb_refl by lia. cbn [negb].
  assert (Hff : ∀ l, 1 ≤ l ≤ max_len lens →
    (if decide (Z.of_nat 1 ≤ l < Z.of_nat (1 + Z.to_nat (max_len lens))) then first_code lens (Z.to_nat l) else 0)
    = first_code lens (Z.to_nat l)) by (intros; rewrite decide_True; [done|lia]).
  unfold tablebits. destruct (Z.ltb_spec 9 (max_len lens)) as [H9|H9].
  - rewrite (arr_index _ _ _ _ Hf) by lia. cbn [mbind res_bind]. rewrite Hff by lia.
    change (Z.to_nat (9 + 1)) with (S 9). rewrite first_code_S, Z.mul_comm, Z.div_mul by lia.
    pose proof (core_bounds lens Hl Hc H9) as Hcore. change (Z.shiftl 1 9) with 512.
    destruct (link_extra_spec (Z.to_nat (512 - end_code lens 9)) (end_code lens 9) (end_code lens 9) zero_table (λ _, 0))
      as (tbl & -> & Ht); [apply (arr_replicate 0 512)|lia..|]. cbn [mbind res_bind].
    rewrite Z.shiftl_mul_pow2, Z.mul_1_l by lia.
    destruct (add_codes_filled lens Hl Hlen Hc lens 0 _ _ _ _ _ _
      (filled_0 lens Hl Hc first _ tbl _ _ Hf Hff Ht ltac:(intros; cbn beta; rewrite decide_True; lia) ltac:(done)) eq_refl)
      as (h & f' & T' & R' & X' & ff' & E2 & Hfill).
    change (Z.of_nat 0) with 0 in E2. rewrite E2. by exists h, f', T', R', X', ff'.
  - cbn [mbind res_bind].
    destruct (add_codes_filled lens Hl Hlen Hc lens 0 _ _ _ _ _ _
      (filled_0 lens Hl Hc first _ zero_table [] _ Hf Hff (arr_replicate 0 512) ltac:(lia) ltac:(lia)) eq_refl)
      as (h & f' & T' & R' & X' & ff' & E2 & Hfill).
    change (Z.of_nat 0) with 0 in E2. rewrite E2. by exists h, f', T', R', X', ff'.
Qed.

Lemma buildTable_incomplete lens :
  Forall (λ cl, 0 ≤ cl ≤ 16) lens → 0 < max_len lens → ¬ complete lens → buildTable lens = Ret None.
Proof.
  intros Hl Hmax Hc. pose proof (max_len_range lens Hl) as Hm.
  destruct (buildTable_counts lens Hl) as (cnt & E & Ha).
  destruct (first_codes_spec lens cnt (Z.to_nat (max_len lens)) 1 (replicate 17 0) 0 (λ _, 0) Ha)
    as (first & E1 & Hf); [apply (arr_replicate 0 17)|lia..|done|].
  unfold buildTable. change (Z.to_nat (maxTreePathLen + 1)) with 17%nat.
  rewrite E. cbn [mbind res_bind]. replace (max_len lens =? 0) with false by lia.
  change (Z.of_nat 1) with 1 in E1. rewrite E1. cbn [mbind res_bind].
  replace (1 + Z.to_nat (max_len lens) - 1)%nat with (Z.to_nat (max_len lens)) by lia.
  unfold complete in Hc. rewrite Z.shiftl_mul_pow2, Z.mul_1_l by lia.
  by rewrite (proj2 (Z.eqb_neq _ _) Hc).
Qed.

(** C1: [buildTable] builds the decoding table of the canonical Huffman code of
    its code lengths, for any lengths up to 16 of at most 512 symbols: it never
    panics, returns [nil] exactly when the lengths over- or under-subscribe the
    code space (Kraft), and otherwise a table whose two-level lookup maps every
    32-bit word to the one symbol whose code the word begins with, along with
    the length of that code. *)
Theorem buildTable_canonical lens :
  Forall (λ cl, 0 ≤ cl ≤ 16) lens → zlen lens ≤ 512 →
  if max_len lens =? 0 then buildTable lens = Ret (Some (mkHuffman [] 0 zero_table))
  else if bool_decide (complete lens) then
    ∃ h, buildTable lens = Ret (Some h) ∧ maxbits h = max_len lens ∧
      ∀ c, 0 ≤ c < 2 ^ 32 →
        ∃ i cl, lens !! i = Some cl ∧ 0 < cl ∧ c / 2 ^ (32 - cl) = code_of lens i ∧
          lookup_code h c = Ret (cl * 512 + Z.of_nat i) ∧
          ∀ i' cl', lens !! i' = Some cl' → 0 < cl' → c / 2 ^ (32 - cl') = code_of lens i' → i' = i
  else buildTable lens = Ret None.
Proof.
  intros Hl Hlen. pose proof (max_len_range lens Hl) as Hm. destruct (Z.eqb_spec (max_len lens) 0) as [H0|H0].
  - destruct (buildTable_counts lens Hl) as (cnt & E & _). unfold buildTable.
    change (Z.to_nat (maxTreePathLen + 1)) with 17%nat. by rewrite E, H0.
  - case_bool_decide as Hc; [|by apply buildTable_incomplete; [|lia|]].
    destruct (buildTable_complete lens Hl Hlen ltac:(lia) Hc) as (h & f & T & R & X & ff & E & Hf).
    exists h. split; [done|]. split; [apply Hf|]. intros c Hw.
    destruct (code_exists lens Hl Hc c ltac:(lia) Hw) as (j & cl & Hj & Hcl & Hcode).
    exists j, cl. split_and!; try done.
    + by apply (lookup_filled lens Hl Hlen Hc h f T R X ff).
    + intros i' cl' Hi' Hcl' Hcode'. pose proof (lens_range _ Hl _ _ Hj). pose proof (lens_range _ Hl _ _ Hi').
      apply (code_of_disjoint lens 32 c i' j cl' cl); done || lia.
Qed.

(** ** Witness: lengths 2 1 3 3 have the codes 10, 0, 110, 111 *)
Lemma buildTable_canonical_witness :
  ∃ h, buildTable [2; 1; 3; 3] = Ret (Some h) ∧ lookup_code h (Z.shiftl 6 29) = Ret (3 * 512 + 2).
Proof.
  pose proof (buildTable_canonical [2; 1; 3; 3] ltac:(decide_now) ltac:(decide_now)) as H.
  assert (E : (max_len [2; 1; 3; 3] =? 0) = false) by reflexivity. rewrite E in H.
  rewrite bool_decide_eq_true_2 in H by (vm_compute; reflexivity).
  destruct H as (h & Hb & _ & Hlk). exists h. split; [exact Hb|].
  destruct (Hlk (Z.shiftl 6 29) ltac:(vm_compute; split; congruence)) as (i & cl & Hi & _ & _ & -> & Hun).
  rewrite <- (Hun 2%nat 3 eq_refl eq_refl eq_refl) in *. injection Hi as <-. reflexivity.
Defined.
