(* ===== verification/LzxE8.v ===== *)
(** * LZX: the E8 filter ([decodeE8] in [wim/lzx/lzx.go])

    Before compression the operands of x86 CALL instructions (byte 0xe8) are
    made absolute; [decodeE8] undoes that. *)
From S2P Require Import Prelude.

Definition e8filesize : Z := 12000000.
Definition maxe8offset : Z := 0x3fffffff.
(** One iteration at position [i] for a byte 0xe8: the new 32-bit operand. *)
Definition e8_operand (currentPtr abs : Z) : option Z :=
  if (- currentPtr <=? abs) && (abs <? e8filesize) then
    Some (if 0 <=? abs then i32 (abs - currentPtr) else i32 (abs + e8filesize))
  else None.

(** The loop from [i]; it advances by one or by five bytes. *)
Fixpoint e8_loop (fuel : nat) (b : list Z) (off i : Z) : res (list Z) :=
  match fuel with
  | O => Ret b
  | S fuel =>
      if negb (i <? zlen b - 10) then Ret b
      else
        x ← index b i;
        if x =? 0xe8 then
          let currentPtr := i32 (i32 off + i32 i) in
          op ← slice b (i + 1) (i + 5);
          let abs := i32 (le_val op) in
          let b' := match e8_operand currentPtr abs with
                    | Some rel => overwrite b (i + 1) (le_bytes 4 (u32 rel))
                    | None => b
                    end in
          e8_loop fuel b' off (i + 5)
        else e8_loop fuel b off (i + 1)
  end.

Definition decodeE8 (b : list Z) (off : Z) : res (list Z) :=
  if (maxe8offset <? off) || (zlen b <? 10) then Ret b
  else e8_loop (length b) b off 0.


(** ** The filter of the compressor

    [encodeE8] is the filter of the LZX format in the other direction, the
    reference for [decodeE8]: a relative operand that stays within the file is
    made absolute, modulo the file size. *)
Definition e8_encode_operand (currentPtr rel : Z) : option Z :=
  if (- currentPtr <=? rel) && (rel <? e8filesize) then
    Some (if rel <? e8filesize - currentPtr then rel + currentPtr else rel - e8filesize)
  else None.

Fixpoint e8_encode_loop (fuel : nat) (b : list Z) (off i : Z) : res (list Z) :=
  match fuel with
  | O => Ret b
  | S fuel =>
      if negb (i <? zlen b - 10) then Ret b
      else
        x ← index b i;
        if x =? 0xe8 then
          op ← slice b (i + 1) (i + 5);
          let b' := match e8_encode_operand (off + i) (i32 (le_val op)) with
                    | Some abs => overwrite b (i + 1) (le_bytes 4 (u32 abs))
                    | None => b
                    end in
          e8_encode_loop fuel b' off (i + 5)
        else e8_encode_loop fuel b off (i + 1)
  end.
Definition encodeE8 (b : list Z) (off : Z) : res (list Z) :=
  if (maxe8offset <? off) || (zlen b <? 10) then Ret b
  else e8_encode_loop (length b) b off 0.

Lemma e8_operand_encode ptr rel :
  0 ≤ ptr ≤ maxe8offset + 32768 → -2147483648 ≤ rel < 2147483648 →
  match e8_encode_operand ptr rel with
  | Some abs => -2147483648 ≤ abs < 2147483648 ∧ e8_operand ptr abs = Some rel
  | None => e8_operand ptr rel = None
  end.
Proof.
  unfold e8_encode_operand, e8_operand, maxe8offset, e8filesize. intros Hp Hr.
  destruct ((- ptr <=? rel) && (rel <? 12000000)) eqn:E; [|done].
  destruct (Z.ltb_spec rel (12000000 - ptr)).
  - split; [lia|]. replace ((- ptr <=? rel + ptr) && (rel + ptr <? 12000000)) with true by lia.
    replace (0 <=? rel + ptr) with true by lia. rewrite i32_small; f_equal; lia.
  - split; [lia|]. replace ((- ptr <=? rel - 12000000) && (rel - 12000000 <? 12000000)) with true by lia.
    replace (0 <=? rel - 12000000) with false by lia. rewrite i32_small; f_equal; lia.
Qed.

(** Replacing the operand inside a concatenation. *)
Lemma overwrite_app {A} (p old new s : list A) n :
  zlen p = n → zlen new = zlen old → overwrite (p ++ old ++ s) n new = p ++ new ++ s.
Proof.
  intros <- Hl. unfold overwrite. rewrite ztake_app_eq by done. do 2 f_equal.
  rewrite app_assoc. apply zdrop_app_eq. len.
Qed.

Lemma operand_bytes op : bytes_ok op → zlen op = 4 → le_bytes 4 (u32 (i32 (le_val op))) = op.
Proof.
  intros Hb Hl. pose proof (le_val_range op Hb) as Hr. rewrite Hl in Hr. change (256 ^ 4) with 4294967296 in Hr.
  rewrite <- (le_bytes_le_val op Hb) at 2. unfold zlen in Hl. replace (length op) with 4%nat by lia.
  f_equal. unfold u32, i32. rewrite Zminus_mod_idemp_l, Z.mod_small; lia.
Qed.
Lemma i32_operand z : -2147483648 ≤ z < 2147483648 → i32 (le_val (le_bytes 4 (u32 z))) = z.
Proof. intros. rewrite le_val_le32 by apply u32_range. by apply i32_u32. Qed.

(** The operand bytes the two directions leave after a call byte at [ptr]. *)
Definition enc_op (ptr : Z) (op : list Z) : list Z :=
  match e8_encode_operand ptr (i32 (le_val op)) with
  | Some abs => le_bytes 4 (u32 abs) | None => op end.
Definition dec_op (ptr : Z) (op : list Z) : list Z :=
  match e8_operand ptr (i32 (le_val op)) with
  | Some rel => le_bytes 4 (u32 rel) | None => op end.

Lemma zlen_enc_op ptr op : zlen op = 4 → zlen (enc_op ptr op) = 4.
Proof. intros. unfold enc_op. case_match; [by rewrite zlen_le_bytes|done]. Qed.
Lemma zlen_dec_op ptr op : zlen op = 4 → zlen (dec_op ptr op) = 4.
Proof. intros. unfold dec_op. case_match; [by rewrite zlen_le_bytes|done]. Qed.
Lemma bytes_ok_enc_op ptr op : bytes_ok op → bytes_ok (enc_op ptr op).
Proof. intros. unfold enc_op. case_match; [apply bytes_ok_le_bytes|done]. Qed.

Lemma dec_enc_op ptr op :
  0 ≤ ptr ≤ maxe8offset + 32768 → bytes_ok op → zlen op = 4 → dec_op ptr (enc_op ptr op) = op.
Proof.
  intros Hp Hb Hl. pose proof (e8_operand_encode ptr (i32 (le_val op)) Hp ltac:(apply i32_range)) as H.
  unfold enc_op, dec_op. destruct (e8_encode_operand _ _) as [abs|]; [|by rewrite H].
  destruct H as [Ha H]. rewrite i32_operand, H by done. by apply operand_bytes.
Qed.

(** One iteration of each loop, at a call and at any other byte. *)
Section Steps.
Variables (fuel : nat) (off i : Z) (p : list Z).
Hypothesis Hp : zlen p = i.

Lemma index_here x t : index (p ++ x :: t) i = Ret x.
Proof. change (x :: t) with ([x] ++ t). pose_lens. by slices. Qed.

Lemma e8_encode_call op t :
  zlen op = 4 → 6 ≤ zlen t →
  e8_encode_loop (S fuel) (p ++ 0xe8 :: op ++ t) off i =
  e8_encode_loop fuel (p ++ 0xe8 :: enc_op (off + i) op ++ t) off (i + 5).
Proof.
  intros Ho Ht. cbn [e8_encode_loop].
  replace (i <? zlen (p ++ 0xe8 :: op ++ t) - 10) with true by len. cbn [negb].
  rewrite index_here. cbn [mbind res_bind]. rewrite Z.eqb_refl.
  assert (Hs : slice (p ++ 0xe8 :: op ++ t) (i + 1) (i + 5) = Ret op).
  { change (0xe8 :: op ++ t) with ([0xe8] ++ op ++ t). pose_lens. by slices. }
  rewrite Hs. cbn [mbind res_bind]. unfold enc_op. case_match; [|done]. f_equal.
  change (0xe8 :: op ++ t) with ([0xe8] ++ op ++ t). rewrite app_assoc, overwrite_app by len.
  by rewrite <- app_assoc.
Qed.

Lemma e8_decode_call op t :
  0 ≤ off ≤ maxe8offset → 0 ≤ i ≤ 32768 → zlen op = 4 → 6 ≤ zlen t →
  e8_loop (S fuel) (p ++ 0xe8 :: op ++ t) off i =
  e8_loop fuel (p ++ 0xe8 :: dec_op (off + i) op ++ t) off (i + 5).
Proof.
  intros Hoff Hi Ho Ht. cbn [e8_loop]. unfold maxe8offset in Hoff.
  replace (i <? zlen (p ++ 0xe8 :: op ++ t) - 10) with true by len. cbn [negb].
  rewrite index_here. cbn [mbind res_bind]. rewrite Z.eqb_refl.
  assert (Hs : slice (p ++ 0xe8 :: op ++ t) (i + 1) (i + 5) = Ret op).
  { change (0xe8 :: op ++ t) with ([0xe8] ++ op ++ t). pose_lens. by slices. }
  rewrite Hs. cbn [mbind res_bind]. rewrite (i32_small off), (i32_small i), i32_small by lia.
  unfold dec_op. case_match; [|done]. f_equal.
  change (0xe8 :: op ++ t) with ([0xe8] ++ op ++ t). rewrite app_assoc, overwrite_app by len.
  by rewrite <- app_assoc.
Qed.

Lemma e8_encode_other x t :
  x ≠ 0xe8 → 10 ≤ zlen t →
  e8_encode_loop (S fuel) (p ++ x :: t) off i = e8_encode_loop fuel ((p ++ [x]) ++ t) off (i + 1).
Proof.
  intros Hx Ht. cbn [e8_encode_loop]. replace (i <? zlen (p ++ x :: t) - 10) with true by len.
  cbn [negb]. rewrite index_here. cbn [mbind res_bind].
  by rewrite (proj2 (Z.eqb_neq _ _) Hx), <- app_assoc.
Qed.
Lemma e8_decode_other x t :
  x ≠ 0xe8 → 10 ≤ zlen t →
  e8_loop (S fuel) (p ++ x :: t) off i = e8_loop fuel ((p ++ [x]) ++ t) off (i + 1).
Proof.
  intros Hx Ht. cbn [e8_loop]. replace (i <? zlen (p ++ x :: t) - 10) with true by len.
  cbn [negb]. rewrite index_here. cbn [mbind res_bind].
  by rewrite (proj2 (Z.eqb_neq _ _) Hx), <- app_assoc.
Qed.
End Steps.

(** The two loops undo each other from any position, whatever came before. *)
Lemma e8_loops fuel s off i :
  bytes_ok s → 0 ≤ off ≤ maxe8offset → 0 ≤ i → i + zlen s ≤ 32768 →
  ∃ t, zlen t = zlen s ∧ bytes_ok t ∧
    (∀ p, zlen p = i → e8_encode_loop fuel (p ++ s) off i = Ret (p ++ t)) ∧
    (∀ p, zlen p = i → e8_loop fuel (p ++ t) off i = Ret (p ++ s)).
Proof.
  intros Hs Hoff. revert s i Hs. induction fuel as [|fuel IH]; intros s i Hs Hi Hle; [by exists s|].
  destruct (Z.lt_ge_cases 10 (zlen s)) as [Hn|Hn].
  2: { exists s. split_and!; try done; intros p Hp; cbn [e8_encode_loop e8_loop];
       replace (i <? zlen (p ++ s) - 10) with false by len; done. }
  destruct s as [|x s]; [rewrite zlen_nil in Hn; lia|].
  apply Forall_cons in Hs as [Hx Hs]. rewrite zlen_cons in *.
  destruct (Z.eq_dec x 0xe8) as [->|E8].
  - rewrite <- (ztake_zdrop 4 s) in Hs |- *. apply Forall_app in Hs as [Hop Hs2].
    assert (Ho : zlen (ztake 4 s) = 4) by len. assert (Hl2 : zlen (zdrop 4 s) = zlen s - 4) by len.
    set (op := ztake 4 s) in *. set (s2 := zdrop 4 s) in *. clearbody op s2.
    destruct (IH s2 (i + 5) Hs2 ltac:(lia) ltac:(lia)) as (t & Hl & Ht & He & Hd).
    pose proof (zlen_enc_op (off + i) op Ho) as Ho'.
    exists (0xe8 :: enc_op (off + i) op ++ t). split_and!; [len| |intros p Hp|intros p Hp].
    + constructor; [done|]. apply bytes_ok_app; [by apply bytes_ok_enc_op|done].
    + rewrite e8_encode_call by (done || lia).
      specialize (He (p ++ 0xe8 :: enc_op (off + i) op) ltac:(len)).
      rewrite <- !app_assoc in He. exact He.
    + rewrite e8_decode_call by (done || lia). rewrite dec_enc_op by (done || unfold maxe8offset in *; lia).
      specialize (Hd (p ++ 0xe8 :: op) ltac:(len)). rewrite <- !app_assoc in Hd. exact Hd.
  - destruct (IH s (i + 1) Hs ltac:(lia) ltac:(lia)) as (t & Hl & Ht & He & Hd).
    exists (x :: t). split_and!; [len|by constructor| |]; intros p Hp.
    + rewrite e8_encode_other, He by (done || len). by rewrite <- app_assoc.
    + rewrite e8_decode_other, Hd by (done || len). by rewrite <- app_assoc.
Qed.

(** C8: [decodeE8] inverts the E8 filter of the format: a chunk of at most 32KB
    whose call operands were made absolute by the compressor comes back byte
    for byte, at any chunk offset, and no slice it takes is out of bounds. *)
Theorem decodeE8_encodeE8 b off :
  bytes_ok b → zlen b ≤ 32768 → 0 ≤ off →
  ∃ e, encodeE8 b off = Ret e ∧ zlen e = zlen b ∧ bytes_ok e ∧ decodeE8 e off = Ret b.
Proof.
  intros Hb Hl Hoff. unfold encodeE8, decodeE8.
  destruct ((maxe8offset <? off) || (zlen b <? 10)) eqn:E.
  - exists b. by rewrite E.
  - destruct (e8_loops (length b) b off 0 Hb) as (e & Hl' & He & Henc & Hdec); [lia..|].
    specialize (Henc [] eq_refl). specialize (Hdec [] eq_refl). cbn [app] in *.
    exists e. rewrite Hl', E. unfold zlen in Hl'. replace (length e) with (length b) by lia. done.
Qed.

Lemma decodeE8_encodeE8_witness :
  let b := [1; 0xe8; 16; 0; 0; 0; 0xe8; 0xf0; 0xff; 0xff; 0xff; 7; 8; 9; 10; 11; 12] in
  ∃ e, encodeE8 b 100 = Ret e ∧ zlen e = zlen b ∧ bytes_ok e ∧ decodeE8 e 100 = Ret b.
Proof.
  exact (decodeE8_encodeE8
    [1; 0xe8; 16; 0; 0; 0; 0xe8; 0xf0; 0xff; 0xff; 0xff; 7; 8; 9; 10; 11; 12] 100
    ltac:(decide_now) ltac:(decide_now) ltac:(decide_now)).
Defined.
