(* ===== verification/LzxDecoder.v ===== *)
(** * LZX: the decompressor ([wim/lzx/lzx.go])

    The bit reader, the Huffman trees of a block, the three kinds of blocks and
    the [Read] method, over any reader.  The fixed-size arrays are lists;
    indexing or slicing out of their bounds is a [Panic], as in Go. *)
From S2P Require Import Prelude Streams LzxHuffman LzxE8.

Definition maincodecount : Z := 496.
Definition maincodesplit : Z := 256.
Definition lencodecount : Z := 249.
Definition maxBlockSize : Z := 32768.
Definition windowSize : Z := 32768.
Definition verbatimBlock : Z := 1.
Definition alignedOffsetBlock : Z := 2.
Definition uncompressedBlock : Z := 3.

Definition footerBits : list Z :=
  [ 0; 0; 0; 0; 1; 1; 2; 2;
    3; 3; 4; 4; 5; 5; 6; 6;
    7; 7; 8; 8; 9; 9; 10; 10;
    11; 11; 12; 12; 13; 13; 14 ].

Definition basePosition : list Z :=
  [ 0; 1; 2; 3; 4; 6; 8; 12;
    16; 24; 32; 48; 64; 96; 128; 192;
    256; 384; 512; 768; 1024; 1536; 2048; 3072;
    4096; 6144; 8192; 12288; 16384; 24576; 32768 ].

Definition errCorrupt : error := New "LZX data corrupt".

Record decompressor (R : Type) := mkDecomp {
  d_r : R;
  d_err : option error;
  unaligned : bool;
  nbits : Z;
  d_c : Z;
  lru : list Z;
  uncompressed : Z;
  windowReader : option (list Z);
  mainlens : list Z;
  lenlens : list Z;
  window : list Z;
  d_b : list Z;
  bv : Z;
  bo : Z }.
Arguments mkDecomp {R}.
Arguments d_r {R}.
Arguments d_err {R}.
Arguments unaligned {R}.
Arguments nbits {R}.
Arguments d_c {R}.
Arguments lru {R}.
Arguments uncompressed {R}.
Arguments windowReader {R}.
Arguments mainlens {R}.
Arguments lenlens {R}.
Arguments window {R}.
Arguments d_b {R}.
Arguments bv {R}.
Arguments bo {R}.

Section Decoder.
Context {R : Type} `{Reader R}.
Implicit Types f : decompressor R.

(** *** Field updates *)
Definition set_r (r : R) (f : decompressor R) : decompressor R := mkDecomp r (d_err f) (unaligned f) (nbits f) (d_c f) (lru f)
  (uncompressed f) (windowReader f) (mainlens f) (lenlens f) (window f) (d_b f) (bv f) (bo f).
Definition set_err e (f : decompressor R) : decompressor R := mkDecomp (d_r f) e (unaligned f) (nbits f) (d_c f) (lru f)
  (uncompressed f) (windowReader f) (mainlens f) (lenlens f) (window f) (d_b f) (bv f) (bo f).
Definition set_unaligned u (f : decompressor R) : decompressor R := mkDecomp (d_r f) (d_err f) u (nbits f) (d_c f) (lru f)
  (uncompressed f) (windowReader f) (mainlens f) (lenlens f) (window f) (d_b f) (bv f) (bo f).
Definition set_bits n c (f : decompressor R) : decompressor R := mkDecomp (d_r f) (d_err f) (unaligned f) n c (lru f)
  (uncompressed f) (windowReader f) (mainlens f) (lenlens f) (window f) (d_b f) (bv f) (bo f).
Definition set_lru l (f : decompressor R) : decompressor R := mkDecomp (d_r f) (d_err f) (unaligned f) (nbits f) (d_c f) l
  (uncompressed f) (windowReader f) (mainlens f) (lenlens f) (window f) (d_b f) (bv f) (bo f).
Definition set_windowReader w (f : decompressor R) : decompressor R := mkDecomp (d_r f) (d_err f) (unaligned f) (nbits f) (d_c f) (lru f)
  (uncompressed f) w (mainlens f) (lenlens f) (window f) (d_b f) (bv f) (bo f).
Definition set_mainlens l (f : decompressor R) : decompressor R := mkDecomp (d_r f) (d_err f) (unaligned f) (nbits f) (d_c f) (lru f)
  (uncompressed f) (windowReader f) l (lenlens f) (window f) (d_b f) (bv f) (bo f).
Definition set_lenlens l (f : decompressor R) : decompressor R := mkDecomp (d_r f) (d_err f) (unaligned f) (nbits f) (d_c f) (lru f)
  (uncompressed f) (windowReader f) (mainlens f) l (window f) (d_b f) (bv f) (bo f).
Definition set_window w (f : decompressor R) : decompressor R := mkDecomp (d_r f) (d_err f) (unaligned f) (nbits f) (d_c f) (lru f)
  (uncompressed f) (windowReader f) (mainlens f) (lenlens f) w (d_b f) (bv f) (bo f).
Definition set_buf b v o (f : decompressor R) : decompressor R := mkDecomp (d_r f) (d_err f) (unaligned f) (nbits f) (d_c f) (lru f)
  (uncompressed f) (windowReader f) (mainlens f) (lenlens f) (window f) b v o.

Definition gets {A} (g : decompressor R → A) : St (decompressor R) A := λ f, (Ret (g f), f).

(** *** The bit reader *)
Definition d_fail (err : error) : St (decompressor R) unit :=
  modify (λ f, set_buf (d_b f) 0 0 (match d_err f with None => set_err (Some err) f | Some _ => f end)).

(** The result is Go's [error], [None] for [nil]. *)
Definition ensureAtLeast (n : Z) : St (decompressor R) (option error) := λ f,
  if n <=? bv f - bo f then (Ret None, f)
  else match d_err f with
  | Some e => (Ret (Some e), f)
  | None =>
      let k := bv f - bo f in
      match (if negb (bv f =? bo f) then
               _ ← slice (d_b f) 0 k; src ← slice (d_b f) (bo f) (bv f);
               Ret (overwrite (d_b f) 0 src)
             else Ret (d_b f)) with
      | Ret b1 =>
          if negb ((0 <=? k) && (k <=? zlen b1)) then (Panic "slice bounds out of range", f)
          else
          match ReadAtLeast (zlen b1 - k) n (d_r f) with
          | (Ret (bs, err), r') =>
              let f1 := set_r r' (set_buf (overwrite b1 k bs) (bv f) (bo f) f) in
              match err with
              | None => (Ret None, set_buf (d_b f1) (k + zlen bs) 0 f1)
              | Some EOF => (Ret (Some ErrUnexpectedEOF), f1)
              | Some e => (_ ← d_fail e; mret (Some e)) f1
              end
          | (Fail e, r') => (Fail e, set_r r' f)
          | (Panic w, r') => (Panic w, set_r r' f)
          | (NoFuel, r') => (NoFuel, set_r r' f)
          end
      | Fail e => (Fail e, f)
      | Panic w => (Panic w, f)
      | NoFuel => (NoFuel, f)
      end
  end.

Definition feed : St (decompressor R) bool :=
  err ← ensureAtLeast 2;
  if bool_decide (err = Some ErrUnexpectedEOF) then mret false
  else
    f ← get;
    hi ← lift (index (d_b f) (bo f + 1));
    lo ← lift (index (d_b f) (bo f));
    let w := Z.lor (Z.shiftl hi 8) lo in
    _ ← modify (set_bits (u8 (nbits f + 16))
                  (Z.lor (d_c f) (u32 (Z.shiftl w (u8 (16 - nbits f))))));
    _ ← modify (set_buf (d_b f) (bv f) (bo f + 2));
    mret true.

Definition getBits (n : Z) : St (decompressor R) Z :=
  nb ← gets nbits;
  _ ← (if nb <? n then
         ok ← feed;
         if negb ok then d_fail ErrUnexpectedEOF else mret ()
       else mret ());
  f ← get;
  let c := u16 (Z.shiftr (d_c f) (32 - n)) in
  _ ← modify (set_bits (u8 (nbits f - n)) (u32 (Z.shiftl (d_c f) n)));
  mret c.

(** [nil] is [None]; using it is a nil-pointer dereference. *)
Definition getCode (h : option huffman) : St (decompressor R) Z :=
  match h with
  | None => panic "nil pointer dereference"
  | Some h =>
      if 0 <? maxbits h then
        nb ← gets nbits;
        _ ← (if nb <? maxTreePathLen then _ ← feed; mret () else mret ());
        f ← get;
        c ← lift (lookup_code h (d_c f));
        let n := u8 (Z.shiftr c lenshift) in
        if n <=? nbits f then
          _ ← modify (set_bits (nbits f - n) (u32 (Z.shiftl (d_c f) n)));
          mret (Z.land c codemask)
        else _ ← d_fail ErrUnexpectedEOF; mret 0
      else _ ← d_fail errCorrupt; mret 0
  end.

(** *** The trees of a block

    [readTree] updates the lengths in place; the model returns them next to
    the error, so that what was written before an error is kept. *)
Definition d_error : St (decompressor R) (option error) := gets d_err.

(** [for i := range l { l[i] = byte(f.getBits(n)) }], [k] entries. *)
Fixpoint read_lens (k : nat) (n : Z) : St (decompressor R) (list Z) :=
  match k with
  | O => mret []
  | S k => b ← getBits n; t ← read_lens k n; mret (u8 b :: t)
  end.

Definition delta_len (l c : Z) : Z := (u8 (u8 (l + 17) - c)) mod 17.

(** The loop of [readTree]; each iteration advances [i], so as many as there
    are lengths are enough. *)
Fixpoint tree_loop (fuel : nat) (h : option huffman) (lens : list Z) (i : Z) :
    St (decompressor R) (option error * list Z) :=
  if negb (i <? zlen lens) then mret (None, lens)
  else match fuel with
  | O => nofuel
  | S fuel =>
      code ← getCode h;
      let c := u8 code in
      err ← d_error;
      match err with
      | Some e => mret (Some e, lens)
      | None =>
          if c <=? 16 then
            l ← lift (index lens i);
            lens' ← lift (update lens i (delta_len l c));
            tree_loop fuel h lens' (i + 1)
          else if c =? 17 then
            z ← getBits 4;
            let zeroes := z + 4 in
            if zlen lens <? i + zeroes then mret (Some errCorrupt, lens)
            else
              lens' ← lift (fill_range (Z.to_nat zeroes) lens i 0);
              tree_loop fuel h lens' (i + zeroes)
          else if c =? 18 then
            z ← getBits 5;
            let zeroes := z + 20 in
            if zlen lens <? i + zeroes then mret (Some errCorrupt, lens)
            else
              lens' ← lift (fill_range (Z.to_nat zeroes) lens i 0);
              tree_loop fuel h lens' (i + zeroes)
          else if c =? 19 then
            z ← getBits 1;
            let same := z + 4 in
            if zlen lens <? i + same then mret (Some errCorrupt, lens)
            else
              code ← getCode h;
              let c := u8 code in
              if 16 <? c then mret (Some errCorrupt, lens)
              else
                l ← lift (index lens i);
                lens' ← lift (fill_range (Z.to_nat same) lens i (delta_len l c));
                tree_loop fuel h lens' (i + same)
          else mret (Some errCorrupt, lens)
      end
  end.

Definition readTree (lens : list Z) : St (decompressor R) (option error * list Z) :=
  pretreeLen ← read_lens 20 4;
  err ← d_error;
  match err with
  | Some e => mret (Some e, lens)
  | None =>
      h ← lift (buildTable pretreeLen);
      '(err, lens') ← tree_loop (length lens) h lens 0;
      match err with
      | Some e => mret (Some e, lens')
      | None => err ← d_error; mret (err, lens')
      end
  end.

(** The trees are read in place from [mainlens] and [lenlens]. *)
Definition read_main (lo hi : Z) : St (decompressor R) (option error) :=
  f ← get;
  part ← lift (slice (mainlens f) lo hi);
  '(err, part') ← readTree part;
  _ ← modify (λ f, set_mainlens (overwrite (mainlens f) lo part') f);
  mret err.
Definition read_len : St (decompressor R) (option error) :=
  f ← get;
  '(err, lens') ← readTree (lenlens f);
  _ ← modify (set_lenlens lens');
  mret err.

Record trees := mkTrees {
  t_main : option huffman;
  t_length : option huffman;
  t_aligned : option huffman }.

(** Go's nested [if err != nil { return ... err }]. *)
Definition or_return {A} (err : option error) (k : St (decompressor R) (A + error)) :
    St (decompressor R) (A + error) :=
  match err with Some e => mret (inr e) | None => k end.

Definition readTrees (readAligned : bool) : St (decompressor R) (trees + error) :=
  al ← (if readAligned then
          alignedLen ← read_lens 8 3;
          h ← lift (buildTable alignedLen);
          mret (h, bool_decide (h = None))
        else mret (None, false));
  if snd al : bool then mret (inr (New "corrupt"))
  else
    err ← read_main 0 maincodesplit; or_return err (
    err ← read_main maincodesplit maincodecount; or_return err (
    f ← get;
    main ← lift (buildTable (mainlens f));
    if bool_decide (main = None) then mret (inr (New "corrupt"))
    else
      err ← read_len; or_return err (
      f ← get;
      length ← lift (buildTable (lenlens f));
      if bool_decide (length = None) then mret (inr (New "corrupt"))
      else
        err ← d_error;
        or_return err (mret (inl (mkTrees main length (fst al))))))).

(** *** Block headers *)
Definition readBlockHeader : St (decompressor R) ((Z * Z) + error) :=
  f ← get;
  err ← (if unaligned f then
           err ← ensureAtLeast 1;
           match err with
           | Some e => mret (Some e)
           | None => _ ← modify (λ f, set_unaligned false (set_buf (d_b f) (bv f) (bo f + 1) f)); mret None
           end
         else mret None);
  or_return err (
  blockType ← getBits 3;
  full ← getBits 1;
  sz ← (if negb (full =? 0) then mret (inl maxBlockSize)
        else
          blockSize ← getBits 16;
          mret (if maxBlockSize <? blockSize then inr errCorrupt else inl blockSize));
  match sz with
  | inr e => mret (inr e)
  | inl blockSize =>
      err ← d_error; or_return err (
      if (blockType =? verbatimBlock) || (blockType =? alignedOffsetBlock) then
        mret (inl (blockType, blockSize))
      else if blockType =? uncompressedBlock then
        nb ← gets nbits;
        if 16 <? nb then panic "impossible: more than one 16-bit word remains"
        else
          _ ← getBits (if nb =? 0 then 16 else nb);
          err ← ensureAtLeast 12; or_return err (
          f ← get;
          l0 ← lift (slice (d_b f) (bo f) (bo f + 4));
          l1 ← lift (slice (d_b f) (bo f + 4) (bo f + 8));
          l2 ← lift (slice (d_b f) (bo f + 8) (bo f + 12));
          _ ← modify (λ f, set_lru [u16 (le_val l0); u16 (le_val l1); u16 (le_val l2)]
                             (set_buf (d_b f) (bv f) (bo f + 12) f));
          mret (inl (blockType, blockSize)))
      else mret (inr errCorrupt))
  end).

(** *** Compressed blocks *)

(** [for ; i < copyend; i++ { f.window[i] = f.window[i-matchoffset] }] *)
Fixpoint copy_match (k : nat) (w : list Z) (i off : Z) : res (list Z) :=
  match k with
  | O => Ret w
  | S k =>
      x ← index w (i - off);
      w' ← update w i x;
      copy_match k w' (i + 1) off
  end.

(** The offset of a match: one of the last three, or the base of its slot with
    the bits that follow. *)
Definition match_offset (haligned : option huffman) (slot : Z) : St (decompressor R) Z :=
  f ← get;
  if slot <? 3 then
    matchoffset ← lift (index (lru f) slot);
    l0 ← lift (index (lru f) 0);
    l ← lift (update (lru f) slot l0);
    l' ← lift (update l 0 matchoffset);
    _ ← modify (set_lru l');
    mret matchoffset
  else
    offsetbits ← lift (index footerBits slot);
    vb ← (if 0 <? offsetbits then
            if bool_decide (haligned ≠ None) && (3 <=? offsetbits) then
              v ← getBits (offsetbits - 3);
              a ← getCode haligned;
              mret (u16 (v * 8), a)
            else
              v ← getBits offsetbits;
              mret (v, 0)
          else mret (0, 0));
    base ← lift (index basePosition slot);
    let matchoffset := u16 (base + fst vb + snd vb - 2) in
    f ← get;
    l1 ← lift (index (lru f) 1);
    l0 ← lift (index (lru f) 0);
    _ ← modify (set_lru [matchoffset; l0; l1]);
    mret matchoffset.

(** An iteration writes at least one byte or leaves the loop, so [end - start]
    iterations are enough. *)
Fixpoint compressed_loop (fuel : nat) (i end_ : Z) (t : trees) : St (decompressor R) Z :=
  if negb (i <? end_) then mret i
  else match fuel with
  | O => nofuel
  | S fuel =>
      main ← getCode (t_main t);
      err ← d_error;
      match err with
      | Some _ => mret i
      | None =>
          if main <? 256 then
            f ← get;
            w ← lift (update (window f) i main);
            _ ← modify (set_window w);
            compressed_loop fuel (u16 (i + 1)) end_ t
          else
            let slot := (main - 256) / 8 in
            let len0 := (main - 256) mod 8 in
            len1 ← (if len0 =? 7 then x ← getCode (t_length t); mret (u16 (len0 + x)) else mret len0);
            let matchlen := u16 (len1 + 2) in
            matchoffset ← match_offset (t_aligned t) slot;
            if negb ((matchoffset <=? i) && (matchlen <=? u16 (end_ - i))) then
              _ ← d_fail errCorrupt; mret i
            else
              f ← get;
              w ← lift (copy_match (Z.to_nat matchlen) (window f) i matchoffset);
              _ ← modify (set_window w);
              compressed_loop fuel (u16 (i + matchlen)) end_ t
      end
  end.

Definition readCompressedBlock (start end_ : Z) (t : trees) : St (decompressor R) (Z * option error) :=
  i ← compressed_loop (Z.to_nat (end_ - start)) start end_ t;
  err ← d_error;
  mret (u16 (i - start), err).

(** *** Blocks *)

(** [io.ReadFull(f.r, f.window[lo:lo+n])] *)
Definition read_window (lo n : Z) : St (decompressor R) (Z * option error) := λ f,
  match ReadFull n (d_r f) with
  | (Ret (bs, err), r') =>
      (Ret (zlen bs, err), set_r r' (set_window (overwrite (window f) lo bs) f))
  | (Fail e, r') => (Fail e, set_r r' f)
  | (Panic w, r') => (Panic w, set_r r' f)
  | (NoFuel, r') => (NoFuel, set_r r' f)
  end.

Definition readBlock (start : Z) : St (decompressor R) (Z * option error) :=
  hd ← readBlockHeader;
  match hd with
  | inr e => mret (0, Some e)
  | inl (blockType, size) =>
      if blockType =? uncompressedBlock then
        _ ← (if size mod 2 =? 1 then modify (set_unaligned true) else mret ());
        f ← get;
        copied ← (if bo f <? bv f then
                    let copied := if bv f - bo f <? size then bv f - bo f else size in
                    _ ← lift (slice (window f) start (start + copied));
                    src ← lift (slice (d_b f) (bo f) (bo f + copied));
                    _ ← modify (λ f, set_window (overwrite (window f) start src)
                                       (set_buf (d_b f) (bv f) (bo f + copied) f));
                    mret copied
                  else mret 0);
        f ← get;
        let lo := u16 (start + u16 copied) in
        dst ← lift (slice (window f) lo (u16 (start + size)));
        '(n, err) ← read_window lo (zlen dst);
        mret (copied + n, err)
      else
        t ← readTrees (blockType =? alignedOffsetBlock);
        match t with
        | inr e => mret (0, Some e)
        | inl t => readCompressedBlock start (u16 (start + size)) t
        end
  end.
End Decoder.

(** ** [Read] *)
Section Read.
Context {R : Type} `{Reader R}.

(** The loop over the blocks of a chunk.  The number of blocks is not bounded
    by the size (a block may be empty), so the fuel is the caller's. *)
Fixpoint block_loop (fuel : nat) (n : Z) : St (decompressor R) (option error) :=
  f ← get;
  if negb (n <? uncompressed f) then mret None
  else match fuel with
  | O => nofuel
  | S fuel =>
      '(k, err) ← readBlock (u16 n);
      match err with
      | Some e => mret (Some e)
      | None => block_loop fuel (n + k)
      end
  end.

(** Decode the whole chunk into the window, on the first call. *)
Definition decode (fuel : nat) : St (decompressor R) (option error) :=
  f ← get;
  match windowReader f with
  | Some _ => mret None
  | None =>
      err ← block_loop fuel 0;
      match err with
      | Some e => mret (Some e)
      | None =>
          f ← get;
          w ← lift (slice (window f) 0 (uncompressed f));
          w' ← lift (decodeE8 w 0);
          _ ← modify (λ f, set_windowReader (Some w') (set_window (overwrite (window f) 0 w') f));
          mret None
      end
  end.

Definition Read (fuel : nat) (n : Z) : St (decompressor R) (list Z * option error) :=
  err ← decode fuel;
  match err with
  | Some e => mret ([], Some e)
  | None =>
      f ← get;
      match windowReader f with
      | None => panic "nil pointer dereference"
      | Some w =>
          let '(x, w') := rd_read n w in
          _ ← modify (set_windowReader (Some w'));
          lift x
      end
  end.

Definition NewReader (r : R) (uncompressedSize : Z) : res (decompressor R) :=
  if windowSize <? uncompressedSize then Fail (New "uncompressed size is limited to 32KB")
  else Ret (mkDecomp r None false 0 0 [1; 1; 1] uncompressedSize None
              (replicate (Z.to_nat maincodecount) 0) (replicate (Z.to_nat lencodecount) 0)
              (replicate (Z.to_nat windowSize) 0) (replicate 4096 0) 0 0).
End Read.
