(* ===== verification/LzxBits.v ===== *)
(** * LZX: the bit reader against bit strings

    The stream a decompressor has still to read, as a list of bits: the bits in
    [f.c], then the 16-bit words of the buffer and of the reader, most
    significant bit first.  [getBits] takes the next [n] bits of it and
    [getCode] the next code word. *)
From S2P Require Import Prelude Streams Unicode LzxHuffman LzxE8 LzxDecoder.

(** ** Bit strings *)
Fixpoint bval (l : list bool) : Z :=
  match l with
  | [] => 0
  | b :: t => Z.b2z b * 2 ^ zlen t + bval t
  end.
Fixpoint bits_of (n : nat) (z : Z) : list bool :=
  match n with
  | O => []
  | S n => Z.testbit z (Z.of_nat n) :: bits_of n z
  end.

Lemma zlen_bits_of n z : zlen (bits_of n z) = Z.of_nat n.
Proof. induction n as [|n IH]; [done|]. cbn [bits_of]. rewrite zlen_cons. lia. Qed.
#[export] Hint Rewrite zlen_bits_of : golist.

Lemma bval_range l : 0 ≤ bval l < 2 ^ zlen l.
Proof.
  induction l as [|b l IH]; [done|]. cbn [bval]. rewrite zlen_cons, Z.pow_add_r by (pose_lens; lia).
  destruct b; simpl Z.b2z; lia.
Qed.
Lemma bval_app l k : bval (l ++ k) = bval l * 2 ^ zlen k + bval k.
Proof.
  induction l as [|b l IH]; [done|]. cbn [bval app].
  rewrite IH, zlen_app, Z.pow_add_r by (pose_lens; lia). lia.
Qed.
Lemma bval_bits_of n z : bval (bits_of n z) = z mod 2 ^ Z.of_nat n.
Proof.
  induction n as [|n IH]; [by rewrite Z.mod_1_r|]. cbn [bits_of bval].
  rewrite zlen_bits_of, IH, Nat2Z.inj_succ, Z.pow_succ_r, (Z.mul_comm 2) by lia.
  rewrite Z.rem_mul_r by (try apply Z.pow_nonzero; lia).
  rewrite <- Z.shiftr_div_pow2, Z.testbit_odd by lia. 
  rewrite (Zmod_odd (Z.shiftr z (Z.of_nat n))).
  destruct (Z.odd (Z.shiftr z (Z.of_nat n))); simpl Z.b2z; lia.
Qed.
Lemma bval_inj l k : zlen l = zlen k → bval l = bval k → l = k.
Proof.
  revert k. induction l as [|a l IH]; intros [|b k] Hl Hv; try done; rewrite ?zlen_nil, ?zlen_cons in Hl;
    try (pose_lens; lia). cbn [bval] in Hv.
  assert (Hlk : zlen l = zlen k) by lia. rewrite Hlk in Hv.
  pose proof (bval_range l) as Rl. pose proof (bval_range k) as Rk. rewrite Hlk in Rl.
  assert (a = b) as -> by (destruct a, b; simpl Z.b2z in Hv; done || lia).
  f_equal. apply IH; [done|]. lia.
Qed.
Lemma bits_of_bval l : bits_of (length l) (bval l) = l.
Proof.
  apply bval_inj; [by rewrite zlen_bits_of|]. rewrite bval_bits_of.
  apply Z.mod_small. apply bval_range.
Qed.

(** ** The stream of a decompressor over [bytes.Reader] *)
Abbreviation decomp := (decompressor (list Z)).

(** What the bit reader leaves alone. *)
Definition others (f : decomp) :=
  (unaligned f, lru f, uncompressed f, windowReader f, mainlens f, lenlens f, window f).

Definition buffered (f : decomp) : list Z := ztake (bv f - bo f) (zdrop (bo f) (d_b f)).
Definition pending (f : decomp) : list Z := buffered f ++ d_r f.

Definition word_bits (ws : list Z) : list bool := concat (bits_of 16 <$> ws).

(** [q] is in [f.c], [ws] are the words to come; the words are buffered whole. *)
Record bit_state (f : decomp) (q : list bool) (ws : list Z) : Prop := {
  bs_err : d_err f = None;
  bs_nbits : nbits f = zlen q;
  bs_max : zlen q ≤ 32;
  bs_c : d_c f = bval q * 2 ^ (32 - zlen q);
  bs_buf : zlen (d_b f) = 4096;
  bs_bo : 0 ≤ bo f ≤ bv f;
  bs_bv : bv f ≤ 4096;
  bs_even : (bv f - bo f) mod 2 = 0;
  bs_pending : pending f = le_words ws;
  bs_words : words_ok ws
}.

(** The bits to come. *)
Definition has_bits (f : decomp) (l : list bool) : Prop :=
  ∃ q ws, bit_state f q ws ∧ l = q ++ word_bits ws.

Lemma zlen_le_words_even (ws : list Z) : zlen (le_words ws) = 2 * zlen ws.
Proof. apply zlen_le_words. Qed.

(** ** [ensureAtLeast] and [feed] *)
Lemma ReadAtLeast_bytes (r : list Z) cap min :
  0 < min → min ≤ cap → min ≤ zlen r →
  ReadAtLeast cap min r = (Ret (ztake cap r, None), zdrop cap r).
Proof.
  intros Hm Hc Hr. unfold ReadAtLeast. replace (cap <? min) with false by lia.
  destruct (Z.to_nat min) as [|k] eqn:E; [lia|]. cbn [read_at_least].
  rewrite zlen_nil. replace (min <=? 0) with false by lia. rewrite Z.sub_0_r.
  unfold rd_read, bytes_Reader. cbn beta. rewrite bool_decide_eq_false_2 by (intros ->; rewrite zlen_nil in Hr; lia).
  cbn [app]. destruct k; cbn [read_at_least]; by replace (min <=? zlen (ztake cap r)) with true by len.
Qed.
Lemma ReadAtLeast_empty cap min :
  0 < min → min ≤ cap → ReadAtLeast cap min ([] : list Z) = (Ret ([], Some EOF), []).
Proof.
  intros Hm Hc. unfold ReadAtLeast. replace (cap <? min) with false by lia.
  destruct (Z.to_nat min) as [|k] eqn:E; [lia|]. cbn [read_at_least].
  rewrite zlen_nil. replace (min <=? 0) with false by lia.
  unfold rd_read, bytes_Reader. cbn beta. rewrite bool_decide_eq_true_2 by done. cbn [app].
  rewrite zlen_nil. by replace (min <=? 0) with false by lia.
Qed.

Lemma le_words_cons w ws : le_words (w :: ws) = le_bytes 2 w ++ le_words ws.
Proof. done. Qed.

Lemma buffered_len f q ws : bit_state f q ws → zlen (buffered f) = bv f - bo f.
Proof. intros []. unfold buffered. len. Qed.

(** The buffer, once filled, starts with the next word. *)
Lemma ensure_word f q w ws :
  bit_state f q (w :: ws) →
  ∃ f', ensureAtLeast 2 f = (Ret None, f') ∧ bit_state f' q (w :: ws) ∧ bo f' + 2 ≤ bv f' ∧
    others f' = others f.
Proof.
  intros Hs. pose proof (buffered_len _ _ _ Hs) as Hbl. destruct Hs. unfold ensureAtLeast.
  destruct (Z.leb_spec 2 (bv f - bo f)); [exists f; split_and!; [done|by split|lia|done]|].
  rewrite bs_err0. assert (E : bv f = bo f).
  { pose proof (Z.div_mod (bv f - bo f) 2). lia. }
  rewrite E, Z.eqb_refl, Z.sub_diag. cbn [negb].
  replace ((0 <=? 0) && (0 <=? zlen (d_b f))) with true by lia. cbn [negb].
  unfold pending in bs_pending0. assert (Hb0 : buffered f = []).
  { apply length_zero_iff_nil. unfold zlen in Hbl. lia. }
  rewrite Hb0, le_words_cons in bs_pending0. cbn [app] in bs_pending0.
  assert (Hlen : zlen (d_r f) = 2 + 2 * zlen ws) by (rewrite bs_pending0; len).
  rewrite bs_buf0, ReadAtLeast_bytes by (pose_lens; lia).
  eexists. split; [done|]. unfold set_r, set_buf.
  cbn [d_r d_err unaligned nbits d_c lru uncompressed windowReader mainlens lenlens window d_b bv bo].
  rewrite Z.sub_0_r, Z.add_0_l.
  set (bs := ztake 4096 (d_r f)). assert (Hbs : zlen bs = Z.min 4096 (2 + 2 * zlen ws)) by (subst bs; len).
  pose_lens. split_and!; [split|lia|done];
    cbn [d_r d_err unaligned nbits d_c lru uncompressed windowReader mainlens lenlens window d_b bv bo];
    try done; try lia.
  - rewrite zlen_overwrite; lia.
  - rewrite Z.sub_0_r, Hbs. destruct (Z.min_spec 4096 (2 + 2 * zlen ws)) as [[_ ->]|[_ ->]]; [done|].
    rewrite (Z.mul_comm 2), Z.mod_add by lia. done.
  - unfold pending, buffered.
    cbn [d_r d_err unaligned nbits d_c lru uncompressed windowReader mainlens lenlens window d_b bv bo].
    rewrite !Z.sub_0_r, zdrop_0. unfold overwrite. rewrite ztake_0. cbn [app].
    rewrite ztake_app_eq by lia. subst bs. by rewrite ztake_zdrop, bs_pending0.
Qed.

Lemma word_of_bytes w : word_ok w → Z.lor (Z.shiftl (w / 256 mod 256) 8) (w mod 256) = w.
Proof.
  unfold word_ok. intros Hw. rewrite Z.shiftl_mul_pow2 by lia.
  rewrite lor_add_low by (try apply Z.mod_pos_bound; simpl; lia).
  rewrite (Z.mod_small (w / 256)) by (split; [apply Z.div_pos|apply Z.div_lt_upper_bound]; lia).
  pose proof (Z.div_mod w 256). simpl. lia.
Qed.

Lemma zdrop_ztake {A} i n (l : list A) : 0 ≤ i → zdrop i (ztake n l) = ztake (n - i) (zdrop i l).
Proof.
  intros. unfold zdrop, ztake. rewrite skipn_firstn_comm. f_equal. lia.
Qed.
Lemma index_pending f q ws i :
  bit_state f q ws → 0 ≤ i < bv f - bo f → index (d_b f) (bo f + i) = index (pending f) i.
Proof.
  intros Hs Hi. pose proof (buffered_len _ _ _ Hs) as Hl. destruct Hs. unfold pending, index.
  rewrite !decide_True by lia. unfold zlen in Hl. rewrite lookup_app_l by lia.
  unfold buffered, ztake, zdrop. rewrite lookup_take_lt, lookup_drop by lia.
  by replace (Z.to_nat (bo f) + Z.to_nat i)%nat with (Z.to_nat (bo f + i)) by lia.
Qed.

(** Moving the read position over a buffered word. *)
Lemma advance_word f q w ws f' q' :
  bit_state f q (w :: ws) → bo f + 2 ≤ bv f →
  d_r f' = d_r f → d_err f' = None → d_b f' = d_b f → bv f' = bv f → bo f' = bo f + 2 →
  nbits f' = zlen q' → zlen q' ≤ 32 → d_c f' = bval q' * 2 ^ (32 - zlen q') →
  bit_state f' q' ws.
Proof.
  intros Hs Hb Hr He Hbuf Hbv Hbo Hn Hm Hc. pose proof (buffered_len _ _ _ Hs) as Hl.
  destruct Hs. split; try done; rewrite ?Hbuf, ?Hbv, ?Hbo; try done; try lia.
  - replace (bv f - (bo f + 2)) with ((bv f - bo f) + (-1) * 2) by lia. by rewrite Z.mod_add.
  - assert (Hd : zdrop 2 (pending f) = le_words ws).
    { rewrite bs_pending0, le_words_cons. by apply zdrop_app_eq. }
    rewrite <- Hd. unfold pending. rewrite zdrop_app_le by lia. unfold buffered.
    rewrite Hbuf, Hr, Hbv, Hbo. rewrite zdrop_ztake, zdrop_zdrop by lia. do 2 f_equal. lia.
  - by apply Forall_cons in bs_words0 as [_ ?].
Qed.

(** [feed] appends a word to the bits in [f.c]. *)
Lemma feed_word f q w ws :
  bit_state f q (w :: ws) → zlen q ≤ 16 →
  ∃ f', feed f = (Ret true, f') ∧ bit_state f' (q ++ bits_of 16 w) ws ∧ others f' = others f.
Proof.
  intros Hs Hq. destruct (ensure_word _ _ _ _ Hs) as (f1 & E1 & Hs1 & Hb1 & Ho1).
  unfold feed. rewrite (St_bind_Ret _ _ _ _ _ E1). rewrite bool_decide_eq_false_2 by done.
  rewrite (St_bind_Ret _ _ _ _ _ (eq_refl : get f1 = (Ret f1, f1))).
  assert (Hw : word_ok w) by (destruct Hs1; by apply Forall_cons in bs_words0 as [? _]).
  assert (Hi1 : index (d_b f1) (bo f1 + 1) = Ret (w / 256 mod 256)).
  { rewrite (index_pending _ _ _ _ Hs1), (bs_pending _ _ _ Hs1) by lia. done. }
  assert (Hi0 : index (d_b f1) (bo f1) = Ret (w mod 256)).
  { rewrite <- (Z.add_0_r (bo f1)), (index_pending _ _ _ _ Hs1), (bs_pending _ _ _ Hs1) by lia. done. }
  rewrite Hi1, Hi0. st_red. rewrite word_of_bytes by done.
  eexists. split; [done|]. split; [|exact Ho1]. pose_lens.
  apply (advance_word f1 q w ws); try done; unfold set_bits, set_buf;
    cbn [d_r d_err unaligned nbits d_c lru uncompressed windowReader mainlens lenlens window d_b bv bo];
    destruct Hs1; try done.
  - rewrite bs_nbits0. unfold u8. rewrite Z.mod_small; len.
  - len.
  - rewrite bs_nbits0, bs_c0. rewrite zlen_app, zlen_bits_of. unfold u8. rewrite (Z.mod_small (16 - zlen q)) by lia.
    rewrite Z.shiftl_mul_pow2, bval_app, zlen_bits_of, bval_bits_of by lia.
    change (Z.of_nat 16) with 16. unfold word_ok in Hw. change (2 ^ 16) with 65536.
    rewrite (Z.mod_small w) by lia.
    assert (Hp : 2 ^ (32 - zlen q) = 65536 * 2 ^ (16 - zlen q)).
    { change 65536 with (2 ^ 16). rewrite <- Z.pow_add_r by lia. f_equal. lia. }
    replace (32 - (zlen q + 16)) with (16 - zlen q) by lia.
    assert (0 < 2 ^ (16 - zlen q)) by (apply Z.pow_pos_nonneg; lia).
    assert (2 ^ (16 - zlen q) ≤ 2 ^ 16) by (apply Z.pow_le_mono_r; lia). change (2 ^ 16) with 65536 in *.
    rewrite u32_small by nia. rewrite lor_add_low by (rewrite ?Hp; nia). rewrite Hp. lia.
Qed.

(** At the end of the input [feed] reports that without an error. *)
Lemma feed_end f q :
  bit_state f q [] →
  ∃ f', feed f = (Ret false, f') ∧ bit_state f' q [] ∧ others f' = others f.
Proof.
  intros Hs. pose proof (buffered_len _ _ _ Hs) as Hbl. destruct Hs.
  unfold pending in bs_pending0. apply app_eq_nil in bs_pending0 as [Hb Hr].
  rewrite Hb, zlen_nil in Hbl.
  unfold feed. rewrite St_bind_eq. unfold ensureAtLeast. rewrite bs_err0.
  replace (2 <=? bv f - bo f) with false by lia. replace (bv f =? bo f) with true by lia. cbn [negb].
  replace ((0 <=? bv f - bo f) && (bv f - bo f <=? zlen (d_b f))) with true by lia. cbn [negb].
  replace (bv f - bo f) with 0 by lia. rewrite bs_buf0, Hr, ReadAtLeast_empty by lia.
  rewrite bool_decide_eq_true_2 by done.
  eexists. split; [done|]. split; [|done]. split; unfold set_r, set_buf, pending, buffered;
    cbn [d_r d_err unaligned nbits d_c lru uncompressed windowReader mainlens lenlens window d_b bv bo];
    try done; try lia.
  replace (bv f - bo f) with 0 by lia. by rewrite ztake_0.
Qed.

(** The top bits of [f.c], and what shifting them out leaves. *)
Lemma top_bits f pre q ws :
  bit_state f (pre ++ q) ws → d_c f / 2 ^ (32 - zlen pre) = bval pre.
Proof.
  intros []. rewrite zlen_app in *. pose_lens. rewrite bs_c0, bval_app.
  replace (32 - zlen pre) with (zlen q + (32 - (zlen pre + zlen q))) by lia.
  rewrite Z.pow_add_r by lia. set (k := 32 - (zlen pre + zlen q)) in *.
  assert (0 < 2 ^ k) by (apply Z.pow_pos_nonneg; lia).
  assert (0 < 2 ^ zlen q) by (apply Z.pow_pos_nonneg; lia).
  rewrite Z.div_mul_cancel_r by lia. rewrite Z.add_comm, Z.div_add, Z.div_small by (try apply bval_range; lia).
  done.
Qed.

Lemma consume f pre q ws n :
  bit_state f (pre ++ q) ws → zlen pre = n →
  bit_state (set_bits (nbits f - n) (u32 (Z.shiftl (d_c f) n)) f) q ws ∧
  others (set_bits (nbits f - n) (u32 (Z.shiftl (d_c f) n)) f) = others f.
Proof.
  intros [] <-. split; [|done]. rewrite zlen_app in *. pose_lens. split; unfold set_bits;
    cbn [d_r d_err unaligned nbits d_c lru uncompressed windowReader mainlens lenlens window d_b bv bo];
    try done; try lia.
  rewrite bs_c0, bval_app, Z.shiftl_mul_pow2 by lia.
  rewrite <- Z.mul_assoc, <- Z.pow_add_r by lia.
  replace (32 - (zlen pre + zlen q) + zlen pre) with (32 - zlen q) by lia.
  unfold u32. rewrite Z.mul_add_distr_r, <- Z.mul_assoc, <- Z.pow_add_r by lia.
  replace (zlen q + (32 - zlen q)) with 32 by lia. change (2 ^ 32) with 4294967296.
  rewrite Z.add_comm, Z.mod_add by lia. apply Z.mod_small.
  pose proof (bval_range q). assert (2 ^ zlen q * 2 ^ (32 - zlen q) = 4294967296).
  { rewrite <- Z.pow_add_r by lia. by replace (zlen q + (32 - zlen q)) with 32 by lia. }
  assert (0 < 2 ^ (32 - zlen q)) by (apply Z.pow_pos_nonneg; lia). nia.
Qed.

Lemma word_bits_cons w ws : word_bits (w :: ws) = bits_of 16 w ++ word_bits ws.
Proof. done. Qed.

(** Enough bits in [f.c]: the prefix of the stream is there. *)
Lemma prefix_in_q pre tl q (wb : list bool) :
  pre ++ tl = q ++ wb → zlen pre ≤ zlen q → ∃ q2, q = pre ++ q2 ∧ tl = q2 ++ wb.
Proof.
  intros E Hl. exists (zdrop (zlen pre) q).
  assert (Hp : ztake (zlen pre) q = pre).
  { rewrite <- (ztake_app_le _ q wb) by done. rewrite <- E. by apply ztake_app_eq. }
  split; [by rewrite <- Hp at 1; rewrite ztake_zdrop|].
  rewrite <- zdrop_app_le by done. rewrite <- E. symmetry. by apply zdrop_app_eq.
Qed.

(** [getBits n] is the value of the next [n] bits. *)
Lemma getBits_spec f pre tl n :
  has_bits f (pre ++ tl) → zlen pre = n → n ≤ 16 →
  ∃ f', getBits n f = (Ret (bval pre), f') ∧ has_bits f' tl ∧ others f' = others f.
Proof.
  intros (q & ws & Hs & E) <- Hn. pose_lens. unfold getBits.
  rewrite (St_bind_Ret _ (gets nbits) f (nbits f) f) by done. rewrite (bs_nbits _ _ _ Hs).
  assert (Hfeed : ∃ f1 q1 ws1,
    (if zlen q <? zlen pre then ok ← feed; if negb ok then d_fail ErrUnexpectedEOF else mret () else mret ()) f
      = (Ret (), f1) ∧ bit_state f1 q1 ws1 ∧ pre ++ tl = q1 ++ word_bits ws1 ∧
    zlen pre ≤ zlen q1 ∧ others f1 = others f).
  { destruct (Z.ltb_spec (zlen q) (zlen pre)) as [Hlt|Hge]; [|by exists f, q, ws].
    destruct ws as [|w ws].
    { exfalso. unfold word_bits in E. cbn in E. apply (f_equal zlen) in E. len. }
    destruct (feed_word f q w ws Hs ltac:(lia)) as (f1 & E1 & Hs1 & Ho1).
    exists f1, (q ++ bits_of 16 w), ws. rewrite (St_bind_Ret _ _ _ _ _ E1). split_and!; try done.
    - by rewrite E, word_bits_cons, app_assoc.
    - len. }
  destruct Hfeed as (f1 & q1 & ws1 & E1 & Hs1 & Eq & Hlen & Ho1).
  rewrite (St_bind_Ret _ _ _ _ _ E1). destruct (prefix_in_q _ _ _ _ Eq Hlen) as (q2 & -> & ->).
  st_red. pose proof (top_bits _ _ _ _ Hs1) as Ht. rewrite Z.shiftr_div_pow2, Ht by lia.
  pose proof (bval_range pre) as Hr.
  assert (2 ^ zlen pre ≤ 2 ^ 16) by (apply Z.pow_le_mono_r; lia). change (2 ^ 16) with 65536 in *.
  rewrite u16_small by lia. pose proof (consume _ _ _ _ _ Hs1 eq_refl) as [Hc Ho].
  assert (Hu : u8 (nbits f1 - zlen pre) = nbits f1 - zlen pre).
  { apply u8_small. destruct Hs1. rewrite bs_nbits0. len. }
  rewrite Hu. eexists. split; [done|]. split; [by exists q2, ws1|congruence].
Qed.

(** ** Huffman codes *)

(** [h] is the tree [buildTable] makes of a complete set of code lengths. *)
Record is_tree (h : option huffman) (lens : list Z) : Prop := {
  tr_build : buildTable lens = Ret h;
  tr_lens : Forall (λ cl, 0 ≤ cl ≤ 16) lens;
  tr_len : zlen lens ≤ 512;
  tr_max : 0 < max_len lens;
  tr_complete : complete lens
}.

(** The code word of a symbol. *)
Definition code_bits (lens : list Z) (i : nat) : list bool :=
  bits_of (Z.to_nat (lens !!! i)) (code_of lens i).

Lemma tree_lookup h lens i cl c :
  is_tree h lens → lens !! i = Some cl → 0 < cl → 0 ≤ c < 2 ^ 32 →
  c / 2 ^ (32 - cl) = code_of lens i →
  ∃ t, h = Some t ∧ 0 < maxbits t ∧ lookup_code t c = Ret (cl * 512 + Z.of_nat i).
Proof.
  intros [] Hi Hcl Hc Hcode.
  destruct (buildTable_complete lens tr_lens0 tr_len0 tr_max0 tr_complete0)
    as (t & f & T & X & Y & ff & E & Hf).
  exists t. split; [congruence|]. split.
  - by rewrite (fl_maxbits _ _ _ _ _ _ _ _ Hf).
  - by apply (lookup_filled lens tr_lens0 tr_len0 tr_complete0 t f T X Y ff).
Qed.

Lemma bval_code_bits lens i cl :
  Forall (λ cl, 0 ≤ cl ≤ 16) lens → complete lens → lens !! i = Some cl → 0 < cl →
  zlen (code_bits lens i) = cl ∧ bval (code_bits lens i) = code_of lens i.
Proof.
  intros Hl Hc Hi Hcl. unfold code_bits. rewrite (list_lookup_total_correct _ _ _ Hi).
  rewrite zlen_bits_of, bval_bits_of, !Z2Nat.id by lia. split; [done|].
  pose proof (code_of_range lens i cl Hi Hcl) as [Hlo Hhi].
  pose proof (first_code_nonneg lens (Z.to_nat cl)).
  pose proof (end_code_bound lens Hl (Z.to_nat cl) Hc) as Hb.
  pose proof (max_len_ge lens i cl Hi). rewrite Z2Nat.id in Hb by lia.
  apply Z.mod_small. lia.
Qed.

Lemma bit_state_c f q ws : bit_state f q ws → 0 ≤ d_c f < 2 ^ 32.
Proof.
  intros []. rewrite bs_c0. pose proof (bval_range q). pose_lens.
  assert (Hp : 2 ^ 32 = 2 ^ zlen q * 2 ^ (32 - zlen q)) by (rewrite <- Z.pow_add_r by lia; f_equal; lia).
  assert (0 < 2 ^ (32 - zlen q)) by (apply Z.pow_pos_nonneg; lia). rewrite Hp. nia.
Qed.

(** [getCode] decodes the code word the stream begins with, also at the very end
    of the stream. *)
Lemma getCode_spec h lens i cl f tl :
  is_tree h lens → lens !! i = Some cl → 0 < cl → has_bits f (code_bits lens i ++ tl) →
  ∃ f', getCode h f = (Ret (Z.of_nat i), f') ∧ has_bits f' tl ∧ others f' = others f.
Proof.
  intros Ht Hi Hcl (q & ws & Hs & E).
  pose proof (lens_range _ (tr_lens _ _ Ht) _ _ Hi) as Hc16.
  destruct (bval_code_bits lens i cl) as [Hcb Hbv]; [apply Ht|apply Ht|done|done|].
  set (pre := code_bits lens i) in *.
  assert (Hfeed : ∃ f1 q1 ws1,
    (if zlen q <? maxTreePathLen then _ ← feed; mret () else mret ()) f = (Ret (), f1) ∧
    bit_state f1 q1 ws1 ∧ pre ++ tl = q1 ++ word_bits ws1 ∧ zlen pre ≤ zlen q1 ∧ others f1 = others f).
  { unfold maxTreePathLen. destruct (Z.ltb_spec (zlen q) 16) as [Hlt|Hge].
    2: { exists f, q, ws. split_and!; try done. lia. }
    destruct ws as [|w ws].
    - destruct (feed_end f q Hs) as (f1 & E1 & Hs1 & Ho1). exists f1, q, [].
      rewrite (St_bind_Ret _ _ _ _ _ E1). split_and!; try done.
      unfold word_bits in E. cbn in E. apply (f_equal zlen) in E. len.
    - destruct (feed_word f q w ws Hs ltac:(lia)) as (f1 & E1 & Hs1 & Ho1).
      exists f1, (q ++ bits_of 16 w), ws. rewrite (St_bind_Ret _ _ _ _ _ E1). split_and!; try done.
      + by rewrite E, word_bits_cons, app_assoc.
      + len. }
  destruct Hfeed as (f1 & q1 & ws1 & E1 & Hs1 & Eq & Hlen & Ho1).
  destruct (prefix_in_q _ _ _ _ Eq Hlen) as (q2 & -> & ->).
  pose proof (top_bits _ _ _ _ Hs1) as Htop. rewrite Hcb, Hbv in Htop.
  destruct (tree_lookup h lens i cl (d_c f1) Ht Hi Hcl (bit_state_c _ _ _ Hs1) Htop) as (t & -> & Hmb & Hlk).
  unfold getCode. rewrite (proj2 (Z.ltb_lt _ _) Hmb).
  rewrite (St_bind_Ret _ (gets nbits) f (nbits f) f) by done. rewrite (bs_nbits _ _ _ Hs).
  rewrite (St_bind_Ret _ _ _ _ _ E1). rewrite (St_bind_Ret _ get f1 f1 f1) by done. rewrite Hlk.
  pose proof (lookup_lt_Some _ _ _ Hi) as Hlt. pose proof (tr_len _ _ Ht) as H512. unfold zlen in H512.
  assert (Hn : u8 (Z.shiftr (cl * 512 + Z.of_nat i) lenshift) = cl).
  { unfold lenshift. rewrite Z.shiftr_div_pow2 by lia. change (2 ^ 9) with 512.
    rewrite Z.add_comm, Z.div_add, Z.div_small by lia. apply u8_small. lia. }
  rewrite (St_bind_Ret _ (lift _) f1 _ f1 eq_refl). rewrite Hn.
  assert (Hnb : (cl <=? nbits f1) = true) by (destruct Hs1; rewrite bs_nbits0; len).
  rewrite Hnb. st_red.
  replace (Z.land (cl * 512 + Z.of_nat i) codemask) with (Z.of_nat i).
  2: { change codemask with (Z.ones 9). rewrite Z.land_ones by lia. change (2 ^ 9) with 512.
       rewrite Z.add_comm, Z.mod_add, Z.mod_small by lia. done. }
  pose proof (consume _ _ _ _ cl Hs1 Hcb) as [Hc Ho].
  eexists. split; [done|]. split; [by exists q2, ws1|congruence].
Qed.
