(* ===== verification/LzxBlock.v ===== *)
(** * LZX: compressed blocks against the format

    A compressed block is a sequence of tokens: literal bytes and matches.
    [tok_bits] is their encoding with the three code tables of the block and
    [run] what they stand for, as in the description of the format: a match
    repeats earlier output, its distance is one of the last three or is new.
    [readCompressedBlock] decodes the former to the latter. *)
From S2P Require Import Prelude Streams Unicode LzxHuffman LzxE8 LzxDecoder LzxBits.

Inductive token : Type :=
| Lit (b : Z)
| Match (len slot verbatim aligned : Z).

(** ** The meaning of tokens *)

(** Repeat [k] bytes from [off] back, one by one (they may overlap). *)
Fixpoint ref_copy (k : nat) (out : list Z) (off : Z) : list Z :=
  match k with
  | O => out
  | S k => ref_copy k (out ++ [out !!! Z.to_nat (zlen out - off)]) off
  end.

(** The offset of a match and the three last offsets after it.  [al] tells
    whether the block has an aligned-offset tree. *)
Definition extra_bits (slot : Z) : Z := footerBits !!! Z.to_nat slot.
Definition use_aligned (al : bool) (slot : Z) : bool := al && (3 <=? extra_bits slot).
Definition ref_offset (al : bool) (lru : list Z) (slot v a : Z) : Z * list Z :=
  match lru with
  | [l0; l1; l2] =>
      if slot =? 0 then (l0, [l0; l1; l2])
      else if slot =? 1 then (l1, [l1; l0; l2])
      else if slot =? 2 then (l2, [l2; l1; l0])
      else
        let off := basePosition !!! Z.to_nat slot + (if use_aligned al slot then v * 8 + a else v) - 2 in
        (off, [off; l0; l1])
  | _ => (0, lru)
  end.

Definition run_tok (al : bool) (t : token) (s : list Z * list Z) : option (list Z * list Z) :=
  let '(out, lru) := s in
  match t with
  | Lit b => Some (out ++ [b], lru)
  | Match len slot v a =>
      let '(off, lru') := ref_offset al lru slot v a in
      if (1 <=? off) && (off <=? zlen out) then Some (ref_copy (Z.to_nat len) out off, lru') else None
  end.
Fixpoint run (al : bool) (ts : list token) (s : list Z * list Z) : option (list Z * list Z) :=
  match ts with
  | [] => Some s
  | t :: ts => s' ← run_tok al t s; run al ts s'
  end.

(** ** The encoding of tokens *)
Section Encoding.
Variables (ml ll : list Z) (al : option (list Z)).

Definition main_symbol (len slot : Z) : nat := Z.to_nat (256 + 8 * slot + Z.min 7 (len - 2)).

Definition offset_bits (slot v a : Z) : list bool :=
  if slot <? 3 then []
  else match al with
  | Some al' => if 3 <=? extra_bits slot
                then bits_of (Z.to_nat (extra_bits slot - 3)) v ++ code_bits al' (Z.to_nat a)
                else bits_of (Z.to_nat (extra_bits slot)) v
  | None => bits_of (Z.to_nat (extra_bits slot)) v
  end.
Definition tok_bits (t : token) : list bool :=
  match t with
  | Lit b => code_bits ml (Z.to_nat b)
  | Match len slot v a =>
      code_bits ml (main_symbol len slot) ++
      (if 9 <=? len then code_bits ll (Z.to_nat (len - 9)) else []) ++
      offset_bits slot v a
  end.

(** The symbol has a code. *)
Definition coded (lens : list Z) (i : nat) : Prop :=
  match lens !! i with Some cl => 0 < cl | None => False end.
#[export] Instance coded_dec lens i : Decision (coded lens i).
Proof. unfold coded. case_match; apply _. Defined.

Definition has_al : bool := match al with Some _ => true | None => false end.
Definition offset_ok (slot v a : Z) : Prop :=
  3 ≤ slot →
  match al with
  | Some al' => if 3 <=? extra_bits slot
                then 0 ≤ v < 2 ^ (extra_bits slot - 3) ∧ 0 ≤ a < 8 ∧ coded al' (Z.to_nat a)
                else 0 ≤ v < 2 ^ extra_bits slot
  | None => 0 ≤ v < 2 ^ extra_bits slot
  end.
Definition tok_ok (t : token) : Prop :=
  match t with
  | Lit b => 0 ≤ b < 256 ∧ coded ml (Z.to_nat b)
  | Match len slot v a =>
      2 ≤ len ≤ 257 ∧ 0 ≤ slot < 30 ∧ coded ml (main_symbol len slot) ∧
      (9 ≤ len → coded ll (Z.to_nat (len - 9))) ∧ offset_ok slot v a
  end.
#[export] Instance tok_ok_dec t : Decision (tok_ok t).
Proof. unfold tok_ok, offset_ok. repeat case_match; apply _. Defined.
End Encoding.

(** ** The window *)
Lemma index_app {A} (l k : list A) i : i < zlen l → index (l ++ k) i = index l i.
Proof.
  intros. unfold index. case_decide; [|done]. unfold zlen in *. by rewrite lookup_app_l by lia.
Qed.
Lemma update_app {A} (out w : list A) x b : update (out ++ x :: w) (zlen out) b = Ret (out ++ b :: w).
Proof.
  rewrite update_ok by len. f_equal. unfold zlen. rewrite Nat2Z.id.
  rewrite insert_app_r_alt, Nat.sub_diag by lia. done.
Qed.

Lemma copy_match_spec k out w off :
  1 ≤ off ≤ zlen out → Z.of_nat k ≤ zlen w →
  copy_match k (out ++ w) (zlen out) off = Ret (ref_copy k out off ++ zdrop (Z.of_nat k) w).
Proof.
  revert out w. induction k as [|k IH]; intros out w Ho Hk; [done|]. cbn [copy_match ref_copy].
  destruct w as [|x w]; [rewrite zlen_nil in Hk; lia|].
  set (y := out !!! Z.to_nat (zlen out - off)).
  assert (Hy : index (out ++ x :: w) (zlen out - off) = Ret y).
  { rewrite index_app by lia. apply index_Ret; [lia|].
    apply list_lookup_lookup_total_lt. unfold zlen in *. lia. }
  rewrite Hy. cbn [mbind res_bind]. rewrite update_app. cbn [mbind res_bind].
  specialize (IH (out ++ [y]) w). rewrite zlen_cons in Hk.
  replace (zlen (out ++ [y])) with (zlen out + 1) in IH by len. rewrite <- app_assoc in IH.
  change (out ++ y :: w) with (out ++ [y] ++ w). rewrite (IH ltac:(lia) ltac:(lia)). do 2 f_equal. unfold zdrop. by rewrite !Nat2Z.id.
Qed.

Lemma zlen_ref_copy k out off : zlen (ref_copy k out off) = zlen out + Z.of_nat k.
Proof.
  revert out. induction k as [|k IH]; intros out; cbn [ref_copy]; [lia|]. rewrite IH. len.
Qed.

Lemma run_tok_len ml ll al t s out' lru' :
  tok_ok ml ll al t → run_tok (has_al al) t s = Some (out', lru') → zlen (fst s) < zlen out'.
Proof.
  destruct s as [out lru]. destruct t as [b|len slot v a]; cbn [run_tok tok_ok fst].
  - intros _ [= <- <-]. len.
  - intros [Hl _]. destruct (ref_offset _ _ _ _ _) as [off l']. case_match; [|done].
    intros [= <- <-]. rewrite zlen_ref_copy. lia.
Qed.
Lemma run_len ml ll al ts s out' lru' :
  Forall (tok_ok ml ll al) ts → run (has_al al) ts s = Some (out', lru') →
  zlen (fst s) + Z.of_nat (length ts) ≤ zlen out'.
Proof.
  intros Hts. revert s. induction Hts as [|t ts Ht Hts IH]; intros s Hr; cbn [run] in Hr.
  - injection Hr as ->. cbn. lia.
  - destruct (run_tok _ t s) as [s'|] eqn:E; [|done]. cbn in Hr. destruct s' as [o' l'].
    pose proof (run_tok_len _ _ _ _ _ _ _ Ht E). specialize (IH _ Hr). cbn [fst length] in *. lia.
Qed.

(** ** Decoding one token *)
Section DecodeBlock.
Variables (ml ll : list Z) (al : option (list Z)) (t : trees).
Hypothesis Hml : is_tree (t_main t) ml.
Hypothesis Hll : 0 < max_len ll → is_tree (t_length t) ll.
Hypothesis Hal : match al with Some l => is_tree (t_aligned t) l | None => t_aligned t = None end.

Lemma others_inv (f f' : decomp) : others f' = others f →
  unaligned f' = unaligned f ∧ lru f' = lru f ∧ uncompressed f' = uncompressed f ∧
  windowReader f' = windowReader f ∧ mainlens f' = mainlens f ∧ lenlens f' = lenlens f ∧
  window f' = window f.
Proof. unfold others. intros [= -> -> -> -> -> -> ->]. done. Qed.

Lemma has_bits_window f l w : has_bits f l → has_bits (set_window w f) l.
Proof. intros (q & ws & [] & ->). exists q, ws. split; [|done]. by split. Qed.
Lemma has_bits_lru f l w : has_bits f l → has_bits (set_lru w f) l.
Proof. intros (q & ws & [] & ->). exists q, ws. split; [|done]. by split. Qed.
Lemma has_bits_err f l : has_bits f l → d_err f = None.
Proof. by intros (q & ws & [] & _). Qed.

Lemma coded_max lens i : coded lens i → 0 < max_len lens.
Proof.
  unfold coded. destruct (lens !! i) as [cl|] eqn:E; [|done].
  pose proof (max_len_ge lens i cl E). lia.
Qed.
Lemma getCode_coded h lens i f tl :
  is_tree h lens → coded lens i → has_bits f (code_bits lens i ++ tl) →
  ∃ f', getCode h f = (Ret (Z.of_nat i), f') ∧ has_bits f' tl ∧ others f' = others f.
Proof.
  unfold coded. destruct (lens !! i) as [cl|] eqn:E; [|done]. intros Ht Hcl.
  by apply (getCode_spec h lens i cl).
Qed.

Lemma getBits_bits_of f n v tl :
  has_bits f (bits_of (Z.to_nat n) v ++ tl) → 0 ≤ n ≤ 16 → 0 ≤ v < 2 ^ n →
  ∃ f', getBits n f = (Ret v, f') ∧ has_bits f' tl ∧ others f' = others f.
Proof.
  intros Hb Hn Hv. destruct (getBits_spec f _ tl n Hb) as (f' & E & ?); [len|lia|].
  rewrite bval_bits_of, Z2Nat.id, Z.mod_small in E by lia. by exists f'.
Qed.

(** [match_offset] reads the offset bits and moves the three last offsets on. *)
Lemma extra_bits_range slot : 0 ≤ slot < 30 → 0 ≤ extra_bits slot ≤ 14 ∧
  index footerBits slot = Ret (extra_bits slot) ∧
  index basePosition slot = Ret (basePosition !!! Z.to_nat slot) ∧
  2 ≤ basePosition !!! Z.to_nat slot + (if slot <? 3 then 2 else 0) ∧
  basePosition !!! Z.to_nat slot + 2 ^ extra_bits slot ≤ 32768.
Proof.
  intros Hs. assert (Hall : ∀ n, (n < 30)%nat → let slot := Z.of_nat n in
    0 ≤ extra_bits slot ≤ 14 ∧ index footerBits slot = Ret (extra_bits slot) ∧
    index basePosition slot = Ret (basePosition !!! Z.to_nat slot) ∧
    2 ≤ basePosition !!! Z.to_nat slot + (if slot <? 3 then 2 else 0) ∧
    basePosition !!! Z.to_nat slot + 2 ^ extra_bits slot ≤ 32768).
  { intros n Hn. do 30 (destruct n as [|n]; [vm_compute; split_and!; congruence|]). lia. }
  specialize (Hall (Z.to_nat slot) ltac:(lia)). by rewrite Z2Nat.id in Hall by lia.
Qed.

Lemma match_offset_repeat f slot v a l tl off l' :
  has_bits f (offset_bits al slot v a ++ tl) → 0 ≤ slot < 3 → lru f = l → zlen l = 3 →
  ref_offset (has_al al) l slot v a = (off, l') →
  ∃ f', match_offset (t_aligned t) slot f = (Ret off, f') ∧ has_bits f' tl ∧
    others f' = others (set_lru l' f) ∧ zlen l' = 3.
Proof.
  intros Hb Hs Hl H3 Href.
  destruct l as [|l0 [|l1 [|l2 [|? l]]]]; try (exfalso; len). clear H3.
  unfold offset_bits in Hb. replace (slot <? 3) with true in Hb by lia. cbn [app] in Hb.
  unfold match_offset. rewrite (St_bind_Ret _ get f f f) by done.
  replace (slot <? 3) with true by lia. rewrite Hl.
  assert (Hcase : slot = 0 ∨ slot = 1 ∨ slot = 2) by lia.
  exists (set_lru l' f). split_and!; [|by apply has_bits_lru|done|].
  - destruct Hcase as [->|[->| ->]]; injection Href as <- <-; done.
  - destruct Hcase as [->|[->| ->]]; by injection Href as <- <-.
Qed.

(** The verbatim and aligned bits. *)
Lemma offset_bits_spec f slot v a tl :
  has_bits f (offset_bits al slot v a ++ tl) → 3 ≤ slot < 30 → offset_ok al slot v a →
  ∃ f' vb ab,
    (if 0 <? extra_bits slot then
       if bool_decide (t_aligned t ≠ None) && (3 <=? extra_bits slot) then
         v ← getBits (extra_bits slot - 3); a ← getCode (t_aligned t); mret (u16 (v * 8), a)
       else v ← getBits (extra_bits slot); mret (v, 0)
     else mret (0, 0)) f = (Ret (vb, ab), f') ∧
    vb + ab = (if use_aligned (has_al al) slot then v * 8 + a else v) ∧
    0 ≤ vb + ab < 2 ^ extra_bits slot ∧ has_bits f' tl ∧ others f' = others f.
Proof.
  intros Hb Hs Hok. specialize (Hok (proj1 Hs)).
  destruct (extra_bits_range slot ltac:(lia)) as (He & _). unfold offset_bits in Hb.
  replace (slot <? 3) with false in Hb by lia.
  assert (Halt : bool_decide (t_aligned t ≠ None) = has_al al).
  { unfold has_al. destruct al as [l|]; [|by rewrite Hal].
    apply bool_decide_eq_true_2. intros E. destruct Hal as [Hbd Hl Hlen Hm Hc].
    destruct (buildTable_complete l Hl Hlen Hm Hc) as (h & ? & ? & ? & ? & ? & Eb & _).
    congruence. }
  rewrite Halt. fold (use_aligned (has_al al) slot).
  assert (Hplain : has_bits f (bits_of (Z.to_nat (extra_bits slot)) v ++ tl) → 0 ≤ v < 2 ^ extra_bits slot →
    ∃ f' vb ab, (if 0 <? extra_bits slot then v ← getBits (extra_bits slot); mret (v, 0) else mret (0, 0)) f
      = (Ret (vb, ab), f') ∧ vb + ab = v ∧ 0 ≤ vb + ab < 2 ^ extra_bits slot ∧ has_bits f' tl ∧ others f' = others f).
  { intros Hb' Hv. destruct (Z.ltb_spec 0 (extra_bits slot)) as [Hp|Hp].
    - destruct (getBits_bits_of f _ v tl Hb' ltac:(lia) Hv) as (f' & E & Hb2 & Ho).
      exists f', v, 0. rewrite (St_bind_Ret _ _ _ _ _ E). split_and!; done || lia.
    - replace (extra_bits slot) with 0 in * by lia. exists f, 0, 0. cbn in Hb'.
      split_and!; done || (simpl in *; lia). }
  unfold use_aligned, has_al in *. destruct al as [l|]; cbn [andb]; [|by apply Hplain].
  destruct (Z.leb_spec 3 (extra_bits slot)) as [H3|H3]; [|by apply Hplain].
  destruct Hok as (Hv & Ha & Hc). rewrite <- app_assoc in Hb.
  destruct (getBits_bits_of f _ v _ Hb ltac:(lia) Hv) as (f1 & E1 & Hb1 & Ho1).
  destruct (getCode_coded _ _ _ _ _ Hal Hc Hb1) as (f2 & E2 & Hb2 & Ho2).
  replace (0 <? extra_bits slot) with true by lia.
  exists f2, (v * 8), a. rewrite (St_bind_Ret _ _ _ _ _ E1), (St_bind_Ret _ _ _ _ _ E2).
  rewrite Z2Nat.id by lia.
  assert (Hp : 2 ^ extra_bits slot = 2 ^ (extra_bits slot - 3) * 8).
  { change 8 with (2 ^ 3). rewrite <- Z.pow_add_r by lia. f_equal. lia. }
  assert (2 ^ (extra_bits slot - 3) ≤ 2 ^ 11) by (apply Z.pow_le_mono_r; lia). change (2 ^ 11) with 2048 in *.
  rewrite u16_small by lia. split_and!; try done; try lia. congruence.
Qed.

Lemma match_offset_spec f slot v a l tl off l' :
  has_bits f (offset_bits al slot v a ++ tl) → 0 ≤ slot < 30 → offset_ok al slot v a →
  lru f = l → zlen l = 3 → ref_offset (has_al al) l slot v a = (off, l') →
  ∃ f', match_offset (t_aligned t) slot f = (Ret off, f') ∧ has_bits f' tl ∧
    others f' = others (set_lru l' f) ∧ zlen l' = 3.
Proof.
  intros Hb Hs Hok Hl H3 Href.
  destruct (Z.lt_ge_cases slot 3) as [Hlt|Hge]; [by apply (match_offset_repeat f slot v a l); [|lia|..]|].
  destruct (offset_bits_spec f slot v a tl Hb ltac:(lia) Hok) as (f1 & vb & ab & E1 & Hsum & Hr & Hb1 & Ho1).
  destruct (extra_bits_range slot Hs) as (He & Ei & Ebp & Hlo & Hhi). rewrite (proj2 (Z.ltb_ge slot 3)) in Hlo by lia.
  destruct l as [|l0 [|l1 [|l2 [|? l]]]]; try (exfalso; len). clear H3.
  unfold ref_offset in Href. replace (slot =? 0) with false in Href by lia.
  replace (slot =? 1) with false in Href by lia. replace (slot =? 2) with false in Href by lia.
  injection Href as <- <-. unfold match_offset. rewrite (St_bind_Ret _ get f f f) by done.
  replace (slot <? 3) with false by lia. rewrite Ei.
  rewrite (St_bind_Ret _ (lift _) f _ f eq_refl). rewrite (St_bind_Ret _ _ _ _ _ E1). rewrite Ebp.
  apply others_inv in Ho1 as (U1 & U2 & U3 & U4 & U5 & U6 & U7). rewrite Hl in U2.
  st_red. rewrite U2. cbn [index decide fst snd].
  change (index [l0; l1; l2] 1) with (Ret l1). change (index [l0; l1; l2] 0) with (Ret l0). cbn beta iota.
  rewrite u16_small by lia.
  replace (basePosition !!! Z.to_nat slot + vb + ab - 2) with
    (basePosition !!! Z.to_nat slot + (if use_aligned (has_al al) slot then v * 8 + a else v) - 2) by lia.
  eexists. split; [done|]. split; [by apply has_bits_lru|]. split; [|done].
  unfold others, set_lru. cbn. by rewrite U1, U3, U4, U5, U6, U7.
Qed.

(** ** The loop *)
Lemma compressed_lit fuel f b out w2 end_ bs :
  has_bits f (code_bits ml (Z.to_nat b) ++ bs) → 0 ≤ b < 256 → coded ml (Z.to_nat b) →
  window f = out ++ w2 → zlen (out ++ w2) = 32768 → zlen out < end_ ≤ 32768 →
  ∃ f' w2', compressed_loop (S fuel) (zlen out) end_ t f =
      compressed_loop fuel (zlen (out ++ [b])) end_ t f' ∧
    has_bits f' bs ∧ window f' = (out ++ [b]) ++ w2' ∧ zlen ((out ++ [b]) ++ w2') = 32768 ∧
    others f' = others (set_window (window f') f).
Proof.
  intros Hb Hr Hc Hw Hl Hlt. cbn [compressed_loop].
  replace (zlen out <? end_) with true by lia. cbn [negb].
  destruct (getCode_coded _ _ _ f bs Hml Hc Hb) as (f1 & E1 & Hb1 & Ho1).
  rewrite (St_bind_Ret _ _ _ _ _ E1), Z2Nat.id by lia.
  rewrite (St_bind_Ret _ d_error f1 None f1); [|unfold d_error, gets; by rewrite (has_bits_err _ _ Hb1)].
  replace (b <? 256) with true by lia. rewrite (St_bind_Ret _ get f1 f1 f1) by done.
  apply others_inv in Ho1 as (U1 & U2 & U3 & U4 & U5 & U6 & U7). rewrite U7, Hw.
  rewrite zlen_app in Hl. destruct w2 as [|x w2]; [rewrite zlen_nil in Hl; lia|].
  rewrite update_app. rewrite (St_bind_Ret _ (lift _) f1 _ f1 eq_refl).
  rewrite (St_bind_Ret _ (modify _) f1 _ _ eq_refl).
  exists (set_window (out ++ b :: w2) f1), w2. split_and!.
  - f_equal. rewrite u16_small by (pose_lens; lia). len.
  - by apply has_bits_window.
  - cbn. by rewrite <- app_assoc.
  - len.
  - unfold others, set_window. cbn. by rewrite U1, U2, U3, U4, U5, U6.
Qed.

Lemma main_symbol_split len slot :
  2 ≤ len → 0 ≤ slot < 30 →
  (256 ≤ Z.of_nat (main_symbol len slot)) ∧ (Z.of_nat (main_symbol len slot) - 256) / 8 = slot ∧
  (Z.of_nat (main_symbol len slot) - 256) mod 8 = Z.min 7 (len - 2).
Proof.
  intros Hl Hs. unfold main_symbol. rewrite Z2Nat.id by lia. split; [lia|].
  replace (256 + 8 * slot + Z.min 7 (len - 2) - 256) with (Z.min 7 (len - 2) + slot * 8) by lia.
  rewrite Z.div_add, Z.mod_add, Z.div_small, Z.mod_small by lia. lia.
Qed.

(** The length of a match: in the main symbol, or from the length tree. *)
Lemma match_length f len tl :
  has_bits f ((if 9 <=? len then code_bits ll (Z.to_nat (len - 9)) else []) ++ tl) →
  2 ≤ len ≤ 257 → (9 ≤ len → coded ll (Z.to_nat (len - 9))) →
  ∃ f', (if Z.min 7 (len - 2) =? 7 then x ← getCode (t_length t); mret (u16 (Z.min 7 (len - 2) + x))
         else mret (Z.min 7 (len - 2))) f = (Ret (len - 2), f') ∧ has_bits f' tl ∧ others f' = others f.
Proof.
  intros Hb Hl Hc. destruct (Z.leb_spec 9 len) as [H9|H9].
  - destruct (getCode_coded _ _ _ f tl (Hll (coded_max _ _ (Hc H9))) (Hc H9) Hb) as (f1 & E1 & Hb1 & Ho1). exists f1.
    replace (Z.min 7 (len - 2) =? 7) with true by lia. rewrite (St_bind_Ret _ _ _ _ _ E1), Z2Nat.id by lia.
    split; [|done]. rewrite St_ret_eq, u16_small by lia. do 2 f_equal. lia.
  - exists f. replace (Z.min 7 (len - 2) =? 7) with false by lia.
    split; [|done]. rewrite St_ret_eq. do 2 f_equal. lia.
Qed.

Lemma compressed_match fuel f len slot v a out w2 l off l' end_ bs :
  has_bits f (tok_bits ml ll al (Match len slot v a) ++ bs) → tok_ok ml ll al (Match len slot v a) →
  window f = out ++ w2 → zlen (out ++ w2) = 32768 → lru f = l → zlen l = 3 →
  ref_offset (has_al al) l slot v a = (off, l') → 1 ≤ off ≤ zlen out →
  zlen out + len ≤ end_ ≤ 32768 →
  let out' := ref_copy (Z.to_nat len) out off in
  ∃ f' w2', compressed_loop (S fuel) (zlen out) end_ t f =
      compressed_loop fuel (zlen out') end_ t f' ∧
    has_bits f' bs ∧ window f' = out' ++ w2' ∧ zlen (out' ++ w2') = 32768 ∧
    others f' = others (set_lru l' (set_window (window f') f)) ∧ zlen l' = 3.
Proof.
  intros Hb (Hlen & Hs & Hc & Hcl & Hoff) Hw Hwl Hl H3 Href Ho Hend out'. pose_lens.
  unfold tok_bits in Hb. rewrite <- !app_assoc in Hb. cbn [compressed_loop].
  replace (zlen out <? end_) with true by lia. cbn [negb].
  destruct (getCode_coded _ _ _ f _ Hml Hc Hb) as (f1 & E1 & Hb1 & Ho1).
  rewrite (St_bind_Ret _ _ _ _ _ E1).
  rewrite (St_bind_Ret _ d_error f1 None f1); [|unfold d_error, gets; by rewrite (has_bits_err _ _ Hb1)].
  destruct (main_symbol_split len slot ltac:(lia) Hs) as (Hm & -> & ->).
  replace (Z.of_nat (main_symbol len slot) <? 256) with false by lia.
  destruct (match_length f1 len _ Hb1 Hlen Hcl) as (f2 & E2 & Hb2 & Ho2).
  rewrite (St_bind_Ret _ _ _ _ _ E2). rewrite (u16_small (len - 2 + 2)) by lia.
  rewrite Ho1 in Ho2. apply others_inv in Ho2 as (U1 & U2 & U3 & U4 & U5 & U6 & U7).
  destruct (match_offset_spec f2 slot v a l bs off l' Hb2 Hs Hoff ltac:(congruence) H3 Href)
    as (f3 & E3 & Hb3 & Ho3 & Hl3).
  rewrite (St_bind_Ret _ _ _ _ _ E3).
  apply others_inv in Ho3 as (V1 & V2 & V3 & V4 & V5 & V6 & V7).
  cbn [set_lru unaligned lru uncompressed windowReader mainlens lenlens window] in *.
  rewrite (u16_small (end_ - zlen out)) by lia.
  replace ((off <=? zlen out) && (len - 2 + 2 <=? end_ - zlen out)) with true by lia. cbn [negb].
  rewrite (St_bind_Ret _ get f3 f3 f3) by done. rewrite V7, U7, Hw.
  replace (len - 2 + 2) with len by lia. rewrite zlen_app in Hwl.
  rewrite copy_match_spec by lia. rewrite (St_bind_Ret _ (lift _) f3 _ f3 eq_refl).
  rewrite (St_bind_Ret _ (modify _) f3 _ _ eq_refl). fold out'.
  assert (Hlo : zlen out' = zlen out + len) by (subst out'; rewrite zlen_ref_copy; lia).
  exists (set_window (out' ++ zdrop (Z.of_nat (Z.to_nat len)) w2) f3), (zdrop (Z.of_nat (Z.to_nat len)) w2).
  split_and!; [| |done| | |done].
  - f_equal. rewrite u16_small by lia. lia.
  - by apply has_bits_window.
  - len.
  - unfold others, set_window, set_lru. cbn. by rewrite V1, V2, V3, V4, V5, V6, U1, U3, U4, U5, U6.
Qed.

Lemma compressed_loop_spec ts fuel f bs out w2 l out' l' :
  has_bits f (concat (tok_bits ml ll al <$> ts) ++ bs) → Forall (tok_ok ml ll al) ts →
  window f = out ++ w2 → zlen (out ++ w2) = 32768 → lru f = l → zlen l = 3 →
  run (has_al al) ts (out, l) = Some (out', l') → zlen out' ≤ 32768 → (length ts ≤ fuel)%nat →
  ∃ f' w2', compressed_loop fuel (zlen out) (zlen out') t f = (Ret (zlen out'), f') ∧
    has_bits f' bs ∧ window f' = out' ++ w2' ∧ zlen (out' ++ w2') = 32768 ∧
    others f' = others (set_lru l' (set_window (window f') f)).
Proof.
  intros Hb Hts. revert fuel f out w2 l Hb. induction Hts as [|tk ts Htk Hts IH];
    intros fuel f out w2 l Hb Hw Hwl Hl H3 Hrun Hmax Hf; cbn [run] in Hrun.
  { injection Hrun as -> ->. exists f, w2. cbn in Hb.
    split; [destruct fuel; cbn [compressed_loop]; by rewrite Z.ltb_irrefl|].
    split_and!; try done. unfold others, set_lru, set_window. cbn. by rewrite Hl. }
  destruct (run_tok _ tk (out, l)) as [[o1 l1]|] eqn:Etk; [|done]. cbn in Hrun.
  pose proof (run_len _ _ _ _ _ _ _ Hts Hrun) as Hlen1. cbn [fst] in Hlen1.
  destruct fuel as [|fuel]; [simpl in Hf; lia|]. cbn [fmap list_fmap concat] in Hb.
  rewrite <- app_assoc in Hb. cbn [length] in Hf. destruct tk as [b|len slot v a].
  - injection Etk as <- <-. destruct Htk as [Hr Hc]. rewrite zlen_app, zlen_cons, zlen_nil in Hlen1. pose_lens.
    destruct (compressed_lit fuel f b out w2 (zlen out') _ Hb Hr Hc Hw Hwl ltac:(lia))
      as (f1 & w1 & -> & Hb1 & Hw1 & Hl1 & Ho1).
    apply others_inv in Ho1 as (U1 & U2 & U3 & U4 & U5 & U6 & _).
    cbn [set_window unaligned lru uncompressed windowReader mainlens lenlens window] in *.
    destruct (IH fuel f1 _ w1 l Hb1 Hw1 Hl1 ltac:(congruence) H3 Hrun Hmax ltac:(lia))
      as (f2 & w3 & -> & Hb2 & Hw2 & Hl2 & Ho2).
    exists f2, w3. split_and!; try done. rewrite Ho2. unfold others, set_lru, set_window. cbn.
    by rewrite U1, U3, U4, U5, U6.
  - cbn [run_tok] in Etk. destruct (ref_offset (has_al al) l slot v a) as [off lr] eqn:Href.
    destruct ((1 <=? off) && (off <=? zlen out)) eqn:Hoff; [|done]. injection Etk as <- <-.
    pose proof Htk as (Hlen & _). rewrite zlen_ref_copy in Hlen1.
    destruct (compressed_match fuel f len slot v a out w2 l off lr (zlen out') _ Hb Htk Hw Hwl Hl H3 Href
      ltac:(lia) ltac:(lia)) as (f1 & w1 & -> & Hb1 & Hw1 & Hl1 & Ho1 & Hlr).
    apply others_inv in Ho1 as (U1 & U2 & U3 & U4 & U5 & U6 & _).
    cbn [set_lru set_window unaligned lru uncompressed windowReader mainlens lenlens window] in *.
    destruct (IH fuel f1 _ w1 lr Hb1 Hw1 Hl1 U2 Hlr Hrun Hmax ltac:(lia))
      as (f2 & w3 & -> & Hb2 & Hw2 & Hl2 & Ho2).
    exists f2, w3. split_and!; try done. rewrite Ho2. unfold others, set_lru, set_window. cbn.
    by rewrite U1, U3, U4, U5, U6.
Qed.
End DecodeBlock.

(** C2: [readCompressedBlock] implements the LZX format: given the trees of a
    block, a bit stream that begins with the encoding of a sequence of literals
    and matches (short and long, from the last three offsets or new ones, with
    or without aligned offsets) decodes to exactly the bytes they stand for,
    leaves the bits after them unread, updates the last three offsets as the
    format says, touches nothing else, and neither fails nor panics. *)
Theorem readCompressedBlock_spec (ml ll : list Z) (al : option (list Z)) (t : trees)
    (ts : list token) (f : decomp) (bs : list bool) (out w2 l out' l' : list Z) :
  is_tree (t_main t) ml → (0 < max_len ll → is_tree (t_length t) ll) →
  match al with Some a => is_tree (t_aligned t) a | None => t_aligned t = None end →
  has_bits f (concat (tok_bits ml ll al <$> ts) ++ bs) → Forall (tok_ok ml ll al) ts →
  window f = out ++ w2 → zlen (window f) = windowSize → lru f = l → zlen l = 3 →
  run (has_al al) ts (out, l) = Some (out', l') → zlen out' ≤ windowSize →
  ∃ f' w2', readCompressedBlock (zlen out) (zlen out') t f = (Ret (zlen out' - zlen out, None), f') ∧
    has_bits f' bs ∧ window f' = out' ++ w2' ∧ zlen (window f') = windowSize ∧ lru f' = l' ∧
    mainlens f' = mainlens f ∧ lenlens f' = lenlens f.
Proof.
  intros Hml Hll Hal Hb Hts Hw Hwl Hl H3 Hrun Hmax. unfold windowSize in *. rewrite Hw in Hwl.
  pose proof (run_len _ _ _ _ _ _ _ Hts Hrun) as Hlen. cbn [fst] in Hlen.
  destruct (compressed_loop_spec ml ll al t Hml Hll Hal ts (Z.to_nat (zlen out' - zlen out)) f bs out w2 l
    out' l' Hb Hts Hw Hwl Hl H3 Hrun Hmax ltac:(lia)) as (f' & w2' & E & Hb' & Hw' & Hl' & Ho).
  exists f', w2'. unfold readCompressedBlock. rewrite (St_bind_Ret _ _ _ _ _ E).
  rewrite (St_bind_Ret _ d_error f' None f'); [|unfold d_error, gets; by rewrite (has_bits_err _ _ Hb')].
  rewrite St_ret_eq, u16_small by (pose_lens; lia). apply others_inv in Ho as (_ & U2 & _ & _ & U5 & U6 & _).
  rewrite Hw'. by split_and!.
Qed.

(** ** Witness: "ababababab!" as two literals, a match and a literal *)
Fixpoint pack (n : nat) (l : list bool) : list Z :=
  match n with
  | O => []
  | S n => bval (take 16 (l ++ replicate 16 false)) :: pack n (drop 16 l)
  end.

(** The codes of 'a', 'b', '!' and of the match of length 8 at a new offset in
    slot 4 (symbol 256 + 8*4 + 6). *)
Definition ex_lens : list Z :=
  <[33%nat := 3]> (<[97%nat := 1]> (<[98%nat := 2]> (<[294%nat := 3]> (replicate 496 0)))).
Definition ex_len_lens : list Z := replicate 249 0.
Definition ex_tokens : list token := [Lit 97; Lit 98; Match 8 4 0 0; Lit 33].
Definition ex_words : list Z := pack 1 (concat (tok_bits ex_lens ex_len_lens None <$> ex_tokens)).
Definition ex_state : decomp :=
  mkDecomp (le_words ex_words) None false 0 0 [1; 1; 1] 11 None
    (replicate 496 0) (replicate 249 0) (replicate (Z.to_nat windowSize) 0) (replicate 4096 0) 0 0.
Definition ex_table (lens : list Z) : option huffman :=
  match buildTable lens with Ret h => h | _ => None end.
Definition ex_trees : trees := mkTrees (ex_table ex_lens) (ex_table ex_len_lens) None.
Definition ex_out : list Z := [97; 98; 97; 98; 97; 98; 97; 98; 97; 98; 33].

Lemma ex_main_tree : is_tree (t_main ex_trees) ex_lens.
Proof. split; [by vm_compute|decide_now|decide_now|by vm_compute|decide_now]. Qed.

Lemma ex_has_bits :
  has_bits ex_state (concat (tok_bits ex_lens ex_len_lens None <$> ex_tokens) ++ replicate 6 false).
Proof.
  exists [], ex_words. split; [|by vm_compute].
  split; try reflexivity; try (cbn; lia); decide_now.
Qed.

Lemma readCompressedBlock_spec_witness :
  ∃ f' w2', readCompressedBlock 0 11 ex_trees ex_state = (Ret (11, None), f') ∧
    has_bits f' (replicate 6 false) ∧ window f' = ex_out ++ w2' ∧ zlen (window f') = windowSize ∧
    lru f' = [2; 1; 1] ∧ mainlens f' = replicate 496 0 ∧ lenlens f' = replicate 249 0.
Proof.
  exact (readCompressedBlock_spec ex_lens ex_len_lens None ex_trees ex_tokens ex_state
    (replicate 6 false) [] (replicate (Z.to_nat windowSize) 0) [1; 1; 1] ex_out [2; 1; 1]
    ex_main_tree ltac:(vm_compute; discriminate) eq_refl ex_has_bits ltac:(decide_now)
    eq_refl ltac:(by vm_compute) eq_refl eq_refl ltac:(by vm_compute) ltac:(by vm_compute)).
Defined.

(** ** Corrupt and truncated input *)
Definition stream (bits : list bool) (tl : list Z) : list Z :=
  le_words (pack (Nat.div (length bits + 15) 16) bits) ++ tl.
Definition read_chunk (b : list Z) (size : Z) : res (list Z * option error) :=
  match NewReader b size with
  | Ret f => fst (LzxDecoder.Read 10 size f)
  | Fail e => Fail e
  | Panic w => Panic w
  | NoFuel => NoFuel
  end.
Definition block_header (type : Z) (size : Z) : list bool :=
  bits_of 3 type ++ (if size =? maxBlockSize then [true] else false :: bits_of 16 size).
Definition lru_bytes : list Z := le_bytes 4 1 ++ le_bytes 4 1 ++ le_bytes 4 1.

(** An uncompressed block reads back. *)
Example read_uncompressed :
  read_chunk (stream (block_header uncompressedBlock 5) (lru_bytes ++ [10; 20; 30; 40; 50])) 5
  = Ret ([10; 20; 30; 40; 50], None).
Proof. by vm_compute. Qed.

(** A chunk that ends before the data of an uncompressed block reads as a clean
    end of file. *)
Example read_uncompressed_truncated :
  read_chunk (stream (block_header uncompressedBlock 5) lru_bytes) 5 = Ret ([], Some EOF).
Proof. by vm_compute. Qed.

(** A pre-tree that is not complete is used without a check. *)
Example read_bad_pretree :
  read_chunk (stream (block_header verbatimBlock 5 ++ bits_of 4 1 ++ replicate 100 false) []) 5
  = Panic "nil pointer dereference".
Proof. by vm_compute. Qed.

(** The size of a block is not checked against the room left in the window. *)
Example read_block_too_large :
  read_chunk (stream (block_header uncompressedBlock 2) (lru_bytes ++ [10; 20] ++
              stream (block_header uncompressedBlock 32768) lru_bytes)) 5
  = Panic "slice bounds out of range".
Proof. by vm_compute. Qed.

(** [ensureAtLeast] asks the reader for [n] more bytes although it already has
    some: with one byte in the buffer and one in the reader a word is complete,
    and still the stream ends there. *)
Example feed_split_word :
  let f := mkDecomp (mkChunked [[2]] EOF) None false 0 0 [1; 1; 1] 5 None [] [] []
             (1 :: replicate 4095 0) 1 0 in
  fst (ensureAtLeast 2 f) = Ret (Some ErrUnexpectedEOF).
Proof. by vm_compute. Qed.
