(* ===== verification/WimCompress.v ===== *)
(** * WIM: compressed resources ([wim/decompress.go])

    A compressed resource is a table of chunk offsets and one chunk per 32KB of
    data, each LZX-compressed or stored as it is.  [compressedReader] is a
    reader of the data from any offset. *)
From S2P Require Import Prelude Streams LzxHuffman LzxE8 LzxDecoder.

Definition chunkSize : Z := 32768.

(** The reader [d] of the current chunk: [io.NopCloser] of a section, or an LZX
    decompressor; [fuel] bounds the blocks of a chunk. *)
Inductive chunk_reader : Type :=
| Stored (s : SectionReader)
| Lzx (f : decompressor SectionReader).

Section Chunks.
Context (fuel : nat).

Definition chunk_read (n : Z) (d : chunk_reader) : res (list Z * option error) * chunk_reader :=
  match d with
  | Stored s => let '(x, s') := rd_read n s in (x, Stored s')
  | Lzx f => let '(x, f') := LzxDecoder.Read fuel n f in (x, Lzx f')
  end.
#[export] Instance chunk_Reader : Reader chunk_reader := chunk_read.

Record compressedReader := mkCR {
  cr_r : SectionReader;
  cr_d : option chunk_reader;
  chunks : list Z;
  curChunk : Z;
  originalSize : Z }.

Definition chunkOffset (r : compressedReader) (n : Z) : res Z :=
  if n =? zlen (chunks r) then Ret (sec_size (cr_r r)) else index (chunks r) n.
Definition chunk_size (r : compressedReader) (n : Z) : res Z :=
  hi ← chunkOffset r (n + 1); lo ← chunkOffset r n; Ret (hi - lo).
Definition uncompressedSize (r : compressedReader) (n : Z) : Z :=
  if n <? zlen (chunks r) - 1 then chunkSize
  else let size := Z.rem (originalSize r) chunkSize in
       if size =? 0 then chunkSize else size.

(** [compressedReader.reset]; on an error the chunk number is already changed. *)
Definition reset (n : Z) : St compressedReader (option error) :=
  r ← get;
  if zlen (chunks r) <=? n then mret (Some EOF)
  else
    _ ← modify (λ r, mkCR (cr_r r) (cr_d r) (chunks r) n (originalSize r));
    size ← lift (chunk_size r n);
    off ← lift (chunkOffset r n);
    let usize := uncompressedSize r n in
    let section := SubSection (cr_r r) off size in
    let set_d d := modify (λ r, mkCR (cr_r r) (Some d) (chunks r) (curChunk r) (originalSize r)) in
    if negb (size =? usize) then
      match NewReader section usize with
      | Ret f => _ ← set_d (Lzx f); mret None
      | Fail e => mret (Some e)
      | Panic w => panic w
      | NoFuel => nofuel
      end
    else _ ← set_d (Stored section); mret None.

(** [compressedReader.Read]: the loop ends at the latest after the last chunk. *)
Fixpoint cr_loop (k : nat) (n : Z) (r : compressedReader) :
    res (list Z * option error) * compressedReader :=
  match k with
  | O => (NoFuel, r)
  | S k =>
      match cr_d r with
      | None => (Panic "nil pointer dereference", r)
      | Some d =>
          match rd_read n d with
          | (Ret (bs, err), d') =>
              let r' := mkCR (cr_r r) (Some d') (chunks r) (curChunk r) (originalSize r) in
              if negb (bool_decide (err = Some EOF)) then (Ret (bs, err), r')
              else
                match reset (curChunk r' + 1) r' with
                | (Ret (Some e), r'') => (Ret (bs, Some e), r'')
                | (Ret None, r'') => cr_loop k n r''
                | (Fail e, r'') => (Fail e, r'')
                | (Panic w, r'') => (Panic w, r'')
                | (NoFuel, r'') => (NoFuel, r'')
                end
          | (Fail e, d') => (Fail e, r)
          | (Panic w, d') => (Panic w, r)
          | (NoFuel, d') => (NoFuel, r)
          end
      end
  end.
Definition cr_Read (n : Z) (r : compressedReader) : res (list Z * option error) * compressedReader :=
  cr_loop (S (length (chunks r))) n r.
#[export] Instance compressed_Reader : Reader compressedReader := cr_Read.

(** The offset table; the offsets of the first chunk is 0 and is not stored. *)
Fixpoint le_vals (w n : nat) (b : list Z) : list Z :=
  match n with
  | O => []
  | S n => le_val (take w b) :: le_vals w n (drop w b)
  end.
Definition read_chunks (nchunks width : Z) (r : SectionReader) : res (list Z) :=
  if nchunks - 1 <? 0 then Panic "makeslice: len out of range"
  else match ReadBytes ((nchunks - 1) * width) r with
  | (Ret b, _) =>
      let base := (nchunks - 1) * width in
      Ret ((λ c, i64 (c + base)) <$> (0 :: (i64 <$> le_vals (Z.to_nat width) (Z.to_nat (nchunks - 1)) b)))
  | (Fail e, _) => Fail e
  | (Panic w, _) => Panic w
  | (NoFuel, _) => NoFuel
  end.

Definition newCompressedReader (r : SectionReader) (size offset : Z) : res compressedReader :=
  let nchunks := Z.quot (size + chunkSize - 1) chunkSize in
  if nchunks <? 0 then Panic "makeslice: len out of range"
  else
    cs ← read_chunks nchunks (if size <=? 0xffffffff then 4 else 8) r;
    match reset (Z.quot offset chunkSize) (mkCR r None cs 0 size) with
    | (Ret (Some e), _) => Fail e
    | (Ret None, cr) =>
        let suboff := Z.rem offset chunkSize in
        if negb (suboff =? 0) then
          match cr_d cr with
          | None => Panic "nil pointer dereference"
          | Some d =>
              match DiscardN (S (Z.to_nat suboff)) suboff d with
              | (Ret tt, d') => Ret (mkCR (cr_r cr) (Some d') (chunks cr) (curChunk cr) (originalSize cr))
              | (Fail e, _) => Fail e
              | (Panic w, _) => Panic w
              | (NoFuel, _) => NoFuel
              end
          end
        else Ret cr
    | (Fail e, _) => Fail e
    | (Panic w, _) => Panic w
    | (NoFuel, _) => NoFuel
    end.

Definition cr_Close (r : compressedReader) : option error * compressedReader :=
  (None, mkCR (cr_r r) None (chunks r) (curChunk r) (originalSize r)).
End Chunks.

Lemma le_vals_concat w {A} (f : A → Z) (l : list A) rest :
  Forall (λ i, 0 ≤ f i < 256 ^ Z.of_nat w) l →
  le_vals w (length l) (concat ((λ i, le_bytes w (f i)) <$> l) ++ rest) = f <$> l.
Proof.
  induction 1 as [|i l Hi Hl IH]; [done|]. cbn [length le_vals fmap list_fmap concat].
  rewrite <- app_assoc, take_app_length', drop_app_length' by (by rewrite length_le_bytes).
  rewrite le_val_le_bytes, Z.mod_small by done. by f_equal.
Qed.

Lemma zlen_concat_le_bytes w {A} (f : A → Z) (l : list A) :
  zlen (concat ((λ i, le_bytes w (f i)) <$> l)) = zlen l * Z.of_nat w.
Proof.
  induction l as [|i l IH]; [done|]. cbn [fmap list_fmap concat].
  rewrite zlen_app, IH, zlen_le_bytes, zlen_cons. lia.
Qed.

(** ** The layout of a compressed resource

    [cs] are the chunks: the bytes stored of each and the data they stand for. *)
Section Layout.
Context (fuel : nat).

(** [st] is an LZX stream of [d]. *)
Definition lzx_decodes (st d : list Z) : Prop :=
  ∃ f0 f1, NewReader (mkSection st (zlen st) 0 EOF) (zlen d) = Ret f0 ∧
    decode fuel f0 = (Ret None, f1) ∧ windowReader f1 = Some d.

Definition chunk_ok (c : list Z * list Z) : Prop :=
  fst c ≠ [] ∧ snd c ≠ [] ∧ if zlen (fst c) =? zlen (snd c) then fst c = snd c else lzx_decodes (fst c) (snd c).

Definition stored (cs : list (list Z * list Z)) : list Z := concat (fst <$> cs).
Definition content (cs : list (list Z * list Z)) : list Z := concat (snd <$> cs).

(** All chunks but the last hold 32KB. *)
Definition chunks_ok (cs : list (list Z * list Z)) : Prop :=
  cs ≠ [] ∧ Forall chunk_ok cs ∧ ∀ i c, cs !! i = Some c →
    zlen (snd c) ≤ chunkSize ∧ ((S i < length cs)%nat → zlen (snd c) = chunkSize).

(** Where the chunk [i] starts, in a section with a table of [base] bytes. *)
Definition start (cs : list (list Z * list Z)) (i : nat) : Z := zlen (stored (take i cs)).

Definition off_width (cs : list (list Z * list Z)) : nat :=
  if zlen (content cs) <=? 0xffffffff then 4 else 8.
Definition off_table (cs : list (list Z * list Z)) : list Z :=
  concat ((λ i, le_bytes (off_width cs) (start cs i)) <$> seq 1 (length cs - 1)).
Definition resource (cs : list (list Z * list Z)) : SectionReader :=
  let b := off_table cs ++ stored cs in mkSection b (zlen b) 0 EOF.

Lemma stored_app cs ds : stored (cs ++ ds) = stored cs ++ stored ds.
Proof. unfold stored. by rewrite fmap_app, concat_app. Qed.
Lemma content_app cs ds : content (cs ++ ds) = content cs ++ content ds.
Proof. unfold content. by rewrite fmap_app, concat_app. Qed.

(** The bytes to come of a chunk. *)
Definition chunk_rest (d : chunk_reader) : list Z :=
  match d with
  | Stored s => sec_rest s
  | Lzx f => match decode fuel f with
             | (Ret None, f1) => default [] (windowReader f1)
             | _ => []
             end
  end.
Definition chunk_inv (d : chunk_reader) : Prop :=
  match d with
  | Stored s => 0 ≤ sec_pos s ∧ sec_fin s = EOF
  | Lzx f => ∃ f1 w, decode fuel f = (Ret None, f1) ∧ windowReader f1 = Some w
  end.

#[export, program] Instance chunk_spec : @ReaderSpec chunk_reader (chunk_Reader fuel) := {|
  rd_inv := chunk_inv;
  rd_rest := chunk_rest;
  rd_fin := λ _, EOF
|}.
Next Obligation.
  intros n [s|f] Hi Hn; unfold rd_read, chunk_Reader, chunk_read.
  - destruct Hi as [Hp Hf]. destruct (@rd_read_spec SectionReader _ section_ReaderSpec n s Hp Hn) as (bs & e & s' & -> & Hp' & Hr & Hl & Hf' & He).
    exists bs, e, (Stored s'). cbn [chunk_inv chunk_rest].
    cbn [rd_fin rd_rest rd_inv section_ReaderSpec] in *.
    rewrite Hf in *. split_and!; done.
  - destruct Hi as (f1 & w & Hd & Hw). unfold LzxDecoder.Read. rewrite (St_bind_Ret _ _ _ _ _ Hd). st_red.
    rewrite Hw. destruct (@rd_read_spec (list Z) _ bytes_ReaderSpec n w I Hn) as (bs & e & w' & Er & _ & Hr & Hl & _ & He).
    rewrite Er. exists bs, e, (Lzx (set_windowReader (Some w') f1)). cbn [chunk_inv chunk_rest].
    assert (Hd' : decode fuel (set_windowReader (Some w') f1) = (Ret None, set_windowReader (Some w') f1)) by done.
    rewrite Hd, Hd', Hw. cbn [default from_option windowReader set_windowReader].
    split_and!; try done. eexists _, w'. done.
Qed.
#[export] Instance chunk_separate : @SeparateReader chunk_reader (chunk_Reader fuel) chunk_spec.
Proof.
  intros n [s|f] bs e d' Hi Hn; unfold rd_read, chunk_Reader, chunk_read.
  - destruct (rd_read n s) as [x s'] eqn:E. intros [= -> <-].
    exact (section_SeparateReader n s bs e s' (proj1 Hi) Hn E).
  - destruct Hi as (f1 & w & Hd & Hw). unfold LzxDecoder.Read. rewrite (St_bind_Ret _ _ _ _ _ Hd). st_red.
    rewrite Hw. destruct (rd_read n w) as [x w'] eqn:E. intros [= -> _].
    exact (bytes_SeparateReader n w bs e w' I Hn E).
Qed.

(** ** The reader of a resource *)
Variable cs : list (list Z * list Z).
Hypothesis Hcs : chunks_ok cs.

Definition starts : list Z := (λ i, zlen (off_table cs) + start cs i) <$> seq 0 (length cs).

(** The fields that do not change. *)
Definition cr_static (r : compressedReader) : Prop :=
  cr_r r = resource cs ∧ chunks r = starts ∧ originalSize r = zlen (content cs).

Lemma start_S i c : cs !! i = Some c → start cs (S i) = start cs i + zlen (fst c).
Proof.
  intros Hi. unfold start. rewrite (take_S_r _ _ _ Hi), stored_app. unfold stored at 2. cbn. len.
Qed.
Lemma zlen_stored_drop i : start cs i + zlen (stored (drop i cs)) = zlen (stored cs).
Proof. unfold start. rewrite <- zlen_app, <- stored_app, take_drop. done. Qed.

Lemma chunkOffset_spec r i :
  cr_static r → (i ≤ length cs)%nat →
  chunkOffset r (Z.of_nat i) = Ret (zlen (off_table cs) + start cs i).
Proof.
  intros (Hr & Hc & _) Hi. unfold chunkOffset. rewrite Hr, Hc. unfold starts, zlen at 1.
  rewrite length_fmap, length_seq. destruct (Z.eqb_spec (Z.of_nat i) (Z.of_nat (length cs))) as [E|E].
  - apply Nat2Z.inj in E as ->. unfold resource, start. cbn [sec_size].
    rewrite take_ge by lia. by rewrite zlen_app.
  - apply index_Ret; [lia|]. rewrite Nat2Z.id, list_lookup_fmap, lookup_seq_lt by lia. done.
Qed.

Lemma chunk_size_spec r i c :
  cr_static r → cs !! i = Some c → chunk_size r (Z.of_nat i) = Ret (zlen (fst c)).
Proof.
  intros Hr Hi. pose proof (lookup_lt_Some _ _ _ Hi). unfold chunk_size.
  replace (Z.of_nat i + 1) with (Z.of_nat (S i)) by lia.
  rewrite !chunkOffset_spec by (done || lia). cbn [mbind res_bind].
  rewrite (start_S _ _ Hi). f_equal. lia.
Qed.

(** The data before chunk [i] is [i] times 32KB. *)
Lemma content_take i : (i < length cs)%nat → zlen (content (take i cs)) = Z.of_nat i * chunkSize.
Proof.
  destruct Hcs as (_ & _ & Hsz). induction i as [|i IH]; intros Hi; [done|].
  destruct (lookup_lt_is_Some_2 cs i ltac:(lia)) as [c Hc].
  rewrite (take_S_r _ _ _ Hc), content_app, zlen_app, IH by lia. unfold content. cbn.
  rewrite app_nil_r. destruct (Hsz i c Hc) as [_ ->]; [lia|]. lia.
Qed.
Lemma chunk_data_len i c :
  cs !! i = Some c → 0 < zlen (snd c) ≤ chunkSize ∧
  (Z.of_nat i < zlen cs - 1 → zlen (snd c) = chunkSize) ∧
  zlen (content cs) = Z.of_nat i * chunkSize + zlen (snd c) + zlen (content (drop (S i) cs)).
Proof.
  intros Hc. pose proof (lookup_lt_Some _ _ _ Hc). destruct Hcs as (_ & Hok & Hsz).
  rewrite Forall_lookup in Hok. destruct (Hok _ _ Hc) as (_ & Hne & _).
  split; [|split].
  - split; [|by apply (Hsz i)]. destruct (snd c); [done|len].
  - intros Hl. apply (Hsz i); [done|]. unfold zlen in Hl. lia.
  - rewrite <- content_take by lia. rewrite <- (take_drop_middle cs i c Hc) at 1.
    rewrite content_app, zlen_app. change (c :: drop (S i) cs) with ([c] ++ drop (S i) cs).
    rewrite content_app, zlen_app. unfold content at 2. cbn. rewrite app_nil_r. lia.
Qed.

Lemma uncompressedSize_spec r i c :
  cr_static r → cs !! i = Some c → uncompressedSize r (Z.of_nat i) = zlen (snd c).
Proof.
  intros (_ & Hch & Ho) Hc. pose proof (lookup_lt_Some _ _ _ Hc).
  destruct (chunk_data_len i c Hc) as (Hl & Hfull & Hsum). unfold uncompressedSize. rewrite Hch, Ho.
  assert (Hzs : zlen starts = zlen cs) by (unfold starts, zlen; by rewrite length_fmap, length_seq).
  rewrite Hzs. destruct (Z.ltb_spec (Z.of_nat i) (zlen cs - 1)) as [Hlt|Hge]; [by rewrite Hfull|].
  rewrite drop_ge in Hsum by (unfold zlen in Hge; lia). change (zlen (content [])) with 0 in Hsum.
  rewrite Hsum, Z.add_0_r. unfold chunkSize in *.
  rewrite Z.rem_mod_nonneg by (pose_lens; lia). rewrite Z.add_comm, Z.mod_add by lia.
  destruct (Z.eq_dec (zlen (snd c)) 32768) as [->|]; [done|]. rewrite Z.mod_small by lia.
  by replace (zlen (snd c) =? 0) with false by lia.
Qed.

(** The section of a chunk is what is stored of it. *)
Lemma chunk_section i c :
  cs !! i = Some c → fst c ≠ [] →
  SubSection (resource cs) (zlen (off_table cs) + start cs i) (zlen (fst c)) =
    mkSection (fst c) (zlen (fst c)) 0 EOF.
Proof.
  intros Hc Hne. pose proof (zlen_stored_drop i) as Hs.
  assert (Hd : stored (drop i cs) = fst c ++ stored (drop (S i) cs)).
  { by rewrite (drop_S _ _ _ Hc). }
  rewrite Hd, zlen_app in Hs. unfold SubSection, resource. cbn [sec_data sec_size sec_fin].
  rewrite zlen_app. assert (0 < zlen (fst c)) by (destruct (fst c); [done|len]).
  unfold start in *. pose_lens. replace ((_ <? 0) || (_ <=? _)) with false by lia.
  rewrite <- zdrop_zdrop, zdrop_app_eq by (done || lia).
  rewrite <- (take_drop i cs) at 2. rewrite stored_app, zdrop_app_eq, Hd, ztake_app_eq by done. done.
Qed.

Lemma reset_spec r i c :
  cr_static r → cs !! i = Some c →
  ∃ d, reset (Z.of_nat i) r = (Ret None, mkCR (cr_r r) (Some d) (chunks r) (Z.of_nat i) (originalSize r)) ∧
    chunk_inv d ∧ chunk_rest d = snd c.
Proof.
  intros Hst Hc. pose proof (lookup_lt_Some _ _ _ Hc) as Hlt. unfold reset.
  rewrite (St_bind_Ret _ get r r r) by done.
  assert (Hzs : zlen (chunks r) = zlen cs)
    by (destruct Hst as (_ & -> & _); unfold starts, zlen; by rewrite length_fmap, length_seq).
  rewrite Hzs. replace (zlen cs <=? Z.of_nat i) with false by (unfold zlen; lia).
  rewrite (St_bind_Ret _ (modify _) r _ _ eq_refl).
  set (r1 := mkCR (cr_r r) (cr_d r) (chunks r) (Z.of_nat i) (originalSize r)).
  rewrite (chunk_size_spec r i c Hst Hc), (chunkOffset_spec r i Hst ltac:(lia)).
  rewrite (St_bind_Ret _ (lift _) r1 _ r1 eq_refl), (St_bind_Ret _ (lift _) r1 _ r1 eq_refl).
  rewrite (uncompressedSize_spec r i c Hst Hc).
  assert (Hok : chunk_ok c) by (destruct Hcs as (_ & Hok & _); rewrite Forall_lookup in Hok; by apply (Hok i)).
  destruct Hok as (Hne & _ & Hok).
  assert (Hsec : SubSection (cr_r r) (zlen (off_table cs) + start cs i) (zlen (fst c)) =
    mkSection (fst c) (zlen (fst c)) 0 EOF) by (destruct Hst as (-> & _); by apply chunk_section).
  rewrite Hsec.
  destruct (Z.eqb_spec (zlen (fst c)) (zlen (snd c))) as [E|E]; cbn [negb].
  - eexists. split; [done|]. split; [split; done|]. cbn [chunk_rest]. by rewrite <- Hok.
  - destruct Hok as (f0 & f1 & -> & Hd & Hw). exists (Lzx f0). split; [done|].
    cbn [chunk_inv chunk_rest]. rewrite Hd, Hw. split; [by exists f1, (snd c)|done].
Qed.

Lemma reset_end r : cr_static r → reset (zlen cs) r = (Ret (Some EOF), r).
Proof.
  intros (_ & Hch & _). unfold reset. rewrite (St_bind_Ret _ get r r r) by done.
  assert (Hzs : zlen (chunks r) = zlen cs) by (rewrite Hch; unfold starts, zlen; by rewrite length_fmap, length_seq).
  rewrite Hzs, Z.leb_refl. done.
Qed.

(** A compressed reader that has data to come in the chunk [i] and after it. *)
Definition cr_inv (r : compressedReader) : Prop :=
  cr_static r ∧ ∃ i d, curChunk r = Z.of_nat i ∧ (i < length cs)%nat ∧ cr_d r = Some d ∧ chunk_inv d.
Definition cr_rest (r : compressedReader) : list Z :=
  match cr_d r with
  | Some d => chunk_rest d ++ content (drop (S (Z.to_nat (curChunk r))) cs)
  | None => []
  end.

Lemma cr_loop_spec k n r :
  cr_inv r → 0 < n → (length cs - Z.to_nat (curChunk r) ≤ k)%nat →
  ∃ bs e r', cr_loop fuel k n r = (Ret (bs, e), r') ∧ cr_inv r' ∧ cr_rest r = bs ++ cr_rest r' ∧
    zlen bs ≤ n ∧
    match e with None => bs ≠ [] | Some x => x = EOF ∧ bs = [] ∧ cr_rest r' = [] end.
Proof.
  revert r. induction k as [|k IH]; intros r Hinv Hn Hk.
  { destruct Hinv as (_ & i & d & Hi & Hlt & _). lia. }
  destruct Hinv as (Hst & i & d & Hi & Hlt & Hd & Hdi). cbn [cr_loop]. rewrite Hd.
  pose (RS := chunk_spec).
  destruct (@rd_read_spec chunk_reader _ RS n d Hdi Hn) as (bs & e & d' & Er & Hdi' & Hrest & Hl & _ & He).
  rewrite Er. cbn [rd_rest RS chunk_spec] in Hrest, He. cbn [curChunk].
  unfold cr_rest at 1. rewrite Hd, Hi, Nat2Z.id.
  set (r' := mkCR (cr_r r) (Some d') (chunks r) (Z.of_nat i) (originalSize r)).
  assert (Hst' : cr_static r') by exact Hst.
  assert (Hr' : cr_rest r' = chunk_rest d' ++ content (drop (S i) cs))
    by (unfold cr_rest, r'; cbn [cr_d curChunk]; by rewrite Nat2Z.id).
  destruct e as [x|].
  - destruct He as [-> Hnil]. pose proof (chunk_separate n d bs EOF d' Hdi Hn Er) as ->.
    rewrite Hrest, Hnil. cbn [app]. rewrite bool_decide_eq_true_2 by done. cbn [negb].
    replace (Z.of_nat i + 1) with (Z.of_nat (S i)) by lia.
    destruct (lookup_lt_is_Some_2 cs i Hlt) as [c Hc].
    destruct (decide (S i < length cs)%nat) as [Hlt'|Hge].
    + destruct (lookup_lt_is_Some_2 cs (S i) Hlt') as [c' Hc'].
      destruct (reset_spec r' (S i) c' Hst' Hc') as (d2 & -> & Hdi2 & Hd2).
      rewrite (drop_S _ _ _ Hc'). change (content (c' :: ?l)) with (snd c' ++ content l).
      set (r2 := mkCR _ _ _ _ _).
      assert (Hr2 : cr_rest r2 = snd c' ++ content (drop (S (S i)) cs))
        by (unfold cr_rest, r2; cbn [cr_d curChunk]; by rewrite Nat2Z.id, Hd2).
      rewrite <- Hr2. apply IH; [|done|unfold r2; cbn [curChunk]; lia].
      split; [exact Hst'|]. by exists (S i), d2.
    + assert (Hlast : Z.of_nat (S i) = zlen cs) by (unfold zlen; lia). rewrite Hlast, reset_end by done.
      rewrite (drop_ge cs) in Hr' |- * by lia. rewrite Hnil in Hr'. exists [], (Some EOF), r'.
      split_and!; try done. split; [done|]. by exists i, d'.
  - rewrite bool_decide_eq_false_2 by done. cbn [negb]. exists bs, None, r'. split_and!; try done.
    + split; [done|]. by exists i, d'.
    + by rewrite Hr', Hrest, app_assoc.
Qed.

#[export, program] Instance compressed_spec : @ReaderSpec compressedReader (compressed_Reader fuel) := {|
  rd_inv := cr_inv;
  rd_rest := cr_rest;
  rd_fin := λ _, EOF
|}.
Next Obligation.
  intros n r Hi Hn. unfold rd_read, compressed_Reader, cr_Read.
  destruct (cr_loop_spec (S (length (chunks r))) n r Hi Hn) as (bs & e & r' & -> & ? & ? & ? & He).
  { destruct Hi as ((_ & -> & _) & _). unfold starts. rewrite length_fmap, length_seq. lia. }
  exists bs, e, r'. split_and!; try done. destruct e; [|done]. by destruct_and!.
Qed.

Lemma start_range i : 0 ≤ start cs i ≤ zlen (stored cs).
Proof. pose proof (zlen_stored_drop i). unfold start in *. pose_lens. lia. Qed.

Lemma zlen_off_table : zlen (off_table cs) = (zlen cs - 1) * Z.of_nat (off_width cs).
Proof.
  destruct Hcs as (Hne & _). unfold off_table. rewrite zlen_concat_le_bytes. f_equal.
  unfold zlen. rewrite length_seq. destruct cs; [done|]. simpl. lia.
Qed.

(** The offset table can hold the offsets. *)
Hypothesis Hfits : zlen (stored cs) < 256 ^ Z.of_nat (off_width cs) ∧
                   zlen (off_table cs) + zlen (stored cs) < 9223372036854775808.

Lemma read_chunks_spec : read_chunks (zlen cs) (Z.of_nat (off_width cs)) (resource cs) = Ret starts.
Proof.
  destruct Hcs as (Hne & _). unfold read_chunks.
  assert (Hlen : 0 < zlen cs) by (destruct cs; [done|len]).
  replace (zlen cs - 1 <? 0) with false by lia.
  destruct (ReadBytes_app (R := SectionReader) ((zlen cs - 1) * Z.of_nat (off_width cs)) (resource cs)
    (off_table cs) (stored cs)) as (r' & -> & _); [done|done|by rewrite zlen_off_table|].
  f_equal. unfold starts. rewrite zlen_off_table.
  rewrite Nat2Z.id. replace (Z.to_nat (zlen cs - 1)) with (length (seq 1 (length cs - 1)))
    by (rewrite length_seq; unfold zlen; lia).
  unfold off_table. rewrite <- (app_nil_r (concat _)), le_vals_concat.
  2: { apply Forall_forall. intros i _. pose proof (start_range i). lia. }
  replace (seq 0 (length cs)) with (0%nat :: seq 1 (length cs - 1))
    by (clear Hfits Hlen; destruct cs; [done|]; simpl; do 2 f_equal; lia).
  cbn [fmap list_fmap]. pose proof zlen_off_table as Hzt. pose_lens. f_equal.
  - change (start cs 0) with 0. rewrite i64_small by lia. lia.
  - fold (@fmap list _ nat Z). rewrite <- !list_fmap_compose. apply list_fmap_ext. intros _ i _. cbn.
    pose proof (start_range i). rewrite (i64_small (start cs i)), i64_small by lia. lia.
Qed.

Lemma nchunks_spec : Z.quot (zlen (content cs) + chunkSize - 1) chunkSize = zlen cs.
Proof.
  destruct Hcs as (Hne & _). assert (Hlen : (0 < length cs)%nat) by (destruct cs; [done|simpl; lia]).
  destruct (lookup_lt_is_Some_2 cs (length cs - 1) ltac:(lia)) as [c Hc].
  destruct (chunk_data_len _ _ Hc) as (Hl & _ & Hsum). rewrite drop_ge in Hsum by lia.
  change (zlen (content [])) with 0 in Hsum. unfold chunkSize in *. rewrite Z.quot_div_nonneg by (pose_lens; lia).
  symmetry. apply (Z.div_unique_pos _ _ _ (zlen (snd c) - 1)); unfold zlen in *; lia.
Qed.

(** The chunk an offset is in, and the data from there on. *)
Lemma offset_chunk offset : 0 ≤ offset < zlen (content cs) →
  let i := Z.to_nat (offset / chunkSize) in
  offset / chunkSize = Z.of_nat i ∧ offset = Z.of_nat i * chunkSize + offset mod chunkSize ∧
  0 ≤ offset mod chunkSize < chunkSize ∧ (i < length cs)%nat.
Proof.
  intros Ho i. unfold chunkSize in *.
  assert (Hi : offset / 32768 = Z.of_nat i) by (subst i; rewrite Z2Nat.id; [done|apply Z.div_pos; lia]).
  pose proof (Z.div_mod offset 32768 ltac:(lia)). pose proof (Z.mod_pos_bound offset 32768 ltac:(lia)).
  split; [done|]. split; [lia|]. split; [done|].
  pose proof nchunks_spec as Hn. unfold chunkSize in Hn. rewrite Z.quot_div_nonneg in Hn by (pose_lens; lia).
  destruct (Nat.lt_ge_cases i (length cs)) as [|Hge]; [done|exfalso].
  pose proof (Z.div_mod (zlen (content cs) + 32768 - 1) 32768 ltac:(lia)).
  pose proof (Z.mod_pos_bound (zlen (content cs) + 32768 - 1) 32768 ltac:(lia)). unfold zlen in Hn at 2. lia.
Qed.
Lemma content_from i c : cs !! i = Some c →
  zdrop (Z.of_nat i * chunkSize) (content cs) = snd c ++ content (drop (S i) cs).
Proof.
  intros Hc. rewrite <- (content_take i) by (by eapply lookup_lt_Some). rewrite <- (take_drop i cs) at 2.
  by rewrite content_app, zdrop_app_eq, (drop_S _ _ _ Hc) by done.
Qed.

Lemma newCompressedReader_at offset :
  0 ≤ offset < zlen (content cs) →
  ∃ r, newCompressedReader fuel (resource cs) (zlen (content cs)) offset = Ret r ∧ cr_inv r ∧
    cr_rest r = zdrop offset (content cs).
Proof.
  intros Ho. unfold newCompressedReader. rewrite nchunks_spec. replace (zlen cs <? 0) with false by len.
  replace (if zlen (content cs) <=? 0xffffffff then 4 else 8) with (Z.of_nat (off_width cs))
    by (unfold off_width; by case_match).
  rewrite read_chunks_spec. cbn [mbind res_bind].
  set (r0 := mkCR (resource cs) None starts 0 (zlen (content cs))).
  assert (Hst : cr_static r0) by done.
  destruct (offset_chunk offset Ho) as (Hdiv & Hoff & Hsub & Hi). set (i := Z.to_nat (offset / chunkSize)) in *.
  rewrite Z.quot_div_nonneg, Z.rem_mod_nonneg, Hdiv by (unfold chunkSize; lia).
  destruct (lookup_lt_is_Some_2 cs i Hi) as [c Hc].
  destruct (reset_spec r0 i c Hst Hc) as (d & -> & Hd & Hdr).
  set (r1 := mkCR _ _ _ _ _).
  pose proof (content_from i c Hc) as Hdrop.
  assert (Hsz : offset mod chunkSize ≤ zlen (snd c)).
  { destruct (chunk_data_len i c Hc) as (Hl & Hfull & Hsum).
    destruct (Z.lt_ge_cases (Z.of_nat i) (zlen cs - 1)); [rewrite Hfull; lia|].
    rewrite drop_ge in Hsum by (unfold zlen in *; lia). change (zlen (content [])) with 0 in Hsum. lia. }
  destruct (Z.eqb_spec (offset mod chunkSize) 0) as [E|E]; cbn [negb].
  - exists r1. split; [done|]. split; [split; [done|]; by exists i, d|].
    unfold cr_rest, r1. cbn [cr_d curChunk]. rewrite Nat2Z.id, Hdr. by rewrite Hoff, E, Z.add_0_r, Hdrop.
  - unfold r1. cbn [cr_d]. pose (RS := chunk_spec).
    destruct (@DiscardN_ok chunk_reader _ RS (S (Z.to_nat (offset mod chunkSize))) (offset mod chunkSize) d)
      as (d' & -> & Hd' & Hdr' & _); [done|cbn [rd_rest RS chunk_spec]; rewrite Hdr; lia|lia|].
    cbn [rd_rest rd_inv RS chunk_spec] in Hd', Hdr'. eexists. split; [done|].
    split; [split; [done|]; by exists i, d'|].
    unfold cr_rest. cbn [cr_d curChunk]. rewrite Nat2Z.id, Hdr', Hdr.
    replace (zdrop offset (content cs)) with (zdrop (offset mod chunkSize) (zdrop (Z.of_nat i * chunkSize) (content cs)))
      by (rewrite zdrop_zdrop by (unfold chunkSize in *; lia); f_equal; lia).
    by rewrite Hdrop, zdrop_app_le.
Qed.
End Layout.

(** C3: a compressed resource is readable from any offset: whatever mix of
    stored and LZX-compressed chunks it is made of (32- or 64-bit offset table),
    [newCompressedReader] at [offset] finds the chunk and returns a reader
    whose content, through any sequence of reads, is the data from [offset]
    on, ending with [io.EOF]. *)
Theorem newCompressedReader_spec (fuel k : nat) (cs : list (list Z * list Z)) (offset : Z) :
  chunks_ok fuel cs →
  zlen (stored cs) < 256 ^ Z.of_nat (off_width cs) →
  zlen (off_table cs) + zlen (stored cs) < 9223372036854775808 →
  0 ≤ offset < zlen (content cs) → (length (content cs) < k)%nat →
  ∃ r r', newCompressedReader fuel (resource cs) (zlen (content cs)) offset = Ret r ∧
    @ReadAll _ (compressed_Reader fuel) k r = (Ret (zdrop offset (content cs), None), r').
Proof.
  intros Hcs H1 H2 Ho Hk.
  destruct (newCompressedReader_at fuel cs Hcs (conj H1 H2) offset Ho) as (r & E & Hi & Hr).
  pose (RS := compressed_spec fuel cs Hcs).
  destruct (@drain_spec compressedReader _ RS k 512 [] r Hi ltac:(lia)) as (r' & Ed & _).
  { cbn [rd_rest RS compressed_spec]. rewrite Hr. unfold zdrop. rewrite length_drop. lia. }
  exists r, r'. split; [done|]. unfold ReadAll. rewrite Ed. cbn [rd_rest rd_fin RS compressed_spec app].
  by rewrite Hr, bool_decide_eq_true_2.
Qed.

(** ** Witness: a stored chunk and an LZX chunk of one uncompressed block *)
Definition ex_lzx : list Z :=
  le_bytes 2 24576 ++ le_bytes 2 20480 ++ le_bytes 4 1 ++ le_bytes 4 1 ++ le_bytes 4 1 ++ [10; 20; 30; 40; 50].
Definition ex_chunks : list (list Z * list Z) :=
  [ (replicate (Z.to_nat chunkSize) 7, replicate (Z.to_nat chunkSize) 7);
    (ex_lzx, [10; 20; 30; 40; 50]) ].

(** Decoding by evaluation. *)
Definition eval_lzx (fuel : nat) (st d : list Z) : res (option error) * option (list Z) :=
  match NewReader (mkSection st (zlen st) 0 EOF) (zlen d) with
  | Ret f0 => let '(x, f1) := decode fuel f0 in (x, windowReader f1)
  | _ => (NoFuel, None)
  end.
Lemma eval_lzx_decodes fuel st d : eval_lzx fuel st d = (Ret None, Some d) → lzx_decodes fuel st d.
Proof.
  unfold eval_lzx, lzx_decodes. destruct (NewReader _ _) as [f0| | |]; try done.
  destruct (decode fuel f0) as [x f1] eqn:E. intros [= -> Hw]. by exists f0, f1.
Qed.
Lemma ex_lzx_decodes : lzx_decodes 10 ex_lzx [10; 20; 30; 40; 50].
Proof. apply eval_lzx_decodes. vm_compute. reflexivity. Qed.

Lemma stored_chunk_ok fuel b : b ≠ [] → chunk_ok fuel (b, b).
Proof. intros Hb. unfold chunk_ok. cbn [fst snd]. by rewrite Z.eqb_refl. Qed.

Lemma two_chunks_ok fuel b st d :
  zlen b = chunkSize → st ≠ [] → d ≠ [] → zlen d ≤ chunkSize → zlen st ≠ zlen d → lzx_decodes fuel st d →
  chunks_ok fuel [(b, b); (st, d)].
Proof.
  intros Hb Hst Hd Hl Hne Hdec. split; [done|]. split.
  - constructor; [apply stored_chunk_ok; by intros ->|]. constructor; [|constructor].
    unfold chunk_ok. cbn [fst snd]. by rewrite (proj2 (Z.eqb_neq _ _) Hne).
  - intros i c Hi. destruct i as [|[|i]]; [| |done]; injection Hi as <-; cbn [fst snd].
    + rewrite Hb. lia.
    + split; [done|]. cbn [length]. lia.
Qed.

Lemma newCompressedReader_spec_witness :
  ∃ r r', newCompressedReader 10 (resource ex_chunks) (zlen (content ex_chunks)) 32769 = Ret r ∧
    @ReadAll _ (compressed_Reader 10) (Z.to_nat 40000) r = (Ret ([20; 30; 40; 50], None), r').
Proof.
  assert (E : zdrop 32769 (content ex_chunks) = [20; 30; 40; 50]) by (vm_compute; reflexivity).
  rewrite <- E.
  refine (newCompressedReader_spec 10 (Z.to_nat 40000) ex_chunks 32769 _ _ _ _ _).
  - apply two_chunks_ok; [vm_compute; reflexivity|discriminate|discriminate|decide_now|decide_now|exact ex_lzx_decodes].
  - decide_now.
  - decide_now.
  - decide_now.
  - apply Nat.ltb_lt. vm_compute. reflexivity.
Defined.
