(* ===== verification/Wim.v ===== *)
(** * WIM files ([wim/wim.go])

    The header, the offset table, the security descriptors and the directory
    entries of the images of a WIM file, and the image state that lets
    directories be read in any order from a compressed resource. *)
From S2P Require Import Prelude GoStrings Unicode Streams LzxHuffman LzxE8 LzxDecoder WimCompress PaxTime.

Definition FILE_ATTRIBUTE_READONLY : Z := 0x00000001.
Definition FILE_ATTRIBUTE_HIDDEN : Z := 0x00000002.
Definition FILE_ATTRIBUTE_SYSTEM : Z := 0x00000004.
Definition FILE_ATTRIBUTE_DIRECTORY : Z := 0x00000010.
Definition FILE_ATTRIBUTE_ARCHIVE : Z := 0x00000020.
Definition FILE_ATTRIBUTE_DEVICE : Z := 0x00000040.
Definition FILE_ATTRIBUTE_NORMAL : Z := 0x00000080.
Definition FILE_ATTRIBUTE_TEMPORARY : Z := 0x00000100.
Definition FILE_ATTRIBUTE_SPARSE_FILE : Z := 0x00000200.
Definition FILE_ATTRIBUTE_REPARSE_POINT : Z := 0x00000400.
Definition FILE_ATTRIBUTE_COMPRESSED : Z := 0x00000800.
Definition FILE_ATTRIBUTE_OFFLINE : Z := 0x00001000.
Definition FILE_ATTRIBUTE_NOT_CONTENT_INDEXED : Z := 0x00002000.
Definition FILE_ATTRIBUTE_ENCRYPTED : Z := 0x00004000.
Definition FILE_ATTRIBUTE_INTEGRITY_STREAM : Z := 0x00008000.
Definition FILE_ATTRIBUTE_VIRTUAL : Z := 0x00010000.
Definition FILE_ATTRIBUTE_NO_SCRUB_DATA : Z := 0x00020000.
Definition FILE_ATTRIBUTE_EA : Z := 0x00040000.
Definition PROCESSOR_ARCHITECTURE_INTEL : Z := 0.
Definition PROCESSOR_ARCHITECTURE_MIPS : Z := 1.
Definition PROCESSOR_ARCHITECTURE_ALPHA : Z := 2.
Definition PROCESSOR_ARCHITECTURE_PPC : Z := 3.
Definition PROCESSOR_ARCHITECTURE_SHX : Z := 4.
Definition PROCESSOR_ARCHITECTURE_ARM : Z := 5.
Definition PROCESSOR_ARCHITECTURE_IA64 : Z := 6.
Definition PROCESSOR_ARCHITECTURE_ALPHA64 : Z := 7.
Definition PROCESSOR_ARCHITECTURE_MSIL : Z := 8.
Definition PROCESSOR_ARCHITECTURE_AMD64 : Z := 9.
Definition PROCESSOR_ARCHITECTURE_IA32_ON_WIN64 : Z := 10.
Definition PROCESSOR_ARCHITECTURE_NEUTRAL : Z := 11.
Definition PROCESSOR_ARCHITECTURE_ARM64 : Z := 12.

Definition wimImageTag : list Z := str "MSWIM" ++ [0; 0; 0].

Record guid := mkguid { Data1 : Z; Data2 : Z; Data3 : Z; Data4 : list Z }.

(** [guid.String] *)
Definition hex0 (w : nat) (z : Z) : list Z := pad0 w (FormatUint z 16).
Definition guid_String (g : guid) : list Z :=
  hex0 8 (Data1 g) ++ str "-" ++ hex0 4 (Data2 g) ++ str "-" ++ hex0 4 (Data3 g) ++ str "-" ++
  concat (hex0 2 <$> take 2 (Data4 g)) ++ str "-" ++ concat (hex0 2 <$> drop 2 (Data4 g)).

Record resourceDescriptor := mkRD { FlagsAndCompressedSize : Z; rd_Offset : Z; OriginalSize : Z }.
Definition zero_rd : resourceDescriptor := mkRD 0 0 0.

Definition resFlagFree : Z := 1.
Definition resFlagMetadata : Z := 2.
Definition resFlagCompressed : Z := 4.
Definition resFlagSpanned : Z := 8.
Definition supportedResFlags : Z := Z.lor resFlagMetadata resFlagCompressed.

Definition Flags (r : resourceDescriptor) : Z := u8 (Z.shiftr (FlagsAndCompressedSize r) 56).
Definition CompressedSize (r : resourceDescriptor) : Z :=
  Z.land (FlagsAndCompressedSize r) 0xffffffffffffff.

Record streamDescriptor := mkSD {
  sd_res : resourceDescriptor; PartNumber : Z; RefCount : Z; sd_Hash : list Z }.

Definition hdrFlagReserved : Z := Z.shiftl 1 0.
Definition hdrFlagCompressed : Z := Z.shiftl 1 1.
Definition hdrFlagReadOnly : Z := Z.shiftl 1 2.
Definition hdrFlagSpanned : Z := Z.shiftl 1 3.
Definition hdrFlagResourceOnly : Z := Z.shiftl 1 4.
Definition hdrFlagMetadataOnly : Z := Z.shiftl 1 5.
Definition hdrFlagWriteInProgress : Z := Z.shiftl 1 6.
Definition hdrFlagRpFix : Z := Z.shiftl 1 7.
Definition hdrFlagCompressReserved : Z := Z.shiftl 1 (0 + 16).
Definition hdrFlagCompressXpress : Z := Z.shiftl 1 (1 + 16).
Definition hdrFlagCompressLzx : Z := Z.shiftl 1 (2 + 16).
Definition supportedHdrFlags : Z :=
  Z.lor hdrFlagRpFix (Z.lor hdrFlagReadOnly (Z.lor hdrFlagCompressed hdrFlagCompressLzx)).

Record wimHeader := mkWimHeader {
  ImageTag : list Z; hdr_Size : Z; hdr_Version : Z; hdr_Flags : Z; CompressionSize : Z;
  WIMGuid : guid; hdr_PartNumber : Z; TotalParts : Z; ImageCount : Z;
  OffsetTable : resourceDescriptor; XMLData : resourceDescriptor; BootMetadata : resourceDescriptor;
  BootIndex : Z; hdr_Padding : Z; Integrity : resourceDescriptor; hdr_Unused : list Z }.

(** [binary.Read] of the fixed-size structures: the field of [n] bytes at [off]. *)
Definition fld (off n : Z) (b : list Z) : Z := le_val (ztake n (zdrop off b)).
Definition raw (off n : Z) (b : list Z) : list Z := ztake n (zdrop off b).

Definition rd_of (off : Z) (b : list Z) : resourceDescriptor :=
  mkRD (fld off 8 b) (i64 (fld (off + 8) 8 b)) (i64 (fld (off + 16) 8 b)).
Definition guid_of (off : Z) (b : list Z) : guid :=
  mkguid (fld off 4 b) (fld (off + 4) 2 b) (fld (off + 6) 2 b) (raw (off + 8) 8 b).
Definition streamDescriptorSize : Z := 50.
Definition sd_of (b : list Z) : streamDescriptor :=
  mkSD (rd_of 0 b) (fld 24 2 b) (fld 26 4 b) (raw 30 20 b).
Definition wimHeaderSize : Z := 212.
Definition wimHeader_of (b : list Z) : wimHeader :=
  mkWimHeader (raw 0 8 b) (fld 8 4 b) (fld 12 4 b) (fld 16 4 b) (fld 20 4 b)
    (guid_of 24 b) (fld 40 2 b) (fld 42 2 b) (fld 44 4 b)
    (rd_of 48 b) (rd_of 72 b) (rd_of 96 b) (fld 120 4 b) (fld 124 4 b) (rd_of 128 b) (raw 152 60 b).

Record securityblockDisk := mkSB { TotalLength : Z; NumEntries : Z }.
Definition securityblockDiskSize : Z := 8.

Record Filetime := mkFT { LowDateTime : Z; HighDateTime : Z }.
Definition ft_of (off : Z) (b : list Z) : Filetime := mkFT (fld off 4 b) (fld (off + 4) 4 b).

(** [Filetime.Time] *)
Definition ft_Time (ft : Filetime) : Time :=
  let nsec := i64 (i64 (Z.shiftl (HighDateTime ft) 32) + LowDateTime ft) in
  let nsec := i64 (nsec - 116444736000000000) in
  Unix 0 (i64 (nsec * 100)).

Record direntry := mkDirentry {
  de_Attributes : Z; SecurityID : Z; SubdirOffset : Z; de_Unused1 : Z; de_Unused2 : Z;
  de_CreationTime : Filetime; de_LastAccessTime : Filetime; de_LastWriteTime : Filetime;
  de_Hash : list Z; de_Padding : Z; ReparseHardLink : Z;
  StreamCount : Z; ShortNameLength : Z; FileNameLength : Z }.
(** [binary.Size(direntry{}) + 8] *)
Definition direntrySize : Z := 102.
Definition direntry_of (b : list Z) : direntry :=
  mkDirentry (fld 0 4 b) (fld 4 4 b) (i64 (fld 8 8 b)) (i64 (fld 16 8 b)) (i64 (fld 24 8 b))
    (ft_of 32 b) (ft_of 40 b) (ft_of 48 b) (raw 56 20 b) (fld 76 4 b) (i64 (fld 80 8 b))
    (fld 88 2 b) (fld 90 2 b) (fld 92 2 b).

Record streamentry := mkStreamentry { se_Unused : Z; se_Hash : list Z; NameLength : Z }.
Definition streamentrySize : Z := 38.
Definition i16 (z : Z) : Z := (z + 32768) mod 65536 - 32768.
Definition streamentry_of (b : list Z) : streamentry :=
  mkStreamentry (i64 (fld 0 8 b)) (raw 8 20 b) (i16 (fld 28 2 b)).

Record StreamHeader := mkSH { sh_Name : list Z; sh_Hash : list Z; sh_Size : Z }.
Record Stream := mkStream { st_hdr : StreamHeader; st_offset : resourceDescriptor }.

Record FileHeader := mkFH {
  Name : list Z; ShortName : list Z; Attributes : Z; SecurityDescriptor : list Z;
  CreationTime : Filetime; LastAccessTime : Filetime; LastWriteTime : Filetime;
  Hash : list Z; Size : Z; LinkID : Z; ReparseTag : Z; ReparseReserved : Z }.
Record File := mkFile {
  f_hdr : FileHeader; Streams : list Stream; f_offset : resourceDescriptor; subdirOffset : Z }.

(** [FileHeader.IsDir] *)
Definition IsDir (f : FileHeader) : bool :=
  Z.land (Attributes f) (Z.lor FILE_ATTRIBUTE_DIRECTORY FILE_ATTRIBUTE_REPARSE_POINT) =? FILE_ATTRIBUTE_DIRECTORY.

Definition ParseError (oper : string) (path : list Z) (e : error) : error :=
  Wrapf "WIM parse error" [] [str oper; path] e.
Definition not_EOF (e : error) : error := if bool_decide (e = EOF) then ErrUnexpectedEOF else e.

(** Wrap the error of a step. *)
Definition on_error {S A} (g : error → error) (m : St S A) : St S A := λ s,
  match m s with (Fail e, s') => (Fail (g e), s') | x => x end.

Abbreviation hashes := (gmap (list Z) resourceDescriptor).
Definition zerohash : list Z := replicate 20 0.

(** [io.CopyN(io.Discard, r, n)] *)
Definition CopyN_Discard {R} `{Reader R} (n : Z) : St R unit := DiscardN (S (Z.to_nat n)) n.

Definition words (b : list Z) : list Z := words_of_le (Z.to_nat (zlen b / 2)) b.

(** ** Directory entries, from any reader *)
Section Entries.
Context {R : Type} `{Reader R}.
Variable fileData : hashes.

(** The data of a hash. (The message prints the hash of a stream, and the whole
    entry for a directory entry; here the hash stands for both.) *)
Definition find_data (oper : string) (name h : list Z) : res resourceDescriptor :=
  if bool_decide (h = zerohash) then Ret zero_rd
  else match fileData !! h with
  | Some rd => Ret rd
  | None => Fail (ParseError oper name (Errorf "could not find file data matching hash %v" [] [h]))
  end.

(** [Image.readNextStream]: the stream and the length of its entry. *)
Definition readNextStream : St R (Stream * Z) :=
  lb ← on_error (λ e, ParseError "stream length check" [] (not_EOF e)) (ReadBytes 8);
  let length := i64 (le_val lb) in
  if length <? streamentrySize then fail (ParseError "stream entry" [] (New "size too short"))
  else
    eb ← on_error (ParseError "stream entry" []) (ReadBytes (streamentrySize - 8));
    let sentry := streamentry_of eb in
    let left := length - streamentrySize in
    if left <? NameLength sentry then fail (ParseError "stream entry" [] (New "size too short for name"))
    else if Z.quot (NameLength sentry) 2 <? 0 then panic "makeslice: len out of range"
    else
      nb ← on_error (ParseError "file name" []) (ReadBytes (2 * Z.quot (NameLength sentry) 2));
      let left := left - NameLength sentry in
      let name := of_utf16 (words nb) in
      offset ← lift (find_data "stream entry" name (se_Hash sentry));
      let s := mkStream (mkSH name (se_Hash sentry) (OriginalSize offset)) offset in
      _ ← on_error not_EOF (CopyN_Discard left);
      mret (s, length).

(** The loop over the streams of an entry. *)
Fixpoint read_streams (k : nat) (first : bool) (f : File) (streams : list Stream) (length : Z) :
    St R (File * list Stream * Z) :=
  match k with
  | O => mret (f, streams, length)
  | S k =>
      '(s, n) ← readNextStream;
      let length := i64 (length + n) in
      if first && bool_decide (sh_Name (st_hdr s) = []) then
        let h := f_hdr f in
        let h' := mkFH (Name h) (ShortName h) (Attributes h) (SecurityDescriptor h) (CreationTime h)
                    (LastAccessTime h) (LastWriteTime h) (sh_Hash (st_hdr s)) (sh_Size (st_hdr s))
                    (LinkID h) (ReparseTag h) (ReparseReserved h) in
        read_streams k false (mkFile h' (Streams f) (st_offset s) (subdirOffset f)) streams length
      else if bool_decide (sh_Name (st_hdr s) ≠ []) then
        read_streams k false f (streams ++ [s]) length
      else read_streams k false f streams length
  end.

Variable sds : list (list Z).

(** The names of an entry; both slices may be out of bounds when the 16-bit sum
    of the lengths wrapped. *)
Definition entry_names (d : direntry) (names : list Z) : res (list Z * list Z) :=
  name ← (if 0 <? FileNameLength d then
            n ← slice names 0 (FileNameLength d / 2); Ret (of_utf16 n)
          else Ret []);
  short ← (if 0 <? ShortNameLength d then
             n ← slice_from names (FileNameLength d / 2 + 1); Ret (of_utf16 n)
           else Ret []);
  Ret (name, short).

(** The file of an entry, before its streams. *)
Definition entry_file (d : direntry) (name shortName : list Z) : res File :=
  offset ← find_data "directory entry" name (de_Hash d);
  let reparse := negb (Z.land (de_Attributes d) FILE_ATTRIBUTE_REPARSE_POINT =? 0) in
  let isDir := negb reparse && negb (Z.land (de_Attributes d) FILE_ATTRIBUTE_DIRECTORY =? 0) in
  if isDir && (SubdirOffset d =? 0) then
    Fail (ParseError "directory entry" name (New "no subdirectory data for directory"))
  else if negb isDir && negb (SubdirOffset d =? 0) then
    Fail (ParseError "directory entry" name (New "unexpected subdirectory data for non-directory"))
  else
    sd ← (if negb (SecurityID d =? 0xffffffff) then index sds (SecurityID d) else Ret []);
    Ret (mkFile
      (mkFH name shortName (de_Attributes d) sd (de_CreationTime d) (de_LastAccessTime d)
         (de_LastWriteTime d) (de_Hash d) (OriginalSize offset)
         (if reparse then 0 else ReparseHardLink d)
         (if reparse then u32 (ReparseHardLink d) else 0)
         (if reparse then u32 (Z.shiftr (ReparseHardLink d) 32) else 0))
      [] offset (SubdirOffset d)).

(** [Image.readNextEntry]; the end marker of a directory is [None]. *)
Definition readNextEntry : St R (option File * Z) :=
  lb ← on_error (ParseError "directory length check" []) (ReadBytes 8);
  let length := i64 (le_val lb) in
  if length =? 0 then mret (None, 8)
  else if length <? direntrySize then fail (ParseError "directory entry" [] (New "size too short"))
  else
    db ← on_error (ParseError "directory entry" []) (ReadBytes (direntrySize - 8));
    let d := direntry_of db in
    let left := length - direntrySize in
    let namesLen := u16 (FileNameLength d + 2 + ShortNameLength d) in
    if left <? namesLen then fail (ParseError "directory entry" [] (New "size too short for names"))
    else
      nb ← on_error (ParseError "file name" []) (ReadBytes (2 * (namesLen / 2)));
      let left := left - namesLen in
      '(name, shortName) ← lift (entry_names d (words nb));
      f ← lift (entry_file d name shortName);
      _ ← on_error not_EOF (CopyN_Discard left);
      '(f, streams, length) ← read_streams (Z.to_nat (StreamCount d)) true f [] length;
      let f := mkFile (f_hdr f) streams (f_offset f) (subdirOffset f) in
      if negb (Z.land (de_Attributes d) FILE_ATTRIBUTE_REPARSE_POINT =? 0) && (Size (f_hdr f) =? 0) then
        fail (ParseError "directory entry" name (New "reparse point is missing reparse stream"))
      else mret (Some f, length).

(** [Reader.readSecurityDescriptors] *)
Fixpoint read_sds (sizes : list Z) (acc : list (list Z)) (n : Z) : St R (list (list Z) * Z) :=
  match sizes with
  | [] => mret (acc, n)
  | size :: t =>
      sd ← on_error (ParseError "security descriptor" []) (ReadBytes (Z.land size 0xffffffff));
      read_sds t (acc ++ [sd]) (n + zlen sd)
  end.
Definition readSecurityDescriptors : St R (list (list Z) * Z) :=
  b ← on_error (ParseError "security table" []) (ReadBytes securityblockDiskSize);
  let secBlock := mkSB (fld 0 4 b) (fld 4 4 b) in
  sb ← on_error (ParseError "security table sizes" []) (ReadBytes (8 * NumEntries secBlock));
  let n := securityblockDiskSize + u32 (NumEntries secBlock * 8) in
  '(sds, n) ← read_sds (le_vals 8 (Z.to_nat (NumEntries secBlock)) sb) [] n;
  let secsize := Z.ldiff (u32 (TotalLength secBlock + 7)) 7 in
  if secsize <? n then
    fail (ParseError "security descriptor" [] (New "security descriptor table too small"))
  else _ ← CopyN_Discard (secsize - n); mret (sds, secsize).
End Entries.

(** ** Resources *)

(** What [resourceReaderWithOffset] returns: a section of the file, or a
    compressed reader over one. *)
Inductive res_reader : Type :=
| RPlain (s : SectionReader)
| RCompressed (r : compressedReader).

Section Resources.
Context (fuel : nat) (file : list Z).

Definition res_read (n : Z) (r : res_reader) : res (list Z * option error) * res_reader :=
  match r with
  | RPlain s => let '(x, s') := rd_read n s in (x, RPlain s')
  | RCompressed c => let '(x, c') := cr_Read fuel n c in (x, RCompressed c')
  end.
#[local] Instance res_Reader : Reader res_reader := res_read.

Definition resourceReaderWithOffset (hdr : resourceDescriptor) (offset : Z) : res res_reader :=
  let section := NewSectionReader file (rd_Offset hdr) (CompressedSize hdr) in
  if Z.land (Flags hdr) resFlagCompressed =? 0 then
    Ret (RPlain (mkSection (sec_data section) (sec_size section) (Z.max 0 offset) (sec_fin section)))
  else
    cr ← newCompressedReader fuel section (OriginalSize hdr) offset;
    Ret (RCompressed cr).
Definition resourceReader (hdr : resourceDescriptor) : res res_reader := resourceReaderWithOffset hdr 0.

(** [io.ReadAll] of a resource; [ReadAll] stops at the latest after as many
    reads as there are bytes. *)
Definition readResource (max : nat) (hdr : resourceDescriptor) : res (list Z) :=
  rsrc ← resourceReader hdr;
  match ReadAll max rsrc with
  | (Ret (b, None), _) => Ret b
  | (Ret (_, Some e), _) => Fail e
  | (Fail e, _) => Fail e
  | (Panic w, _) => Panic w
  | (NoFuel, _) => NoFuel
  end.

(** [Reader.readXML], up to the [string] conversion. *)
Definition readXML (hdr : wimHeader) : res (list Z) :=
  if CompressedSize (XMLData hdr) =? 0 then Ret []
  else
    rsrc ← resourceReader (XMLData hdr);
    let n := Z.quot (OriginalSize (XMLData hdr)) 2 in
    if n <? 0 then Panic "makeslice: len out of range"
    else match ReadBytes (2 * n) rsrc with
    | (Ret b, _) =>
        let xmlData := words b in
        bom ← index xmlData 0;
        if negb (bom =? 0xfeff) then Fail (ParseError "XML data" [] (New "invalid BOM"))
        else t ← slice_from xmlData 1; Ret (of_utf16 t)
    | (Fail e, _) => Fail (ParseError "XML data" [] e)
    | (Panic w, _) => Panic w
    | (NoFuel, _) => NoFuel
    end.

(** An image: its metadata resource, and the state of the reader over it. *)
Record Image := mkImage {
  img_offset : resourceDescriptor;
  img_sds : option (list (list Z));
  rootOffset : Z;
  img_r : option res_reader;
  curOffset : Z }.
Definition new_image (res : resourceDescriptor) : Image := mkImage res None 0 None 0.

(** The loop of [readOffsetTable] over the table [b]. *)
Fixpoint offset_loop (k : nat) (b : list Z) (fileData : hashes) (images : list Image) :
    res (hashes * list Image) :=
  match k with
  | O => NoFuel
  | S k =>
      if bool_decide (b = []) then Ret (fileData, images)
      else if zlen b <? streamDescriptorSize then Fail (ParseError "offset table" [] ErrUnexpectedEOF)
      else
        let d := sd_of (ztake streamDescriptorSize b) in
        let b' := zdrop streamDescriptorSize b in
        if negb (Z.ldiff (Flags (sd_res d)) supportedResFlags =? 0) then
          Fail (ParseError "offset table" [] (New "unsupported resource flag"))
        else if negb (Z.land (Flags (sd_res d)) resFlagMetadata =? 0) then
          offset_loop k b' fileData (images ++ [new_image (sd_res d)])
        else offset_loop k b' (<[sd_Hash d := sd_res d]> fileData) images
  end.
Definition readOffsetTable (max : nat) (hdr : wimHeader) : res (hashes * list Image) :=
  match readResource max (OffsetTable hdr) with
  | Ret b =>
      '(fileData, images) ← offset_loop (S (length b)) b ∅ [];
      if negb (zlen images =? ImageCount hdr) then
        Fail (ParseError "offset table" [] (New "mismatched image count"))
      else Ret (fileData, images)
  | Fail e => Fail (ParseError "offset table" [] e)
  | Panic w => Panic w
  | NoFuel => NoFuel
  end.

(** The fields of the XML data the reader keeps; decoding it is
    [encoding/xml]'s. *)
Record Version := mkVersion { Major : Z; Minor : Z; Build : Z; SPBuild : Z; SPLevel : Z }.
Record WindowsInfo := mkWindowsInfo {
  Arch : Z; ProductName : list Z; EditionID : list Z; InstallationType : list Z; ProductType : list Z;
  Languages : list (list Z); DefaultLanguage : list Z; wi_Version : Version; SystemRoot : list Z }.
Record ImageInfo := mkII {
  ii_Name : list Z; ii_Index : Z; ii_CreationTime : Filetime; ii_ModTime : Filetime;
  ii_Windows : option WindowsInfo }.

Record Reader := mkReader {
  hdr : wimHeader; wim_fileData : hashes; XMLInfo : list Z; Images : list (Image * option ImageInfo) }.

(** [images] with the info of the same index, from 1 on; the first one wins. *)
Fixpoint image_infos (i : Z) (images : list Image) (infos : list ImageInfo) : list (Image * option ImageInfo) :=
  match images with
  | [] => []
  | img :: t => (img, find (λ ii, ii_Index ii =? i + 1) infos) :: image_infos (i + 1) t infos
  end.

Definition NewReader (xml_Unmarshal : list Z → res (list ImageInfo)) (max : nat) : res Reader :=
  match ReadBytes wimHeaderSize (NewSectionReader file 0 0xffff) with
  | (Ret b, _) =>
      let hdr := wimHeader_of b in
      if negb (bool_decide (ImageTag hdr = wimImageTag)) then
        Fail (ParseError "image tag" [] (New "not a WIM file"))
      else if negb (Z.ldiff (hdr_Flags hdr) supportedHdrFlags =? 0) then
        Fail (Errorf "unsupported WIM flags %x" [Z.ldiff (hdr_Flags hdr) supportedHdrFlags] [])
      else if negb (CompressionSize hdr =? 0x8000) then
        Fail (Errorf "unsupported compression size %d" [CompressionSize hdr] [])
      else if negb (TotalParts hdr =? 1) then Fail (New "multi-part WIM not supported")
      else
        '(fileData, images) ← readOffsetTable max hdr;
        xmlinfo ← readXML hdr;
        match xml_Unmarshal xmlinfo with
        | Ret inf => Ret (mkReader hdr fileData xmlinfo (image_infos 0 images inf))
        | Fail e => Fail (ParseError "XML info" [] e)
        | Panic w => Panic w
        | NoFuel => NoFuel
        end
  | (Fail e, _) => Fail e
  | (Panic w, _) => Panic w
  | (NoFuel, _) => NoFuel
  end.

(** ** Images *)
Variable fileData : hashes.

Definition img_reset (img : Image) : Image :=
  mkImage (img_offset img) (img_sds img) (rootOffset img) None (-1).

(** Run a computation on the image's reader. *)
Definition with_r {A} (m : St res_reader A) : St Image A := λ img,
  match img_r img with
  | None => (Panic "nil pointer dereference", img)
  | Some r => let '(x, r') := m r in
              (x, mkImage (img_offset img) (img_sds img) (rootOffset img) (Some r') (curOffset img))
  end.
Definition advance (n : Z) (img : Image) : Image :=
  mkImage (img_offset img) (img_sds img) (rootOffset img) (img_r img) (curOffset img + n).
Definition reset_on_error {A} (m : St Image A) : St Image A := λ img,
  match m img with (Fail e, img') => (Fail e, img_reset img') | x => x end.

(** The loop over the entries of a directory; an entry takes at least
    [direntrySize] bytes. *)
Fixpoint read_entries (k : nat) (acc : list File) : St Image (list File) :=
  match k with
  | O => nofuel
  | S k =>
      img ← get;
      '(e, n) ← reset_on_error (with_r (readNextEntry fileData (default [] (img_sds img))));
      _ ← modify (advance n);
      match e with
      | None => mret acc
      | Some f => read_entries k (acc ++ [f])
      end
  end.

(** Move the reader to [offset], opening the resource again when it is behind
    or far ahead. *)
Definition seek_to (offset : Z) : St Image unit :=
  img ← get;
  _ ← (if (offset <? curOffset img) || (curOffset img + chunkSize <? offset)
       then modify img_reset else mret ());
  img ← get;
  _ ← (match img_r img with
       | None =>
           rsrc ← lift (resourceReaderWithOffset (img_offset img) offset);
           modify (λ img, mkImage (img_offset img) (img_sds img) (rootOffset img) (Some rsrc) offset)
       | Some _ => mret ()
       end);
  img ← get;
  if curOffset img <? offset then
    reset_on_error (on_error not_EOF (with_r (CopyN_Discard (offset - curOffset img))))
  else mret ().

Definition readdir (max : nat) (offset : Z) : St Image (list File) :=
  _ ← seek_to offset;
  read_entries max [].

(** [Image.Open] *)
Definition open_metadata : St Image unit :=
  img ← get;
  match img_sds img with
  | Some _ => mret ()
  | None =>
      rsrc ← lift (resourceReaderWithOffset (img_offset img) (rootOffset img));
      match readSecurityDescriptors rsrc with
      | (Ret (sds, n), rsrc') => put (mkImage (img_offset img) (Some sds) n (Some rsrc') n)
      | (Fail e, _) => fail e
      | (Panic w, _) => panic w
      | (NoFuel, _) => nofuel
      end
  end.
Definition Image_Open (max : nat) : St Image File :=
  _ ← open_metadata;
  img ← get;
  f ← readdir max (rootOffset img);
  match f with
  | [root] => mret root
  | _ => fail (ParseError "root directory" [] (New "expected exactly 1 root directory entry"))
  end.

(** [File.Readdir] and [File.Open] *)
Definition Readdir (max : nat) (f : File) : St Image (list File) :=
  if negb (IsDir (f_hdr f)) then fail (New "not a directory") else readdir max (subdirOffset f).
Definition File_Open (f : File) : res res_reader := resourceReader (f_offset f).
Definition Stream_Open (s : Stream) : res res_reader := resourceReader (st_offset s).
End Resources.
