(* ===== verification/WimSpec.v ===== *)
(** * WIM: directories against the format

    The bytes of directory entries and their streams, what [readNextEntry] and
    [readdir] make of them, and what the cached position of an image is good
    for. *)
From S2P Require Import Prelude GoStrings Unicode Streams LzxHuffman LzxE8 LzxDecoder WimCompress PaxTime Wim.

(** ** Reading fields out of a concatenation *)
Lemma fld_skip k a l off n : zlen a = k → 0 ≤ k ≤ off → fld off n (a ++ l) = fld (off - k) n l.
Proof. intros <- ?. unfold fld. by rewrite zdrop_app_ge by lia. Qed.
Lemma fld_here a l n : zlen a = n → fld 0 n (a ++ l) = le_val a.
Proof. intros. unfold fld. by rewrite zdrop_0, ztake_app_eq. Qed.
Lemma fld_last a n : zlen a = n → fld 0 n a = le_val a.
Proof. intros. unfold fld. by rewrite zdrop_0, ztake_all by lia. Qed.
Lemma raw_skip k a l off n : zlen a = k → 0 ≤ k ≤ off → raw off n (a ++ l) = raw (off - k) n l.
Proof. intros <- ?. unfold raw. by rewrite zdrop_app_ge by lia. Qed.
Lemma raw_here a l n : zlen a = n → raw 0 n (a ++ l) = a.
Proof. intros. unfold raw. by rewrite zdrop_0, ztake_app_eq. Qed.

(** Evaluate the fields of a concatenation whose pieces have closed lengths. *)
Ltac piece_len := first [exact (zlen_le_bytes _ _) | eassumption].
Ltac norm_off o := let o' := eval vm_compute in o in change o with o'.
Ltac fields :=
  repeat match goal with
  | |- context [fld 0 ?n (?a ++ ?l)] => rewrite (fld_here a l n) by piece_len
  | |- context [raw 0 ?n (?a ++ ?l)] => rewrite (raw_here a l n) by piece_len
  | |- context [fld ?o ?n (?a ++ ?l)] =>
      erewrite (fld_skip _ a l o n); [|piece_len|lia];
      match goal with |- context [fld (o - ?k) n l] => norm_off (o - k) end
  | |- context [raw ?o ?n (?a ++ ?l)] =>
      erewrite (raw_skip _ a l o n); [|piece_len|lia];
      match goal with |- context [raw (o - ?k) n l] => norm_off (o - k) end
  | |- context [fld 0 ?n ?a] => rewrite (fld_last a n) by piece_len
  end.

(** ** The bytes of entries and streams *)
Definition ft_bytes (t : Filetime) : list Z := le_bytes 4 (LowDateTime t) ++ le_bytes 4 (HighDateTime t).
Definition direntry_bytes (d : direntry) : list Z :=
  le_bytes 4 (de_Attributes d) ++ le_bytes 4 (SecurityID d) ++ le_bytes 8 (u64 (SubdirOffset d)) ++
  le_bytes 8 (u64 (de_Unused1 d)) ++ le_bytes 8 (u64 (de_Unused2 d)) ++
  le_bytes 4 (LowDateTime (de_CreationTime d)) ++ le_bytes 4 (HighDateTime (de_CreationTime d)) ++
  le_bytes 4 (LowDateTime (de_LastAccessTime d)) ++ le_bytes 4 (HighDateTime (de_LastAccessTime d)) ++
  le_bytes 4 (LowDateTime (de_LastWriteTime d)) ++ le_bytes 4 (HighDateTime (de_LastWriteTime d)) ++
  de_Hash d ++ le_bytes 4 (de_Padding d) ++ le_bytes 8 (u64 (ReparseHardLink d)) ++
  le_bytes 2 (StreamCount d) ++ le_bytes 2 (ShortNameLength d) ++ le_bytes 2 (FileNameLength d).

Definition in_u (w : Z) (z : Z) : Prop := 0 ≤ z < 2 ^ w.
Definition in_i64 (z : Z) : Prop := -9223372036854775808 ≤ z < 9223372036854775808.
#[export] Instance in_u_dec w z : Decision (in_u w z).
Proof. unfold in_u. apply _. Defined.
#[export] Instance in_i64_dec z : Decision (in_i64 z).
Proof. unfold in_i64. apply _. Defined.

Definition ft_ok (t : Filetime) : Prop := in_u 32 (LowDateTime t) ∧ in_u 32 (HighDateTime t).
Definition direntry_ok (d : direntry) : Prop :=
  in_u 32 (de_Attributes d) ∧ in_u 32 (SecurityID d) ∧ in_i64 (SubdirOffset d) ∧
  in_i64 (de_Unused1 d) ∧ in_i64 (de_Unused2 d) ∧
  ft_ok (de_CreationTime d) ∧ ft_ok (de_LastAccessTime d) ∧ ft_ok (de_LastWriteTime d) ∧
  zlen (de_Hash d) = 20 ∧ in_u 32 (de_Padding d) ∧ in_i64 (ReparseHardLink d) ∧
  in_u 16 (StreamCount d) ∧ in_u 16 (ShortNameLength d) ∧ in_u 16 (FileNameLength d).

Lemma zlen_direntry_bytes d : zlen (de_Hash d) = 20 → zlen (direntry_bytes d) = 94.
Proof. intros H. unfold direntry_bytes. rewrite !zlen_app, H, !zlen_le_bytes. done. Qed.

Lemma direntry_of_bytes d : direntry_ok d → direntry_of (direntry_bytes d) = d.
Proof.
  intros (H1 & H2 & H3 & H4 & H5 & [H6 H7] & [H8 H9] & [H10 H11] & H12 & H13 & H14 & H15 & H16 & H17).
  unfold direntry_of, direntry_bytes, ft_of. fields.
  rewrite !le_val_le32 by done. rewrite !le_val_le16 by done.
  rewrite !le_val_le64 by apply u64_range. rewrite !i64_u64 by done.
  by destruct d as [? ? ? ? ? [] [] []].
Qed.

(** A stream: unused bytes, hash, name and padding. *)
Record stream_e := mkStreamE { x_unused : Z; x_hash : list Z; x_name : list Z; x_pad : list Z }.
Definition stream_len (s : stream_e) : Z := 38 + 2 * zlen (x_name s) + zlen (x_pad s).
Definition stream_bytes (s : stream_e) : list Z :=
  le_bytes 8 (stream_len s) ++
  (le_bytes 8 (u64 (x_unused s)) ++ x_hash s ++ le_bytes 2 (2 * zlen (x_name s))) ++
  le_words (x_name s) ++ x_pad s.
Definition stream_ok (s : stream_e) : Prop :=
  in_i64 (x_unused s) ∧ zlen (x_hash s) = 20 ∧ words_ok (x_name s) ∧ 2 * zlen (x_name s) < 32768 ∧
  stream_len s < 4294967296.
Lemma zlen_stream_bytes s : zlen (x_hash s) = 20 → zlen (stream_bytes s) = stream_len s.
Proof. intros H. unfold stream_bytes, stream_len. rewrite !zlen_app, H, !zlen_le_bytes, zlen_le_words. lia. Qed.

Section StreamProofs.
Context {R : Type} `{ReaderSpec R} (fileData : hashes).

(** A step that takes exactly [b] off the front of the reader. *)
Definition takes {A} (m : St R A) (b : list Z) (a : A) : Prop :=
  ∀ r tl, rd_inv r → rd_rest r = b ++ tl →
    ∃ r', m r = (Ret a, r') ∧ rd_inv r' ∧ rd_rest r' = tl ∧ rd_fin r' = rd_fin r.

Lemma takes_ret {A} (a : A) : takes (mret a) [] a.
Proof. intros r tl Hi Hr. by exists r. Qed.
Lemma takes_bind {A B} (m : St R A) (f : A → St R B) b1 b2 a c :
  takes m b1 a → takes (f a) b2 c → takes (m ≫= f) (b1 ++ b2) c.
Proof.
  intros H1 H2 r tl Hi Hr. rewrite <- app_assoc in Hr.
  destruct (H1 r _ Hi Hr) as (r1 & E1 & Hi1 & Hr1 & Hf1). rewrite (St_bind_Ret _ _ _ _ _ E1).
  destruct (H2 r1 _ Hi1 Hr1) as (r2 & E2 & Hi2 & Hr2 & Hf2). exists r2. split_and!; done || congruence.
Qed.
Lemma takes_lift {A B} (x : res A) (a : A) (f : A → St R B) b c :
  x = Ret a → takes (f a) b c → takes (lift x ≫= f) b c.
Proof. intros -> Hf. exact Hf. Qed.
Lemma takes_ReadBytes n b : zlen b = n → takes (ReadBytes n) b b.
Proof. intros Hn r tl Hi Hr. by apply ReadBytes_app. Qed.
Lemma takes_on_error {A} g (m : St R A) b a : takes m b a → takes (on_error g m) b a.
Proof.
  intros Hm r tl Hi Hr. destruct (Hm r tl Hi Hr) as (r' & E & ?). exists r'.
  unfold on_error. by rewrite E.
Qed.
Lemma takes_CopyN n b : zlen b = n → takes (CopyN_Discard n) b ().
Proof.
  intros <- r tl Hi Hr. unfold CopyN_Discard. pose proof (zlen_nonneg b).
  destruct (DiscardN_ok (S (Z.to_nat (zlen b))) (zlen b) r) as (r' & E & Hi' & Hr' & Hf');
    [done|rewrite Hr; len|lia|].
  exists r'. rewrite Hr, zdrop_app_eq in Hr' by done. done.
Qed.
Lemma takes_nil_r {A} (m : St R A) b a : takes m (b ++ []) a → takes m b a.
Proof. by rewrite app_nil_r. Qed.

Lemma words_le_words ws : words_ok ws → words (le_words ws) = ws.
Proof.
  intros Hw. unfold words. rewrite zlen_le_words, Z.mul_comm, Z.div_mul by lia.
  rewrite <- (app_nil_r (le_words ws)). unfold zlen. rewrite Nat2Z.id. by apply words_of_le_words.
Qed.

(** The stream the reader returns for a stream entry. *)
Definition the_stream (s : stream_e) (rd : resourceDescriptor) : Stream :=
  mkStream (mkSH (of_utf16 (x_name s)) (x_hash s) (OriginalSize rd)) rd.

(** The data of a hash, by the format: the hash of zeros stands for no data. *)
Definition data_of (h : list Z) (rd : resourceDescriptor) : Prop :=
  if decide (h = replicate 20 0) then rd = mkRD 0 0 0 else fileData !! h = Some rd.
Definition stream_found (s : stream_e) (st : Stream) : Prop := ∃ rd, data_of (x_hash s) rd ∧ st = the_stream s rd.

Lemma find_data_of oper name h rd : find_data fileData oper name h = Ret rd ↔ data_of h rd.
Proof.
  unfold find_data, data_of. change zerohash with (replicate 20 0).
  rewrite decide_bool_decide. destruct (bool_decide _); [by split; [intros [= <-]|intros ->]|].
  destruct (fileData !! h); split; congruence.
Qed.

Lemma readNextStream_takes s rd :
  stream_ok s → data_of (x_hash s) rd →
  takes (readNextStream fileData) (stream_bytes s) (the_stream s rd, stream_len s).
Proof.
  intros (Hu & Hh & Hw & Hn & Hl) Hfind%(find_data_of "stream entry" (of_utf16 (x_name s))). unfold readNextStream, stream_bytes.
  pose proof (zlen_nonneg (x_name s)).
  assert (Hlen : 38 + 2 * zlen (x_name s) ≤ stream_len s) by (unfold stream_len; pose_lens; lia).
  eapply takes_bind; [apply takes_on_error, takes_ReadBytes; len|].
  rewrite le_val_le64, i64_small by lia. unfold streamentrySize.
  replace (stream_len s <? 38) with false by lia.
  eapply takes_bind; [apply takes_on_error, takes_ReadBytes; rewrite !zlen_app, Hh, !zlen_le_bytes; done|].
  assert (Hse : streamentry_of (le_bytes 8 (u64 (x_unused s)) ++ x_hash s ++ le_bytes 2 (2 * zlen (x_name s)))
    = mkStreamentry (x_unused s) (x_hash s) (2 * zlen (x_name s))).
  { unfold streamentry_of. pose_lens. fields. rewrite le_val_le64, i64_u64, le_val_le16 by (apply u64_range || done || lia).
    f_equal. unfold i16. rewrite Z.mod_small; lia. }
  rewrite Hse. cbn [NameLength se_Hash]. pose_lens.
  replace (stream_len s - 38 <? 2 * zlen (x_name s)) with false by lia.
  rewrite Z.mul_comm, Z.quot_mul by lia. replace (zlen (x_name s) <? 0) with false by lia.
  eapply takes_bind; [apply takes_on_error, takes_ReadBytes; rewrite zlen_le_words; lia|].
  rewrite words_le_words by done. eapply takes_lift; [exact Hfind|].
  apply takes_nil_r. eapply takes_bind; [apply takes_on_error, takes_CopyN; unfold stream_len; lia|].
  apply takes_ret.
Qed.

(** ** What an entry stands for *)
Definition named (st : Stream) : bool := negb (bool_decide (sh_Name (st_hdr st) = [])).

Lemma named_eq st : bool_decide (sh_Name (st_hdr st) = []) = negb (named st).
Proof. unfold named. by rewrite negb_involutive. Qed.
Lemma named_ne st : bool_decide (sh_Name (st_hdr st) ≠ []) = named st.
Proof. unfold named. by repeat case_bool_decide. Qed.

(** The first unnamed stream is the file's data, the named ones are listed. *)
Definition with_data (f : File) (sts : list Stream) : File :=
  match sts with
  | st :: _ => if named st then f else
      let h := f_hdr f in
      mkFile (mkFH (Name h) (ShortName h) (Attributes h) (SecurityDescriptor h) (CreationTime h)
                (LastAccessTime h) (LastWriteTime h) (sh_Hash (st_hdr st)) (sh_Size (st_hdr st))
                (LinkID h) (ReparseTag h) (ReparseReserved h)) (Wim.Streams f) (st_offset st) (subdirOffset f)
  | [] => f
  end.
Definition with_streams (f : File) (sts : list Stream) : File :=
  let f' := with_data f sts in
  mkFile (f_hdr f') (filter (λ st, named st = true) sts) (f_offset f') (subdirOffset f').

Definition streams_len (ss : list stream_e) : Z := foldr (λ s n, stream_len s + n) 0 ss.

Lemma read_streams_rest ss sts f acc len :
  Forall stream_ok ss → Forall2 stream_found ss sts → 0 ≤ len → len + streams_len ss < 9223372036854775808 →
  takes (read_streams fileData (length ss) false f acc len) (concat (stream_bytes <$> ss))
    (f, acc ++ filter (λ st, named st = true) sts, len + streams_len ss).
Proof.
  intros Hok Hf. revert acc len. induction Hf as [|s st ss sts (rd & Hrd & ->) Hf IH]; intros acc len Hz Hl.
  { cbn. rewrite app_nil_r, Z.add_0_r. apply takes_ret. }
  apply Forall_cons in Hok as [Hs Hok]. cbn [length read_streams fmap list_fmap concat].
  assert (Hls : streams_len (s :: ss) = stream_len s + streams_len ss) by done.
  assert (Hp : 0 ≤ stream_len s ∧ 0 ≤ streams_len ss).
  { split; [unfold stream_len; pose_lens; lia|].
    clear. unfold streams_len. induction ss; cbn; [lia|]. unfold stream_len at 1. pose_lens. lia. }
  rewrite Hls in *. eapply takes_bind; [by apply readNextStream_takes|]. cbn beta iota.
  rewrite i64_small by lia. cbn [andb]. rewrite filter_cons, named_ne.
  destruct (named (the_stream s rd)); cbn [decide].
  - rewrite decide_True by done. rewrite Z.add_assoc.
    match goal with |- context [acc ++ ?x :: filter ?P ?l] =>
      replace (acc ++ x :: filter P l) with ((acc ++ [x]) ++ filter P l) by (by rewrite <- app_assoc) end.
    apply IH; lia || done.
  - rewrite decide_False by done. rewrite Z.add_assoc. apply IH; lia || done.
Qed.

Lemma streams_len_nonneg ss : 0 ≤ streams_len ss.
Proof. unfold streams_len. induction ss; cbn; [lia|]. unfold stream_len at 1. pose_lens. lia. Qed.

Lemma read_streams_takes ss sts f len :
  Forall stream_ok ss → Forall2 stream_found ss sts → 0 ≤ len → len + streams_len ss < 9223372036854775808 →
  takes (read_streams fileData (length ss) true f [] len) (concat (stream_bytes <$> ss))
    (with_data f sts, filter (λ st, named st = true) sts, len + streams_len ss).
Proof.
  intros Hok Hf Hz Hl. destruct Hf as [|s st ss sts (rd & Hrd & ->) Hf].
  { cbn. rewrite Z.add_0_r. apply takes_ret. }
  apply Forall_cons in Hok as [Hs Hok]. cbn [length read_streams fmap list_fmap concat].
  assert (Hls : streams_len (s :: ss) = stream_len s + streams_len ss) by done.
  assert (0 ≤ stream_len s) by (unfold stream_len; pose_lens; lia). pose proof (streams_len_nonneg ss).
  rewrite Hls in *. eapply takes_bind; [by apply readNextStream_takes|]. cbn beta iota.
  rewrite i64_small, Z.add_assoc by lia. cbn [andb with_data]. rewrite filter_cons, named_ne, named_eq.
  destruct (named (the_stream s rd)); cbn [negb].
  - rewrite decide_True by done. apply (read_streams_rest _ _ _ [_]); lia || done.
  - rewrite decide_False by done. apply (read_streams_rest _ _ _ []); lia || done.
Qed.

(** The end of a directory. *)
Lemma readNextEntry_end sds : takes (readNextEntry fileData sds) (le_bytes 8 0) (None, 8).
Proof.
  unfold readNextEntry. apply takes_nil_r.
  eapply takes_bind; [apply takes_on_error, takes_ReadBytes; len|]. apply takes_ret.
Qed.

(** A directory entry: its fixed part, names, padding and streams. *)
Record entry_e := mkEntryE {
  y_d : direntry; y_name : list Z; y_short : list Z; y_pad : list Z; y_streams : list stream_e }.
Definition names_len (e : entry_e) : Z := 2 * zlen (y_name e) + 2 + 2 * zlen (y_short e).
Definition head_len (e : entry_e) : Z := direntrySize + names_len e + zlen (y_pad e).
Definition entry_len (e : entry_e) : Z := head_len e + streams_len (y_streams e).
Definition entry_bytes (e : entry_e) : list Z :=
  le_bytes 8 (head_len e) ++ direntry_bytes (y_d e) ++ le_words (y_name e ++ [0] ++ y_short e) ++
  y_pad e ++ concat (stream_bytes <$> y_streams e).

Definition entry_ok (e : entry_e) : Prop :=
  direntry_ok (y_d e) ∧ words_ok (y_name e) ∧ words_ok (y_short e) ∧ names_len e < 65536 ∧
  FileNameLength (y_d e) = 2 * zlen (y_name e) ∧ ShortNameLength (y_d e) = 2 * zlen (y_short e) ∧
  StreamCount (y_d e) = zlen (y_streams e) ∧ Forall stream_ok (y_streams e) ∧
  entry_len e < 9223372036854775808.

(** The file an entry stands for, by the format, given the data of the hashes and the
    security descriptors: bit 10 of the attributes marks a reparse point, bit 4 a directory,
    which alone has an offset of its entries; a descriptor number of all ones stands for
    none; the link field of a reparse point holds its tag and 32 reserved bits; a first stream without a name is the
    data of the file, the streams with a name are listed. *)
Definition is_reparse (d : direntry) : bool := Z.testbit (de_Attributes d) 10.
Definition is_dir (d : direntry) : bool := Z.testbit (de_Attributes d) 4 && negb (is_reparse d).
Definition main_data (d : direntry) (rd : resourceDescriptor) (sts : list Stream) : list Z * resourceDescriptor :=
  match sts with
  | st :: _ => if named st then (de_Hash d, rd) else (sh_Hash (st_hdr st), st_offset st)
  | [] => (de_Hash d, rd)
  end.
Definition entry_means (sds : list (list Z)) (e : entry_e) (f : File) : Prop :=
  let d := y_d e in let h := f_hdr f in
  Name h = of_utf16 (y_name e) ∧ ShortName h = of_utf16 (y_short e) ∧ Attributes h = de_Attributes d ∧
  CreationTime h = de_CreationTime d ∧ LastAccessTime h = de_LastAccessTime d ∧ LastWriteTime h = de_LastWriteTime d ∧
  (if SecurityID d =? 4294967295 then SecurityDescriptor h = []
   else sds !! Z.to_nat (SecurityID d) = Some (SecurityDescriptor h)) ∧
  (if is_reparse d then LinkID h = 0 ∧ ReparseTag h = ReparseHardLink d mod 2 ^ 32 ∧
     ReparseReserved h = (ReparseHardLink d / 2 ^ 32) mod 2 ^ 32 ∧ Size h ≠ 0
   else LinkID h = ReparseHardLink d ∧ ReparseTag h = 0 ∧ ReparseReserved h = 0) ∧
  subdirOffset f = SubdirOffset d ∧ (SubdirOffset d = 0 ↔ is_dir d = false) ∧
  ∃ rd sts, data_of (de_Hash d) rd ∧ Forall2 stream_found (y_streams e) sts ∧
    (Hash h, f_offset f) = main_data d rd sts ∧ Size h = OriginalSize (f_offset f) ∧
    Wim.Streams f = filter (λ st, named st = true) sts.

(** The code's view of an entry is that of the format. *)
Lemma entry_means_file sds e f :
  direntry_ok (y_d e) →
  entry_means sds e f ↔ ∃ f0 sts,
    entry_file fileData sds (y_d e) (of_utf16 (y_name e)) (of_utf16 (y_short e)) = Ret f0 ∧
    Forall2 stream_found (y_streams e) sts ∧ f = with_streams f0 sts ∧
    (is_reparse (y_d e) = true → Size (f_hdr f) ≠ 0).
Proof.
  intros (_ & [Hsec _] & _). unfold entry_means, entry_file. cbv zeta. set (name := of_utf16 (y_name e)).
  change FILE_ATTRIBUTE_REPARSE_POINT with (2 ^ 10). change FILE_ATTRIBUTE_DIRECTORY with (2 ^ 4).
  rewrite !land_bit by done. fold (is_reparse (y_d e)). rewrite (andb_comm (negb (is_reparse _))).
  fold (is_dir (y_d e)). unfold u32. rewrite Z.shiftr_div_pow2 by done. split.
  - intros (Hn & Hsn & Ha & Hc & Hla & Hlw & Hsd & Hl & Hsub & Hdir & rd & sts & Hd & Hsts & Hmain & Hsize & Hst).
    apply (find_data_of "directory entry" name) in Hd. rewrite Hd. cbn [mbind res_bind].
    replace (is_dir (y_d e) && (SubdirOffset (y_d e) =? 0)) with false
      by (destruct (is_dir _), (Z.eqb_spec (SubdirOffset (y_d e)) 0); naive_solver).
    replace (negb (is_dir (y_d e)) && negb (SubdirOffset (y_d e) =? 0)) with false
      by (destruct (is_dir _), (Z.eqb_spec (SubdirOffset (y_d e)) 0); naive_solver).
    assert (Hx : (if negb (SecurityID (y_d e) =? 4294967295) then index sds (SecurityID (y_d e)) else Ret []) =
      Ret (SecurityDescriptor (f_hdr f))).
    { destruct (SecurityID (y_d e) =? 4294967295); cbn [negb]; [by rewrite Hsd|by apply index_ok]. }
    rewrite Hx. cbn [mbind res_bind]. eexists _, sts. split; [reflexivity|]. split; [done|].
    split; [|intros Hr; rewrite Hr in Hl; apply Hl].
    clear Hx Hdir Hsd. destruct f as [[] ? ? ?]. unfold with_streams, with_data, main_data in *.
    destruct (is_reparse (y_d e)); destruct Hsts as [|s st ss sts (rd' & _ & ->) Hsts];
      [|destruct (named _)| |destruct (named _)]; cbn in *; injection Hmain as -> ->;
      destruct_and?; subst; reflexivity.
  - intros (f0 & sts & Hf0 & Hsts & -> & Hr).
    destruct (find_data fileData "directory entry" name (de_Hash (y_d e))) as [rd| | |] eqn:Hd; try done.
    apply find_data_of in Hd. cbn [mbind res_bind] in Hf0.
    destruct (is_dir (y_d e)) eqn:Edir, (Z.eqb_spec (SubdirOffset (y_d e)) 0) as [Es|Es]; try done; cbn [andb negb] in Hf0.
    all: destruct (if negb (SecurityID _ =? _) then _ else _) as [sd| | |] eqn:Hx in Hf0; try done; injection Hf0 as <-.
    all: assert (Hsd : if SecurityID (y_d e) =? 4294967295 then sd = [] else sds !! Z.to_nat (SecurityID (y_d e)) = Some sd)
      by (destruct (SecurityID (y_d e) =? 4294967295); cbn [negb] in Hx; [by injection Hx|by apply (proj1 (index_Ret _ _ _ Hsec))]).
    all: assert (Hsz : match sts with st :: _ => sh_Size (st_hdr st) = OriginalSize (st_offset st) | [] => True end)
      by (by destruct Hsts as [|? ? ? ? (? & _ & ->)]).
    all: unfold with_streams, with_data, main_data in *; destruct (is_reparse (y_d e));
      destruct sts as [|st sts]; [|destruct (named st) eqn:Hnm| |destruct (named st) eqn:Hnm]; cbn in *;
      split_and!; try done; try (by apply Hr); eexists rd, _; (split; [done|]); (split; [exact Hsts|]);
      cbn; rewrite ?Hnm; done.
Qed.

Lemma entry_names_ok e :
  entry_ok e →
  entry_names (y_d e) (y_name e ++ [0] ++ y_short e) = Ret (of_utf16 (y_name e), of_utf16 (y_short e)).
Proof.
  intros (_ & _ & _ & _ & Hn & Hs & _). unfold entry_names. rewrite Hn, Hs.
  rewrite (Z.mul_comm 2 (zlen (y_name e))), Z.div_mul by lia.
  assert (E1 : (if 0 <? zlen (y_name e) * 2 then n ← slice (y_name e ++ [0] ++ y_short e) 0 (zlen (y_name e)); Ret (of_utf16 n)
    else Ret []) = Ret (of_utf16 (y_name e))).
  { destruct (Z.ltb_spec 0 (zlen (y_name e) * 2)); [by rewrite slice_hd|].
    destruct (y_name e); [done|len]. }
  rewrite E1. cbn [mbind res_bind].
  destruct (Z.ltb_spec 0 (2 * zlen (y_short e))).
  - unfold slice_from. rewrite slice_skip by lia.
    replace (zlen (y_name e) + 1 - zlen (y_name e)) with 1 by lia.
    rewrite (slice_skip [0]) by done. change (zlen [0]) with 1.
    rewrite slice_full; [done|lia|]. rewrite !zlen_app. change (zlen [0]) with 1. lia.
  - destruct (y_short e); [done|len].
Qed.

Lemma readNextEntry_takes sds e f :
  entry_ok e → entry_means sds e f → takes (readNextEntry fileData sds) (entry_bytes e) (Some f, entry_len e).
Proof.
  intros He Hm. pose proof (proj1 (entry_means_file _ _ _ (proj1 He)) Hm) as (f0 & sts & Hf0 & Hsts & -> & Hrp). pose proof He as (Hd & Hw1 & Hw2 & Hnl & Hn & Hs & Hc & Hss & Hl).
  pose proof (zlen_nonneg (y_name e)). pose proof (zlen_nonneg (y_short e)). pose proof (zlen_nonneg (y_pad e)).
  pose proof (streams_len_nonneg (y_streams e)).
  assert (Hh : head_len e = 102 + names_len e + zlen (y_pad e)) by done.
  unfold entry_len, names_len in *. unfold readNextEntry, entry_bytes.
  eapply takes_bind; [apply takes_on_error, takes_ReadBytes; len|].
  rewrite le_val_le64, i64_small by lia. replace (head_len e =? 0) with false by lia.
  unfold direntrySize in *. replace (head_len e <? 102) with false by lia.
  eapply takes_bind; [apply takes_on_error, takes_ReadBytes, zlen_direntry_bytes, Hd|].
  rewrite direntry_of_bytes by done. rewrite Hn, Hs, u16_small by lia.
  replace (head_len e - 102 <? _) with false by lia.
  set (nl := 2 * zlen (y_name e) + 2 + 2 * zlen (y_short e)) in *.
  assert (Hwl : zlen (y_name e ++ [0] ++ y_short e) * 2 = nl)
    by (rewrite !zlen_app; change (zlen [0]) with 1; lia).
  eapply takes_bind.
  { apply takes_on_error, takes_ReadBytes. rewrite zlen_le_words, <- Hwl, Z.div_mul by lia. done. }
  rewrite words_le_words by (apply Forall_app; split; [done|]; constructor; done || (unfold word_ok; lia)).
  eapply takes_lift; [by apply entry_names_ok|]. cbn beta iota. eapply takes_lift; [exact Hf0|].
  eapply takes_bind; [apply takes_on_error, takes_CopyN; lia|].
  apply takes_nil_r. eapply takes_bind.
  { rewrite Hc. unfold zlen at 1. rewrite Nat2Z.id. by apply read_streams_takes; first [done|lia]. }
  cbn beta iota. rewrite (land_bit _ 10) by done. fold (is_reparse (y_d e)).
  cbn [f_hdr f_offset subdirOffset with_streams].
  replace (_ && _) with false; [apply takes_ret|].
  cbn [with_streams f_hdr] in Hrp. destruct (is_reparse (y_d e)); [|done]. specialize (Hrp eq_refl). cbn [andb]. lia.
Qed.
End StreamProofs.

(** ** Security descriptors *)
Section SecurityProofs.
Context {R : Type} `{ReaderSpec R}.

(** The table of security descriptors: declared length, count, sizes, the
    descriptors, and padding up to the declared length. *)
Definition sds_len (sds : list (list Z)) : Z := zlen (concat sds).
Definition sec_len (sds : list (list Z)) : Z := 8 + 8 * zlen sds + sds_len sds.
Definition sec_size_of (total : Z) : Z := Z.ldiff (total + 7) 7.
Definition sec_bytes (total : Z) (sds : list (list Z)) (pad : list Z) : list Z :=
  (le_bytes 4 total ++ le_bytes 4 (zlen sds)) ++
  concat ((λ sd, le_bytes 8 (zlen sd)) <$> sds) ++ concat sds ++ pad.
Definition sec_ok (total : Z) (sds : list (list Z)) (pad : list Z) : Prop :=
  0 ≤ total ∧ total + 7 < 4294967296 ∧ sec_len sds ≤ sec_size_of total ∧
  sec_len sds < 4294967296 ∧ zlen pad = sec_size_of total - sec_len sds.

Lemma read_sds_takes sds acc n :
  Forall (λ sd : list Z, zlen sd < 4294967296) sds →
  takes (read_sds (zlen <$> sds) acc n) (concat sds) (acc ++ sds, n + sds_len sds).
Proof.
  intros Hs. revert acc n. induction Hs as [|sd sds Hsd Hs IH]; intros acc n.
  { cbn. rewrite app_nil_r. unfold sds_len. cbn. rewrite Z.add_0_r. apply takes_ret. }
  cbn [fmap list_fmap read_sds concat]. eapply takes_bind.
  { apply takes_on_error, takes_ReadBytes. pose_lens. change 0xffffffff with (Z.ones 32).
    rewrite Z.land_ones, Z.mod_small by lia. done. }
  replace (acc ++ sd :: sds) with ((acc ++ [sd]) ++ sds) by (by rewrite <- app_assoc).
  replace (n + sds_len (sd :: sds)) with (n + zlen sd + sds_len sds); [apply IH|].
  unfold sds_len. cbn [concat]. rewrite zlen_app. lia.
Qed.

Lemma sds_bound sds : Forall (λ sd : list Z, zlen sd ≤ sds_len sds) sds.
Proof.
  apply Forall_forall. intros sd Hin. apply list_elem_of_split in Hin as (l1 & l2 & ->).
  unfold sds_len. rewrite concat_app. cbn [concat]. rewrite !zlen_app. pose_lens. lia.
Qed.

Lemma readSecurityDescriptors_takes total sds pad :
  sec_ok total sds pad →
  takes readSecurityDescriptors (sec_bytes total sds pad) (sds, sec_size_of total).
Proof.
  intros (Ht0 & Ht & Hle & Hlt & Hpad). unfold sec_len in *. unfold readSecurityDescriptors, sec_bytes.
  assert (0 ≤ sds_len sds) by (unfold sds_len; pose_lens; lia). pose proof (zlen_nonneg sds).
  eapply takes_bind; [apply takes_on_error, takes_ReadBytes; rewrite zlen_app, !zlen_le_bytes; done|].
  fields. rewrite !le_val_le32 by lia. cbn [NumEntries TotalLength]. unfold securityblockDiskSize.
  eapply takes_bind.
  { apply takes_on_error, takes_ReadBytes. rewrite zlen_concat_le_bytes. lia. }
  assert (Hvals : le_vals 8 (Z.to_nat (zlen sds)) (concat ((λ sd, le_bytes 8 (zlen sd)) <$> sds)) = zlen <$> sds).
  { rewrite <- (app_nil_r (concat _)). unfold zlen at 1. rewrite Nat2Z.id. apply le_vals_concat.
    eapply Forall_impl; [apply sds_bound|]. intros sd Hsd. cbn beta in Hsd. pose_lens. simpl. lia. }
  rewrite Hvals. eapply takes_bind.
  { apply read_sds_takes. eapply Forall_impl; [apply sds_bound|]. intros sd Hsd. cbn beta in Hsd. lia. }
  cbn beta iota. rewrite (u32_small (zlen sds * 8)), (u32_small (total + 7)) by lia.
  fold (sec_size_of total). replace (sec_size_of total <? _) with false by lia.
  apply takes_nil_r. eapply takes_bind; [apply takes_CopyN; lia|]. apply takes_ret.
Qed.
End SecurityProofs.

(** ** Resources of a file *)

(** [rd] describes the resource [M] of [file]: stored as it is, or compressed
    as the chunks [cs]. *)
Definition resource_of (fuel : nat) (file : list Z) (rd : resourceDescriptor)
    (cs : list (list Z * list Z)) (M : list Z) : Prop :=
  0 ≤ rd_Offset rd ∧
  if Z.land (Flags rd) resFlagCompressed =? 0
  then ztake (CompressedSize rd) (zdrop (rd_Offset rd) file) = M
  else zlen (stored cs) < 256 ^ Z.of_nat (off_width cs) ∧
       zlen (off_table cs) + zlen (stored cs) < 9223372036854775808 ∧
       CompressedSize rd = zlen (off_table cs ++ stored cs) ∧
       ztake (CompressedSize rd) (zdrop (rd_Offset rd) file) = off_table cs ++ stored cs ∧
       content cs = M ∧ OriginalSize rd = zlen M.

Section ResourceProofs.
Context (fuel : nat) (file : list Z) (cs : list (list Z * list Z)) (Hcs : chunks_ok fuel cs).
#[local] Hint Extern 0 (Streams.Reader res_reader) => exact (res_Reader fuel) : typeclass_instances.

Definition res_inv (r : res_reader) : Prop :=
  match r with
  | RPlain s => 0 ≤ sec_pos s ∧ sec_fin s = EOF
  | RCompressed c => cr_inv fuel cs c
  end.
Definition res_rest (r : res_reader) : list Z :=
  match r with RPlain s => sec_rest s | RCompressed c => cr_rest fuel cs c end.

#[export, program] Instance res_spec : @ReaderSpec res_reader (res_Reader fuel) := {|
  rd_inv := res_inv;
  rd_rest := res_rest;
  rd_fin := λ _, EOF
|}.
Next Obligation.
  intros n [s|c] Hi Hn; unfold rd_read, res_Reader, res_read.
  - destruct Hi as [Hp Hf]. destruct (@rd_read_spec SectionReader _ section_ReaderSpec n s Hp Hn) as (bs & e & s' & -> & Hp' & Hr & Hl & Hf' & He).
    exists bs, e, (RPlain s'). cbn [res_inv res_rest].
    cbn [rd_fin rd_rest rd_inv section_ReaderSpec] in *. rewrite Hf in *. split_and!; done.
  - destruct (@rd_read_spec compressedReader _ (compressed_spec fuel cs Hcs) n c Hi Hn) as (bs & e & c' & E & ? & ? & ? & ? & ?).
    unfold rd_read, compressed_Reader in E. rewrite E. exists bs, e, (RCompressed c').
    split_and!; done.
Qed.

Lemma resourceReaderWithOffset_spec rd M offset :
  resource_of fuel file rd cs M → 0 ≤ offset < zlen M →
  ∃ r, resourceReaderWithOffset fuel file rd offset = Ret r ∧ res_inv r ∧ res_rest r = zdrop offset M.
Proof.
  intros [Hoff Hres] Ho. unfold resourceReaderWithOffset, NewSectionReader.
  replace (rd_Offset rd <? 0) with false by lia.
  destruct (Z.land (Flags rd) resFlagCompressed =? 0).
  - rewrite Hres. cbn [sec_data sec_size sec_fin]. eexists. split; [done|].
    split; [split; [cbn; lia|done]|]. cbn. unfold sec_rest. cbn. by rewrite Z.max_r by lia.
  - destruct Hres as (H1 & H2 & H3 & -> & HM & ->). rewrite H3, <- HM in *.
    destruct (newCompressedReader_at fuel cs Hcs (conj H1 H2) offset Ho) as (r & E & ? & ?).
    unfold resource in E. rewrite E. by exists (RCompressed r).
Qed.

(** [io.ReadAll] of a resource. *)
Lemma readResource_spec rd M max :
  resource_of fuel file rd cs M → M ≠ [] → (length M < max)%nat → readResource fuel file max rd = Ret M.
Proof.
  intros Hres HM Hmax. unfold readResource, resourceReader.
  assert (Hpos : 0 ≤ 0 < zlen M) by (destruct M; [done|len]).
  destruct (resourceReaderWithOffset_spec rd M 0 Hres Hpos) as (r & -> & Hi & Hr). cbn [mbind res_bind].
  rewrite zdrop_0 in Hr. unfold ReadAll.
  destruct (@drain_spec res_reader _ res_spec max 512 [] r Hi ltac:(lia)) as (r' & E & _).
  { cbn [rd_rest res_spec]. by rewrite Hr. }
  change (@rd_rest _ _ res_spec r) with (res_rest r) in E. rewrite Hr in E. rewrite E.
  cbn [rd_fin res_spec app]. by rewrite bool_decide_eq_true_2.
Qed.

(** ** Directories *)
Variable fileData : hashes.
Variable M : list Z.

Definition dir_bytes (es : list entry_e) : list Z := concat (entry_bytes <$> es) ++ le_bytes 8 0.
Definition entries_len (es : list entry_e) : Z := foldr (λ e n, entry_len e + n) 0 es.

(** The reader of an image is at [pos]. *)
Definition img_at (img : Image) (pos : Z) : Prop :=
  ∃ r, img_r img = Some r ∧ res_inv r ∧ res_rest r = zdrop pos M.

Lemma with_r_takes {A} (m : St res_reader A) b a img r tl :
  takes m b a → img_r img = Some r → res_inv r → res_rest r = b ++ tl →
  ∃ r', with_r m img = (Ret a, mkImage (img_offset img) (img_sds img) (rootOffset img) (Some r') (curOffset img)) ∧
    res_inv r' ∧ res_rest r' = tl.
Proof.
  intros Hm Hr Hi Hrest. destruct (Hm r tl Hi Hrest) as (r' & E & Hi' & Hr' & _).
  exists r'. unfold with_r. by rewrite Hr, E.
Qed.

Lemma read_entries_spec k es fs acc img r tl :
  Forall entry_ok es → Forall2 (entry_means fileData (default [] (img_sds img))) es fs →
  img_r img = Some r → res_inv r → res_rest r = dir_bytes es ++ tl → (length es < k)%nat →
  ∃ r', read_entries fuel fileData k acc img =
    (Ret (acc ++ fs), mkImage (img_offset img) (img_sds img) (rootOffset img) (Some r')
       (curOffset img + entries_len es + 8)) ∧ res_inv r' ∧ res_rest r' = tl.
Proof.
  intros Hok Hf. remember (default [] (img_sds img)) as sds eqn:Hsds.
  revert k acc img r Hsds. induction Hf as [|e f es fs Hef Hf IH]; intros k acc img r Hsds Hr Hi Hrest Hk;
    (destruct k as [|k]; [cbn in Hk; lia|]); cbn [read_entries];
    rewrite (St_bind_Ret _ get img img img eq_refl); rewrite <- Hsds.
  - destruct (with_r_takes (readNextEntry fileData sds) (le_bytes 8 0) (None, 8) img r tl
      (readNextEntry_end fileData sds) Hr Hi Hrest) as (r' & E & Hi' & Hr').
    erewrite St_bind_Ret; [|by unfold reset_on_error; rewrite E]. cbn beta iota. exists r'. split; [|done].
    rewrite app_nil_r. change (entries_len []) with 0. rewrite Z.add_0_r. done.
  - apply Forall_cons in Hok as [He Hok].
    destruct (with_r_takes (readNextEntry fileData sds) (entry_bytes e) (Some f, entry_len e) img r
      (dir_bytes es ++ tl) (readNextEntry_takes fileData sds e f He Hef) Hr Hi) as (r' & E & Hi' & Hr').
    { rewrite Hrest. unfold dir_bytes. cbn [fmap list_fmap concat]. by rewrite <- !app_assoc. }
    erewrite St_bind_Ret; [|by unfold reset_on_error; rewrite E]. cbn beta iota.
    rewrite (St_bind_Ret _ (modify _) _ _ _ eq_refl). cbn beta iota.
    destruct (IH Hok k (acc ++ [f]) (advance (entry_len e)
      (mkImage (img_offset img) (img_sds img) (rootOffset img) (Some r') (curOffset img))) r')
      as (r2 & E2 & Hi2 & Hr2); [done|done|done|done|cbn in Hk; lia|].
    exists r2. split; [|done]. rewrite E2, <- app_assoc. unfold advance. cbn [img_offset img_sds rootOffset curOffset].
    change (entries_len (e :: es)) with (entry_len e + entries_len es). by rewrite !Z.add_assoc.
Qed.

(** [readdir] jumps when the directory is before the cached position, more than
    a chunk after it, or there is no reader. *)
Definition jumps (img : Image) (offset : Z) : bool :=
  (offset <? curOffset img) || (curOffset img + chunkSize <? offset) ||
  match img_r img with None => true | Some _ => false end.

Lemma seek_to_spec img offset :
  resource_of fuel file (img_offset img) cs M → 0 ≤ offset < zlen M →
  (img_r img ≠ None → 0 ≤ curOffset img ∧ img_at img (curOffset img)) →
  ∃ r', seek_to fuel file offset img =
    (Ret (), mkImage (img_offset img) (img_sds img) (rootOffset img) (Some r')
       (if jumps img offset then offset else curOffset img)) ∧ res_inv r' ∧ res_rest r' = zdrop offset M.
Proof.
  intros Hres Ho Hat. destruct (resourceReaderWithOffset_spec _ _ _ Hres Ho) as (r0 & E0 & Hi0 & Hr0).
  unfold seek_to, jumps. rewrite (St_bind_Ret _ get img img img eq_refl).
  destruct (_ || _) eqn:Ej; cbn [orb].
  - rewrite (St_bind_Ret _ (modify _) _ _ _ eq_refl), (St_bind_Ret _ get _ _ _ eq_refl).
    cbn [img_reset img_r img_offset]. rewrite E0. exists r0. split; [|done].
    st_red. cbn. by rewrite Z.ltb_irrefl.
  - rewrite (St_bind_Ret _ (mret ()) _ _ _ eq_refl), (St_bind_Ret _ get _ _ _ eq_refl).
    destruct (img_r img) as [r|] eqn:Er.
    + destruct Hat as [Hc (r' & Er' & Hi & Hr)]; [done|]. rewrite Er in Er'. injection Er' as <-.
      rewrite (St_bind_Ret _ (mret ()) _ _ _ eq_refl), (St_bind_Ret _ get _ _ _ eq_refl).
      destruct (Z.ltb_spec (curOffset img) offset) as [Hlt|Hge].
      * destruct (with_r_takes (CopyN_Discard (offset - curOffset img))
          (ztake (offset - curOffset img) (zdrop (curOffset img) M)) () img r (zdrop offset M))
          as (r1 & E1 & Hi1 & Hr1); [apply takes_CopyN; len|done|done| |].
        { rewrite Hr. replace offset with (curOffset img + (offset - curOffset img)) at 2 by lia.
          rewrite <- zdrop_zdrop by lia. by rewrite ztake_zdrop. }
        exists r1. unfold reset_on_error, on_error. by rewrite E1.
      * exists r. destruct img; cbn in *. subst. split; [done|]. split; [done|].
        rewrite Hr. f_equal. lia.
    + rewrite E0. exists r0. split; [|done]. st_red. cbn. by rewrite Z.ltb_irrefl.
Qed.
Lemma readdir_at k img offset es fs tl :
  resource_of fuel file (img_offset img) cs M → 0 ≤ offset < zlen M →
  (img_r img ≠ None → 0 ≤ curOffset img ∧ img_at img (curOffset img)) →
  zdrop offset M = dir_bytes es ++ tl → Forall entry_ok es →
  Forall2 (entry_means fileData (default [] (img_sds img))) es fs → (length es < k)%nat →
  ∃ r', readdir fuel file fileData k offset img =
    (Ret fs, mkImage (img_offset img) (img_sds img) (rootOffset img) (Some r')
       ((if jumps img offset then offset else curOffset img) + entries_len es + 8)) ∧
    res_inv r' ∧ res_rest r' = tl.
Proof.
  intros Hres Ho Hat Hd Hok Hf Hk. destruct (seek_to_spec img offset Hres Ho Hat) as (r1 & E1 & Hi1 & Hr1).
  unfold readdir. rewrite (St_bind_Ret _ _ _ _ _ E1). rewrite Hd in Hr1.
  set (img1 := mkImage _ _ _ (Some r1) _) in *.
  destruct (read_entries_spec k es fs [] img1 r1 tl Hok Hf eq_refl Hi1 Hr1 Hk) as (r' & E2 & ? & ?).
  exists r'. rewrite E2. done.
Qed.


Lemma zlen_entry_bytes e : entry_ok e → zlen (entry_bytes e) = entry_len e.
Proof.
  intros (Hd & _ & _ & _ & _ & _ & _ & Hss & _). unfold entry_bytes, entry_len, head_len, names_len, direntrySize.
  rewrite !zlen_app, zlen_direntry_bytes, zlen_le_bytes, zlen_le_words, !zlen_app by apply Hd.
  change (zlen [0]) with 1.
  assert (Hs : zlen (concat (stream_bytes <$> y_streams e)) = streams_len (y_streams e)).
  { induction Hss as [|s ss Hs Hss IH]; [done|]. cbn [fmap list_fmap concat].
    rewrite zlen_app, zlen_stream_bytes by apply Hs. unfold streams_len in *. cbn [foldr]. lia. }
  lia.
Qed.
Lemma zlen_dir_bytes es : Forall entry_ok es → zlen (dir_bytes es) = entries_len es + 8.
Proof.
  intros Hok. unfold dir_bytes. rewrite zlen_app, zlen_le_bytes. f_equal.
  induction Hok as [|e es He Hok IH]; [done|]. cbn [fmap list_fmap concat].
  rewrite zlen_app, zlen_entry_bytes by done. unfold entries_len in *. cbn [foldr]. lia.
Qed.

Lemma open_metadata_spec rd total sds pad tl :
  resource_of fuel file rd cs M → M = sec_bytes total sds pad ++ tl → sec_ok total sds pad →
  ∃ r', open_metadata fuel file (new_image rd) =
    (Ret (), mkImage rd (Some sds) (sec_size_of total) (Some r') (sec_size_of total)) ∧
    res_inv r' ∧ res_rest r' = tl.
Proof.
  intros Hres HM Hok. unfold open_metadata. rewrite (St_bind_Ret _ get _ _ _ eq_refl). cbn [img_sds new_image].
  assert (Hpos : 0 ≤ 0 < zlen M).
  { rewrite HM. unfold sec_bytes. rewrite !zlen_app, !zlen_le_bytes. pose_lens. lia. }
  destruct (resourceReaderWithOffset_spec _ _ _ Hres Hpos) as (r0 & E0 & Hi0 & Hr0).
  cbn [img_offset rootOffset new_image]. rewrite E0. rewrite (St_bind_Ret _ (lift _) _ r0 _ eq_refl).
  destruct (@readSecurityDescriptors_takes res_reader _ res_spec total sds pad Hok r0 tl Hi0) as (r1 & E1 & Hi1 & Hr1 & _).
  { cbn [rd_rest res_spec]. by rewrite Hr0, zdrop_0, HM. }
  rewrite E1. by exists r1.
Qed.

Lemma zlen_sec_bytes total sds pad : sec_ok total sds pad → zlen (sec_bytes total sds pad) = sec_size_of total.
Proof.
  intros (_ & _ & _ & _ & Hp). unfold sec_bytes, sec_len, sds_len in *.
  rewrite !zlen_app, !zlen_le_bytes, zlen_concat_le_bytes. lia.
Qed.
End ResourceProofs.

(** [Image.Open] on a new image. *)
Lemma Image_Open_at fuel file cs fileData rd M total sds pad e f tl k :
  chunks_ok fuel cs → resource_of fuel file rd cs M → sec_ok total sds pad →
  M = sec_bytes total sds pad ++ dir_bytes [e] ++ tl →
  entry_ok e → entry_means fileData sds e f → (1 < k)%nat →
  ∃ r, Image_Open fuel file fileData k (new_image rd) =
    (Ret f, mkImage rd (Some sds) (sec_size_of total) (Some r) (zlen M - zlen tl)) ∧
    res_inv fuel cs r ∧ res_rest fuel cs r = tl.
Proof.
  intros Hcs Hres Hsec HM He Hf Hk.
  destruct (open_metadata_spec fuel file cs Hcs M rd total sds pad _ Hres HM Hsec) as (r0 & E0 & Hi0 & Hr0).
  unfold Image_Open. rewrite (St_bind_Ret _ _ _ _ _ E0), (St_bind_Ret _ get _ _ _ eq_refl).
  set (img := mkImage rd (Some sds) _ (Some r0) _).
  assert (Hd : zdrop (sec_size_of total) M = dir_bytes [e] ++ tl)
    by (rewrite HM; by apply zdrop_app_eq, zlen_sec_bytes).
  assert (Hlen : zlen M = sec_size_of total + (entry_len e + 8) + zlen tl).
  { rewrite HM, !zlen_app, zlen_sec_bytes, zlen_dir_bytes by (done || by constructor).
    unfold entries_len. cbn [foldr]. lia. }
  assert (Hel : 0 ≤ entry_len e) by (rewrite <- zlen_entry_bytes by done; pose_lens; lia).
  assert (Hss : 0 ≤ sec_size_of total) by (rewrite <- (zlen_sec_bytes total sds pad Hsec); pose_lens; lia).
  destruct (readdir_at fuel file cs Hcs fileData M k img (rootOffset img) [e] [f] tl) as (r1 & E1 & Hi1 & Hr1);
    [done|cbn [img rootOffset]; pose_lens; lia| |done|by constructor|by constructor|done|].
  { intros _. split; [done|]. exists r0. split; [done|]. split; [done|]. by rewrite Hr0, <- Hd. }
  rewrite (St_bind_Ret _ _ _ _ _ E1). exists r1. split; [|done]. rewrite St_ret_eq. do 2 f_equal.
  change (entries_len [e]) with (entry_len e + 0).
  replace (if jumps _ _ then _ else _) with (sec_size_of total) by (destruct (jumps _ _); done). lia.
Qed.

(** C10: [Image.Open] reads the security descriptors and the root directory of
    the metadata resource, whether the resource is stored as it is or in
    compressed chunks, and returns the file the single root entry stands for,
    with its descriptors, hashes and streams resolved; it leaves the reader
    right behind the root directory and the cached position is that of the
    reader. *)
Theorem Image_Open_spec fuel file cs fileData rd M total sds pad e f tl k :
  chunks_ok fuel cs → resource_of fuel file rd cs M → sec_ok total sds pad →
  M = sec_bytes total sds pad ++ dir_bytes [e] ++ tl →
  entry_ok e → entry_means fileData sds e f → (1 < k)%nat →
  ∃ r, Image_Open fuel file fileData k (new_image rd) =
    (Ret f, mkImage rd (Some sds) (sec_size_of total) (Some r) (zlen M - zlen tl)) ∧
    res_inv fuel cs r ∧ res_rest fuel cs r = tl.
Proof. apply Image_Open_at. Qed.

(** C6: [Image.readdir] at any offset of the metadata returns exactly the files
    of the directory there, whether it reopens the resource (backwards, far
    ahead, no reader yet), reads on, or skips forward, provided the image has no
    reader or its reader is at the cached position. Afterwards the reader is
    right behind the directory; the cached position is that of the reader
    unless [readdir] skipped forward: the bytes skipped are not counted. *)
Theorem readdir_spec fuel file cs fileData M k img offset es fs tl :
  chunks_ok fuel cs → resource_of fuel file (img_offset img) cs M → 0 ≤ offset < zlen M →
  (img_r img ≠ None → 0 ≤ curOffset img ∧ img_at fuel cs M img (curOffset img)) →
  zdrop offset M = dir_bytes es ++ tl → Forall entry_ok es →
  Forall2 (entry_means fileData (default [] (img_sds img))) es fs → (length es < k)%nat →
  ∃ img', readdir fuel file fileData k offset img = (Ret fs, img') ∧
    img_offset img' = img_offset img ∧ img_sds img' = img_sds img ∧
    img_at fuel cs M img' (offset + zlen (dir_bytes es)) ∧
    curOffset img' = (if jumps img offset then offset else curOffset img) + zlen (dir_bytes es).
Proof.
  intros Hcs Hres Ho Hat Hd Hok Hf Hk.
  destruct (readdir_at fuel file cs Hcs fileData M k img offset es fs tl Hres Ho Hat Hd Hok Hf Hk) as (r & E & Hi & Hr).
  eexists. split; [exact E|]. cbn [img_offset img_sds curOffset]. split; [done|]. split; [done|].
  rewrite (zlen_dir_bytes es Hok). split; [|lia]. exists r. split; [done|]. split; [done|].
  assert (0 ≤ entries_len es + 8) by (rewrite <- (zlen_dir_bytes es Hok); pose_lens; lia).
  rewrite Hr, <- (zdrop_zdrop (entries_len es + 8)), Hd by lia. symmetry. apply zdrop_app_eq. by apply zlen_dir_bytes.
Qed.

(** ** The offset table *)
Definition sd_bytes (d : streamDescriptor) : list Z :=
  le_bytes 8 (FlagsAndCompressedSize (sd_res d)) ++ le_bytes 8 (u64 (rd_Offset (sd_res d))) ++
  le_bytes 8 (u64 (OriginalSize (sd_res d))) ++ le_bytes 2 (PartNumber d) ++ le_bytes 4 (RefCount d) ++ sd_Hash d.
Definition sd_ok (d : streamDescriptor) : Prop :=
  in_u 64 (FlagsAndCompressedSize (sd_res d)) ∧ in_i64 (rd_Offset (sd_res d)) ∧
  in_i64 (OriginalSize (sd_res d)) ∧ in_u 16 (PartNumber d) ∧ in_u 32 (RefCount d) ∧ zlen (sd_Hash d) = 20 ∧
  Z.ldiff (Flags (sd_res d)) supportedResFlags = 0.

Lemma zlen_sd_bytes d : zlen (sd_Hash d) = 20 → zlen (sd_bytes d) = streamDescriptorSize.
Proof. intros H. unfold sd_bytes. rewrite !zlen_app, H, !zlen_le_bytes. done. Qed.
Lemma sd_of_bytes d : sd_ok d → sd_of (sd_bytes d) = d.
Proof.
  intros (H1 & H2 & H3 & H4 & H5 & H6 & _). unfold sd_of, rd_of, sd_bytes. fields.
  unfold raw. rewrite zdrop_0, (ztake_all 20) by lia.
  rewrite !le_val_le64 by (apply u64_range || done). rewrite !i64_u64 by done.
  rewrite le_val_le16, le_val_le32 by done. by destruct d as [[]].
Qed.

Definition is_metadata (d : streamDescriptor) : bool := negb (Z.land (Flags (sd_res d)) resFlagMetadata =? 0).

(** The data of the files by hash, the last descriptor of a hash winning, and
    the images in the order of the table. *)
Definition table_data (ds : list streamDescriptor) (fileData : hashes) : hashes :=
  foldl (λ m d, if is_metadata d then m else <[sd_Hash d := sd_res d]> m) fileData ds.
Definition table_images (ds : list streamDescriptor) : list Image :=
  (λ d, new_image (sd_res d)) <$> filter (λ d, is_metadata d = true) ds.

Lemma offset_loop_spec ds k fileData images :
  Forall sd_ok ds → (length ds < k)%nat →
  offset_loop k (concat (sd_bytes <$> ds)) fileData images =
    Ret (table_data ds fileData, images ++ table_images ds).
Proof.
  intros Hok. revert k fileData images. induction Hok as [|d ds Hd Hok IH]; intros k fileData images Hk;
    (destruct k as [|k]; [cbn in Hk; lia|]); cbn [offset_loop fmap list_fmap concat].
  { rewrite bool_decide_eq_true_2 by done. unfold table_images. cbn. by rewrite app_nil_r. }
  pose proof Hd as (_ & _ & _ & _ & _ & Hh & Hfl). pose proof (zlen_sd_bytes d Hh) as Hlen.
  unfold streamDescriptorSize in *.
  rewrite bool_decide_eq_false_2 by (intros Hn; apply (f_equal zlen) in Hn; len).
  replace (_ <? 50) with false by len. rewrite ztake_app_eq, zdrop_app_eq, sd_of_bytes by done.
  rewrite Hfl. cbn [negb Z.eqb]. unfold table_images. rewrite filter_cons. cbn [length] in Hk.
  change (negb (Z.land _ _ =? 0)) with (is_metadata d). cbn [table_data foldl].
  destruct (is_metadata d).
  - rewrite decide_True by done. cbn [fmap list_fmap]. rewrite IH by lia. by rewrite <- app_assoc.
  - rewrite decide_False by done. by rewrite IH by lia.
Qed.

(** [readOffsetTable] reads the whole table, from a stored or a compressed
    resource, and splits it: the metadata resources become the images, in
    order, the other resources are found by their hash. It fails exactly when
    the count of images is not the one of the header. *)
Theorem readOffsetTable_spec fuel file cs hdr ds max :
  chunks_ok fuel cs → resource_of fuel file (OffsetTable hdr) cs (concat (sd_bytes <$> ds)) →
  ds ≠ [] → Forall sd_ok ds → (50 * length ds < max)%nat →
  readOffsetTable fuel file max hdr =
    if zlen (table_images ds) =? ImageCount hdr then Ret (table_data ds ∅, table_images ds)
    else Fail (ParseError "offset table" [] (New "mismatched image count")).
Proof.
  intros Hcs Hres Hne Hok Hmax.
  assert (Hlen : length (concat (sd_bytes <$> ds)) = (50 * length ds)%nat).
  { clear -Hok. induction Hok as [|d ds (_ & _ & _ & _ & _ & Hh & _) Hok IH]; [done|].
    cbn [fmap list_fmap concat length]. rewrite length_app, IH.
    pose proof (zlen_sd_bytes d Hh) as Hl. unfold zlen, streamDescriptorSize in Hl. lia. }
  unfold readOffsetTable. rewrite (readResource_spec fuel file cs Hcs _ _ max Hres); [| |lia].
  2: { intros Hn. rewrite Hn in Hlen. destruct ds; [done|]. cbn in Hlen. lia. }
  rewrite offset_loop_spec by (done || lia). cbn [mbind res_bind app]. by destruct (_ =? _).
Qed.

(** ** Witnesses: an image with a root directory and four directories behind it *)
Definition ex_ft : Filetime := mkFT 5 6.
Definition ex_hash : list Z := replicate 20 7.
Definition ex_entry (attr sd sub : Z) (name : list Z) (streams : list stream_e) : entry_e :=
  mkEntryE (mkDirentry attr sd sub 0 0 ex_ft ex_ft ex_ft zerohash 0 9 (zlen streams) 0 (2 * zlen name))
    name [] [0; 0] streams.
Definition ex_file (attr : Z) (sd : list Z) (sub : Z) (name : list Z) : File :=
  mkFile (mkFH name [] attr sd ex_ft ex_ft ex_ft zerohash 0 9 0 0) [] zero_rd sub.

Definition ex_rd : resourceDescriptor := mkRD (Z.shiftl 6 56 + 918) 3 918.
Definition ex_data : resourceDescriptor := mkRD 100 0 100.
Definition ex_hashes : hashes := {[ ex_hash := ex_data ]}.
Definition ex_sec : list Z := sec_bytes 19 [[1; 2; 3]] [0; 0; 0; 0; 0].
Definition ex_root : entry_e := ex_entry 0x10 0 138 [] [].
Definition ex_stream : stream_e := mkStreamE 0 ex_hash [] [1].
Definition ex_named : stream_e := mkStreamE 0 ex_hash [115] [].
Definition ex_dir (c : Z) : list entry_e := [ex_entry 0x20 0xffffffff 0 [c] [ex_stream; ex_named]].
Definition ex_dirs (cs : list Z) : list Z := concat (dir_bytes <$> (ex_dir <$> cs)).
Definition ex_M : list Z := ex_sec ++ dir_bytes [ex_root] ++ ex_dirs [65; 66; 67; 68].
Definition ex_wim : list Z := [0; 0; 0] ++ ex_M.

Definition ex_root_file : File := ex_file 0x10 [1; 2; 3] 138 [].
Definition ex_dir_file (c : Z) : File :=
  let st name := mkStream (mkSH name ex_hash 100) ex_data in
  with_streams (ex_file 0x20 [] 0 [c]) [st []; st [115]].

Lemma ex_chunks_ok fuel : chunks_ok fuel [(ex_M, ex_M)].
Proof.
  split; [done|]. split; [constructor; [|constructor]; by apply stored_chunk_ok|].
  intros [|i] c Hc; [|done]. injection Hc as <-. cbn [snd length]. split; [decide_now|lia].
Qed.
Lemma ex_resource fuel : resource_of fuel ex_wim ex_rd [(ex_M, ex_M)] ex_M.
Proof. split; [done|]. cbn [Flags]. vm_compute. done. Qed.
Lemma ex_root_ok : entry_ok ex_root ∧ entry_means ex_hashes [[1; 2; 3]] ex_root ex_root_file.
Proof.
  split; [decide_now|]. apply entry_means_file; [decide_now|]. exists ex_root_file, []. split; [reflexivity|].
  split; [constructor|]. split; [reflexivity|discriminate].
Qed.

Lemma Image_Open_spec_witness :
  ∃ r, Image_Open 1 ex_wim ex_hashes 2 (new_image ex_rd) =
    (Ret ex_root_file, mkImage ex_rd (Some [[1; 2; 3]]) 24 (Some r) 138) ∧
    res_rest 1 [(ex_M, ex_M)] r = ex_dirs [65; 66; 67; 68].
Proof.
  destruct (Image_Open_spec 1 ex_wim [(ex_M, ex_M)] ex_hashes ex_rd ex_M 19 [[1; 2; 3]] [0; 0; 0; 0; 0]
    ex_root ex_root_file (ex_dirs [65; 66; 67; 68]) 2) as (r & E & _ & Hr).
  - apply ex_chunks_ok.
  - apply ex_resource.
  - decide_now.
  - reflexivity.
  - apply ex_root_ok.
  - apply ex_root_ok.
  - lia.
  - exists r. split; [exact E|exact Hr].
Defined.

Lemma ex_dir_means sds : Forall entry_ok (ex_dir 66) ∧
  Forall2 (entry_means ex_hashes sds) (ex_dir 66) [ex_dir_file 66].
Proof.
  split; [decide_now|]. constructor; [|constructor].
  apply entry_means_file; [decide_now|]. exists (ex_file 0x20 [] 0 [66]), [the_stream ex_stream ex_data; the_stream ex_named ex_data].
  split; [reflexivity|]. split; [|split; [reflexivity|discriminate]].
  constructor; [by exists ex_data|]. constructor; [by exists ex_data|constructor].
Qed.

(** A directory read by an image whose reader was closed. *)
Definition ex_closed : Image := mkImage ex_rd (Some [[1; 2; 3]]) 24 None (-1).

Lemma readdir_spec_witness :
  ∃ img', readdir 1 ex_wim ex_hashes 2 333 ex_closed = (Ret [ex_dir_file 66], img') ∧ curOffset img' = 528.
Proof.
  destruct (readdir_spec 1 ex_wim [(ex_M, ex_M)] ex_hashes ex_M 2 ex_closed 333 (ex_dir 66) [ex_dir_file 66]
    (ex_dirs [67; 68])) as (img' & E & _ & _ & _ & Hc).
  - apply ex_chunks_ok.
  - apply ex_resource.
  - vm_compute. done.
  - intros Hn. by destruct Hn.
  - vm_compute. reflexivity.
  - apply (ex_dir_means []).
  - apply ex_dir_means.
  - simpl. lia.
  - exists img'. split; [exact E|]. rewrite Hc. vm_compute. reflexivity.
Defined.

(** Reading the directories at 333 and then at 528 from a newly opened image:
    the first skips the directory at 138, so the second starts behind the
    cached position and returns the directory at 723. *)
Definition ex_skip (offsets : list Z) : St Image (list (list File)) :=
  _ ← Image_Open 1 ex_wim ex_hashes 2;
  (fix go (os : list Z) : St Image (list (list File)) :=
     match os with
     | [] => mret []
     | o :: os => fs ← readdir 1 ex_wim ex_hashes 2 o; rest ← go os; mret (fs :: rest)
     end) offsets.

(** [readdir] does not count the bytes it skips: on an image that has just
    been opened, reading the directory at 333 and then the one at 528 gives the
    directory at 723 instead of the second (reading all in order does not). *)
Theorem readdir_after_skip :
  fst (ex_skip [333; 528] (new_image ex_rd)) = Ret [[ex_dir_file 66]; [ex_dir_file 68]] ∧
  fst (ex_skip [138; 333; 528] (new_image ex_rd)) =
    Ret [[ex_dir_file 65]; [ex_dir_file 66]; [ex_dir_file 67]].
Proof. split; vm_compute; reflexivity. Qed.

Definition ex_ds : list streamDescriptor := [mkSD ex_rd 1 1 zerohash; mkSD ex_data 1 1 ex_hash].
Definition ex_hdr : wimHeader :=
  mkWimHeader wimImageTag 208 0 0 0x8000 (mkguid 0 0 0 []) 1 1 1 (mkRD 100 0 0) zero_rd zero_rd 0 0 zero_rd [].

Lemma readOffsetTable_spec_witness :
  readOffsetTable 1 (concat (sd_bytes <$> ex_ds)) 101 ex_hdr = Ret (ex_hashes, [new_image ex_rd]).
Proof.
  refine (readOffsetTable_spec 1 _ [(ex_M, ex_M)] ex_hdr ex_ds 101 (ex_chunks_ok 1) _ _ _ _).
  - split; [done|]. vm_compute. done.
  - done.
  - decide_now.
  - simpl. lia.
Defined.
