(* ===== verification/WimValidate.v ===== *)
(** * Validating a WIM file (wim/validate)

    The command that opens a file, its first image, and reads every directory
    below the root.  What it prints is not modelled. *)
From S2P Require Import Prelude GoStrings Streams LzxDecoder WimCompress PaxTime Wim WimSpec.

(** [panic(err)] *)
Definition err_panic : string := "panic(err)".
Definition must {A B} (x : res A) (k : A → res B) : res B :=
  match x with
  | Ret a => k a
  | Fail _ => Panic err_panic
  | Panic w => Panic w
  | NoFuel => NoFuel
  end.

Section Validate.
Context (fuel : nat) (file : list Z) (max : nat).

Section Recur.
Variable fileData : hashes.

(** [fmt.Errorf("%s: %w", name, err)] *)
Definition named_error (d : File) (e : error) : error := Wrapf "%s: %w" [] [Name (f_hdr d)] e.

(** The loop of [recur] over the files of a directory. *)
Definition recur_files (recur : File → St Image unit) : list File → St Image unit :=
  fix go files :=
    match files with
    | [] => mret ()
    | f :: files =>
        _ ← (if IsDir (f_hdr f) then on_error (named_error f) (recur f) else mret ());
        go files
    end.
Fixpoint recur (depth : nat) (d : File) : St Image unit :=
  match depth with
  | O => nofuel
  | S depth =>
      files ← on_error (named_error d) (Readdir fuel file fileData max d);
      recur_files (recur depth) files
  end.
End Recur.

(** [main], on the contents of the file the first argument names. *)
Definition main (xml_Unmarshal : list Z → res (list ImageInfo)) (depth : nat) : res unit :=
  must (NewReader fuel file xml_Unmarshal max) (λ w,
    '(img, _) ← index (Images w) 0;
    let '(x, img) := Image_Open fuel file (wim_fileData w) max img in
    must x (λ dir,
      let '(y, _) := recur (wim_fileData w) depth dir img in
      must y (λ _, Ret ()))).
End Validate.

(** ** The directories a walk reads *)
Section Walks.
Context (fuel : nat) (file : list Z) (cs : list (list Z * list Z)) (Hcs : chunks_ok fuel cs).
Context (fileData : hashes) (M : list Z) (max : nat) (rd : resourceDescriptor) (sds : list (list Z)).
Context (Hres : resource_of fuel file rd cs M).

(** The directory at [off] has the files [fs] and ends at [stop]. *)
Definition dir_at (off : Z) (fs : list File) (stop : Z) : Prop :=
  ∃ es tl, 0 ≤ off < zlen M ∧ zdrop off M = dir_bytes es ++ tl ∧ Forall entry_ok es ∧
    Forall2 (entry_means fileData sds) es fs ∧ (length es < max)%nat ∧ stop = off + zlen (dir_bytes es).

(** From position [p] the image does not skip to [off]: it is there, behind it,
    or more than a chunk before it. *)
Definition no_skip (p off : Z) : Prop := off ≤ p ∨ p + chunkSize < off.

(** The files of a directory, read from position [p] of the metadata, with the
    directories among them depth first; reading ends at [q]. *)
Inductive walks : Z → list File → Z → Prop :=
| walks_nil p : walks p [] p
| walks_file p f fs q : IsDir (f_hdr f) = false → walks p fs q → walks p (f :: fs) q
| walks_dir p f fs files stop q r :
    IsDir (f_hdr f) = true → no_skip p (subdirOffset f) → dir_at (subdirOffset f) files stop →
    walks stop files q → walks q fs r → walks p (f :: fs) r.

(** An image of the resource whose reader, if it has one, is at [p]. *)
Definition img_ok (img : Image) (p : Z) : Prop :=
  img_offset img = rd ∧ img_sds img = Some sds ∧ 0 ≤ p ∧ curOffset img = p ∧ img_at fuel cs M img p.

Lemma Readdir_ok img p f files stop :
  img_ok img p → IsDir (f_hdr f) = true → no_skip p (subdirOffset f) → dir_at (subdirOffset f) files stop →
  ∃ img', Readdir fuel file fileData max f img = (Ret files, img') ∧ img_ok img' stop.
Proof.
  intros (Ho & Hs & Hp & Hc & Hat) Hd Hns (es & tl & Hoff & Hb & Hok & Hf & Hmax & ->).
  assert (Hlen : 0 ≤ zlen (dir_bytes es)) by apply zlen_nonneg.
  destruct (readdir_at fuel file cs Hcs fileData M max img (subdirOffset f) es files tl)
    as (r & E & Hi & Hr); [by rewrite Ho|done|by rewrite Hc|done|done|by rewrite Hs|done|].
  unfold Readdir. rewrite Hd. cbn [negb]. rewrite E. eexists. split; [done|].
  split_and!; cbn [img_offset img_sds curOffset]; try done; [lia| |].
  - rewrite <- Z.add_assoc, <- (zlen_dir_bytes es Hok). f_equal. unfold jumps. rewrite Hc.
    destruct Hat as (r0 & -> & _). unfold no_skip in Hns.
    destruct (Z.ltb_spec (subdirOffset f) p); [done|].
    destruct (Z.ltb_spec (p + chunkSize) (subdirOffset f)); [done|]. cbn. lia.
  - exists r. split; [done|]. split; [done|].
    rewrite Hr, <- (zdrop_zdrop (zlen (dir_bytes es))), Hb by lia. symmetry. by apply zdrop_app_eq.
Qed.

Lemma on_error_Ret {S A} g (m : St S A) s a s' : m s = (Ret a, s') → on_error g m s = (Ret a, s').
Proof. unfold on_error. by intros ->. Qed.

(** Reading the directories of a walk ends, without an error, at its end. *)
Lemma recur_walks p fs q :
  walks p fs q → ∃ n, ∀ depth img, (n ≤ depth)%nat → img_ok img p →
    ∃ img', recur_files (recur fuel file max fileData depth) fs img = (Ret (), img') ∧ img_ok img' q.
Proof.
  induction 1 as [p|p f fs q Hd _ [n IH]|p f fs files stop q r Hd Hns Hdir _ [n IHn] _ [k IHk]].
  - exists 0%nat. intros depth img _ Hi. by exists img.
  - exists n. intros depth img Hn Hi. destruct (IH depth img Hn Hi) as (img' & E & Hi').
    exists img'. split; [|done]. cbn [recur_files]. rewrite Hd.
    by rewrite (St_bind_Ret _ (mret ()) _ _ _ eq_refl).
  - exists (S n + k)%nat. intros depth img Hn Hi.
    destruct depth as [|depth]; [lia|].
    destruct (Readdir_ok img p f files stop Hi Hd Hns Hdir) as (img1 & E1 & Hi1).
    destruct (IHn depth img1 ltac:(lia) Hi1) as (img2 & E2 & Hi2).
    destruct (IHk (S depth) img2 ltac:(lia) Hi2) as (img3 & E3 & Hi3).
    exists img3. split; [|done]. cbn [recur_files]. rewrite Hd.
    erewrite St_bind_Ret; [exact E3|]. apply on_error_Ret. cbn [recur].
    erewrite St_bind_Ret; [exact E2|]. by apply on_error_Ret.
Qed.

(** The files before the first directory are skipped. *)
Lemma recur_files_app k fs1 fs2 img :
  Forall (λ f, IsDir (f_hdr f) = false) fs1 →
  recur_files (recur fuel file max fileData k) (fs1 ++ fs2) img =
  recur_files (recur fuel file max fileData k) fs2 img.
Proof.
  induction 1 as [|f fs1 Hf _ IH]; [done|]. cbn [app recur_files]. rewrite Hf.
  by rewrite (St_bind_Ret _ (mret ()) _ _ _ eq_refl).
Qed.

(** A directory whose first directory is itself is read without end. *)
Lemma recur_cycle_at fs1 d' fs2 off stop :
  Forall (λ f, IsDir (f_hdr f) = false) fs1 → IsDir (f_hdr d') = true → subdirOffset d' = off →
  dir_at off (fs1 ++ d' :: fs2) stop →
  ∀ depth d p img, IsDir (f_hdr d) = true → subdirOffset d = off → no_skip p off → img_ok img p →
    (recur fuel file max fileData depth d img).1 = NoFuel.
Proof.
  intros Hfs1 Hd' Hoff' Hdir. induction depth as [|depth IH]; intros d p img Hd Hoff Hns Hi; [done|].
  subst off. destruct (Readdir_ok img p d (fs1 ++ d' :: fs2) stop Hi Hd) as (img1 & E1 & Hi1);
    [by rewrite Hoff|by rewrite Hoff|].
  cbn [recur]. erewrite St_bind_Ret by by apply on_error_Ret.
  rewrite recur_files_app by done. cbn [recur_files]. rewrite Hd', St_bind_eq.
  assert (Hstop : no_skip stop (subdirOffset d')).
  { left. destruct Hdir as (es & tl & ? & _ & _ & _ & _ & ->). pose proof (zlen_nonneg (dir_bytes es)). lia. }
  specialize (IH d' stop img1 Hd' eq_refl Hstop Hi1).
  unfold on_error. destruct (recur fuel file max fileData depth d' img1) as [[]]; done.
Qed.
End Walks.

(** C13: validating a WIM file whose first image has, below its root, directories
    that are laid out so that reading them depth first never skips forward
    within a chunk ends without a panic, whatever their depth and whether the
    metadata is compressed; the image is then behind the last directory of the walk. *)
Theorem main_validates fuel file max xml_Unmarshal cs rd M total sds pad e root tl w info images q :
  NewReader fuel file xml_Unmarshal max = Ret w → Images w = (new_image rd, info) :: images →
  chunks_ok fuel cs → resource_of fuel file rd cs M → sec_ok total sds pad →
  M = sec_bytes total sds pad ++ dir_bytes [e] ++ tl →
  entry_ok e → entry_means (wim_fileData w) sds e root → (1 < max)%nat → IsDir (f_hdr root) = true →
  walks (wim_fileData w) M max sds (zlen M - zlen tl) [root] q →
  ∃ n, ∀ depth, (n ≤ depth)%nat → main fuel file max xml_Unmarshal depth = Ret () ∧
    ∃ img, (dir ← Image_Open fuel file (wim_fileData w) max;
            recur fuel file max (wim_fileData w) depth dir) (new_image rd) = (Ret (), img) ∧
      img_ok fuel cs M rd sds img q.
Proof.
  intros Hw Himg Hcs Hres Hsec HM He Hroot Hmax Hd Hwalk.
  destruct (Image_Open_at fuel file cs (wim_fileData w) rd M total sds pad e root tl max)
    as (r & E & Hi & Hr); try done.
  set (img := mkImage rd _ _ (Some r) _) in E.
  assert (Hok : img_ok fuel cs M rd sds img (zlen M - zlen tl)).
  { assert (Hp : 0 ≤ zlen M - zlen tl) by (rewrite HM; rewrite !zlen_app; pose_lens; lia).
    split_and!; [done|done|done|done|]. exists r. split; [done|]. split; [done|].
    rewrite Hr. symmetry. rewrite HM, (assoc app). apply zdrop_app_eq.
    rewrite !zlen_app. lia. }
  destruct (recur_walks fuel file cs Hcs _ M max rd sds Hres _ _ _ Hwalk) as [n IH].
  exists n. intros depth Hn. destruct (IH depth img Hn Hok) as (img' & E' & Hq).
  cbn [recur_files] in E'. rewrite Hd, St_bind_eq in E'. unfold on_error in E'.
  destruct (recur fuel file max (wim_fileData w) depth root img) as [[[]| | |] img2] eqn:Er; try done.
  injection E' as <-. split.
  - unfold main. rewrite Hw. cbn [must]. rewrite Himg.
    change (index _ 0) with (Ret (new_image rd, info)). cbn [mbind res_bind]. rewrite E. cbn [must]. by rewrite Er.
  - exists img2. split; [|done]. by rewrite (St_bind_Ret _ _ _ _ _ E).
Qed.

(** ** Witness: a file with directories two levels below the root *)
Definition ex_sub (attr sub c : Z) : entry_e := ex_entry attr 0xffffffff sub [c] [].
Definition ex_sub_file (attr sub c : Z) : File := ex_file attr [] sub [c].
Definition ex_top : list entry_e := [ex_sub 0x20 0 65; ex_sub 0x10 470 66; ex_sub 0x10 702 67].
Definition ex_tree : list Z :=
  dir_bytes ex_top ++ dir_bytes [ex_sub 0x10 586 68] ++ dir_bytes [ex_sub 0x20 0 69] ++ dir_bytes [].
Definition ex_meta : list Z := ex_sec ++ dir_bytes [ex_root] ++ ex_tree.
Definition ex_meta_rd (meta : list Z) : resourceDescriptor :=
  mkRD (Z.shiftl 2 56 + zlen meta) 212 (zlen meta).
Definition rd_bytes (r : resourceDescriptor) : list Z :=
  le_bytes 8 (FlagsAndCompressedSize r) ++ le_bytes 8 (rd_Offset r) ++ le_bytes 8 (OriginalSize r).
Definition ex_image (meta : list Z) : list Z :=
  wimImageTag ++ concat (le_bytes 4 <$> [208; 0; 0; 0x8000]) ++ replicate 16 0 ++
  le_bytes 2 1 ++ le_bytes 2 1 ++ le_bytes 4 1 ++
  concat (rd_bytes <$> [mkRD 50 (212 + zlen meta) 50; mkRD 2 (262 + zlen meta) 2; zero_rd]) ++ replicate 92 0 ++
  meta ++ sd_bytes (mkSD (ex_meta_rd meta) 1 1 zerohash) ++ le_bytes 2 0xfeff.
Definition no_info (xml : list Z) : res (list ImageInfo) := Ret [].

Definition ex_reader (meta : list Z) : option Reader :=
  match NewReader 1 (ex_image meta) no_info 60 with Ret w => Some w | _ => None end.
Definition ex_wim_reader (meta : list Z) : Reader :=
  mkReader (wimHeader_of (ztake 212 (ex_image meta))) ∅ [] [(new_image (ex_meta_rd meta), None)].

(** A directory of an example, and the directories of [ex_meta] depth first. *)
Lemma ex_dir_at M max es fs off tl :
  zdrop off M = dir_bytes es ++ tl → 0 ≤ off < zlen M → Forall entry_ok es →
  Forall2 (entry_means ∅ [[1; 2; 3]]) es fs → (length es < max)%nat →
  dir_at ∅ M max [[1; 2; 3]] off fs (off + zlen (dir_bytes es)).
Proof. intros. by exists es, tl. Qed.
Ltac ex_means := repeat apply Forall2_cons_2; try apply Forall2_nil_2;
  (apply entry_means_file; [decide_now|]); eexists _, []; (split; [reflexivity|]);
  (split; [constructor|]); (split; [reflexivity|discriminate]).

Lemma ex_walk : walks ∅ ex_meta 60 [[1; 2; 3]] 138 [ex_root_file] 710.
Proof.
  assert (D1 : dir_at ∅ ex_meta 60 [[1; 2; 3]] 138
    [ex_sub_file 0x20 0 65; ex_sub_file 0x10 470 66; ex_sub_file 0x10 702 67] 470).
  { refine (ex_dir_at ex_meta 60 ex_top _ 138 (zdrop 470 ex_meta) _ _ _ _ _);
      [vm_compute; reflexivity|vm_compute; done|decide_now|ex_means|simpl; lia]. }
  assert (D2 : dir_at ∅ ex_meta 60 [[1; 2; 3]] 470 [ex_sub_file 0x10 586 68] 586).
  { refine (ex_dir_at ex_meta 60 [ex_sub 0x10 586 68] _ 470 (zdrop 586 ex_meta) _ _ _ _ _);
      [vm_compute; reflexivity|vm_compute; done|decide_now|ex_means|simpl; lia]. }
  assert (D3 : dir_at ∅ ex_meta 60 [[1; 2; 3]] 586 [ex_sub_file 0x20 0 69] 702).
  { refine (ex_dir_at ex_meta 60 [ex_sub 0x20 0 69] _ 586 (zdrop 702 ex_meta) _ _ _ _ _);
      [vm_compute; reflexivity|vm_compute; done|decide_now|ex_means|simpl; lia]. }
  assert (D4 : dir_at ∅ ex_meta 60 [[1; 2; 3]] 702 [] 710).
  { refine (ex_dir_at ex_meta 60 [] _ 702 [] _ _ _ _ _);
      [vm_compute; reflexivity|vm_compute; done|decide_now|constructor|simpl; lia]. }
  assert (N : ∀ p, no_skip p p) by (left; lia).
  eapply walks_dir; [done|apply N|exact D1| |apply walks_nil].
  apply walks_file; [done|].
  eapply walks_dir; [done|apply N|exact D2| |].
  - eapply walks_dir; [done|apply N|exact D3|apply walks_file; [done|apply walks_nil]|apply walks_nil].
  - eapply walks_dir; [done|apply N|exact D4|apply walks_nil|apply walks_nil].
Qed.

Lemma ex_weaken (P Q : nat → Prop) :
  (∃ n, ∀ depth, (n ≤ depth)%nat → P depth ∧ Q depth) → ∃ n, ∀ depth, (n ≤ depth)%nat → P depth.
Proof. intros [n Hn]. exists n. intros d Hd. by apply Hn. Qed.
Lemma main_validates_witness :
  ∃ n, ∀ depth, (n ≤ depth)%nat → main 1 (ex_image ex_meta) 60 no_info depth = Ret ().
Proof.
  refine (ex_weaken _ _ (main_validates 1 (ex_image ex_meta) 60 no_info [(ex_meta, ex_meta)] (ex_meta_rd ex_meta) ex_meta
    19 [[1; 2; 3]] [0; 0; 0; 0; 0] ex_root ex_root_file ex_tree (ex_wim_reader ex_meta) None [] 710
    _ _ _ _ _ _ _ _ _ _ _)).
  - vm_compute. reflexivity.
  - reflexivity.
  - split; [done|]. split; [constructor; [|constructor]; by apply stored_chunk_ok|].
    intros [|i] c Hc; [|done]. injection Hc as <-. cbn [snd length]. split; [decide_now|lia].
  - split; [done|]. vm_compute. reflexivity.
  - decide_now.
  - reflexivity.
  - decide_now.
  - apply entry_means_file; [decide_now|]. exists ex_root_file, []. split; [reflexivity|]. split; [constructor|]. split; [reflexivity|discriminate].
  - lia.
  - reflexivity.
  - exact ex_walk.
Defined.

(** ** Where the command differs from what it means to do *)

(** Directories laid out level by level: the image skips over one of them, does
    not count it, and takes the wrong bytes for the next one: a file that is
    correct is refused. *)
Definition ex_levels : list Z :=
  ex_sec ++ dir_bytes [ex_root] ++
  dir_bytes [ex_sub 0x10 362 66; ex_sub 0x10 478 67] ++ dir_bytes [ex_sub 0x10 486 68] ++ dir_bytes [] ++
  dir_bytes [ex_sub 0x10 602 70] ++ dir_bytes [ex_sub 0x20 0 69].
Theorem validate_by_levels : main 1 (ex_image ex_levels) 60 no_info 9 = Panic err_panic.
Proof. vm_compute. reflexivity. Qed.

(** The name of the directory that cannot be read appears twice in the error. *)
Example recur_error_names :
  (let '(x, img) := Image_Open 1 (ex_image ex_levels) ∅ 60 (new_image (ex_meta_rd ex_levels)) in
   match x with Ret d => fst (recur 1 (ex_image ex_levels) 60 ∅ 9 d img) | _ => Ret () end) =
  Fail (Wrapf "%s: %w" [] [[66]] (Wrapf "%s: %w" [] [[68]] (Wrapf "%s: %w" [] [[70]] (Wrapf "%s: %w" [] [[70]]
    (ParseError "directory entry" [] (New "size too short")))))).
Proof. vm_compute. reflexivity. Qed.

(** A directory that contains itself is read without end (until the stack of the
    program overflows), for any depth of the recursion. *)
Definition ex_loop : list Z := ex_sec ++ dir_bytes [ex_root] ++ dir_bytes [ex_sub 0x10 138 66].
Definition ex_loop_image (r : res_reader) : Image := mkImage (ex_meta_rd ex_loop) (Some [[1; 2; 3]]) 24 (Some r) 138.

Theorem recur_of_cycle depth r :
  res_inv 1 [(ex_loop, ex_loop)] r → res_rest 1 [(ex_loop, ex_loop)] r = zdrop 138 ex_loop →
  (recur 1 (ex_image ex_loop) 60 ∅ depth ex_root_file (ex_loop_image r)).1 = NoFuel.
Proof.
  intros Hi Hr.
  apply (recur_cycle_at 1 (ex_image ex_loop) [(ex_loop, ex_loop)] ltac:(
    split; [done|]; split; [constructor; [|constructor]; by apply stored_chunk_ok|];
    intros [|i] c Hc; [|done]; injection Hc as <-; cbn [snd length]; split; [decide_now|lia])
    ∅ ex_loop 60 (ex_meta_rd ex_loop) [[1; 2; 3]] ltac:(split; [done|vm_compute; reflexivity])
    [] (ex_sub_file 0x10 138 66) [] 138 (138 + zlen (dir_bytes [ex_sub 0x10 138 66]))) with (p := 138).
  - constructor.
  - done.
  - done.
  - refine (ex_dir_at ex_loop 60 [ex_sub 0x10 138 66] _ 138 [] _ _ _ _ _);
      [vm_compute; reflexivity|vm_compute; done|decide_now|ex_means|simpl; lia].
  - done.
  - done.
  - left. lia.
  - split; [reflexivity|]. split; [reflexivity|]. split; [lia|]. split; [reflexivity|]. by exists r.
Qed.
