(* ===== verification/EtwMetadata.v ===== *)
(** * ETW events: metadata, data and fields ([pkg/etw])

    [eventmetadata.go], [eventdata.go] and [fieldopt.go]: the two buffers of a
    TraceLogging event and every field constructor.  The second part is a
    decoder of the format, as an event consumer has one. *)
From S2P Require Import Prelude GoStrings PaxTime.
#[local] Set Warnings "-register-all".

(** ** Types of fields *)
Definition inTypeNull : Z := 0.
Definition inTypeUnicodeString : Z := 1.
Definition inTypeANSIString : Z := 2.
Definition inTypeInt8 : Z := 3.
Definition inTypeUint8 : Z := 4.
Definition inTypeInt16 : Z := 5.
Definition inTypeUint16 : Z := 6.
Definition inTypeInt32 : Z := 7.
Definition inTypeUint32 : Z := 8.
Definition inTypeInt64 : Z := 9.
Definition inTypeUint64 : Z := 10.
Definition inTypeFloat : Z := 11.
Definition inTypeDouble : Z := 12.
Definition inTypeBool32 : Z := 13.
Definition inTypeBinary : Z := 14.
Definition inTypeGUID : Z := 15.
Definition inTypePointerUnsupported : Z := 16.
Definition inTypeFileTime : Z := 17.
Definition inTypeSystemTime : Z := 18.
Definition inTypeSID : Z := 19.
Definition inTypeHexInt32 : Z := 20.
Definition inTypeHexInt64 : Z := 21.
Definition inTypeCountedString : Z := 22.
Definition inTypeCountedANSIString : Z := 23.
Definition inTypeStruct : Z := 24.
Definition inTypeCountedBinary : Z := 25.
Definition inTypeCountedArray : Z := 32.
Definition inTypeArray : Z := 64.

Definition outTypeDefault : Z := 0.
Definition outTypeNoPrint : Z := 1.
Definition outTypeString : Z := 2.
Definition outTypeBoolean : Z := 3.
Definition outTypeHex : Z := 4.
Definition outTypePID : Z := 5.
Definition outTypeTID : Z := 6.
Definition outTypePort : Z := 7.
Definition outTypeIPv4 : Z := 8.
Definition outTypeIPv6 : Z := 9.
Definition outTypeSocketAddress : Z := 10.
Definition outTypeXML : Z := 11.
Definition outTypeJSON : Z := 12.
Definition outTypeWin32Error : Z := 13.
Definition outTypeNTStatus : Z := 14.
Definition outTypeHResult : Z := 15.
Definition outTypeFileTime : Z := 16.
Definition outTypeSigned : Z := 17.
Definition outTypeUnsigned : Z := 18.
Definition outTypeUTF8 : Z := 35.
Definition outTypePKCS7WithTypeInfo : Z := 36.
Definition outTypeCodePointer : Z := 37.
Definition outTypeDateTimeUTC : Z := 38.

(** The buffers of the event under construction. *)
Record event := mkEvent { em : list Z; ed : list Z }.
Definition em_write (b : list Z) : St event unit := modify (λ e, mkEvent (em e ++ b) (ed e)).
Definition ed_write (b : list Z) : St event unit := modify (λ e, mkEvent (em e) (ed e ++ b)).

(** ** [eventMetadata] *)

(** The loop of [writeTags]; four iterations are enough ([writeTags_total]). *)
Fixpoint tags_loop (fuel : nat) (tags : Z) : St event unit :=
  match fuel with
  | O => nofuel
  | S fuel =>
      let val := Z.shiftr tags 21 in
      if Z.land tags 0x1fffff =? 0 then em_write [u8 (Z.land val 0x7f)]
      else
        _ ← em_write [u8 (Z.lor val 0x80)];
        tags_loop fuel (u32 (Z.shiftl tags 7))
  end.
Definition writeTags (tags : Z) : St event unit := tags_loop 4 (Z.land tags 0xfffffff).

Definition writeEventHeader (name : list Z) (tags : Z) : St event unit :=
  _ ← em_write (le_bytes 2 0);
  _ ← writeTags tags;
  em_write (name ++ [0]).

Definition writeFieldInner (name : list Z) (inType outType tags arrSize : Z) : St event unit :=
  _ ← em_write (name ++ [0]);
  _ ← (if (outType =? outTypeDefault) && (tags =? 0) then em_write [inType]
       else
         _ ← em_write [Z.lor inType 128];
         if tags =? 0 then em_write [outType]
         else _ ← em_write [Z.lor outType 128]; writeTags tags);
  if negb (arrSize =? 0) then em_write (le_bytes 2 arrSize) else mret ().
Definition writeField (name : list Z) (inType outType tags : Z) : St event unit :=
  writeFieldInner name inType outType tags 0.
Definition writeArray (name : list Z) (inType outType tags : Z) : St event unit :=
  writeFieldInner name (Z.lor inType inTypeArray) outType tags 0.
Definition writeCountedArray (name : list Z) (count inType outType tags : Z) : St event unit :=
  writeFieldInner name (Z.lor inType inTypeCountedArray) outType tags count.
Definition writeStruct (name : list Z) (fieldCount tags : Z) : St event unit :=
  writeFieldInner name inTypeStruct fieldCount tags 0.

(** [eventMetadata.toBytes] *)
Definition em_toBytes (b : list Z) : res (list Z) :=
  if zlen b <? 2 then Panic "index out of range"
  else Ret (overwrite b 0 (le_bytes 2 (u16 (zlen b)))).

(** ** [eventData] *)
Definition writeString (data : list Z) : St event unit := ed_write (data ++ [0]).
Definition writeInt8 (value : Z) : St event unit := ed_write [u8 value].
Definition writeInt16 (value : Z) : St event unit := ed_write (le_bytes 2 (u16 value)).
Definition writeInt32 (value : Z) : St event unit := ed_write (le_bytes 4 (u32 value)).
Definition writeInt64 (value : Z) : St event unit := ed_write (le_bytes 8 (u64 value)).
Definition writeUint8 (value : Z) : St event unit := ed_write [value].
Definition writeUint16 (value : Z) : St event unit := ed_write (le_bytes 2 value).
Definition writeUint32 (value : Z) : St event unit := ed_write (le_bytes 4 value).
Definition writeUint64 (value : Z) : St event unit := ed_write (le_bytes 8 value).
Record Filetime := mkFiletime { ft_Low : Z; ft_High : Z }.
Definition writeFiletime (value : Filetime) : St event unit :=
  ed_write (le_bytes 4 (ft_Low value) ++ le_bytes 4 (ft_High value)).

(** ** [FieldOpt] *)
Definition FieldOpt : Type := St event unit.

Fixpoint run_all (opts : list FieldOpt) : St event unit :=
  match opts with
  | [] => mret ()
  | opt :: opts => _ ← opt; run_all opts
  end.

(** The body all the array constructors share. *)
Definition array_body {A} (name : list Z) (inType outType : Z) (item : A → St event unit) (values : list A) : FieldOpt :=
  _ ← writeArray name inType outType 0;
  _ ← writeUint16 (u16 (zlen values));
  run_all (item <$> values).

Definition bool8 (b : bool) : Z := if b then 1 else 0.
Definition BoolField (name : list Z) (value : bool) : FieldOpt :=
  _ ← writeField name inTypeUint8 outTypeBoolean 0; writeUint8 (bool8 value).
Definition BoolArray (name : list Z) (values : list bool) : FieldOpt :=
  array_body name inTypeUint8 outTypeBoolean (λ v, writeUint8 (bool8 v)) values.
Definition StringField (name value : list Z) : FieldOpt :=
  _ ← writeField name inTypeANSIString outTypeUTF8 0; writeString value.
Definition JSONStringField (name value : list Z) : FieldOpt :=
  _ ← writeField name inTypeANSIString outTypeJSON 0; writeString value.
Definition StringArray (name : list Z) (values : list (list Z)) : FieldOpt :=
  array_body name inTypeANSIString outTypeUTF8 writeString values.

Definition Int8Field (name : list Z) (value : Z) : FieldOpt :=
  _ ← writeField name inTypeInt8 outTypeDefault 0; writeInt8 value.
Definition Int8Array (name : list Z) (values : list Z) : FieldOpt :=
  array_body name inTypeInt8 outTypeDefault writeInt8 values.
Definition Int16Field (name : list Z) (value : Z) : FieldOpt :=
  _ ← writeField name inTypeInt16 outTypeDefault 0; writeInt16 value.
Definition Int16Array (name : list Z) (values : list Z) : FieldOpt :=
  array_body name inTypeInt16 outTypeDefault writeInt16 values.
Definition Int32Field (name : list Z) (value : Z) : FieldOpt :=
  _ ← writeField name inTypeInt32 outTypeDefault 0; writeInt32 value.
Definition Int32Array (name : list Z) (values : list Z) : FieldOpt :=
  array_body name inTypeInt32 outTypeDefault writeInt32 values.
Definition Int64Field (name : list Z) (value : Z) : FieldOpt :=
  _ ← writeField name inTypeInt64 outTypeDefault 0; writeInt64 value.
Definition Int64Array (name : list Z) (values : list Z) : FieldOpt :=
  array_body name inTypeInt64 outTypeDefault writeInt64 values.
Definition Uint8Field (name : list Z) (value : Z) : FieldOpt :=
  _ ← writeField name inTypeUint8 outTypeDefault 0; writeUint8 value.
Definition Uint8Array (name : list Z) (values : list Z) : FieldOpt :=
  array_body name inTypeUint8 outTypeDefault writeUint8 values.
Definition Uint16Field (name : list Z) (value : Z) : FieldOpt :=
  _ ← writeField name inTypeUint16 outTypeDefault 0; writeUint16 value.
Definition Uint16Array (name : list Z) (values : list Z) : FieldOpt :=
  array_body name inTypeUint16 outTypeDefault writeUint16 values.
Definition Uint32Field (name : list Z) (value : Z) : FieldOpt :=
  _ ← writeField name inTypeUint32 outTypeDefault 0; writeUint32 value.
Definition Uint32Array (name : list Z) (values : list Z) : FieldOpt :=
  array_body name inTypeUint32 outTypeDefault writeUint32 values.
Definition Uint64Field (name : list Z) (value : Z) : FieldOpt :=
  _ ← writeField name inTypeUint64 outTypeDefault 0; writeUint64 value.
Definition Uint64Array (name : list Z) (values : list Z) : FieldOpt :=
  array_body name inTypeUint64 outTypeDefault writeUint64 values.

(** Floats are given by their bits ([math.Float32bits], [math.Float64bits]). *)
Definition Float32Field (name : list Z) (bits : Z) : FieldOpt :=
  _ ← writeField name inTypeFloat outTypeDefault 0; writeUint32 bits.
Definition Float32Array (name : list Z) (values : list Z) : FieldOpt :=
  array_body name inTypeFloat outTypeDefault writeUint32 values.
Definition Float64Field (name : list Z) (bits : Z) : FieldOpt :=
  _ ← writeField name inTypeDouble outTypeDefault 0; writeUint64 bits.
Definition Float64Array (name : list Z) (values : list Z) : FieldOpt :=
  array_body name inTypeDouble outTypeDefault writeUint64 values.

Definition Struct (name : list Z) (opts : list FieldOpt) : FieldOpt :=
  _ ← writeStruct name (u8 (zlen opts)) 0; run_all opts.

(** The constructors that depend on the platform: [wordSize] is the size of
    [int], [uint] and [uintptr], and [NsecToFiletime] the conversion of
    [golang.org/x/sys/windows]. *)
Section Platform.
Context (wordSize : Z) (NsecToFiletime : Z → Filetime).

Definition IntField (name : list Z) (value : Z) : FieldOpt :=
  if wordSize =? 4 then Int32Field name value
  else if wordSize =? 8 then Int64Field name value
  else panic "Unsupported int size".
Definition IntArray (name : list Z) (values : list Z) : FieldOpt :=
  if wordSize =? 4 then array_body name inTypeInt32 outTypeDefault writeInt32 values
  else if wordSize =? 8 then array_body name inTypeInt64 outTypeDefault writeInt64 values
  else panic "Unsupported int size".
Definition UintField (name : list Z) (value : Z) : FieldOpt :=
  if wordSize =? 4 then Uint32Field name value
  else if wordSize =? 8 then Uint64Field name value
  else panic "Unsupported uint size".
Definition UintArray (name : list Z) (values : list Z) : FieldOpt :=
  if wordSize =? 4 then array_body name inTypeUint32 outTypeDefault writeUint32 values
  else if wordSize =? 8 then array_body name inTypeUint64 outTypeDefault writeUint64 values
  else panic "Unsupported uint size".
Definition UintptrField (name : list Z) (value : Z) : FieldOpt :=
  if wordSize =? 4 then _ ← writeField name inTypeHexInt32 outTypeDefault 0; writeUint32 value
  else if wordSize =? 8 then _ ← writeField name inTypeHexInt64 outTypeDefault 0; writeUint64 value
  else panic "Unsupported uintptr size".
Definition UintptrArray (name : list Z) (values : list Z) : FieldOpt :=
  if wordSize =? 4 then array_body name inTypeHexInt32 outTypeDefault writeUint32 values
  else if wordSize =? 8 then array_body name inTypeHexInt64 outTypeDefault writeUint64 values
  else panic "Unsupported uintptr size".

Definition UnixNano (t : Time) : Z := i64 (t_sec t * 1000000000 + t_nsec t).
Definition TimeField (name : list Z) (value : Time) : FieldOpt :=
  _ ← writeField name inTypeFileTime outTypeDateTimeUTC 0;
  writeFiletime (NsecToFiletime (UnixNano value)).

(** ** [SmartField]

    The dynamic type and value of its argument.  A type derived from a basic
    type has the [reflect] kind of the basic type; the fields of a struct come
    with [CanInterface]; [AOther] has the texts that [%T] and [%v] print. *)
Inductive num : Type :=
| Kint | Kint8 | Kint16 | Kint32 | Kint64
| Kuint | Kuint8 | Kuint16 | Kuint32 | Kuint64 | Kuintptr
| Kfloat32 | Kfloat64.

Inductive any : Type :=
| ABool (b : bool)
| ABools (bs : list bool)
| AString (s : list Z)
| AStrings (ss : list (list Z))
| ANum (k : num) (z : Z)
| ANums (k : num) (zs : list Z)
| AError (text : list Z)
| ATime (t : Time)
| ADerivedBool (b : bool)
| ADerivedNum (k : num) (z : Z)
| ADerivedString (s : list Z)
| AStruct (fields : list (bool * any))
| AOther (T v : list Z).

Definition num_field (k : num) : list Z → Z → FieldOpt :=
  match k with
  | Kint => IntField | Kint8 => Int8Field | Kint16 => Int16Field
  | Kint32 => Int32Field | Kint64 => Int64Field
  | Kuint => UintField | Kuint8 => Uint8Field | Kuint16 => Uint16Field
  | Kuint32 => Uint32Field | Kuint64 => Uint64Field | Kuintptr => UintptrField
  | Kfloat32 => Float32Field | Kfloat64 => Float64Field
  end.
Definition num_array (k : num) : list Z → list Z → FieldOpt :=
  match k with
  | Kint => IntArray | Kint8 => Int8Array | Kint16 => Int16Array
  | Kint32 => Int32Array | Kint64 => Int64Array
  | Kuint => UintArray | Kuint8 => Uint8Array | Kuint16 => Uint16Array
  | Kuint32 => Uint32Array | Kuint64 => Uint64Array | Kuintptr => UintptrArray
  | Kfloat32 => Float32Array | Kfloat64 => Float64Array
  end.

Fixpoint SmartField (name : list Z) (v : any) : FieldOpt :=
  match v with
  | ABool b => BoolField name b
  | ABools bs => BoolArray name bs
  | AString s => StringField name s
  | AStrings ss => StringArray name ss
  | ANum k z => num_field k name z
  | ANums k zs => num_array k name zs
  | AError text => StringField name text
  | ATime t => TimeField name t
  | ADerivedBool b => BoolField name b
  | ADerivedNum k z => num_field k name z
  | ADerivedString s => StringField name s
  | AStruct fields =>
      Struct name ((fix go (fields : list (bool * any)) : list FieldOpt :=
        match fields with
        | [] => []
        | (canInterface, f) :: fields =>
            if canInterface then SmartField name f :: go fields else go fields
        end) fields)
  | AOther T v => StringField name (str "(Unsupported: " ++ T ++ str ") " ++ v)
  end.
End Platform.

(** ** The consumer's decoder

    What a TraceLogging consumer reads back: a tree of fields, with the decoded
    numbers and strings. *)
Inductive val : Type :=
| VNum (z : Z)
| VStr (s : list Z).
Inductive item : Type :=
| Scalar (name : list Z) (inType outType : Z) (v : val)
| Array (name : list Z) (inType outType : Z) (vs : list val)
| Nested (name : list Z) (fields : list item).

(** A string up to its terminator. *)
Fixpoint dec_str (b : list Z) : option (list Z * list Z) :=
  match b with
  | [] => None
  | c :: b => if c =? 0 then Some ([], b) else '(s, r) ← dec_str b; Some (c :: s, r)
  end.
(** Tags: groups of seven bits, the high bit says that there are more. *)
Fixpoint dec_tags (shift : Z) (b : list Z) : option (Z * list Z) :=
  match b with
  | [] => None
  | c :: b =>
      if c <? 128 then Some (c * 2 ^ shift, b)
      else '(t, r) ← dec_tags (shift - 7) b; Some ((c - 128) * 2 ^ shift + t, r)
  end.
(** A number of [n] bytes. *)
Definition dec_num (n : nat) (b : list Z) : option (Z * list Z) :=
  if (length b <? n)%nat then None else Some (le_val (take n b), drop n b).

Definition width (inType : Z) : option nat :=
  if (inType =? inTypeInt8) || (inType =? inTypeUint8) then Some 1%nat
  else if (inType =? inTypeInt16) || (inType =? inTypeUint16) then Some 2%nat
  else if (inType =? inTypeInt32) || (inType =? inTypeUint32) || (inType =? inTypeFloat) || (inType =? inTypeHexInt32) then Some 4%nat
  else if (inType =? inTypeInt64) || (inType =? inTypeUint64) || (inType =? inTypeDouble) || (inType =? inTypeHexInt64)
          || (inType =? inTypeFileTime) then Some 8%nat
  else None.
Definition dec_val (inType : Z) (b : list Z) : option (val * list Z) :=
  if inType =? inTypeANSIString then '(s, r) ← dec_str b; Some (VStr s, r)
  else n ← width inType; '(z, r) ← dec_num n b; Some (VNum z, r).
Fixpoint dec_vals (k : nat) (inType : Z) (b : list Z) : option (list val * list Z) :=
  match k with
  | O => Some ([], b)
  | S k => '(v, b) ← dec_val inType b; '(vs, b) ← dec_vals k inType b; Some (v :: vs, b)
  end.

(** The description of a field: name, in type, out type. *)
Definition dec_desc (b : list Z) : option (list Z * Z * Z * list Z) :=
  '(name, b) ← dec_str b;
  '(i, b) ← dec_num 1 b;
  if i <? 128 then Some (name, i, outTypeDefault, b)
  else
    '(o, b) ← dec_num 1 b;
    if o <? 128 then Some (name, i - 128, o, b)
    else '(_, b) ← dec_tags 21 b; Some (name, i - 128, o - 128, b).

(** [n] fields from the metadata [b] and the data [d]. *)
Fixpoint dec_fields (fuel n : nat) (b d : list Z) : option (list item * list Z * list Z) :=
  match fuel, n with
  | _, O => Some ([], b, d)
  | O, _ => None
  | S fuel, S n =>
      '(name, i, o, b) ← dec_desc b;
      '(it, b, d) ←
        (if i =? inTypeStruct then
           '(its, b, d) ← dec_fields fuel (Z.to_nat o) b d; Some (Nested name its, b, d)
         else if i <? inTypeArray then
           '(v, d) ← dec_val i d; Some (Scalar name i o v, b, d)
         else
           '(k, d) ← dec_num 2 d;
           '(vs, d) ← dec_vals (Z.to_nat k) (i - inTypeArray) d;
           Some (Array name (i - inTypeArray) o vs, b, d));
      '(its, b, d) ← dec_fields fuel n b d;
      Some (it :: its, b, d)
  end.

(** The header of the metadata: its length, tags and name. *)
Definition dec_header (b : list Z) : option (Z * Z * list Z * list Z) :=
  '(len, b) ← dec_num 2 b;
  '(tags, b) ← dec_tags 21 b;
  '(name, b) ← dec_str b;
  Some (len, tags, name, b).

(** ** Proofs *)

(** A step that appends [mb] and [db] to the two buffers. *)
Definition writes (m : St event unit) (mb db : list Z) : Prop :=
  ∀ e, m e = (Ret (), mkEvent (em e ++ mb) (ed e ++ db)).

Lemma writes_ret : writes (mret ()) [] [].
Proof. intros []. st_red. by rewrite !app_nil_r. Qed.
Lemma writes_bind m f mb db mb' db' :
  writes m mb db → writes f mb' db' → writes (_ ← m; f) (mb ++ mb') (db ++ db').
Proof. intros H1 H2 e. rewrite (St_bind_Ret _ _ _ _ _ (H1 e)), H2. cbn. by rewrite <- !app_assoc. Qed.
Lemma writes_em b : writes (em_write b) b [].
Proof. intros []. unfold em_write. cbn. by rewrite app_nil_r. Qed.
Lemma writes_ed b : writes (ed_write b) [] b.
Proof. intros []. unfold ed_write. cbn. by rewrite app_nil_r. Qed.

(** ** Tags *)
Lemma shiftr21 t : Z.shiftr t 21 = t / 2097152.
Proof. by rewrite Z.shiftr_div_pow2. Qed.
Lemma land_ones_mod t k m : 0 ≤ k → m = Z.ones k → Z.land t m = t mod 2 ^ k.
Proof. intros ? ->. by rewrite Z.land_ones. Qed.

(** One group: the seven bits above bit 21, of a value already shifted. *)
Lemma tags_byte_last t : Z.land (Z.shiftr t 21) 0x7f = t / 2097152 mod 128.
Proof. rewrite (land_ones_mod _ 7) by done. by rewrite shiftr21. Qed.
Lemma tags_byte_more t : u8 (Z.lor (Z.shiftr t 21) 0x80) = 128 + t / 2097152 mod 128.
Proof.
  unfold u8. rewrite shiftr21. set (v := t / 2097152).
  assert (E : Z.lor v 0x80 mod 256 = Z.lor (v mod 128) 0x80).
  { change 256 with (2 ^ 8). change (v mod 128) with (v mod 2 ^ 7). change 0x80 with (2 ^ 7).
    apply Z.bits_inj'. intros n Hn. rewrite Z.lor_spec, Z.pow2_bits_eqb by lia.
    destruct (Z.lt_ge_cases n 7).
    - rewrite !Z.mod_pow2_bits_low, Z.lor_spec, Z.pow2_bits_eqb by lia. done.
    - rewrite (Z.mod_pow2_bits_high v 7) by lia. destruct (Z.lt_ge_cases n 8).
      + rewrite Z.mod_pow2_bits_low, Z.lor_spec, Z.pow2_bits_eqb by lia.
        replace (7 =? n) with true by lia. by rewrite orb_true_r.
      + rewrite Z.mod_pow2_bits_high by lia. by replace (7 =? n) with false by lia. }
  rewrite E. pose proof (Z.mod_pos_bound v 128 ltac:(lia)).
  rewrite Z.lor_comm. exact (lor_add_low 7 1 (v mod 128) ltac:(lia) ltac:(lia)).
Qed.

#[local] Ltac Zify.zify_post_hook ::= Z.to_euclidean_division_equations.

(** The four groups of the low 28 bits of [t]. *)
Definition groups (t a b c d : Z) : Prop :=
  t mod 268435456 = a * 2097152 + b * 16384 + c * 128 + d ∧
  0 ≤ a < 128 ∧ 0 ≤ b < 128 ∧ 0 ≤ c < 128 ∧ 0 ≤ d < 128.

Lemma groups_exist t : groups t (t / 2097152 mod 128) (t / 16384 mod 128) (t / 128 mod 128) (t mod 128).
Proof. unfold groups. lia. Qed.
Lemma groups_next t a b c d : groups t a b c d → groups (u32 (Z.shiftl t 7)) b c d 0.
Proof. unfold groups, u32. rewrite Z.shiftl_mul_pow2 by done. lia. Qed.
Lemma groups_head t a b c d : groups t a b c d → t / 2097152 mod 128 = a.
Proof. unfold groups. lia. Qed.
Lemma groups_low t a b c d :
  groups t a b c d → (Z.land t 0x1fffff =? 0) = (b =? 0) && (c =? 0) && (d =? 0).
Proof. unfold groups. rewrite (land_ones_mod _ 21) by done. lia. Qed.

Lemma tags_loop_step k t a b c d :
  groups t a b c d →
  tags_loop (S k) t =
    if (b =? 0) && (c =? 0) && (d =? 0) then em_write [a]
    else _ ← em_write [128 + a]; tags_loop k (u32 (Z.shiftl t 7)).
Proof.
  intros Ht. cbn [tags_loop]. rewrite (groups_low _ _ _ _ _ Ht), tags_byte_last, tags_byte_more, (groups_head _ _ _ _ _ Ht).
  rewrite u8_small by (unfold groups in Ht; lia). done.
Qed.

(** The groups up to the last that is not zero. *)
Definition tag_bytes (a b c d : Z) : list Z :=
  if (b =? 0) && (c =? 0) && (d =? 0) then [a]
  else 128 + a ::
    if (c =? 0) && (d =? 0) then [b]
    else 128 + b :: if d =? 0 then [c] else [128 + c; d].

Lemma writes_more x m bs : writes m bs [] → writes (_ ← em_write [x]; m) (x :: bs) [].
Proof. apply (writes_bind _ _ [x] [] bs []), writes_em. Qed.

Lemma writeTags_bytes t a b c d : groups t a b c d → writes (tags_loop 4 t) (tag_bytes a b c d) [].
Proof.
  intros H1. pose proof (groups_next _ _ _ _ _ H1) as H2. pose proof (groups_next _ _ _ _ _ H2) as H3.
  pose proof (groups_next _ _ _ _ _ H3) as H4. unfold tag_bytes.
  rewrite (tags_loop_step _ _ _ _ _ _ H1). case_match; [apply writes_em|].
  apply writes_more.
  rewrite (tags_loop_step _ _ _ _ _ _ H2), andb_true_r. case_match; [apply writes_em|].
  apply writes_more.
  rewrite (tags_loop_step _ _ _ _ _ _ H3), !andb_true_r. case_match; [apply writes_em|].
  apply writes_more.
  rewrite (tags_loop_step _ _ _ _ _ _ H4). apply writes_em.
Qed.
Lemma dec_tag_bytes t a b c d tl :
  groups t a b c d → dec_tags 21 (tag_bytes a b c d ++ tl) = Some (t mod 268435456, tl).
Proof.
  unfold groups. intros (-> & Ha & Hb & Hc & Hd). unfold tag_bytes.
  repeat case_match; cbn [app dec_tags];
    repeat (match goal with |- context [?x <? 128] =>
      first [replace (x <? 128) with true by lia | replace (x <? 128) with false by lia] end; cbn [mbind option_bind]);
    change (21 - 7 - 7 - 7) with 0; change (21 - 7 - 7) with 7; change (21 - 7) with 14;
    change (2 ^ 21) with 2097152; change (2 ^ 14) with 16384; change (2 ^ 7) with 128; change (2 ^ 0) with 1;
    do 2 f_equal; lia.
Qed.

(** the tags of an event survive: [writeTags] terminates with at most four
    bytes, and a consumer that reads groups of seven bits gets the low 28 bits
    of [tags] back and continues right behind them. *)
Theorem writeTags_decodes tags e :
  ∃ bs, writeTags tags e = (Ret (), mkEvent (em e ++ bs) (ed e)) ∧ 1 ≤ zlen bs ≤ 4 ∧
    ∀ tl, dec_tags 21 (bs ++ tl) = Some (tags mod 2 ^ 28, tl).
Proof.
  unfold writeTags. rewrite (land_ones_mod _ 28) by done.
  pose proof (groups_exist (tags mod 2 ^ 28)) as Hg. eexists. split; [|split].
  - rewrite (writeTags_bytes _ _ _ _ _ Hg), app_nil_r. done.
  - unfold tag_bytes. repeat case_match; done.
  - intros tl. rewrite (dec_tag_bytes _ _ _ _ _ _ Hg). by rewrite Z.mod_mod.
Qed.

(** ** Descriptions and values *)
Definition no_nul (s : list Z) : Prop := (0 ∉ s).
Lemma dec_str_app s tl : no_nul s → dec_str ((s ++ [0]) ++ tl) = Some (s, tl).
Proof.
  intros Hs. induction s as [|c s IH]; [done|]. cbn [app dec_str].
  unfold no_nul in *. apply not_elem_of_cons in Hs as [Hc Hs].
  replace (c =? 0) with false by lia. by rewrite IH.
Qed.
Lemma dec_num_app n b tl : length b = n → dec_num n (b ++ tl) = Some (le_val b, tl).
Proof.
  intros <-. unfold dec_num. rewrite length_app, take_app_length, drop_app_length.
  by replace (length b + length tl <? length b)%nat with false by (symmetry; apply Nat.ltb_ge; lia).
Qed.
Lemma dec_num1 z tl : dec_num 1 (z :: tl) = Some (z, tl).
Proof. unfold dec_num. cbn. by rewrite Z.add_0_r. Qed.

Definition desc_bytes (name : list Z) (i o : Z) : list Z :=
  (name ++ [0]) ++ if o =? 0 then [i] else [128 + i; o].
Lemma lor128 i : 0 ≤ i < 128 → Z.lor i 128 = 128 + i.
Proof. intros. rewrite Z.lor_comm. exact (lor_add_low 7 1 i ltac:(lia) ltac:(lia)). Qed.

Lemma writeFieldInner_desc name i o :
  0 ≤ i < 128 → writes (writeFieldInner name i o 0 0) (desc_bytes name i o) [].
Proof.
  intros Hi. unfold writeFieldInner, desc_bytes. rewrite andb_true_r. change (0 =? 0) with true. cbn [negb].
  apply (writes_bind _ _ _ [] _ []); [apply writes_em|]. rewrite <- (app_nil_r (if o =? 0 then [i] else [128 + i; o])).
  apply (writes_bind _ _ _ [] _ []); [|apply writes_ret]. unfold outTypeDefault.
  destruct (o =? 0); [apply writes_em|]. rewrite lor128 by done. apply writes_more, writes_em.
Qed.
Lemma dec_desc_bytes name i o tl :
  no_nul name → 0 ≤ i < 128 → 0 ≤ o < 128 → dec_desc (desc_bytes name i o ++ tl) = Some (name, i, o, tl).
Proof.
  intros Hn Hi Ho. unfold dec_desc, desc_bytes. rewrite <- app_assoc, dec_str_app by done. cbn [mbind option_bind].
  destruct (Z.eqb_spec o 0) as [->|Hne]; cbn [app]; rewrite dec_num1; cbn [mbind option_bind].
  - by replace (i <? 128) with true by lia.
  - replace (128 + i <? 128) with false by lia. rewrite dec_num1. cbn [mbind option_bind].
    replace (o <? 128) with true by lia. do 4 f_equal. lia.
Qed.

(** [b] is the encoding of the value [v] of the type [i]. *)
Definition val_bytes (i : Z) (v : val) (b : list Z) : Prop :=
  ∀ tl, dec_val i (b ++ tl) = Some (v, tl).

Lemma val_bytes_num i w z :
  width i = Some w → i ≠ inTypeANSIString → val_bytes i (VNum (z mod 256 ^ Z.of_nat w)) (le_bytes w z).
Proof.
  intros Hw Hi tl. unfold dec_val. replace (i =? inTypeANSIString) with false by lia.
  rewrite Hw. cbn [mbind option_bind]. rewrite dec_num_app by apply length_le_bytes.
  by rewrite le_val_le_bytes.
Qed.
Lemma val_bytes_str s : no_nul s → val_bytes inTypeANSIString (VStr s) (s ++ [0]).
Proof. intros Hs tl. unfold dec_val. cbn [Z.eqb Pos.eqb]. change (inTypeANSIString =? inTypeANSIString) with true. cbn beta iota. by rewrite dec_str_app. Qed.

(** A field option whose bytes the decoder reads as the item [it]. *)
Definition decodes (m : FieldOpt) (it : item) : Prop :=
  ∃ mb db k, writes m mb db ∧ ∀ f n tl tl', (k ≤ f)%nat →
    dec_fields (S f) (S n) (mb ++ tl) (db ++ tl') =
      '(its, b, d) ← dec_fields f n tl tl'; Some (it :: its, b, d).

Lemma decodes_scalar name i o v m b :
  no_nul name → 0 ≤ i < 64 → i ≠ inTypeStruct → 0 ≤ o < 128 → writes m [] b → val_bytes i v b →
  decodes (_ ← writeField name i o 0; m) (Scalar name i o v).
Proof.
  intros Hn Hi Hs Ho Hm Hv. exists (desc_bytes name i o), b, O. split.
  - rewrite <- (app_nil_r (desc_bytes _ _ _)). apply (writes_bind _ _ _ []); [|done].
    apply writeFieldInner_desc. lia.
  - intros f n tl tl' _. cbn [dec_fields]. rewrite dec_desc_bytes by (done || lia). cbn [mbind option_bind].
    replace (i =? inTypeStruct) with false by lia. replace (i <? inTypeArray) with true by (unfold inTypeArray; lia).
    by rewrite Hv.
Qed.

Lemma dec_vals_app i vs bs tl :
  Forall2 (val_bytes i) vs bs → dec_vals (length vs) i (concat bs ++ tl) = Some (vs, tl).
Proof.
  induction 1 as [|v b vs bs Hv _ IH]; [done|]. cbn [length dec_vals concat].
  rewrite <- app_assoc, Hv. cbn [mbind option_bind]. by rewrite IH.
Qed.
Lemma writes_run_all {A} (item : A → St event unit) l bs :
  Forall2 (λ a b, writes (item a) [] b) l bs → writes (run_all (item <$> l)) [] (concat bs).
Proof.
  induction 1 as [|a b l bs Ha _ IH]; [apply writes_ret|]. cbn [fmap list_fmap run_all concat].
  by apply (writes_bind _ _ [] _ []).
Qed.

Lemma lor64 i : 0 ≤ i < 64 → Z.lor i inTypeArray = 64 + i.
Proof. intros. rewrite Z.lor_comm. exact (lor_add_low 6 1 i ltac:(lia) ltac:(lia)). Qed.

Lemma decodes_array {A} name i o (enc : A → list Z) (dec : A → val) item (l : list A) :
  no_nul name → 0 ≤ i < 64 → i ≠ inTypeStruct → 0 ≤ o < 128 → zlen l < 65536 →
  (∀ a, writes (item a) [] (enc a)) → Forall (λ a, val_bytes i (dec a) (enc a)) l →
  decodes (array_body name i o item l) (Array name i o (dec <$> l)).
Proof.
  intros Hn Hi Hs Ho Hl Hitem Hv. exists (desc_bytes name (64 + i) o), (le_bytes 2 (zlen l) ++ concat (enc <$> l)), O.
  split.
  - rewrite <- (app_nil_r (desc_bytes _ _ _)). apply (writes_bind _ _ _ []).
    { unfold writeArray. rewrite lor64 by done. apply writeFieldInner_desc. lia. }
    apply (writes_bind _ _ [] (le_bytes 2 (zlen l)) [] (concat (enc <$> l))).
    { rewrite u16_small by (pose_lens; lia). apply writes_ed. }
    apply writes_run_all. apply Forall2_fmap_r, Forall_Forall2_diag, Forall_true. done.
  - intros f n tl tl' _. cbn [dec_fields]. rewrite dec_desc_bytes by (done || lia). cbn [mbind option_bind].
    unfold inTypeStruct, inTypeArray. replace (64 + i =? 24) with false by lia. replace (64 + i <? 64) with false by lia.
    rewrite <- app_assoc, dec_num_app by apply length_le_bytes. cbn [mbind option_bind].
    rewrite le_val_le16 by (pose_lens; lia). replace (64 + i - 64) with i by lia.
    replace (Z.to_nat (zlen l)) with (length (dec <$> l)) by (rewrite length_fmap; unfold zlen; lia).
    rewrite dec_vals_app; [done|]. by apply Forall2_fmap, Forall_Forall2_diag.
Qed.

Lemma decodes_list ms its :
  Forall2 decodes ms its →
  ∃ mb db k, writes (run_all ms) mb db ∧ ∀ f tl tl', (k ≤ f)%nat →
    dec_fields f (length its) (mb ++ tl) (db ++ tl') = Some (its, tl, tl').
Proof.
  induction 1 as [|m it ms its (mb & db & k & Hw & Hd) _ (mb' & db' & k' & Hw' & Hd')].
  { exists [], [], O. split; [apply writes_ret|]. by intros [] tl tl' _. }
  exists (mb ++ mb'), (db ++ db'), (S (k + k')). split; [by apply writes_bind|].
  intros [|f] tl tl' Hf; [lia|]. cbn [length]. rewrite <- !app_assoc, Hd by lia.
  by rewrite Hd' by lia.
Qed.

Lemma decodes_struct name ms its :
  no_nul name → zlen ms < 128 → Forall2 decodes ms its → decodes (Struct name ms) (Nested name its).
Proof.
  intros Hn Hl Hms. destruct (decodes_list ms its Hms) as (mb & db & k & Hw & Hd).
  pose proof (Forall2_length _ _ _ Hms) as Hlen.
  exists (desc_bytes name inTypeStruct (zlen ms) ++ mb), db, k. split.
  - unfold Struct. rewrite u8_small by (pose_lens; lia).
    apply (writes_bind _ _ _ [] mb db); [|done]. apply writeFieldInner_desc. done.
  - intros f n tl tl' Hf. cbn [dec_fields]. rewrite <- app_assoc, dec_desc_bytes by (try done; pose_lens; lia).
    cbn [mbind option_bind]. change (inTypeStruct =? inTypeStruct) with true. cbn beta iota.
    replace (Z.to_nat (zlen ms)) with (length its) by (unfold zlen; lia). by rewrite Hd.
Qed.

(** ** Smart fields *)
Section SmartField.
Context (wordSize : Z) (NsecToFiletime : Z → Filetime).

(** The format has types for 32- and 64-bit words. *)
Definition num_type (k : num) : Z :=
  match k with
  | Kint => if wordSize =? 4 then inTypeInt32 else inTypeInt64
  | Kint8 => inTypeInt8 | Kint16 => inTypeInt16 | Kint32 => inTypeInt32 | Kint64 => inTypeInt64
  | Kuint => if wordSize =? 4 then inTypeUint32 else inTypeUint64
  | Kuint8 => inTypeUint8 | Kuint16 => inTypeUint16 | Kuint32 => inTypeUint32 | Kuint64 => inTypeUint64
  | Kuintptr => if wordSize =? 4 then inTypeHexInt32 else inTypeHexInt64
  | Kfloat32 => inTypeFloat | Kfloat64 => inTypeDouble
  end.
(** The bits of a number, as an unsigned value of its width. *)
Definition num_val (k : num) (z : Z) : val :=
  VNum (z mod 256 ^ Z.of_nat (default 0%nat (width (num_type k)))).
Definition unsigned8 (k : num) : bool := match k with Kuint8 => true | _ => false end.

(** The item an argument of [SmartField] is logged as. All the fields of a
    struct get the name of the struct. *)
Fixpoint smart_item (name : list Z) (v : any) : item :=
  match v with
  | ABool b | ADerivedBool b => Scalar name inTypeUint8 outTypeBoolean (VNum (bool8 b))
  | ABools bs => Array name inTypeUint8 outTypeBoolean ((λ b, VNum (bool8 b)) <$> bs)
  | AString s | ADerivedString s | AError s => Scalar name inTypeANSIString outTypeUTF8 (VStr s)
  | AStrings ss => Array name inTypeANSIString outTypeUTF8 (VStr <$> ss)
  | ANum k z | ADerivedNum k z => Scalar name (num_type k) outTypeDefault (num_val k z)
  | ANums k zs => Array name (num_type k) outTypeDefault (num_val k <$> zs)
  | ATime t =>
      let ft := NsecToFiletime (UnixNano t) in
      Scalar name inTypeFileTime outTypeDateTimeUTC (VNum (ft_Low ft + 4294967296 * ft_High ft))
  | AStruct fields =>
      Nested name ((fix go (fields : list (bool * any)) : list item :=
        match fields with
        | [] => []
        | (canInterface, f) :: fields =>
            if canInterface then smart_item name f :: go fields else go fields
        end) fields)
  | AOther T v => Scalar name inTypeANSIString outTypeUTF8 (VStr (str "(Unsupported: " ++ T ++ str ") " ++ v))
  end.

(** What the format can carry: strings without NUL, arrays of at most 65535
    elements, structs of at most 127 exported fields, numbers of their width. *)
Definition num_ok (k : num) (z : Z) : Prop :=
  match k with Kuint8 => 0 ≤ z < 256 | _ => True end.
Fixpoint any_ok (v : any) : Prop :=
  match v with
  | ABool _ | ADerivedBool _ | ATime _ => True
  | ABools bs => zlen bs < 65536
  | AString s | ADerivedString s | AError s => no_nul s
  | AStrings ss => zlen ss < 65536 ∧ Forall no_nul ss
  | ANum k z | ADerivedNum k z => num_ok k z
  | ANums k zs => zlen zs < 65536 ∧ Forall (num_ok k) zs
  | AStruct fields =>
      zlen (filter (λ f : bool * any, f.1 = true) fields) < 128 ∧
      (fix go (fields : list (bool * any)) : Prop :=
        match fields with
        | [] => True
        | (_, f) :: fields => any_ok f ∧ go fields
        end) fields
  | AOther T v => no_nul T ∧ no_nul v
  end.

Hypothesis HwordSize : wordSize = 4 ∨ wordSize = 8.
Hypothesis Hft : ∀ n, 0 ≤ ft_Low (NsecToFiletime n) < 4294967296 ∧ 0 ≤ ft_High (NsecToFiletime n) < 4294967296.

Lemma writes_u8 z : writes (writeUint8 z) [] [z].
Proof. apply writes_ed. Qed.

(** The encoding of a number by its type. *)
Definition num_enc (k : num) (z : Z) : list Z :=
  if unsigned8 k then [z] else le_bytes (default 0%nat (width (num_type k))) z.

Definition num_write (k : num) : Z → St event unit :=
  match k with
  | Kint => if wordSize =? 4 then writeInt32 else writeInt64
  | Kint8 => writeInt8 | Kint16 => writeInt16 | Kint32 => writeInt32 | Kint64 => writeInt64
  | Kuint | Kuintptr => if wordSize =? 4 then writeUint32 else writeUint64
  | Kuint8 => writeUint8 | Kuint16 => writeUint16 | Kuint32 => writeUint32 | Kuint64 => writeUint64
  | Kfloat32 => writeUint32 | Kfloat64 => writeUint64
  end.
Ltac by_kind k :=
  unfold num_enc, num_write, num_type, num_field, num_array, IntField, IntArray, UintField, UintArray, UintptrField, UintptrArray;
  let E := fresh "E" in destruct HwordSize as [E|E]; rewrite ?E; destruct k; try reflexivity.
Lemma num_field_eq k name z :
  num_field wordSize k name z = (_ ← writeField name (num_type k) outTypeDefault 0; num_write k z).
Proof. by_kind k. Qed.
Lemma num_array_eq k name zs :
  num_array wordSize k name zs = array_body name (num_type k) outTypeDefault (num_write k) zs.
Proof. by_kind k. Qed.
Lemma num_type_ok k :
  0 ≤ num_type k < 64 ∧ num_type k ≠ inTypeStruct ∧ num_type k ≠ inTypeANSIString ∧
  width (num_type k) = Some (default 0%nat (width (num_type k))).
Proof. by_kind k; vm_compute; repeat split; congruence. Qed.
Lemma num_write_enc k z : writes (num_write k z) [] (num_enc k z).
Proof.
  pose proof (le_bytes_mod 2 z) as H2. pose proof (le_bytes_mod 4 z) as H4.
  pose proof (le_bytes_mod 8 z) as H8.
  by_kind k; cbn [unsigned8 Z.eqb Pos.eqb];
    try match goal with |- context [default ?d (width ?x)] =>
      let n := eval vm_compute in (default d (width x)) in change (default d (width x)) with n end;
    first [apply writes_ed | rewrite <- H2; apply writes_ed | rewrite <- H4; apply writes_ed | rewrite <- H8; apply writes_ed].
Qed.
Lemma num_enc_val k z : num_ok k z → val_bytes (num_type k) (num_val k z) (num_enc k z).
Proof.
  intros Hz. destruct (num_type_ok k) as (_ & _ & Hs & Hw).
  assert (E : num_enc k z = le_bytes (default 0%nat (width (num_type k))) z).
  { unfold num_enc. destruct k; try done. cbn [unsigned8]. cbn in Hz. symmetry.
    change (default 0%nat (width (num_type Kuint8))) with 1%nat. cbn [le_bytes]. by rewrite Z.mod_small. }
  rewrite E. by apply val_bytes_num.
Qed.
Lemma decodes_num k name z :
  no_nul name → num_ok k z →
  decodes (num_field wordSize k name z) (Scalar name (num_type k) outTypeDefault (num_val k z)).
Proof.
  intros Hn Hz. rewrite num_field_eq. destruct (num_type_ok k) as (? & ? & _).
  by apply (decodes_scalar _ _ _ _ _ (num_enc k z)); try apply num_write_enc; try apply num_enc_val.
Qed.
Lemma decodes_nums k name zs :
  no_nul name → zlen zs < 65536 → Forall (num_ok k) zs →
  decodes (num_array wordSize k name zs) (Array name (num_type k) outTypeDefault (num_val k <$> zs)).
Proof.
  intros Hn Hl Hz. rewrite num_array_eq. destruct (num_type_ok k) as (? & ? & _).
  apply (decodes_array _ _ _ (num_enc k)); try done; [apply num_write_enc|].
  eapply Forall_impl; [exact Hz|]. intros z. apply num_enc_val.
Qed.
Lemma decodes_string name o s :
  no_nul name → no_nul s → 0 ≤ o < 128 →
  decodes (_ ← writeField name inTypeANSIString o 0; writeString s) (Scalar name inTypeANSIString o (VStr s)).
Proof. intros Hn Hs Ho. apply (decodes_scalar _ _ _ _ _ (s ++ [0])); try done; [apply writes_ed|by apply val_bytes_str]. Qed.
Lemma val_bool b : val_bytes inTypeUint8 (VNum (bool8 b)) [bool8 b].
Proof. intros tl. by destruct b. Qed.
Lemma decodes_bool name b :
  no_nul name → decodes (BoolField name b) (Scalar name inTypeUint8 outTypeBoolean (VNum (bool8 b))).
Proof. intros Hn. apply (decodes_scalar _ _ _ _ _ [bool8 b]); try done; [apply writes_ed|apply val_bool]. Qed.
Lemma decodes_time name t :
  no_nul name →
  decodes (TimeField NsecToFiletime name t)
    (Scalar name inTypeFileTime outTypeDateTimeUTC
       (VNum (ft_Low (NsecToFiletime (UnixNano t)) + 4294967296 * ft_High (NsecToFiletime (UnixNano t))))).
Proof.
  intros Hn. destruct (Hft (UnixNano t)) as [Hlo Hhi]. unfold TimeField.
  destruct (NsecToFiletime (UnixNano t)) as [lo hi]. cbn [ft_Low ft_High] in *.
  apply (decodes_scalar _ _ _ _ _ (le_bytes 4 lo ++ le_bytes 4 hi)); try done; [apply writes_ed|].
  intros tl. unfold dec_val. cbn [mbind option_bind]. change (inTypeFileTime =? inTypeANSIString) with false.
  change (width inTypeFileTime) with (Some 8%nat). cbn [mbind option_bind]. rewrite dec_num_app by done.
  cbn [mbind option_bind]. do 3 f_equal. change (le_bytes 4 lo ++ le_bytes 4 hi) with (le_bytes 4 lo ++ le_bytes 4 hi).
  rewrite <- (le_val_le32 lo) at 2 by done. rewrite <- (le_val_le32 hi) at 2 by done. cbn. lia.
Qed.
Lemma no_nul_app s t : no_nul s → no_nul t → no_nul (s ++ t).
Proof. unfold no_nul. rewrite elem_of_app. by intros ?? [|]. Qed.

Lemma SmartField_decodes name v :
  no_nul name → any_ok v → decodes (SmartField wordSize NsecToFiletime name v) (smart_item name v).
Proof.
  intros Hn. revert v. fix IH 1. intros v Hv.
  destruct v as [b|bs|s|ss|k z|k zs|s|t|b|k z|s|fields|T w]; cbn [SmartField smart_item any_ok] in *.
  - by apply decodes_bool.
  - apply (decodes_array _ _ _ (λ b, [bool8 b])); try done; [intros; apply writes_ed|].
    apply Forall_true, val_bool.
  - by apply decodes_string.
  - destruct Hv as [Hl Hv]. apply (decodes_array _ _ _ (λ s, s ++ [0])); try done; [intros; apply writes_ed|].
    eapply Forall_impl; [exact Hv|]. apply val_bytes_str.
  - by apply decodes_num.
  - destruct Hv. by apply decodes_nums.
  - by apply decodes_string.
  - by apply decodes_time.
  - by apply decodes_bool.
  - by apply decodes_num.
  - by apply decodes_string.
  - destruct Hv as [Hl Hv]. apply decodes_struct; [done| |].
    + eapply Z.le_lt_trans; [|exact Hl]. clear.
      induction fields as [|[[] f] fields IHf]; [done| |]; rewrite filter_cons.
      * rewrite decide_True, !zlen_cons by done. lia.
      * rewrite decide_False by done. exact IHf.
    + revert Hv. clear Hl. induction fields as [|[[] f] fields IHf]; intros Hv; [constructor| |].
      * destruct Hv as [Hf Hv]. constructor; [by apply IH|by apply IHf].
      * destruct Hv as [Hf Hv]. by apply IHf.
  - destruct Hv. apply decodes_string; [done| |done].
    repeat apply no_nul_app; try done; by apply (bool_decide_unpack _).
Qed.
End SmartField.
