(* ===== verification/EtwProvider.v ===== *)
(** * ETW providers ([pkg/etw])

    Event descriptors and options, the global table of providers with the
    enable callback, registration, and the writing of events.  The functions of
    the ETW API are an interface. *)
From S2P Require Import Prelude GoStrings Unicode Guid PaxTime EtwMetadata.

(** ** Descriptors and options *)
Definition ChannelTraceLogging : Z := 11.
Definition LevelAlways : Z := 0.
Definition LevelCritical : Z := 1.
Definition LevelError : Z := 2.
Definition LevelWarning : Z := 3.
Definition LevelInfo : Z := 4.
Definition LevelVerbose : Z := 5.

Record eventDescriptor := mkED {
  ed_id : Z; ed_version : Z; ed_channel : Z; ed_level : Z; ed_opcode : Z; ed_task : Z; ed_keyword : Z }.
Definition newEventDescriptor : eventDescriptor := mkED 0 0 ChannelTraceLogging LevelVerbose 0 0 0.
Definition identity (d : eventDescriptor) : Z := Z.lor (Z.shiftl (ed_version d) 16) (ed_id d).
Definition setIdentity (d : eventDescriptor) (identity : Z) : eventDescriptor :=
  mkED (u16 identity) (u8 (Z.shiftr identity 16)) (ed_channel d) (ed_level d) (ed_opcode d) (ed_task d) (ed_keyword d).

Record eventOptions := mkEO {
  descriptor : eventDescriptor; activityID : GUID; relatedActivityID : GUID; tags : Z }.
Definition EventOpt : Type := eventOptions → eventOptions.
Definition on_descriptor (f : eventDescriptor → eventDescriptor) : EventOpt := λ o,
  mkEO (f (descriptor o)) (activityID o) (relatedActivityID o) (tags o).
Definition WithLevel (level : Z) : EventOpt := on_descriptor (λ d,
  mkED (ed_id d) (ed_version d) (ed_channel d) level (ed_opcode d) (ed_task d) (ed_keyword d)).
Definition WithKeyword (keyword : Z) : EventOpt := on_descriptor (λ d,
  mkED (ed_id d) (ed_version d) (ed_channel d) (ed_level d) (ed_opcode d) (ed_task d) (Z.lor (ed_keyword d) keyword)).
Definition WithChannel (channel : Z) : EventOpt := on_descriptor (λ d,
  mkED (ed_id d) (ed_version d) channel (ed_level d) (ed_opcode d) (ed_task d) (ed_keyword d)).
Definition WithOpcode (opcode : Z) : EventOpt := on_descriptor (λ d,
  mkED (ed_id d) (ed_version d) (ed_channel d) (ed_level d) opcode (ed_task d) (ed_keyword d)).
Definition WithTags (newTags : Z) : EventOpt := λ o,
  mkEO (descriptor o) (activityID o) (relatedActivityID o) (Z.lor (tags o) newTags).
Definition WithActivityID (id : GUID) : EventOpt := λ o,
  mkEO (descriptor o) id (relatedActivityID o) (tags o).
Definition WithRelatedActivityID (id : GUID) : EventOpt := λ o,
  mkEO (descriptor o) (activityID o) id (tags o).

(** ** Providers *)

(** A callback is known by its name; its calls are recorded. *)
Definition ProviderStateDisable : Z := 0.
Definition ProviderStateEnable : Z := 1.
Definition ProviderStateCaptureState : Z := 2.

Record Provider := mkProvider {
  ID : GUID; handle : Z; metadata : list Z; callback : option nat; p_index : Z;
  enabled : bool; p_level : Z; keywordAny : Z; keywordAll : Z }.
Definition new_Provider (i : Z) : Provider := mkProvider zero_GUID 0 [] None i false 0 0 0.

(** The arguments of an enable notification. *)
Record notification := mkNote {
  sourceID : GUID; n_state : Z; n_level : Z; matchAnyKeyword : Z; matchAllKeyword : Z; filterData : Z }.

(** [Provider.String] *)
Definition Provider_String (p : option Provider) : list Z :=
  match p with None => str "<nil>" | Some p => GUID_String (ID p) end.

Definition max_uint64 : Z := 18446744073709551615.
Definition IsEnabledForLevelAndKeywords (p : option Provider) (level keywords : Z) : bool :=
  match p with
  | None => false
  | Some p =>
      if negb (enabled p) then false
      else if p_level p <? level then false
      else if negb (keywords =? 0) &&
              ((Z.land keywords (keywordAny p) =? 0) || negb (Z.land keywords (keywordAll p) =? keywordAll p))
      then false
      else true
  end.
Definition IsEnabledForLevel (p : option Provider) (level : Z) : bool :=
  IsEnabledForLevelAndKeywords p level max_uint64.
Definition IsEnabled (p : option Provider) : bool :=
  IsEnabledForLevelAndKeywords p LevelAlways max_uint64.

(** The providers of the program are objects [pg_objs], known by their position;
    [pg_m] and [pg_i] are the fields of the global [providerMap]; [pg_calls] are
    the calls of the callbacks so far. *)
Record globals := mkGlobals {
  pg_objs : list Provider; pg_m : gmap Z nat; pg_i : Z; pg_calls : list (nat * notification) }.

Definition newProvider : St globals nat := λ g,
  let i := pg_i g in
  let p := length (pg_objs g) in
  (Ret p, mkGlobals (pg_objs g ++ [new_Provider i]) (<[i := p]> (pg_m g)) (u64 (i + 1)) (pg_calls g)).
Definition deref (p : nat) : St globals Provider := λ g,
  match pg_objs g !! p with
  | Some x => (Ret x, g)
  | None => (Panic "nil pointer dereference", g)
  end.
Definition removeProvider (p : nat) : St globals unit :=
  x ← deref p;
  modify (λ g, mkGlobals (pg_objs g) (delete (p_index x) (pg_m g)) (pg_i g) (pg_calls g)).
Definition getProvider (index : Z) : St globals (option nat) := λ g, (Ret (pg_m g !! index), g).
Definition set_provider (p : nat) (f : Provider → Provider) : St globals unit :=
  modify (λ g, mkGlobals (alter f p (pg_objs g)) (pg_m g) (pg_i g) (pg_calls g)).

Definition set_enabled (b : bool) (x : Provider) : Provider :=
  mkProvider (ID x) (handle x) (metadata x) (callback x) (p_index x) b (p_level x) (keywordAny x) (keywordAll x).
Definition set_enable (n : notification) (x : Provider) : Provider :=
  mkProvider (ID x) (handle x) (metadata x) (callback x) (p_index x) true (n_level n) (matchAnyKeyword n) (matchAllKeyword n).

Definition providerCallback (n : notification) (i : Z) : St globals unit :=
  p ← getProvider i;
  match p with
  | None =>
      (* every state reads or writes a field of the provider *)
      panic "nil pointer dereference"
  | Some p =>
      _ ← (if n_state n =? ProviderStateDisable then set_provider p (set_enabled false)
           else if n_state n =? ProviderStateEnable then set_provider p (set_enable n)
           else mret ());
      x ← deref p;
      match callback x with
      | None => mret ()
      | Some cb => modify (λ g, mkGlobals (pg_objs g) (pg_m g) (pg_i g) (pg_calls g ++ [(cb, n)]))
      end
  end.

(** ** The ETW API *)
Record eventDataDescriptor := mkEDD { edd_buffer : list Z; edd_size : Z; edd_type : Z }.
Definition eventDataDescriptorTypeUserData : Z := 0.
Definition eventDataDescriptorTypeEventMetadata : Z := 1.
Definition eventDataDescriptorTypeProviderMetadata : Z := 2.
Definition newEventDataDescriptor (dataType : Z) (buffer : list Z) : res eventDataDescriptor :=
  if bool_decide (buffer = []) then Panic "index out of range"
  else Ret (mkEDD buffer (u32 (zlen buffer)) dataType).
Definition eventInfoClassProviderSetTraits : Z := 2.

Class EtwApi (E : Type) : Type := {
  eventRegister : GUID → Z → St E Z;
  eventSetInformation : Z → Z → list Z → St E unit;
  eventUnregister : Z → St E unit;
  eventWriteTransfer : Z → eventDescriptor → GUID → GUID → list eventDataDescriptor → St E unit }.

Section Provider.
Context {E : Type} `{EtwApi E}.
(** [crypto/sha1] and [strings.ToUpper] *)
Context (sha1 : list Z → list Z) (ToUpper : list Z → list Z).

Definition etw_namespace : GUID :=
  mkGUID 0x482C2DB2 0xC390 0x47C8 [0x87; 0xF8; 0x1A; 0x15; 0xBF; 0xC1; 0x30; 0xFB].
Definition providerIDFromName (name : list Z) : GUID :=
  let sum := sha1 (ToArray etw_namespace ++ concat (be_bytes 2 <$> to_utf16 (ToUpper name))) in
  let sum := <[7%nat := Z.lor (Z.land (sum !!! 7%nat) 0xf) 0x50]> sum in
  FromWindowsArray (ztake 16 sum).

Record providerOpts := mkPO { po_callback : option nat; po_id : GUID; po_group : GUID }.
Definition ProviderOpt : Type := providerOpts → providerOpts.
Definition WithCallback (cb : option nat) : ProviderOpt := λ o, mkPO cb (po_id o) (po_group o).
Definition WithID (id : GUID) : ProviderOpt := λ o, mkPO (po_callback o) id (po_group o).
Definition WithGroup (group : GUID) : ProviderOpt := λ o, mkPO (po_callback o) (po_id o) group.

(** The steps of both states. *)
Definition in_globals {A} (m : St globals A) : St (globals * E) A := λ s,
  let '(x, g) := m (fst s) in (x, (g, snd s)).
Definition in_api {A} (m : St E A) : St (globals * E) A := λ s,
  let '(x, e) := m (snd s) in (x, (fst s, e)).

Definition set_id (id : GUID) (cb : option nat) (x : Provider) : Provider :=
  mkProvider id (handle x) (metadata x) cb (p_index x) (enabled x) (p_level x) (keywordAny x) (keywordAll x).
Definition set_handle (h : Z) (x : Provider) : Provider :=
  mkProvider (ID x) h (metadata x) (callback x) (p_index x) (enabled x) (p_level x) (keywordAny x) (keywordAll x).
Definition set_metadata (m : list Z) (x : Provider) : Provider :=
  mkProvider (ID x) (handle x) m (callback x) (p_index x) (enabled x) (p_level x) (keywordAny x) (keywordAll x).

(** The buffer with its size in front. *)
Definition sized (b : list Z) : list Z :=
  let b := le_bytes 2 0 ++ b in overwrite b 0 (le_bytes 2 (u16 (zlen b))).
Definition provider_trait (group : GUID) : list Z :=
  if bool_decide (group = zero_GUID) then [] else sized ([1] ++ ToWindowsArray group).
Definition provider_metadata (name : list Z) (group : GUID) : list Z :=
  sized (name ++ [0] ++ provider_trait group).

(** The deferred removal of a provider that could not be set up. *)
Definition remove_on_error {A} (p : nat) (m : St (globals * E) A) : St (globals * E) A := λ s,
  match m s with
  | (Fail e, s') => match in_globals (removeProvider p) s' with
                    | (Ret _, s'') => (Fail e, s'')
                    | (Fail e', s'') => (Fail e', s'')
                    | (Panic w, s'') => (Panic w, s'')
                    | (NoFuel, s'') => (NoFuel, s'')
                    end
  | x => x
  end.

Definition NewProviderWithOptions (name : list Z) (options : list ProviderOpt) : St (globals * E) nat :=
  let opts := foldl (λ o f, f o) (mkPO None zero_GUID zero_GUID) options in
  let id := if bool_decide (po_id opts = zero_GUID) then providerIDFromName name else po_id opts in
  p ← in_globals newProvider;
  remove_on_error p (
    _ ← in_globals (set_provider p (set_id id (po_callback opts)));
    x ← in_globals (deref p);
    h ← in_api (eventRegister (ID x) (p_index x));
    _ ← in_globals (set_provider p (set_handle h));
    let md := provider_metadata name (po_group opts) in
    _ ← in_globals (set_provider p (set_metadata md));
    _ ← in_api (eventSetInformation h eventInfoClassProviderSetTraits md);
    mret p).
Definition NewProvider (name : list Z) (cb : option nat) : St (globals * E) nat :=
  NewProviderWithOptions name [WithCallback cb].
Definition NewProviderWithID (name : list Z) (id : GUID) (cb : option nat) : St (globals * E) nat :=
  NewProviderWithOptions name [WithID id; WithCallback cb].

(** [Provider.Close] *)
Definition Close (p : option nat) : St (globals * E) unit :=
  match p with
  | None => mret ()
  | Some p =>
      _ ← in_globals (removeProvider p);
      x ← in_globals (deref p);
      in_api (eventUnregister (handle x))
  end.

(** ** Events *)
Fixpoint map_res {A B} (f : A → res B) (l : list A) : res (list B) :=
  match l with
  | [] => Ret []
  | a :: l => b ← f a; bs ← map_res f l; Ret (b :: bs)
  end.

Definition writeEventRaw (p : Provider) (d : eventDescriptor) (activityID relatedActivityID : GUID)
    (metadataBlobs dataBlobs : list (list Z)) : St E unit :=
  pm ← lift (newEventDataDescriptor eventDataDescriptorTypeProviderMetadata (metadata p));
  ms ← lift (map_res (newEventDataDescriptor eventDataDescriptorTypeEventMetadata) metadataBlobs);
  ds ← lift (map_res (newEventDataDescriptor eventDataDescriptorTypeUserData) dataBlobs);
  eventWriteTransfer (handle p) d activityID relatedActivityID (pm :: ms ++ ds).

Definition apply_options (eventOpts : list EventOpt) : eventOptions :=
  foldl (λ o f, f o) (mkEO newEventDescriptor zero_GUID zero_GUID 0) eventOpts.

Definition WriteEvent (p : option Provider) (name : list Z) (eventOpts : list EventOpt) (fieldOpts : list FieldOpt) :
    St E unit :=
  match p with
  | None => mret ()
  | Some x =>
      let options := apply_options eventOpts in
      if negb (IsEnabledForLevelAndKeywords p (ed_level (descriptor options)) (ed_keyword (descriptor options)))
      then mret ()
      else
        match (_ ← writeEventHeader name (tags options); run_all fieldOpts) (mkEvent [] []) with
        | (Ret _, ev) =>
            let dataBlobs := if 0 <? zlen (ed ev) then [ed ev] else [] in
            mb ← lift (em_toBytes (em ev));
            writeEventRaw x (descriptor options) (activityID options) (relatedActivityID options) [mb] dataBlobs
        | (Fail e, _) => fail e
        | (Panic w, _) => panic w
        | (NoFuel, _) => nofuel
        end
  end.
End Provider.

(** ** What reaches the consumer *)
Section WriteEvent.
Context {E : Type} `{EtwApi E} (wordSize : Z) (NsecToFiletime : Z → EtwMetadata.Filetime).

(** The option of a named value. *)
Definition smart (f : list Z * any) : FieldOpt := SmartField wordSize NsecToFiletime (fst f) (snd f).
Definition smart_items (fs : list (list Z * any)) : list item :=
  (λ f, smart_item wordSize NsecToFiletime (fst f) (snd f)) <$> fs.

Lemma smart_decodes fs :
  (wordSize = 4 ∨ wordSize = 8) →
  (∀ n, 0 ≤ ft_Low (NsecToFiletime n) < 4294967296 ∧ 0 ≤ ft_High (NsecToFiletime n) < 4294967296) →
  Forall (λ f, no_nul (fst f) ∧ any_ok (snd f)) fs →
  Forall2 decodes (smart <$> fs) (smart_items fs).
Proof.
  intros Hw Hft Hfs. unfold smart_items. apply Forall2_fmap. apply Forall_Forall2_diag.
  eapply Forall_impl; [exact Hfs|]. intros [name v] [Hn Hv]. by apply SmartField_decodes.
Qed.

Lemma writeEventHeader_writes name t :
  ∃ bs, writes (writeEventHeader name t) (le_bytes 2 0 ++ bs ++ (name ++ [0])) [] ∧
    ∀ tl, dec_tags 21 (bs ++ tl) = Some (t mod 2 ^ 28, tl).
Proof.
  pose proof (groups_exist (t mod 2 ^ 28)) as Hg. eexists. split.
  - unfold writeEventHeader. apply (writes_bind _ _ _ [] _ []); [apply writes_em|].
    apply (writes_bind _ _ _ [] _ []); [|apply writes_em].
    unfold writeTags. rewrite (land_ones_mod _ 28) by done. exact (writeTags_bytes _ _ _ _ _ Hg).
  - intros tl. rewrite (dec_tag_bytes _ _ _ _ _ _ Hg). by rewrite Z.mod_mod.
Qed.

Lemma em_toBytes_sized b :
  em_toBytes (le_bytes 2 0 ++ b) = Ret (le_bytes 2 (u16 (2 + zlen b)) ++ b).
Proof.
  unfold em_toBytes. rewrite zlen_app, zlen_le_bytes. change (Z.of_nat 2) with 2. pose_lens.
  replace (2 + zlen b <? 2) with false by lia. unfold overwrite.
  rewrite ztake_0, zlen_le_bytes. cbn [app]. by rewrite zdrop_app_eq.
Qed.
End WriteEvent.

(** What [WriteEvent] hands to the API, decoded; the blobs are the buffers of the event. *)
Lemma WriteEvent_fields {E} `{EtwApi E} x name opts fields items (e : E) :
  metadata x ≠ [] → no_nul name → Forall2 decodes fields items →
  let o := apply_options opts in
  if IsEnabledForLevelAndKeywords (Some x) (ed_level (descriptor o)) (ed_keyword (descriptor o))
  then ∃ mb db,
    (∃ ev, (_ ← writeEventHeader name (tags o); run_all fields) (mkEvent [] []) =
        (Ret (), ev) ∧ zlen mb = zlen (em ev) ∧ db = ed ev) ∧
    WriteEvent (Some x) name opts fields e =
      eventWriteTransfer (handle x) (descriptor o) (activityID o) (relatedActivityID o)
        (mkEDD (metadata x) (u32 (zlen (metadata x))) 2 :: mkEDD mb (u32 (zlen mb)) 1 ::
         if bool_decide (db = []) then [] else [mkEDD db (u32 (zlen db)) 0]) e ∧
    ∃ body fuel, dec_header mb = Some (u16 (zlen mb), tags o mod 2 ^ 28, name, body) ∧
      dec_fields fuel (length items) body db = Some (items, [], [])
  else WriteEvent (Some x) name opts fields e = (Ret (), e).
Proof.
  intros Hmd Hn Hfs o. unfold WriteEvent. fold o. destruct (IsEnabledForLevelAndKeywords _ _ _); [|done].
  cbn [negb]. destruct (decodes_list fields items Hfs) as (mb & db & k & Hm & Hd).
  destruct (writeEventHeader_writes name (tags o)) as (bs & Hh & Ht).
  rewrite (writes_bind _ _ _ [] mb db Hh Hm). cbn [em ed app].
  set (b := bs ++ (name ++ [0]) ++ mb).
  replace ((le_bytes 2 0 ++ bs ++ name ++ [0]) ++ mb) with (le_bytes 2 0 ++ b) by (unfold b; by rewrite <- !app_assoc).
  rewrite em_toBytes_sized. set (mb' := le_bytes 2 (u16 (2 + zlen b)) ++ b).
  assert (Hb : zlen mb' = 2 + zlen b) by (unfold mb'; by rewrite zlen_app, zlen_le_bytes).
  exists mb', db. split; [|split].
  - exists (mkEvent (le_bytes 2 0 ++ b) db). split; [|split; [|done]].
    + done.
    + cbn [em]. rewrite zlen_app, zlen_le_bytes. lia.
  - rewrite (St_bind_Ret _ (lift _) e mb' e eq_refl). cbv beta. unfold writeEventRaw.
    assert (Hed : ∀ t b, b ≠ [] → newEventDataDescriptor t b = Ret (mkEDD b (u32 (zlen b)) t)).
    { intros t b' Hb'. unfold newEventDataDescriptor. by rewrite bool_decide_eq_false_2. }
    destruct db as [|c db]; [|replace (0 <? zlen (c :: db)) with true by len]; cbn [map_res];
      rewrite !Hed by (done || by unfold mb'); done.
  - exists mb, k. split.
    + unfold dec_header, mb'. rewrite dec_num_app by apply length_le_bytes. cbn [mbind option_bind].
      rewrite le_val_le16 by apply u16_range. unfold b at 2. rewrite Ht. cbn [mbind option_bind].
      rewrite dec_str_app by done. unfold mb' in Hb. by rewrite Hb.
    + specialize (Hd k [] [] (Nat.le_refl _)). by rewrite !app_nil_r in Hd.
Qed.

(** C11: what an enabled provider writes is what the consumer reads: the API gets
    the provider's metadata, one metadata blob and (when there is data) one data
    blob; decoding the blobs gives the length, the low 28 bits of the tags, the
    name and, field by field, the values that were logged, with nothing left
    over. A provider that is not enabled for the event writes nothing. *)
Theorem WriteEvent_decodes {E} `{EtwApi E} wordSize NsecToFiletime x name opts fs (e : E) :
  (wordSize = 4 ∨ wordSize = 8) →
  (∀ n, 0 ≤ ft_Low (NsecToFiletime n) < 4294967296 ∧ 0 ≤ ft_High (NsecToFiletime n) < 4294967296) →
  metadata x ≠ [] → no_nul name → Forall (λ f, no_nul (fst f) ∧ any_ok (snd f)) fs →
  let o := apply_options opts in
  if IsEnabledForLevelAndKeywords (Some x) (ed_level (descriptor o)) (ed_keyword (descriptor o))
  then ∃ mb db,
    WriteEvent (Some x) name opts (smart wordSize NsecToFiletime <$> fs) e =
      eventWriteTransfer (handle x) (descriptor o) (activityID o) (relatedActivityID o)
        (mkEDD (metadata x) (u32 (zlen (metadata x))) 2 :: mkEDD mb (u32 (zlen mb)) 1 ::
         if bool_decide (db = []) then [] else [mkEDD db (u32 (zlen db)) 0]) e ∧
    ∃ body fuel, dec_header mb = Some (u16 (zlen mb), tags o mod 2 ^ 28, name, body) ∧
      dec_fields fuel (length fs) body db = Some (smart_items wordSize NsecToFiletime fs, [], [])
  else WriteEvent (Some x) name opts (smart wordSize NsecToFiletime <$> fs) e = (Ret (), e).
Proof.
  intros Hw Hft Hmd Hn Hfs o.
  pose proof (WriteEvent_fields x name opts _ _ e Hmd Hn (smart_decodes _ _ fs Hw Hft Hfs)) as HW.
  cbv zeta in HW. fold o in HW. destruct (IsEnabledForLevelAndKeywords _ _ _); [|done].
  destruct HW as (mb & db & _ & HW). exists mb, db. unfold smart_items in HW. by rewrite length_fmap in HW.
Qed.

(** An API that records the events it is given. *)
Definition event_log : Type := list (eventDescriptor * list eventDataDescriptor).
#[export] Instance log_api : EtwApi event_log := {|
  eventRegister _ i := mret (100 + i);
  eventSetInformation _ _ _ := mret ();
  eventUnregister _ := mret ();
  eventWriteTransfer _ d _ _ bs := modify (λ l, l ++ [(d, bs)]) |}.
Definition ex_provider : Provider :=
  mkProvider zero_GUID 7 (provider_metadata (str "P") zero_GUID) None 0 true 5 max_uint64 0.
Definition ex_fields : list (list Z * any) :=
  [(str "n", ANum Kint (-5)); (str "t", AStruct [(true, AString (str "x")); (false, ABool true); (true, ANums Kuint16 [1; 2])])].
Definition ex_Filetime (n : Z) : EtwMetadata.Filetime := mkFiletime (u32 n) (u32 (n / 4294967296)).

Definition ex_opts : list EventOpt := [WithTags 5; WithKeyword 1].

Lemma WriteEvent_decodes_witness :
  ∃ mb db, snd (WriteEvent (Some ex_provider) (str "E") ex_opts (smart 8 ex_Filetime <$> ex_fields) []) =
      [(descriptor (apply_options ex_opts),
        [mkEDD (metadata ex_provider) 4 2; mkEDD mb (u32 (zlen mb)) 1; mkEDD db (u32 (zlen db)) 0])] ∧
    ∃ body fuel, dec_header mb = Some (u16 (zlen mb), 5, str "E", body) ∧
      dec_fields fuel 2 body db =
        Some ([Scalar (str "n") inTypeInt64 0 (VNum 18446744073709551611);
               Nested (str "t") [Scalar (str "t") inTypeANSIString outTypeUTF8 (VStr (str "x"));
                                 Array (str "t") inTypeUint16 0 [VNum 1; VNum 2]]], [], []).
Proof.
  destruct (WriteEvent_decodes 8 ex_Filetime ex_provider (str "E") ex_opts ex_fields ([] : event_log))
    as (mb & db & E & body & fuel & Hh & Hd).
  - by right.
  - intros n. split; apply u32_range.
  - done.
  - apply (bool_decide_unpack _). reflexivity.
  - repeat constructor; apply (bool_decide_unpack _); reflexivity.
  - destruct db as [|c db].
    { apply (f_equal (λ r : res unit * event_log, length (concat (snd <$> snd r)))) in E. vm_compute in E. discriminate E. }
    exists mb, (c :: db). split; [exact (f_equal snd E)|]. exists body, fuel. split; [exact Hh|exact Hd].
Defined.

(** ** Registration *)
Definition table_ok (g : globals) : Prop :=
  0 ≤ pg_i g ∧ ∀ i p, pg_m g !! i = Some p →
    i < pg_i g ∧ ∃ x, pg_objs g !! p = Some x ∧ p_index x = i.

Lemma sized_eq b : sized b = le_bytes 2 (u16 (2 + zlen b)) ++ b.
Proof.
  unfold sized, overwrite. rewrite ztake_0, zlen_app, !zlen_le_bytes. cbn [app]. by rewrite zdrop_app_eq.
Qed.

Section Registration.
Context {E : Type} `{EtwApi E} (sha1 ToUpper : list Z → list Z).

Definition the_opts (options : list ProviderOpt) : providerOpts :=
  foldl (λ o f, f o) (mkPO None zero_GUID zero_GUID) options.
Definition the_id (name : list Z) (options : list ProviderOpt) : GUID :=
  if bool_decide (po_id (the_opts options) = zero_GUID) then providerIDFromName sha1 ToUpper name
  else po_id (the_opts options).

Lemma table_fresh g : table_ok g → pg_m g !! pg_i g = None.
Proof.
  intros [_ Ht]. destruct (pg_m g !! pg_i g) as [p|] eqn:Hp; [|done].
  destruct (Ht _ _ Hp) as [Hlt _]. lia.
Qed.
(** The table with a new provider, entered or not. *)
Lemma table_ok_add g : table_ok g → ∀ x, p_index x = pg_i g →
  table_ok (mkGlobals (pg_objs g ++ [x]) (<[pg_i g := length (pg_objs g)]> (pg_m g)) (pg_i g + 1) (pg_calls g)).
Proof.
  intros [Hi Hm] x Hx. split; cbn; [lia|]. intros i q. rewrite lookup_insert_Some. intros [[<- <-]|[Hne Hq]].
  - split; [lia|]. exists x. by rewrite lookup_app_r, Nat.sub_diag by lia.
  - destruct (Hm _ _ Hq) as (? & y & Hy & ?). split; [lia|]. exists y. split; [by apply lookup_app_l_Some|done].
Qed.
Lemma table_ok_skip g : table_ok g → ∀ x,
  table_ok (mkGlobals (pg_objs g ++ [x]) (pg_m g) (pg_i g + 1) (pg_calls g)).
Proof.
  intros [Hi Hm] x. split; cbn; [lia|]. intros i q Hq. destruct (Hm _ _ Hq) as (? & y & Hy & ?).
  split; [lia|]. exists y. split; [by apply lookup_app_l_Some|done].
Qed.
Lemma alter_last {A} (f : A → A) l x : alter f (length l) (l ++ [x]) = l ++ [f x].
Proof.
  rewrite <- (Nat.add_0_r (length l)). by rewrite alter_app_r.
Qed.
Lemma lookup_last {A} (l : list A) x : (l ++ [x]) !! length l = Some x.
Proof. rewrite lookup_app_r by lia. by rewrite Nat.sub_diag. Qed.

(** The provider just added: changing, reading and removing it. *)
Lemma set_last f objs x m n c (e : E) :
  in_globals (set_provider (length objs) f) (mkGlobals (objs ++ [x]) m n c, e) =
    (Ret (), (mkGlobals (objs ++ [f x]) m n c, e)).
Proof. unfold in_globals, set_provider, modify. cbn. by rewrite alter_last. Qed.
Lemma deref_last objs x m n c (e : E) :
  in_globals (deref (length objs)) (mkGlobals (objs ++ [x]) m n c, e) = (Ret x, (mkGlobals (objs ++ [x]) m n c, e)).
Proof. unfold in_globals, deref. cbn. by rewrite lookup_last. Qed.
Lemma remove_last objs x m n c (e : E) :
  m !! p_index x = None →
  in_globals (removeProvider (length objs)) (mkGlobals (objs ++ [x]) (<[p_index x := length objs]> m) n c, e) =
    (Ret (), (mkGlobals (objs ++ [x]) m n c, e)).
Proof.
  intros Hm. unfold in_globals. cbn [fst snd]. unfold removeProvider, deref.
  erewrite St_bind_Ret; [|cbn [pg_objs]; by rewrite lookup_last].
  unfold modify. cbn [pg_objs pg_m pg_i pg_calls]. by rewrite delete_insert_id.
Qed.
Lemma in_api_eq {A} (m : St E A) g e x e' : m e = (x, e') → in_api m (g, e) = (x, (g, e')).
Proof. intros Hm. unfold in_api. cbn. by rewrite Hm. Qed.
End Registration.

(** registering a provider either enters it in the table, under a new index,
    with the ID, callback, handle and metadata it was asked for and disabled, or
    reports the error of the API and leaves the table as it was. *)
Theorem NewProviderWithOptions_spec {E} `{EtwApi E} sha1 ToUpper name options g (e : E) :
  table_ok g → pg_i g < max_uint64 →
  let o := the_opts options in
  let id := the_id sha1 ToUpper name options in
  let md := provider_metadata name (po_group o) in
  let p := length (pg_objs g) in
  ∃ g', table_ok g' ∧ pg_i g' = pg_i g + 1 ∧ pg_calls g' = pg_calls g ∧
  match eventRegister id (pg_i g) e with
  | (Ret h, e1) =>
      pg_objs g' = pg_objs g ++ [mkProvider id h md (po_callback o) (pg_i g) false 0 0 0] ∧
      match eventSetInformation h eventInfoClassProviderSetTraits md e1 with
      | (Ret _, e2) => NewProviderWithOptions sha1 ToUpper name options (g, e) = (Ret p, (g', e2)) ∧
                       pg_m g' = <[pg_i g := p]> (pg_m g)
      | (Fail err, e2) => NewProviderWithOptions sha1 ToUpper name options (g, e) = (Fail err, (g', e2)) ∧
                          pg_m g' = pg_m g
      | _ => True
      end
  | (Fail err, e1) => NewProviderWithOptions sha1 ToUpper name options (g, e) = (Fail err, (g', e1)) ∧
                      pg_m g' = pg_m g
  | _ => True
  end.
Proof.
  intros Hok Hmax o id md p. pose proof (table_fresh g Hok) as Hfresh. destruct Hok as [Hi Hm].
  assert (Hnew : in_globals (E:=E) newProvider (g, e) =
    (Ret p, (mkGlobals (pg_objs g ++ [new_Provider (pg_i g)]) (<[pg_i g := p]> (pg_m g)) (pg_i g + 1) (pg_calls g), e))).
  { unfold in_globals, newProvider. cbn [fst snd]. unfold max_uint64 in Hmax. rewrite u64_small by lia. done. }
  set (with_new := λ x m, mkGlobals (pg_objs g ++ [x]) m (pg_i g + 1) (pg_calls g)).
  pose proof (table_ok_add g (conj Hi Hm)) as Htab. pose proof (table_ok_skip g (conj Hi Hm)) as Htab'.
  unfold NewProviderWithOptions. fold (the_opts options). fold o. fold (the_id sha1 ToUpper name options). fold id. fold md.
  rewrite (St_bind_Ret _ _ _ _ _ Hnew). unfold remove_on_error, p.
  rewrite (St_bind_Ret _ _ _ _ _ (set_last _ _ _ _ _ _ _)), (St_bind_Ret _ _ _ _ _ (deref_last _ _ _ _ _ _)).
  cbn [set_id new_Provider ID p_index handle metadata enabled p_level keywordAny keywordAll].
  destruct (eventRegister id (pg_i g) e) as [[h|err| |] e1] eqn:Er.
  - rewrite (St_bind_Ret _ _ _ _ _ (in_api_eq _ _ _ _ _ Er)), (St_bind_Ret _ _ _ _ _ (set_last _ _ _ _ _ _ _)),
      (St_bind_Ret _ _ _ _ _ (set_last _ _ _ _ _ _ _)).
    cbn [set_handle set_metadata ID callback p_index handle metadata enabled p_level keywordAny keywordAll].
    set (x1 := mkProvider id h md (po_callback o) (pg_i g) false 0 0 0).
    destruct (eventSetInformation h _ md e1) as [[|err| |] e2] eqn:Es.
    + rewrite (St_bind_Ret _ _ _ _ _ (in_api_eq _ _ _ _ _ Es)).
      exists (with_new x1 (<[pg_i g := p]> (pg_m g))). split_and!; try apply Htab; done.
    + rewrite (St_bind_Fail _ _ _ _ _ (in_api_eq _ _ _ _ _ Es)), (remove_last _ x1) by done.
      exists (with_new x1 (pg_m g)). split_and!; try apply Htab'; done.
    + exists (with_new x1 (<[pg_i g := p]> (pg_m g))). split_and!; try apply Htab; done.
    + exists (with_new x1 (<[pg_i g := p]> (pg_m g))). split_and!; try apply Htab; done.
  - set (x0 := mkProvider id 0 [] (po_callback o) (pg_i g) false 0 0 0).
    rewrite (St_bind_Fail _ _ _ _ _ (in_api_eq _ _ _ _ _ Er)), (remove_last _ x0) by done.
    exists (with_new x0 (pg_m g)). split_and!; try apply Htab'; done.
  - exists (mkGlobals (pg_objs g ++ [new_Provider (pg_i g)]) (pg_m g) (pg_i g + 1) (pg_calls g)). by split_and!.
  - exists (mkGlobals (pg_objs g ++ [new_Provider (pg_i g)]) (pg_m g) (pg_i g + 1) (pg_calls g)). by split_and!.
Qed.

Lemma NewProviderWithOptions_spec_witness :
  ∃ g', NewProviderWithOptions (λ _, []) id (str "P") [WithID etw_namespace] (mkGlobals [] ∅ 0 [], [] : event_log) =
    (Ret 0%nat, (g', [])) ∧ table_ok g' ∧ pg_m g' = {[ 0 := 0%nat ]}.
Proof.
  destruct (NewProviderWithOptions_spec (λ _, []) id (str "P") [WithID etw_namespace] (mkGlobals [] ∅ 0 []) ([] : event_log))
    as (g' & Ht & _ & _ & _ & E & Hm).
  - split; [done|]. intros i p Hp. discriminate Hp.
  - done.
  - exists g'. split; [exact E|]. split; [exact Ht|exact Hm].
Defined.

(** a provider's metadata is readable: its length in front (modulo 2^16),
    then the name, then either nothing or the group trait with the group's
    GUID. *)
Theorem provider_metadata_decodes name group :
  no_nul name → guid_ok group →
  let md := provider_metadata name group in
  ∃ trait, dec_num 2 md = Some (u16 (zlen md), name ++ [0] ++ trait) ∧
    dec_str (name ++ [0] ++ trait) = Some (name, trait) ∧
    if bool_decide (group = zero_GUID) then trait = []
    else ∃ b, trait = le_bytes 2 19 ++ [1] ++ b ∧ zlen trait = 19 ∧ FromWindowsArray b = group.
Proof.
  intros Hn Hg md. unfold md, provider_metadata. exists (provider_trait group). rewrite sized_eq. split; [|split].
  - rewrite dec_num_app, le_val_le16 by (apply length_le_bytes || apply u16_range).
    by rewrite (zlen_app (le_bytes _ _)), zlen_le_bytes.
  - rewrite app_assoc. by apply dec_str_app.
  - unfold provider_trait. case_bool_decide; [done|]. exists (ToWindowsArray group). rewrite sized_eq.
    assert (Hl : zlen (ToWindowsArray group) = 16).
    { unfold ToWindowsArray, toArray. rewrite !zlen_app, !zlen_order_bytes.
      destruct Hg as (_ & _ & _ & Hl & _). unfold zlen. rewrite Hl. done. }
    rewrite (zlen_app [1]), Hl. split_and!; [done|by rewrite !zlen_app, Hl|].
    unfold FromWindowsArray, ToWindowsArray. by apply fromArray_toArray_eq.
Qed.

Lemma provider_metadata_decodes_witness :
  ∃ trait, dec_num 2 (provider_metadata (str "P") etw_namespace) = Some (23, str "P" ++ [0] ++ trait) ∧ zlen trait = 19.
Proof.
  destruct (provider_metadata_decodes (str "P") etw_namespace) as (trait & E & _ & Ht).
  - apply (bool_decide_unpack _). reflexivity.
  - split_and!; try done. apply (bool_decide_unpack _). reflexivity.
  - exists trait. split; [exact E|]. rewrite bool_decide_eq_false_2 in Ht by discriminate.
    destruct Ht as (b & -> & Hl & _). exact Hl.
Defined.

(** an ID made from a name is a version 5 GUID. *)
Theorem providerIDFromName_version (sha1 ToUpper : list Z → list Z) name :
  (∀ b, length (sha1 b) = 20%nat ∧ bytes_ok (sha1 b)) →
  Version (providerIDFromName sha1 ToUpper name) = 5.
Proof.
  intros Hsha. unfold providerIDFromName. cbv zeta. set (sum := sha1 _).
  destruct (Hsha (ToArray etw_namespace ++ concat (be_bytes 2 <$> to_utf16 (ToUpper name)))) as [Hl Hb].
  fold sum in Hl, Hb. clearbody sum. do 9 (destruct sum as [|? sum]; [done|]).
  do 7 (apply Forall_cons in Hb as [? Hb]). apply Forall_cons in Hb as [_ _].
  unfold Version, FromWindowsArray, fromArray. cbn [Data3]. unfold ztake, zdrop.
  change (Z.to_nat 16) with 16%nat. change (Z.to_nat 6) with 6%nat. change (Z.to_nat 2) with 2%nat.
  cbn [list_lookup_total list_insert insert lookup_total take drop order_val le_val].
  rewrite Z.shiftr_land, Z.shiftr_div_pow2 by lia. change (Z.shiftr 61440 12) with (Z.ones 4).
  rewrite (Z.land_ones _ 4) by lia. change 0xf with (Z.ones 4). rewrite (Z.land_ones _ 4) by lia.
  rewrite Z.lor_comm. change 0x50 with (5 * 2 ^ 4). rewrite lor_add_low by (try apply Z.mod_pos_bound; lia).
  unfold byte_ok in *. change (2 ^ 12) with 4096. change (2 ^ 4) with 16 in *.
  match goal with |- context [?d / 4096] => assert (E : d / 4096 = 5) end.
  { symmetry. apply (Z.div_unique _ _ _ (z5 + 256 * (z6 mod 16))); [left|];
      pose proof (Z.mod_pos_bound z6 16 ltac:(lia)); lia. }
  by rewrite E.
Qed.
Lemma providerIDFromName_version_witness :
  Version (providerIDFromName (λ b, replicate 20 7) id (str "P")) = 5.
Proof.
  apply providerIDFromName_version. intros b. split; [reflexivity|]. apply (bool_decide_unpack _). reflexivity.
Defined.
