(* ===== verification/EtwLifecycle.v ===== *)
(** * ETW: providers and notifications ([pkg/etw])

    The steps of creating and closing providers, interleaved with the enable
    notifications that ETW delivers to any registered provider.  A notification
    looks its provider up in the global table and must not find it gone. *)
From S2P Require Import Prelude GoStrings Unicode Guid PaxTime EtwMetadata EtwProvider.

(** Where the call that made or closes a provider is. *)
Inductive phase : Type :=
| Created      (** entered in the table, not registered *)
| Registered   (** registered, [eventSetInformation] to come *)
| Live         (** [NewProviderWithOptions] returned it *)
| Failing (registered : bool) (** an error is about to remove it from the table *)
| Failed (registered : bool)  (** removed *)
| Closing      (** [Close] removed it from the table, [eventUnregister] to come *)
| Closed.

#[export] Instance phase_eq_dec : EqDecision phase.
Proof. solve_decision. Defined.

(** The program's providers, their phases, and ETW's registrations: the context
    index of every registered handle. *)
Record system := mkSystem { s_g : globals; s_phase : gmap nat phase; s_reg : gmap Z Z }.

(** The new state when a step on the globals returns. *)
Definition run {A} (m : St globals A) (g : globals) : option globals :=
  match m g with (Ret _, g') => Some g' | _ => None end.

Inductive step : system → system → Prop :=
| step_new g ph reg g' p :
    newProvider g = (Ret p, g') → pg_i g < max_uint64 →
    step (mkSystem g ph reg) (mkSystem g' (<[p := Created]> ph) reg)
| step_register g ph reg p h x g' :
    ph !! p = Some Created → reg !! h = None → pg_objs g !! p = Some x →
    run (set_provider p (set_handle h)) g = Some g' →
    step (mkSystem g ph reg) (mkSystem g' (<[p := Registered]> ph) (<[h := p_index x]> reg))
| step_register_fails g ph reg p :
    ph !! p = Some Created →
    step (mkSystem g ph reg) (mkSystem g (<[p := Failing false]> ph) reg)
| step_information g ph reg p :
    ph !! p = Some Registered →
    step (mkSystem g ph reg) (mkSystem g (<[p := Live]> ph) reg)
| step_information_fails g ph reg p :
    ph !! p = Some Registered →
    step (mkSystem g ph reg) (mkSystem g (<[p := Failing true]> ph) reg)
| step_remove g ph reg p b g' :
    ph !! p = Some (Failing b) → run (removeProvider p) g = Some g' →
    step (mkSystem g ph reg) (mkSystem g' (<[p := Failed b]> ph) reg)
| step_close g ph reg p g' :
    ph !! p = Some Live → run (removeProvider p) g = Some g' →
    step (mkSystem g ph reg) (mkSystem g' (<[p := Closing]> ph) reg)
| step_unregister g ph reg p x :
    ph !! p = Some Closing → pg_objs g !! p = Some x →
    step (mkSystem g ph reg) (mkSystem g (<[p := Closed]> ph) (delete (handle x) reg))
| step_notify g ph reg h i n g' :
    reg !! h = Some i → run (providerCallback n i) g = Some g' →
    step (mkSystem g ph reg) (mkSystem g' ph reg).

Definition init : system := mkSystem (mkGlobals [] ∅ 0 []) ∅ ∅.
Definition reachable : system → Prop := rtc step init.

(** ** The invariant *)
Definition in_table (f : phase) : bool :=
  match f with Created | Registered | Live | Failing _ => true | _ => false end.
Definition is_registered (f : phase) : bool :=
  match f with Registered | Live | Closing => true | Failing b | Failed b => b | _ => false end.

Record inv (s : system) : Prop := {
  inv_phase p f : s_phase s !! p = Some f → ∃ x, pg_objs (s_g s) !! p = Some x ∧ p_index x < pg_i (s_g s) ∧
    (in_table f = true → pg_m (s_g s) !! p_index x = Some p);
  inv_index p q x y : pg_objs (s_g s) !! p = Some x → pg_objs (s_g s) !! q = Some y →
    p_index x = p_index y → p = q;
  inv_bound p x : pg_objs (s_g s) !! p = Some x → 0 ≤ p_index x < pg_i (s_g s);
  inv_pos : 0 ≤ pg_i (s_g s) ≤ max_uint64;
  inv_reg h i : s_reg s !! h = Some i → ∃ p x f, s_phase s !! p = Some f ∧ pg_objs (s_g s) !! p = Some x ∧
    p_index x = i ∧ handle x = h ∧ is_registered f = true;
  inv_table i p : pg_m (s_g s) !! i = Some p → ∃ x, pg_objs (s_g s) !! p = Some x ∧ p_index x = i
}.

(** The phase of a provider changes within those in the table, or leaves it. *)
Lemma inv_set_phase g ph reg p f f' :
  inv (mkSystem g ph reg) → ph !! p = Some f → (in_table f' = true → in_table f = true) →
  is_registered f' = is_registered f → inv (mkSystem g (<[p := f']> ph) reg).
Proof.
  intros [H1 H2 H3 H4 H5 H6] Hp Ht Hr. split; cbn in *; try done.
  - intros q fq. rewrite lookup_insert_Some. intros [[<- <-]|[_ Hq]]; [|by apply H1].
    destruct (H1 _ _ Hp) as (x & ? & ? & Hx). exists x. split_and!; [done..|]. intros. apply Hx. auto.
  - intros h i Hh. destruct (H5 _ _ Hh) as (q & x & fq & Hq & ? & ? & ? & Hfq).
    destruct (decide (q = p)) as [->|Hne].
    + exists p, x, f'. rewrite lookup_insert_eq. split_and!; try done. congruence.
    + exists q, x, fq. by rewrite lookup_insert_ne.
Qed.

(** Changing fields of a provider other than its index and handle. *)
Lemma lookup_alter_obj f p q (l : list Provider) x :
  l !! q = Some x → alter f p l !! q = Some (if decide (q = p) then f x else x).
Proof.
  intros Hq. case_decide as Hd.
  - subst. rewrite list_lookup_alter_eq. by rewrite Hq.
  - by rewrite list_lookup_alter_ne.
Qed.
Lemma lookup_alter_obj_inv f p q (l : list Provider) y :
  alter f p l !! q = Some y → ∃ x, l !! q = Some x ∧ y = if decide (q = p) then f x else x.
Proof.
  intros Hq. case_decide as Hd.
  - subst. rewrite list_lookup_alter_eq in Hq. apply fmap_Some in Hq as (x & ? & ->). by exists x.
  - rewrite list_lookup_alter_ne in Hq by done. by exists y.
Qed.

Lemma inv_alter g ph reg f p calls :
  (∀ x, p_index (f x) = p_index x) → (∀ x, handle (f x) = handle x) →
  inv (mkSystem g ph reg) →
  inv (mkSystem (mkGlobals (alter f p (pg_objs g)) (pg_m g) (pg_i g) calls) ph reg).
Proof.
  intros Hi Hh [H1 H2 H3 H4 H5 H6]. split; cbn in *; try done.
  - intros q fq Hq. destruct (H1 _ _ Hq) as (x & Hx & ? & ?).
    eexists. split; [by apply lookup_alter_obj|]. case_decide; rewrite ?Hi; done.
  - intros q q' x x' Hx Hx' E. apply lookup_alter_obj_inv in Hx as (y & Hy & ->), Hx' as (y' & Hy' & ->).
    apply (H2 _ _ y y'); [done..|]. revert E. repeat case_decide; by rewrite ?Hi.
  - intros q x Hx. apply lookup_alter_obj_inv in Hx as (y & Hy & ->). case_decide; rewrite ?Hi; by apply (H3 q).
  - intros h i Hr. destruct (H5 _ _ Hr) as (q & x & fq & ? & Hx & ? & ? & ?).
    exists q, (if decide (q = p) then f x else x), fq.
    split_and!; [done|by apply lookup_alter_obj|case_decide; by rewrite ?Hi|case_decide; by rewrite ?Hh|done].
  - intros i q Hq. destruct (H6 _ _ Hq) as (x & Hx & ?). eexists. split; [by apply lookup_alter_obj|].
    case_decide; by rewrite ?Hi.
Qed.

(** Taking a provider out of the table, together with its phase. *)
Lemma inv_remove g ph reg p f f' g' :
  inv (mkSystem g ph reg) → ph !! p = Some f → in_table f' = false → is_registered f' = is_registered f →
  run (removeProvider p) g = Some g' → inv (mkSystem g' (<[p := f']> ph) reg).
Proof.
  intros Hinv Hp Ht Hr Hrun. pose proof Hinv as [H1 H2 H3 H4 H5 H6]. cbn in *.
  destruct (H1 _ _ Hp) as (x & Hx & _ & _). unfold run, removeProvider, deref in Hrun.
  rewrite St_bind_eq, Hx in Hrun. injection Hrun as <-. split; cbn; try done.
  - intros q fq. rewrite lookup_insert_Some. intros [[<- <-]|[Hne Hq]].
    + exists x. split_and!; [done|by apply (H3 p)|congruence].
    + destruct (H1 _ _ Hq) as (y & Hy & ? & Hm). exists y. split_and!; [done..|]. intros Hf.
      rewrite lookup_delete_ne; [by apply Hm|]. intros E. apply Hne. by apply (H2 _ _ x y).
  - intros h i Hh. destruct (H5 _ _ Hh) as (q & y & fq & Hq & ? & ? & ? & Hfq).
    destruct (decide (q = p)) as [->|Hne].
    + exists p, y, f'. rewrite lookup_insert_eq. split_and!; try done. congruence.
    + exists q, y, fq. by rewrite lookup_insert_ne.
  - intros i q. rewrite lookup_delete_Some. intros [_ Hq]. by apply H6.
Qed.

Lemma inv_new g ph reg g' p :
  newProvider g = (Ret p, g') → pg_i g < max_uint64 → inv (mkSystem g ph reg) →
  inv (mkSystem g' (<[p := Created]> ph) reg).
Proof.
  intros Hn Hlt [H1 H2 H3 H4 H5 H6]. cbn in *. injection Hn as <- <-. unfold max_uint64 in *.
  rewrite u64_small by lia. set (p := length (pg_objs g)).
  assert (Hold : ∀ q x, pg_objs g !! q = Some x → (pg_objs g ++ [new_Provider (pg_i g)]) !! q = Some x ∧ q ≠ p).
  { intros q x Hx. split; [by apply lookup_app_l_Some|]. apply lookup_lt_Some in Hx. subst p. lia. }
  assert (Hnew : ∀ q x, (pg_objs g ++ [new_Provider (pg_i g)]) !! q = Some x →
    pg_objs g !! q = Some x ∨ q = p ∧ x = new_Provider (pg_i g)).
  { intros q x. rewrite lookup_app_Some. intros [|[Hle Hx]]; [by left|right].
    apply list_lookup_singleton_Some in Hx as [? <-]. subst p. split; [lia|done]. }
  split; cbn.
  - intros q f. rewrite lookup_insert_Some. intros [[<- <-]|[Hne Hq]].
    + exists (new_Provider (pg_i g)). split_and!; [by apply lookup_last|cbn; lia|]. intros _. cbn. by rewrite lookup_insert_eq.
    + destruct (H1 _ _ Hq) as (x & Hx & ? & Hm). exists x. split_and!; [by apply Hold|lia|].
      intros Hf. rewrite lookup_insert_ne by lia. by apply Hm.
  - intros q q' x x' Hx Hx' E.
    destruct (Hnew _ _ Hx) as [Hx1|[-> ->]], (Hnew _ _ Hx') as [Hx2|[-> ->]]; [by apply (H2 _ _ x x')| | |done].
    + apply H3 in Hx1. cbn in E. lia.
    + apply H3 in Hx2. cbn in E. lia.
  - intros q x Hx. destruct (Hnew _ _ Hx) as [Hx1|[-> ->]]; [apply H3 in Hx1; lia|cbn; lia].
  - unfold max_uint64. lia.
  - intros h i Hr. destruct (H5 _ _ Hr) as (q & x & f & ? & Hx & ? & ? & ?).
    destruct (Hold _ _ Hx) as [Hx' Hne]. exists q, x, f. rewrite lookup_insert_ne by done. done.
  - intros i q. rewrite lookup_insert_Some. intros [[<- <-]|[_ Hq]].
    + exists (new_Provider (pg_i g)). split; [by apply lookup_last|done].
    + destruct (H6 _ _ Hq) as (x & Hx & ?). exists x. split; [by apply Hold|done].
Qed.

(** Registering stores a handle that is new. *)
Lemma inv_register g ph reg p h x g' :
  inv (mkSystem g ph reg) → ph !! p = Some Created → reg !! h = None → pg_objs g !! p = Some x →
  run (set_provider p (set_handle h)) g = Some g' →
  inv (mkSystem g' (<[p := Registered]> ph) (<[h := p_index x]> reg)).
Proof.
  intros [H1 H2 H3 H4 H5 H6] Hp Hh Hx Hrun. cbn in *. injection Hrun as <-.
  assert (Hidx : ∀ y : Provider, p_index (set_handle h y) = p_index y) by done.
  split; cbn; try done.
  - intros q f. rewrite lookup_insert_Some. intros [[<- <-]|[Hne Hq]].
    + destruct (H1 _ _ Hp) as (y & Hy & ? & Hm). eexists. split; [by apply lookup_alter_obj|].
      rewrite decide_True by done. rewrite Hidx. split; [done|]. intros _. by apply Hm.
    + destruct (H1 _ _ Hq) as (y & Hy & ? & Hm). eexists. split; [by apply lookup_alter_obj|].
      rewrite decide_False by done. done.
  - intros q q' y y' Hy Hy' E. apply lookup_alter_obj_inv in Hy as (z & Hz & ->), Hy' as (z' & Hz' & ->).
    apply (H2 _ _ z z'); [done..|]. revert E. repeat case_decide; by rewrite ?Hidx.
  - intros q y Hy. apply lookup_alter_obj_inv in Hy as (z & Hz & ->). case_decide; rewrite ?Hidx; by apply (H3 q).
  - intros h' i. rewrite lookup_insert_Some. intros [[<- <-]|[Hne Hr]].
    + exists p, (set_handle h x), Registered. rewrite lookup_insert_eq. split_and!; try done.
      rewrite (lookup_alter_obj _ _ _ _ x) by done. by rewrite decide_True.
    + destruct (H5 _ _ Hr) as (q & y & f & Hq & Hy & ? & ? & Hf).
      destruct (decide (q = p)) as [->|Hqp]; [rewrite Hp in Hq; by injection Hq as <-|].
      exists q, y, f. rewrite lookup_insert_ne by done. split_and!; try done.
      rewrite (lookup_alter_obj _ _ _ _ y) by done. by rewrite decide_False.
  - intros i q Hq. destruct (H6 _ _ Hq) as (y & Hy & ?). eexists. split; [by apply lookup_alter_obj|].
    by case_decide.
Qed.

Lemma inv_unregister g ph reg p x :
  inv (mkSystem g ph reg) → ph !! p = Some Closing → pg_objs g !! p = Some x →
  inv (mkSystem g (<[p := Closed]> ph) (delete (handle x) reg)).
Proof.
  intros [H1 H2 H3 H4 H5 H6] Hp Hx. split; cbn in *; try done.
  - intros q f. rewrite lookup_insert_Some. intros [[<- <-]|[Hne Hq]]; [|by apply H1].
    destruct (H1 _ _ Hp) as (y & ? & ? & _). by exists y.
  - intros h i. rewrite lookup_delete_Some. intros [Hne Hr].
    destruct (H5 _ _ Hr) as (q & y & f & Hq & Hy & ? & Hyh & Hf).
    exists q, y, f. rewrite lookup_insert_ne by congruence. done.
Qed.

(** What registering gave a provider. *)
Definition same_provider (x x' : Provider) : Prop :=
  ID x' = ID x ∧ handle x' = handle x ∧ metadata x' = metadata x ∧ p_index x' = p_index x.

(** The callback finds the provider of an index of the table, and changes only
    whether it is enabled. *)
Lemma providerCallback_found n i g p x :
  pg_m g !! i = Some p → pg_objs g !! p = Some x →
  ∃ f calls, (∀ y, same_provider y (f y)) ∧
    providerCallback n i g = (Ret (), mkGlobals (alter f p (pg_objs g)) (pg_m g) (pg_i g) calls).
Proof.
  intros Hm Hx. unfold providerCallback. erewrite St_bind_Ret by (unfold getProvider; by rewrite Hm).
  set (f := if n_state n =? ProviderStateDisable then set_enabled false
            else if n_state n =? ProviderStateEnable then set_enable n else id).
  assert (Hset : (if n_state n =? ProviderStateDisable then set_provider p (set_enabled false)
    else if n_state n =? ProviderStateEnable then set_provider p (set_enable n) else mret ()) g =
    (Ret (), mkGlobals (alter f p (pg_objs g)) (pg_m g) (pg_i g) (pg_calls g))).
  { unfold f. repeat case_match; try done. rewrite St_ret_eq. destruct g. cbn. do 2 f_equal.
    symmetry. apply list_alter_id. done. }
  cbv beta iota. rewrite (St_bind_Ret _ _ _ _ _ Hset). unfold deref.
  erewrite St_bind_Ret; [|cbn [pg_objs]; rewrite (lookup_alter_obj _ _ _ _ x) by done; reflexivity].
  exists f. destruct (callback _); eexists; (split; [|reflexivity]); intros y; unfold f; by repeat case_match.
Qed.

Lemma inv_step s s' : step s s' → inv s → inv s'.
Proof.
  destruct 1; intros Hinv.
  - by eapply inv_new.
  - by eapply inv_register.
  - by eapply inv_set_phase.
  - by eapply inv_set_phase.
  - by eapply inv_set_phase.
  - by eapply inv_remove.
  - by eapply inv_remove.
  - by eapply inv_unregister.
  - unfold run in *. destruct (pg_m g !! i) as [p|] eqn:Hm.
    + destruct (inv_table _ Hinv _ _ Hm) as (x & Hx & _).
      destruct (providerCallback_found n i g p x Hm Hx) as (f & calls & Hf & E).
      rewrite E in *. simplify_eq. apply inv_alter; [intros y; apply Hf..|done].
    + unfold providerCallback, getProvider in *. rewrite St_bind_eq, Hm in *. done.
Qed.

Lemma inv_init : inv init.
Proof.
  split; cbn; try (intros *; rewrite ?lookup_empty, ?lookup_nil; done).
Qed.
Lemma inv_reachable s : reachable s → inv s.
Proof.
  intros Hr. unfold reachable in Hr. revert Hr. generalize inv_init. generalize init as s0. intros s0 H0 Hr.
  induction Hr as [|s0 s1 s2 Hs _ IH]; [done|]. by apply IH, (inv_step s0).
Qed.

(** C28: in every reachable state of the program and ETW, a notification for a
    registered provider runs to its end, unless the provider is between the two
    steps of [Close] or its [NewProviderWithOptions] failed after registering
    it. *)
Theorem notification_safe s h i n :
  reachable s → s_reg s !! h = Some i →
  (∃ g', providerCallback n i (s_g s) = (Ret (), g')) ∨
  ∃ p x f, s_phase s !! p = Some f ∧ pg_objs (s_g s) !! p = Some x ∧ handle x = h ∧
    (f = Closing ∨ f = Failed true).
Proof.
  intros Hr Hh. pose proof (inv_reachable s Hr) as Hinv.
  destruct (inv_reg _ Hinv _ _ Hh) as (p & x & f & Hp & Hx & Hi & Hxh & Hf).
  destruct (in_table f) eqn:Ht.
  - left. destruct (inv_phase _ Hinv _ _ Hp) as (y & Hy & _ & Hm). rewrite Hx in Hy. injection Hy as <-.
    specialize (Hm Ht). rewrite Hi in Hm.
    destruct (providerCallback_found n i (s_g s) p x Hm Hx) as (f' & calls & _ & E). eauto.
  - right. exists p, x, f. split_and!; try done. destruct f as [| | |b|[]| |]; try done; auto.
Qed.

(** ** Traces: a provider that is closed, and one that cannot be set up *)
Definition g1 : globals := mkGlobals [new_Provider 0] {[ 0 := 0%nat ]} 1 [].
Definition g2 : globals := mkGlobals [set_handle 7 (new_Provider 0)] {[ 0 := 0%nat ]} 1 [].
Definition g3 : globals := mkGlobals [set_handle 7 (new_Provider 0)] ∅ 1 [].

Lemma reach_registered : reachable (mkSystem g2 (<[0%nat := Registered]> (<[0%nat := Created]> ∅)) (<[7 := 0]> ∅)).
Proof.
  apply rtc_l with (mkSystem g1 (<[0%nat := Created]> ∅) ∅).
  - apply step_new; reflexivity.
  - apply rtc_once. by apply (step_register g1 _ ∅ 0 7 (new_Provider 0)).
Qed.

Lemma notification_safe_witness :
  ∃ g', providerCallback (mkNote zero_GUID ProviderStateEnable 5 1 1 0) 0 g2 = (Ret (), g').
Proof.
  destruct (notification_safe _ 7 0 (mkNote zero_GUID ProviderStateEnable 5 1 1 0) reach_registered)
    as [Hg|(p & x & f & Hp & _ & _ & Hf)].
  - reflexivity.
  - exact Hg.
  - exfalso. cbn [s_phase] in Hp. destruct (decide (p = 0%nat)) as [->|Hne].
    + rewrite lookup_insert_eq in Hp. injection Hp as <-. by destruct Hf.
    + rewrite !lookup_insert_ne in Hp by done. discriminate Hp.
Defined.

(** both exceptions happen: when [eventSetInformation] fails the provider
    stays registered although it is no longer in the table, and [Close] takes it
    out of the table before it is unregistered; a notification then
    dereferences nil. *)
Theorem notification_panics :
  (∃ s, reachable s ∧ s_phase s !! 0%nat = Some (Failed true) ∧ s_reg s !! 7 = Some 0 ∧
     ∀ n, is_panic (fst (providerCallback n 0 (s_g s))) = true) ∧
  (∃ s, reachable s ∧ s_phase s !! 0%nat = Some Closing ∧ s_reg s !! 7 = Some 0 ∧
     ∀ n, is_panic (fst (providerCallback n 0 (s_g s))) = true).
Proof.
  split.
  - exists (mkSystem g3 (<[0%nat := Failed true]> (<[0%nat := Failing true]> (<[0%nat := Registered]> (<[0%nat := Created]> ∅)))) (<[7 := 0]> ∅)).
    split; [|done]. eapply rtc_r; [eapply rtc_r; [exact reach_registered|]|].
    + by apply (step_information_fails _ _ _ 0).
    + by apply (step_remove g2 _ _ 0 true g3).
  - exists (mkSystem g3 (<[0%nat := Closing]> (<[0%nat := Live]> (<[0%nat := Registered]> (<[0%nat := Created]> ∅)))) (<[7 := 0]> ∅)).
    split; [|done]. eapply rtc_r; [eapply rtc_r; [exact reach_registered|]|].
    + by apply (step_information _ _ _ 0).
    + by apply (step_close g2 _ _ 0 g3).
Qed.
