(* ===== verification/EtwLogrus.v ===== *)
(** * The logrus hook ([pkg/etwlogrus])

    Options, levels, and how an entry becomes an ETW event: the fields of an
    entry come from a Go map, whose order is arbitrary, and are sorted. *)
From stdpp Require Import sorting.
From S2P Require Import Prelude GoStrings Unicode Guid PaxTime EtwMetadata EtwProvider.

Definition defaultEventName : list Z := str "LogrusEntry".
Definition ErrNoProvider : error := New "no ETW registered provider".

(** The levels of logrus. *)
Inductive LogLevel := PanicLevel | FatalLevel | ErrorLevel | WarnLevel | InfoLevel | DebugLevel | TraceLevel.
Definition logrusToETWLevelMap (l : LogLevel) : Z :=
  match l with
  | PanicLevel => LevelAlways | FatalLevel => LevelCritical | ErrorLevel => LevelError
  | WarnLevel => LevelWarning | InfoLevel => LevelInfo | DebugLevel => LevelVerbose | TraceLevel => LevelVerbose
  end.

(** An entry; [e_Data] lists the map in the order a [range] over it happens to
    visit it. *)
Record Entry := mkEntry { e_Level : LogLevel; e_Message : list Z; e_Time : Time; e_Data : list (list Z * any) }.

Record Hook := mkHook {
  h_provider : option nat; closeProvider : bool;
  getName : option (Entry → list Z); getEventsOpts : option (Entry → list EventOpt) }.
Definition defaultHook : Hook := mkHook None false None None.
Definition validate (h : Hook) : option error :=
  match h_provider h with None => Some ErrNoProvider | Some _ => None end.

(** [sort.Strings]: the byte order of strings. *)
Fixpoint string_leb (s t : list Z) : bool :=
  match s, t with
  | [], _ => true
  | _, [] => false
  | a :: s, b :: t => if a <? b then true else if b <? a then false else string_leb s t
  end.
Definition string_le (s t : list Z) : Prop := string_leb s t = true.
#[export] Instance string_le_dec : RelDecision string_le.
Proof. intros s t. unfold string_le. apply _. Defined.

(** [m[k]] for the map that [l] lists. *)
Fixpoint assoc (k : list Z) (l : list (list Z * any)) : option any :=
  match l with
  | [] => None
  | (k', v) :: l => if bool_decide (k = k') then Some v else assoc k l
  end.

Section Hook.
Context {E : Type} `{EtwApi E} (sha1 ToUpper : list Z → list Z).
Context (wordSize : Z) (NsecToFiletime : Z → EtwMetadata.Filetime).
(** [logrus.ErrorKey], and what [%T] and [%v] print of a nil interface, which
    is what a missing key gives. *)
Context (ErrorKey : list Z) (nil_value : any).

Definition HookOpt : Type := Hook → St (globals * E) Hook.
Definition WithNewETWProvider (n : list Z) : HookOpt := λ h,
  p ← NewProvider sha1 ToUpper n None;
  mret (mkHook (Some p) true (getName h) (getEventsOpts h)).
Definition WithExistingETWProvider (p : option nat) : HookOpt := λ h,
  mret (mkHook p false (getName h) (getEventsOpts h)).
Definition WithGetName (f : option (Entry → list Z)) : HookOpt := λ h,
  mret (mkHook (h_provider h) (closeProvider h) f (getEventsOpts h)).
Definition WithEventOpts (f : option (Entry → list EventOpt)) : HookOpt := λ h,
  mret (mkHook (h_provider h) (closeProvider h) (getName h) f).

Fixpoint apply_hook_opts (opts : list HookOpt) (h : Hook) : St (globals * E) Hook :=
  match opts with
  | [] => mret h
  | o :: opts => h ← o h; apply_hook_opts opts h
  end.
(** The hook comes with the error of [validate]. *)
Definition NewHookFromOpts (opts : list HookOpt) : St (globals * E) (Hook * option error) :=
  h ← apply_hook_opts opts defaultHook; mret (h, validate h).
Definition NewHook (providerName : list Z) (opts : list HookOpt) : St (globals * E) (Hook * option error) :=
  NewHookFromOpts (opts ++ [WithNewETWProvider providerName]).
Definition NewHookFromProvider (p : option nat) (opts : list HookOpt) : St (globals * E) (Hook * option error) :=
  NewHookFromOpts (opts ++ [WithExistingETWProvider p]).

(** The fields of an entry: message, time, the other fields by name, the error
    last. *)
Definition sorted_names (data : list (list Z * any)) : list (list Z) :=
  merge_sort string_le (filter (λ k, k ≠ ErrorKey) (fst <$> data)).
Definition smart_of (data : list (list Z * any)) (k : list Z) : FieldOpt :=
  SmartField wordSize NsecToFiletime k (default nil_value (assoc k data)).
Definition entry_fields (e : Entry) : list FieldOpt :=
  [StringField (str "Message") (e_Message e); TimeField NsecToFiletime (str "Time") (e_Time e)] ++
  (smart_of (e_Data e) <$> sorted_names (e_Data e)) ++
  (if bool_decide (ErrorKey ∈ (fst <$> e_Data e)) then [smart_of (e_Data e) ErrorKey] else []).
Definition entry_name (h : Hook) (e : Entry) : list Z :=
  match getName h with
  | Some f => if bool_decide (f e = []) then defaultEventName else f e
  | None => defaultEventName
  end.
Definition entry_opts (h : Hook) (e : Entry) : list EventOpt :=
  WithLevel (logrusToETWLevelMap (e_Level e)) ::
  match getEventsOpts h with Some f => f e | None => [] end.

(** The provider object behind a pointer. *)
Definition read_provider (p : option nat) : St (globals * E) (option Provider) :=
  match p with
  | None => mret None
  | Some p => x ← in_globals (deref p); mret (Some x)
  end.

(** The error of [WriteEvent] is dropped. *)
Definition drop_error (m : St (globals * E) unit) : St (globals * E) unit := λ s,
  match m s with (Fail _, s') => (Ret (), s') | x => x end.
Definition Fire (h : Hook) (e : Entry) : St (globals * E) unit :=
  x ← read_provider (h_provider h);
  if negb (IsEnabledForLevel x (logrusToETWLevelMap (e_Level e))) then mret ()
  else drop_error (in_api (WriteEvent x (entry_name h e) (entry_opts h e) (entry_fields e))).

Definition Hook_Close (h : Hook) : St (globals * E) unit :=
  if closeProvider h then Close (h_provider h) else mret ().
End Hook.

(** ** The order of strings *)
Lemma string_le_refl s : string_le s s.
Proof. unfold string_le. induction s as [|a s IH]; [done|]. cbn. rewrite Z.ltb_irrefl. done. Qed.
#[export] Instance string_le_total : Total string_le.
Proof.
  intros s. unfold string_le. induction s as [|a s IH]; intros [|b t]; cbn; [by left|by left|by right|].
  destruct (Z.ltb_spec a b), (Z.ltb_spec b a); [by left|by left|by right|apply IH].
Qed.
#[export] Instance string_le_antisymm : AntiSymm eq string_le.
Proof.
  intros s. unfold string_le. induction s as [|a s IH]; intros [|b t]; cbn; try done.
  destruct (Z.ltb_spec a b), (Z.ltb_spec b a); try done; try lia.
  intros Hst Hts. replace b with a by lia. f_equal. by apply IH.
Qed.
#[export] Instance string_le_trans : Transitive string_le.
Proof.
  intros s. unfold string_le. induction s as [|a s IH]; intros [|b t] [|c u]; cbn; try done.
  destruct (Z.ltb_spec a b), (Z.ltb_spec b a); try done; try lia;
    destruct (Z.ltb_spec b c), (Z.ltb_spec c b); try done; try lia;
    destruct (Z.ltb_spec a c), (Z.ltb_spec c a); try done; try lia; try apply IH.
Qed.

(** Sorting forgets the order of the map. *)
Lemma sorted_names_perm ErrorKey d1 d2 : d1 ≡ₚ d2 → sorted_names ErrorKey d1 = sorted_names ErrorKey d2.
Proof.
  intros Hp. unfold sorted_names. apply (StronglySorted_unique string_le).
  - apply (StronglySorted_merge_sort string_le).
  - apply (StronglySorted_merge_sort string_le).
  - by rewrite !merge_sort_Permutation, Hp.
Qed.
Lemma assoc_perm k d1 d2 : NoDup (fst <$> d1) → d1 ≡ₚ d2 → assoc k d1 = assoc k d2.
Proof.
  intros Hn Hp. induction Hp as [|[a v] d1 d2 Hp IH|[a v] [b w] d|d1 d2 d3 Hp1 IH1 Hp2 IH2]; cbn in *.
  - done.
  - apply NoDup_cons in Hn as [_ Hn]. by rewrite IH.
  - apply NoDup_cons in Hn as [Hb _]. apply not_elem_of_cons in Hb as [Hb _]. repeat case_bool_decide; congruence.
  - rewrite IH1 by done. apply IH2. by rewrite <- Hp1.
Qed.

(** the event logged for an entry does not depend on the order in which Go
    visits the entry's map: for any two orders of the same fields [Fire] does
    the same, and the names it logs (the error's apart, which comes last) are
    in increasing order. *)
Theorem Fire_order {E} `{EtwApi E} wordSize NsecToFiletime ErrorKey nil_value h l msg t d1 d2 s :
  NoDup (fst <$> d1) → d1 ≡ₚ d2 →
  (∀ f, getName h = Some f → f (mkEntry l msg t d1) = f (mkEntry l msg t d2)) →
  (∀ f, getEventsOpts h = Some f → f (mkEntry l msg t d1) = f (mkEntry l msg t d2)) →
  Fire wordSize NsecToFiletime ErrorKey nil_value h (mkEntry l msg t d1) s =
    Fire wordSize NsecToFiletime ErrorKey nil_value h (mkEntry l msg t d2) s ∧
  StronglySorted string_le (sorted_names ErrorKey d1) ∧
  sorted_names ErrorKey d1 ≡ₚ filter (λ k, k ≠ ErrorKey) (fst <$> d1).
Proof.
  intros Hn Hp Hname Hopts. split; [|split; [apply (StronglySorted_merge_sort string_le)|apply merge_sort_Permutation]].
  assert (Hf : entry_fields wordSize NsecToFiletime ErrorKey nil_value (mkEntry l msg t d1) =
    entry_fields wordSize NsecToFiletime ErrorKey nil_value (mkEntry l msg t d2)).
  { unfold entry_fields. cbn [e_Message e_Time e_Data]. f_equal. apply (f_equal2 app).
    - rewrite (sorted_names_perm _ d1 d2) by done. apply list_fmap_ext. intros _ k _. unfold smart_of.
      by rewrite (assoc_perm k d1 d2).
    - rewrite (bool_decide_ext _ (ErrorKey ∈ fst <$> d2)) by (by rewrite Hp).
      unfold smart_of. by rewrite (assoc_perm ErrorKey d1 d2). }
  unfold Fire. rewrite Hf. cbn [e_Level].
  assert (Hen : entry_name h (mkEntry l msg t d1) = entry_name h (mkEntry l msg t d2)).
  { unfold entry_name. destruct (getName h); [by rewrite (Hname _ eq_refl)|done]. }
  assert (Heo : entry_opts h (mkEntry l msg t d1) = entry_opts h (mkEntry l msg t d2)).
  { unfold entry_opts. cbn [e_Level]. f_equal. destruct (getEventsOpts h); [by apply Hopts|done]. }
  by rewrite Hen, Heo.
Qed.

Lemma Fire_order_witness :
  let d1 := [(str "b", ABool true); (str "error", AError (str "x")); (str "a", ANum Kint 1)] in
  let d2 := [(str "a", ANum Kint 1); (str "b", ABool true); (str "error", AError (str "x"))] in
  let fire d := Fire 8 ex_Filetime (str "error") (AOther [] []) (mkHook (Some 0%nat) false None None)
                  (mkEntry InfoLevel (str "m") (mkTime 1 2) d)
                  (mkGlobals [ex_provider] {[ 0 := 0%nat ]} 1 [], [] : event_log) in
  fire d1 = fire d2 ∧ sorted_names (str "error") d1 = [str "a"; str "b"].
Proof.
  cbv zeta. split; [|vm_compute; reflexivity].
  apply Fire_order.
  - apply (bool_decide_unpack _). reflexivity.
  - apply (Permutation_app_comm [_; _] [_]).
  - intros f E. discriminate E.
  - intros f E. discriminate E.
Defined.
