(* ===== verification/Deadline.v ===== *)
(** * Deadlines ([file.go], [deadlineHandler])

    [set] runs under a lock, one at a time, but the function of the timer it
    armed runs by itself: it can start before, during or after the next [set].
    A deadline that passes closes the current channel; closing a channel twice
    panics, and a [set] that cannot stop the timer waits for the channel. *)
From S2P Require Import Prelude.

(** What [set] is asked for, the clock compared. *)
Inductive deadline := Zero | Future | Past.

(** The function of a timer: waiting, started, past [timedout.setTrue], ended;
    or stopped before it started. *)
Inductive timer_state := Pending | Started | Marked | Fired | Stopped.
#[export] Instance timer_state_eq_dec : EqDecision timer_state.
Proof. solve_decision. Defined.

(** Where the [set] that holds the lock is. *)
Inductive set_pc :=
| Idle
| Locked (dl : deadline)     (** [if d.timer != nil { if !d.timer.Stop() ...] *)
| Waiting (dl : deadline)    (** [<-d.channel] *)
| Forget (dl : deadline)     (** [d.timer = nil] *)
| Reset (dl : deadline)      (** [d.timedout.setFalse()] *)
| Renew (dl : deadline)      (** the [select] on [d.channel] *)
| Arm (dl : deadline)        (** [deadline.IsZero()], [AfterFunc], or the call of [timeoutIO] *)
| CloseNow.                  (** [close(d.channel)] of that call *)

(** Channels and timers are numbered; [d_closed] are the closed channels. *)
Record deadlineHandler := mkDH {
  d_channel : nat; d_closed : gset nat; d_timer : option nat;
  d_timers : gmap nat timer_state; d_timedout : bool; d_pc : set_pc }.

Definition init_handler : deadlineHandler := mkDH 0 ∅ None ∅ false Idle.

Definition set_pc_to (pc : set_pc) (d : deadlineHandler) : deadlineHandler :=
  mkDH (d_channel d) (d_closed d) (d_timer d) (d_timers d) (d_timedout d) pc.
Definition set_timedout (b : bool) (d : deadlineHandler) : deadlineHandler :=
  mkDH (d_channel d) (d_closed d) (d_timer d) (d_timers d) b (d_pc d).
Definition set_timer_state (t : nat) (s : timer_state) (d : deadlineHandler) : deadlineHandler :=
  mkDH (d_channel d) (d_closed d) (d_timer d) (<[t := s]> (d_timers d)) (d_timedout d) (d_pc d).
Definition forget_timer (d : deadlineHandler) : deadlineHandler :=
  mkDH (d_channel d) (d_closed d) None (d_timers d) (d_timedout d) (d_pc d).

(** The next number, of channels and of timers. *)
Definition fresh_timer (d : deadlineHandler) : nat := fresh (dom (d_timers d) : gset nat).
Definition new_channel (d : deadlineHandler) : deadlineHandler :=
  mkDH (fresh ({[d_channel d]} ∪ d_closed d)) (d_closed d) (d_timer d) (d_timers d) (d_timedout d) (d_pc d).
Definition channel_closed (d : deadlineHandler) : bool := bool_decide (d_channel d ∈ d_closed d).

(** [close(d.channel)] *)
Definition close_channel (d : deadlineHandler) : res deadlineHandler :=
  if channel_closed d then Panic "close of closed channel"
  else Ret (mkDH (d_channel d) ({[d_channel d]} ∪ d_closed d) (d_timer d) (d_timers d) (d_timedout d) (d_pc d)).

(** One step of the running [set]; [None] when it is blocked. *)
Definition set_next (d : deadlineHandler) : option (res deadlineHandler) :=
  match d_pc d with
  | Idle => None
  | Locked dl =>
      match d_timer d with
      | None => Some (Ret (set_pc_to (Reset dl) d))
      | Some t =>
          if bool_decide (d_timers d !! t = Some Pending)
          then Some (Ret (set_pc_to (Forget dl) (set_timer_state t Stopped d)))
          else Some (Ret (set_pc_to (Waiting dl) d))
      end
  | Waiting dl => if channel_closed d then Some (Ret (set_pc_to (Forget dl) d)) else None
  | Forget dl => Some (Ret (set_pc_to (Reset dl) (forget_timer d)))
  | Reset dl => Some (Ret (set_pc_to (Renew dl) (set_timedout false d)))
  | Renew dl => Some (Ret (set_pc_to (Arm dl) (if channel_closed d then new_channel d else d)))
  | Arm Zero => Some (Ret (set_pc_to Idle d))
  | Arm Future =>
      let t := fresh_timer d in
      Some (Ret (mkDH (d_channel d) (d_closed d) (Some t) (<[t := Pending]> (d_timers d)) (d_timedout d) Idle))
  | Arm Past => Some (Ret (set_pc_to CloseNow (set_timedout true d)))
  | CloseNow => Some (set_pc_to Idle <$> close_channel d)
  end.

(** One step of the function of the timer [t]: the runtime starts it,
    [timedout.setTrue()], [close(d.channel)]. *)
Definition timer_next (t : nat) (d : deadlineHandler) : option (res deadlineHandler) :=
  match d_timers d !! t with
  | Some Pending => Some (Ret (set_timer_state t Started d))
  | Some Started => Some (Ret (set_timer_state t Marked (set_timedout true d)))
  | Some Marked => Some (set_timer_state t Fired <$> close_channel d)
  | _ => None
  end.

(** All interleavings: a caller takes the lock, the holder goes on, a timer goes
    on. *)
Inductive deadline_step : deadlineHandler → res deadlineHandler → Prop :=
| step_call d dl : d_pc d = Idle → deadline_step d (Ret (set_pc_to (Locked dl) d))
| step_set d r : set_next d = Some r → deadline_step d r
| step_timer d t r : timer_next t d = Some r → deadline_step d r.

Inductive deadline_reach : deadlineHandler → Prop :=
| reach_init : deadline_reach init_handler
| reach_step d d' : deadline_reach d → deadline_step d (Ret d') → deadline_reach d'.

(** ** The invariant *)
Definition active (s : timer_state) : bool :=
  match s with Pending | Started | Marked => true | _ => false end.

(** What the state of the timer says of the channel, the flag and the holder of
    the lock. *)
Definition with_timer (s : timer_state) (closed timedout : bool) (pc : set_pc) : Prop :=
  match s, pc with
  | Pending, (Idle | Locked _) => closed = false ∧ timedout = false
  | Started, (Idle | Locked _ | Waiting _) => closed = false ∧ timedout = false
  | Marked, (Idle | Locked _ | Waiting _) => closed = false ∧ timedout = true
  | Fired, (Idle | Locked _ | Waiting _ | Forget _) => closed = true ∧ timedout = true
  | Stopped, Forget _ => closed = false ∧ timedout = false
  | _, _ => False
  end.
Definition without_timer (closed timedout : bool) (pc : set_pc) : Prop :=
  match pc with
  | Idle | Locked _ | Reset _ => timedout = closed
  | Renew _ => timedout = false
  | Arm _ => closed = false ∧ timedout = false
  | CloseNow => closed = false ∧ timedout = true
  | Waiting _ | Forget _ => False
  end.

Definition dh_inv (d : deadlineHandler) : Prop :=
  (∀ t s, d_timers d !! t = Some s → active s = true → d_timer d = Some t) ∧
  match d_timer d with
  | None => without_timer (channel_closed d) (d_timedout d) (d_pc d)
  | Some t => ∃ s, d_timers d !! t = Some s ∧ with_timer s (channel_closed d) (d_timedout d) (d_pc d)
  end.

Lemma channel_closed_false d : channel_closed d = false → close_channel d =
  Ret (mkDH (d_channel d) ({[d_channel d]} ∪ d_closed d) (d_timer d) (d_timers d) (d_timedout d) (d_pc d)).
Proof. unfold close_channel. by intros ->. Qed.
Lemma closed_after_close c l ti ts b pc : channel_closed (mkDH c ({[c]} ∪ l) ti ts b pc) = true.
Proof. apply bool_decide_eq_true_2. cbn. set_solver. Qed.
Lemma new_channel_open d : channel_closed (new_channel d) = false.
Proof.
  apply bool_decide_eq_false_2. unfold new_channel. cbn.
  pose proof (is_fresh ({[d_channel d]} ∪ d_closed d)). set_solver.
Qed.
Lemma fresh_timer_new d : d_timers d !! fresh_timer d = None.
Proof. unfold fresh_timer. apply not_elem_of_dom. apply is_fresh. Qed.

Lemma set_next_inv d r : dh_inv d → set_next d = Some r → ∃ d', r = Ret d' ∧ dh_inv d'.
Proof.
  intros [Hone Hd] Hs. unfold set_next in Hs. destruct (d_timer d) as [t|] eqn:Ht.
  - destruct Hd as (s & Hts & Hw).
    destruct (d_pc d) as [|dl|dl|dl|dl|dl|dl|] eqn:Hpc; try (destruct s; done).
    + rewrite Hts in Hs. case_bool_decide as Hp; injection Hs as <-; eexists; (split; [done|]).
      * injection Hp as ->. split; cbn.
        { intros t' s'. rewrite lookup_insert_Some. intros [[<- <-]|[Hne Ht']]; [done|]. rewrite Ht. by apply (Hone _ s'). }
        rewrite Ht. exists Stopped. rewrite lookup_insert_eq. split; [done|exact Hw].
      * split; cbn; [by rewrite Ht|]. rewrite Ht. exists s. split; [done|]. by destruct s.
    + destruct (channel_closed d) eqn:Hc; [|done]. injection Hs as <-. eexists. split; [done|].
      split; cbn; [by rewrite Ht|]. rewrite Ht. exists s. split; [done|].
      change (channel_closed (set_pc_to _ d)) with (channel_closed d). rewrite Hc. by destruct s, Hw.
    + injection Hs as <-. eexists. split; [done|]. split; cbn.
      * intros t' s' Ht' Ha. specialize (Hone _ _ Ht' Ha). injection Hone as ->. rewrite Hts in Ht'. injection Ht' as ->.
        by destruct s'.
      * change (channel_closed _) with (channel_closed d). destruct s; try done; destruct Hw as [-> ->]; done.
  - assert (Hno : ∀ t s, d_timers d !! t = Some s → active s = true → False) by (intros t s H1 H2; by specialize (Hone _ _ H1 H2)).
    destruct (d_pc d) as [|dl|dl|dl|dl|dl|dl|] eqn:Hpc; try done.
    + injection Hs as <-. eexists. split; [done|]. split; cbn; [by rewrite Ht|]. by rewrite Ht.
    + injection Hs as <-. eexists. split; [done|]. split; cbn; [by rewrite Ht|]. by rewrite Ht.
    + injection Hs as <-. eexists. split; [done|]. destruct (channel_closed d) eqn:Hc.
      * split; cbn; [by rewrite Ht|]. rewrite Ht. split; [exact (new_channel_open d)|done].
      * split; cbn; [by rewrite Ht|]. rewrite Ht. done.
    + destruct Hd as [Hc Hto]. destruct dl; injection Hs as <-; eexists; (split; [done|]).
      * split; cbn; [by rewrite Ht|]. rewrite Ht. change (channel_closed _) with (channel_closed d). congruence.
      * split; cbn.
        { intros t' s'. rewrite lookup_insert_Some. intros [[<- _]|[_ Ht']]; [done|]. intros Ha. destruct (Hno _ _ Ht' Ha). }
        exists Pending. by rewrite lookup_insert_eq.
      * split; cbn; [by rewrite Ht|]. by rewrite Ht.
    + destruct Hd as [Hc Hto]. rewrite (channel_closed_false _ Hc) in Hs. injection Hs as <-. eexists. split; [done|].
      split; cbn; [by rewrite Ht|]. rewrite Ht. cbn.
      etransitivity; [exact Hto|]. symmetry. apply closed_after_close.
Qed.

Lemma timer_next_inv d t r : dh_inv d → timer_next t d = Some r → ∃ d', r = Ret d' ∧ dh_inv d'.
Proof.
  intros [Hone Hd] Hs. unfold timer_next in Hs. destruct (d_timers d !! t) as [s|] eqn:Hts; [|done].
  destruct (active s) eqn:Ha; [|by destruct s].
  pose proof (Hone _ _ Hts Ha) as Ht. rewrite Ht in Hd. destruct Hd as (s' & Hs' & Hw).
  rewrite Hts in Hs'. injection Hs' as <-.
  assert (Hins : ∀ s1 t' s', <[t := s1]> (d_timers d) !! t' = Some s' → active s' = true → Some t = Some t').
  { intros s1 t' s'. rewrite lookup_insert_Some. intros [[<- <-]|[_ Ht']]; [done|]. rewrite <- Ht. by apply Hone. }
  destruct s; try done; cbn in Hs.
  - injection Hs as <-. eexists. split; [done|]. split; cbn; rewrite Ht; [apply Hins|].
    exists Started. rewrite lookup_insert_eq. split; [done|]. by destruct (d_pc d).
  - injection Hs as <-. eexists. split; [done|]. split; cbn; rewrite Ht; [apply Hins|].
    exists Marked. rewrite lookup_insert_eq. split; [done|]. change (channel_closed _) with (channel_closed d).
    destruct (d_pc d); try done; by destruct Hw.
  - assert (Hc : channel_closed d = false) by (destruct (d_pc d); try done; by destruct Hw).
    assert (Hto : d_timedout d = true) by (destruct (d_pc d); try done; by destruct Hw).
    rewrite (channel_closed_false _ Hc) in Hs. injection Hs as <-. eexists. split; [done|].
    split; cbn; rewrite Ht; [apply Hins|]. exists Fired. rewrite lookup_insert_eq. split; [done|].
    unfold set_timer_state. cbn. rewrite closed_after_close, Hto. by destruct (d_pc d).
Qed.

Lemma dh_inv_step d r : dh_inv d → deadline_step d r → ∃ d', r = Ret d' ∧ dh_inv d'.
Proof.
  intros Hi. destruct 1 as [d dl Hpc|d r Hs|d t r Hs].
  - eexists. split; [done|]. destruct Hi as [Hone Hd]. split; cbn; [done|]. rewrite Hpc in Hd.
    destruct (d_timer d) as [t|]; [|done]. destruct Hd as (s & Hts & Hw). exists s. split; [done|]. by destruct s.
  - by apply (set_next_inv d).
  - by apply (timer_next_inv d t).
Qed.
Lemma dh_inv_reach d : deadline_reach d → dh_inv d.
Proof.
  induction 1 as [|d d' _ IH Hs].
  - split; [|done]. cbn. intros t s Ht. by rewrite lookup_empty in Ht.
  - destruct (dh_inv_step _ _ IH Hs) as (d'' & [= <-] & ?). done.
Qed.

(** ** What the lock holder can count on *)

(** C20: in no interleaving of calls of [set] and of the functions of the timers
    they armed is a channel closed twice: every step that is possible in a
    reachable state returns. *)
Theorem deadline_no_panic d r : deadline_reach d → deadline_step d r → ∃ d', r = Ret d'.
Proof. intros Hr Hs. destruct (dh_inv_step d r (dh_inv_reach d Hr) Hs) as (d' & ? & _). by exists d'. Qed.

(** The steps the timer's function has left before the channel is closed. *)
Definition steps_left (d : deadlineHandler) : nat :=
  match d_timer d with
  | Some t => match d_timers d !! t with Some Started => 2 | Some Marked => 1 | _ => 0 end
  | None => 0
  end.
(** C33: [set] does not wait for ever: when it is blocked, the function of the
    timer it waits for has been started and has steps left, and each of them
    brings it nearer to closing the channel, after which [set] can go on. *)
Theorem set_progress d dl :
  deadline_reach d → d_pc d = Waiting dl →
  match steps_left d with
  | O => ∃ d', set_next d = Some (Ret d') ∧ d_pc d' = Forget dl
  | S n => ∃ t d', timer_next t d = Some (Ret d') ∧ d_pc d' = Waiting dl ∧ steps_left d' = n
  end.
Proof.
  intros Hr Hpc. destruct (dh_inv_reach d Hr) as [_ Hd]. rewrite Hpc in Hd. unfold steps_left.
  destruct (d_timer d) as [t|] eqn:Ht; [|done]. destruct Hd as (s & Hts & Hw). rewrite Hts.
  unfold set_next. rewrite Hpc. destruct s; try done; destruct Hw as [Hc Hto].
  - exists t. eexists. unfold timer_next. rewrite Hts. split; [done|]. cbn. rewrite Ht, lookup_insert_eq. done.
  - exists t. eexists. unfold timer_next. rewrite Hts, (channel_closed_false _ Hc). split; [done|].
    cbn. rewrite Ht, lookup_insert_eq. done.
  - rewrite Hc. eauto.
Qed.

(** between calls of [set] the handler is in one of two states: no deadline
    has passed (the flag is clear, and the channel, on which the operations
    wait, open) or one has (the flag set and the channel closed); only while
    the function of the timer runs is the flag ahead of the channel, and then
    that function closes the channel next. *)
Theorem deadline_idle d :
  deadline_reach d → d_pc d = Idle →
  d_timedout d = channel_closed d ∨
  ∃ t, d_timer d = Some t ∧ d_timers d !! t = Some Marked ∧ d_timedout d = true ∧ channel_closed d = false ∧
    ∃ d', timer_next t d = Some (Ret d') ∧ channel_closed d' = true ∧ d_timedout d' = true.
Proof.
  intros Hr Hpc. destruct (dh_inv_reach d Hr) as [_ Hd]. rewrite Hpc in Hd.
  destruct (d_timer d) as [t|] eqn:Ht; [|by left]. destruct Hd as (s & Hts & Hw).
  destruct s; try done; destruct Hw as [Hc Hto]; try (left; congruence).
  right. exists t. split_and!; try done. unfold timer_next. rewrite Hts, (channel_closed_false _ Hc).
  eexists. split; [done|]. unfold set_timer_state. cbn. by rewrite closed_after_close.
Qed.

(** Running a [set] by itself, from the lock to the end. *)
Fixpoint run_set (fuel : nat) (d : deadlineHandler) : option deadlineHandler :=
  match fuel with
  | O => None
  | S fuel =>
      match d_pc d with
      | Idle => Some d
      | _ => match set_next d with Some (Ret d') => run_set fuel d' | _ => None end
      end
  end.

Lemma run_set_S fuel d d' :
  d_pc d ≠ Idle → set_next d = Some (Ret d') → run_set (S fuel) d = run_set fuel d'.
Proof. intros Hpc Hs. cbn [run_set]. rewrite Hs. by destruct (d_pc d). Qed.

(** The state [set] leaves: cleared, armed, or passed; no other timer is left
    that could still act. *)
Definition set_done (dl : deadline) (d : deadlineHandler) : Prop :=
  d_pc d = Idle ∧
  (∀ t s, d_timers d !! t = Some s → active s = true → d_timer d = Some t) ∧
  match dl with
  | Zero => d_timedout d = false ∧ channel_closed d = false ∧ d_timer d = None
  | Past => d_timedout d = true ∧ channel_closed d = true ∧ d_timer d = None
  | Future => d_timedout d = false ∧ channel_closed d = false ∧
              ∃ t, d_timer d = Some t ∧ d_timers d !! t = Some Pending
  end.

(** From [d.timedout.setFalse()] on, [set] does not block. *)
Lemma run_set_reset d dl k :
  dh_inv d → d_pc d = Reset dl → ∃ d', run_set (5 + k) d = Some d' ∧ set_done dl d'.
Proof.
  intros [Hone Hd] Hpc. rewrite Hpc in Hd. destruct (d_timer d) as [t|] eqn:Ht.
  { destruct Hd as (s & _ & Hw). by destruct s. }
  change (5 + k)%nat with (S (S (S (S (S k))))).
  rewrite (run_set_S _ d (set_pc_to (Renew dl) (set_timedout false d))); [|by rewrite Hpc|unfold set_next; by rewrite Hpc].
  set (d0 := set_pc_to (Renew dl) (set_timedout false d)).
  set (d1 := if channel_closed d0 then new_channel d0 else d0).
  rewrite (run_set_S _ _ (set_pc_to (Arm dl) d1)) by done.
  assert (H1 : channel_closed d1 = false ∧ d_timedout d1 = false ∧ d_timer d1 = None ∧ d_timers d1 = d_timers d).
  { unfold d1. destruct (channel_closed d0) eqn:Hc; [split; [apply new_channel_open|done]|done]. }
  clearbody d1. destruct H1 as (Hc & Hto & Hti & Hts).
  assert (Hno : ∀ t s, d_timers d1 !! t = Some s → active s = true → d_timer d1 = Some t)
    by (intros t s; rewrite Hts, Hti; apply Hone).
  destruct dl.
  - exists (set_pc_to Idle (set_pc_to (Arm Zero) d1)). by split_and!.
  - eexists. split; [done|]. split_and!; cbn; [done| |done|exact Hc|].
    + intros t s. rewrite lookup_insert_Some. intros [[<- _]|[_ Hl]]; [done|]. intros Ha. specialize (Hno _ _ Hl Ha). congruence.
    + eexists. split; [done|]. by rewrite lookup_insert_eq.
  - set (d2 := set_pc_to CloseNow (set_timedout true (set_pc_to (Arm Past) d1))).
    rewrite (run_set_S _ _ d2) by done. assert (Hc2 : channel_closed d2 = false) by exact Hc.
    rewrite (run_set_S _ d2 (set_pc_to Idle (mkDH (d_channel d2) ({[d_channel d2]} ∪ d_closed d2) (d_timer d2) (d_timers d2) (d_timedout d2) CloseNow))).
    2: done. 2: { unfold set_next. cbn [d_pc d2 set_pc_to]. by rewrite (channel_closed_false _ Hc2). }
    eexists. split; [done|]. split_and!; [done|done|done|apply closed_after_close|done].
Qed.

(** A [set] that runs alone. *)
Lemma run_set_done d dl :
  deadline_reach d → d_pc d = Idle → steps_left d = 0%nat →
  ∃ d', run_set 9 (set_pc_to (Locked dl) d) = Some d' ∧ set_done dl d'.
Proof.
  intros Hr Hpc Hleft. assert (Hl : deadline_reach (set_pc_to (Locked dl) d)) by (by eapply reach_step; [|by apply step_call]).
  set (d0 := set_pc_to (Locked dl) d) in *. pose proof (dh_inv_reach _ Hl) as Hi.
  assert (Hnext : ∀ d d', deadline_reach d → set_next d = Some (Ret d') → deadline_reach d')
    by (intros x x' Hx Hs; eapply reach_step; [done|by apply step_set]).
  unfold steps_left in Hleft. destruct (d_timer d) as [t|] eqn:Ht.
  - destruct Hi as [_ Hd]. cbn in Hd. rewrite Ht in Hd. destruct Hd as (s & Hts & Hw). rewrite Hts in Hleft.
    destruct s; try done.
    + set (d1 := set_pc_to (Forget dl) (set_timer_state t Stopped d0)).
      assert (E1 : set_next d0 = Some (Ret d1)) by (unfold set_next; cbn [d_pc d0 set_pc_to d_timer d_timers];
        by rewrite Ht, Hts, bool_decide_eq_true_2).
      rewrite (run_set_S 8 d0 d1), (run_set_S 7 d1 (set_pc_to (Reset dl) (forget_timer d1))) by done.
      by apply (run_set_reset _ dl 2); [apply dh_inv_reach; eauto|].
    + set (d1 := set_pc_to (Waiting dl) d0). set (d2 := set_pc_to (Forget dl) d1).
      assert (E1 : set_next d0 = Some (Ret d1)) by (unfold set_next; cbn [d_pc d0 set_pc_to d_timer d_timers];
        by rewrite Ht, Hts, bool_decide_eq_false_2).
      assert (E2 : set_next d1 = Some (Ret d2)).
      { unfold set_next. cbn [d_pc d1 set_pc_to]. change (channel_closed d1) with (channel_closed d0).
        destruct Hw as [Hc _]. change (channel_closed d0 = true) in Hc. by rewrite Hc. }
      rewrite (run_set_S 8 d0 d1), (run_set_S 7 d1 d2), (run_set_S 6 d2 (set_pc_to (Reset dl) (forget_timer d2))) by done.
      by apply (run_set_reset _ dl 1); [apply dh_inv_reach; eauto|].
  - set (d1 := set_pc_to (Reset dl) d0).
    assert (E1 : set_next d0 = Some (Ret d1)) by (unfold set_next; cbn [d_pc d0 set_pc_to d_timer]; by rewrite Ht).
    rewrite (run_set_S 8 d0 d1) by done. apply (run_set_reset _ dl 3); [apply dh_inv_reach; eauto|done].
Qed.

(** C34: the effect of [set]: called when no timer's function is running, it runs
    to its end without blocking, and afterwards the deadline is off (zero time),
    passed (a time in the past), or ahead with a timer waiting, and whatever
    timer was armed before can no longer act. *)
Theorem set_effect d dl :
  deadline_reach d → d_pc d = Idle → steps_left d = 0%nat →
  ∃ d', run_set 9 (set_pc_to (Locked dl) d) = Some d' ∧ set_done dl d'.
Proof. apply run_set_done. Qed.

(** ** Witnesses: a timer that fires while the next [set] waits for it *)
Fixpoint set_drive (fuel : nat) (d : deadlineHandler) : deadlineHandler :=
  match fuel with
  | O => d
  | S fuel => match set_next d with Some (Ret d') => set_drive fuel d' | _ => d end
  end.
Lemma set_drive_reach fuel d : deadline_reach d → deadline_reach (set_drive fuel d).
Proof.
  revert d. induction fuel as [|fuel IH]; intros d Hr; cbn; [done|].
  destruct (set_next d) as [[d'| | |]|] eqn:Hs; try done. apply IH. eapply reach_step; [done|by apply step_set].
Qed.
Lemma timer_reach t d d' : deadline_reach d → timer_next t d = Some (Ret d') → deadline_reach d'.
Proof. intros Hr Hs. eapply reach_step; [done|by eapply step_timer]. Qed.
Lemma call_reach d dl : deadline_reach d → d_pc d = Idle → deadline_reach (set_pc_to (Locked dl) d).
Proof. intros Hr Hp. eapply reach_step; [done|by apply step_call]. Qed.

(** An armed timer; the timer started; the next [set] waiting for it. *)
Definition ex_armed : deadlineHandler := set_drive 9 (set_pc_to (Locked Future) init_handler).
Definition ex_started : deadlineHandler := set_timer_state 0 Started ex_armed.
Definition ex_waiting : deadlineHandler := set_drive 9 (set_pc_to (Locked Zero) ex_started).
Lemma ex_reach : deadline_reach ex_armed ∧ deadline_reach ex_started ∧ deadline_reach ex_waiting.
Proof.
  assert (H1 : deadline_reach ex_armed) by (apply set_drive_reach, call_reach; [constructor|done]).
  assert (H2 : deadline_reach ex_started) by (apply (timer_reach 0 ex_armed); [done|reflexivity]).
  split; [done|]. split; [done|]. by apply set_drive_reach, call_reach.
Qed.

Lemma deadline_no_panic_witness : ∃ d', timer_next 0 ex_started = Some (Ret d').
Proof.
  destruct (timer_next 0 ex_started) as [r|] eqn:E; [|vm_compute in E; discriminate E].
  destruct (deadline_no_panic ex_started r) as (d' & ->).
  - apply ex_reach.
  - by apply (step_timer ex_started 0).
  - by exists d'.
Defined.
Lemma set_progress_witness :
  steps_left ex_waiting = 2%nat ∧ ∃ t d', timer_next t ex_waiting = Some (Ret d') ∧ steps_left d' = 1%nat.
Proof.
  split; [vm_compute; reflexivity|].
  destruct (set_progress ex_waiting Zero) as (t & d' & E & _ & Hl).
  - apply ex_reach.
  - vm_compute. reflexivity.
  - exists t, d'. split; [exact E|exact Hl].
Defined.
Lemma deadline_idle_witness : d_timedout ex_started = channel_closed ex_started.
Proof.
  destruct (deadline_idle ex_started) as [E|(t & _ & _ & E & _)].
  - apply ex_reach.
  - vm_compute. reflexivity.
  - exact E.
  - vm_compute in E. discriminate E.
Defined.
Lemma set_effect_witness : ∃ d', run_set 9 (set_pc_to (Locked Past) ex_armed) = Some d' ∧ set_done Past d'.
Proof.
  apply set_effect.
  - apply ex_reach.
  - vm_compute. reflexivity.
  - vm_compute. reflexivity.
Defined.
