(* ===== verification/Win32File.v ===== *)
(** * Overlapped files ([file.go])

    [win32File] counts the operations in progress in a wait group so that
    [Close] can cancel them, wait for them and only then close the handle.
    The operations and the closers of one file are threads; a step is what one
    of them does between two points where another can interfere. *)
From S2P Require Import Prelude.

Definition ErrFileClosed : error := New "file has already been closed".
Definition ErrTimeout : error := New "i/o timeout".
Definition ERROR_OPERATION_ABORTED : error := Errno 995.
Definition ERROR_BROKEN_PIPE : error := Errno 109.
Definition ERROR_IO_PENDING : error := Errno 997.

(** ** Results *)
Record ioResult := mkIR { r_bytes : Z; r_err : option error }.

(** The branches of [asyncIO]: a call that did not pend; a completion, with what
    [wsaGetOverlappedResult] says for sockets; a completion after the deadline. *)
Definition wsa_queried (socket : bool) (r : ioResult) : bool :=
  negb (bool_decide (r_err r = Some ERROR_OPERATION_ABORTED)) && negb (bool_decide (r_err r = None)) && socket.
Definition asyncIO_done (closing socket : bool) (wsa : option error) (r : ioResult) : Z * option error :=
  (r_bytes r,
   if bool_decide (r_err r = Some ERROR_OPERATION_ABORTED)
   then if closing then Some ErrFileClosed else r_err r
   else if wsa_queried socket r then wsa else r_err r).
Definition asyncIO_timeout (r : ioResult) : Z * option error :=
  (r_bytes r,
   if bool_decide (r_err r = Some ERROR_OPERATION_ABORTED) then Some ErrTimeout else r_err r).

(** [Read] on the result of [asyncIO]; [blen] is the length of the buffer. *)
Definition read_result (blen : Z) (x : Z * option error) : Z * option error :=
  let '(n, err) := x in
  if bool_decide (err = None) && (n =? 0) && negb (blen =? 0) then (0, Some EOF)
  else if bool_decide (err = Some ERROR_BROKEN_PIPE) then (0, Some EOF)
  else (n, err).
(** [connectPipe] ([pipe.go]) on the result of [asyncIO]. *)
Definition ERROR_PIPE_CONNECTED : error := Errno 535.
Definition connect_result (x : Z * option error) : Z * option error :=
  (0, if negb (bool_decide (snd x = None)) && negb (bool_decide (snd x = Some ERROR_PIPE_CONNECTED))
      then snd x else None).
(** [Read] and [Write] have a deadline, [connectPipe] passes none to [asyncIO]. *)
Inductive io_kind := KRead (blen : Z) | KWrite | KConnect.
Definition has_deadline (k : io_kind) : bool := match k with KConnect => false | _ => true end.
Definition io_result (k : io_kind) (x : Z * option error) : Z * option error :=
  match k with KRead blen => read_result blen x | KWrite => x | KConnect => connect_result x end.

(** ** The file *)
Record win32File := mkFile {
  f_open : bool;        (** the handle has not been closed *)
  f_wg : Z;
  f_closing : bool;
  f_socket : bool }.

Definition IsClosed (f : win32File) : bool := f_closing f.

(** A system call on the handle. *)
Definition use_handle (f : win32File) : res unit :=
  if f_open f then Ret () else Panic "handle used after it was closed".
Definition wg_Add (n : Z) (f : win32File) : res win32File :=
  if f_wg f + n <? 0 then Panic "sync: negative WaitGroup counter"
  else Ret (mkFile (f_open f) (f_wg f + n) (f_closing f) (f_socket f)).

(** [prepareIO], under the read lock. *)
Definition prepareIO (f : win32File) : res (bool * win32File) :=
  if f_closing f then Ret (false, f) else f ← wg_Add 1 f; Ret (true, f).
(** The test and set of [closeHandle], under the lock. *)
Definition close_swap (f : win32File) : bool * win32File :=
  (f_closing f, mkFile (f_open f) (f_wg f) true (f_socket f)).
(** [windows.Close(f.handle)] *)
Definition close_fd (f : win32File) : res win32File :=
  _ ← use_handle f; Ret (mkFile false (f_wg f) (f_closing f) (f_socket f)).

(** An overlapped operation: in the kernel, asked to be cancelled or not, or
    completed and delivered to its channel. *)
Inductive op := InKernel (cancelled : bool) | Completed (r : ioResult).

Inductive thread : Type :=
| IOStart (k : io_kind)               (** about to call [prepareIO] *)
| Prepared (k : io_kind)              (** counted; the deadline is tested next *)
| Issued (k : io_kind) (o : op)       (** the call pends; [closing] is tested next *)
| Selecting (k : io_kind) (o : op)    (** in the [select] *)
| TimedOut (k : io_kind) (o : op)     (** the deadline won; waiting for the completion *)
| Finishing (x : Z * option error)    (** [wg.Done()] is next *)
| IODone (x : Z * option error)
| CloseStart
| CloseCancel                         (** won the swap; [cancelIoEx(f.handle, nil)] is next *)
| CloseWait                           (** in [wg.Wait()] *)
| CloseDone.

Record fstate := mkFS { s_file : win32File; s_threads : gmap nat thread }.

Definition cancel_op (o : op) : op := match o with InKernel _ => InKernel true | _ => o end.
Definition cancel_thread (t : thread) : thread :=
  match t with
  | Issued k o => Issued k (cancel_op o)
  | Selecting k o => Selecting k (cancel_op o)
  | TimedOut k o => TimedOut k (cancel_op o)
  | _ => t
  end.

(** What the environment decides in a step: whether the deadline has passed, how
    a call returns, what completes an operation, what [wsaGetOverlappedResult]
    says. *)
Inductive choice :=
| Continue                            (** the thread goes on *)
| DeadlinePassed                      (** [timedout] is set, or the channel is closed *)
| Returns (r : ioResult)              (** the call does not pend *)
| Complete (r : ioResult)             (** the completion port delivers the result *)
| Wsa (e : option error).

(** One step of a thread: its new state and the new file; [None] when it is
    blocked or has ended. The last component says that all operations are
    cancelled. *)
Definition next (f : win32File) (t : thread) (c : choice) : option (res (win32File * thread * bool)) :=
  match t, c with
  | IOStart k, Continue =>
      Some (prepareIO f ≫= λ x : bool * win32File,
            Ret (snd x, if fst x then Prepared k else IODone (0, Some ErrFileClosed), false))
  | Prepared k, DeadlinePassed =>
      if has_deadline k then Some (Ret (f, Finishing (0, Some ErrTimeout), false)) else None
  | Prepared k, Returns r =>
      Some (_ ← use_handle f; Ret (f, Finishing (io_result k (r_bytes r, r_err r)), false))
  | Prepared k, Continue => Some (_ ← use_handle f; Ret (f, Issued k (InKernel false), false))
  | Issued k o, Continue =>
      if f_closing f then Some (_ ← use_handle f; Ret (f, Selecting k (cancel_op o), false))
      else Some (Ret (f, Selecting k o, false))
  | Issued k (InKernel _), Complete r => Some (Ret (f, Issued k (Completed r), false))
  | Selecting k (InKernel _), Complete r => Some (Ret (f, Selecting k (Completed r), false))
  | TimedOut k (InKernel _), Complete r => Some (Ret (f, TimedOut k (Completed r), false))
  | Selecting k (Completed r), Wsa wsa =>
      Some (_ ← (if wsa_queried (f_socket f) r then use_handle f else Ret ());
            Ret (f, Finishing (io_result k (asyncIO_done (f_closing f) (f_socket f) wsa r)), false))
  | Selecting k o, DeadlinePassed =>
      if has_deadline k then Some (_ ← use_handle f; Ret (f, TimedOut k (cancel_op o), false)) else None
  | TimedOut k (Completed r), Continue => Some (Ret (f, Finishing (io_result k (asyncIO_timeout r)), false))
  | Finishing x, Continue => Some (wg_Add (-1) f ≫= λ f : win32File, Ret (f, IODone x, false))
  | CloseStart, Continue =>
      let '(was, f) := close_swap f in Some (Ret (f, if was then CloseDone else CloseCancel, false))
  | CloseCancel, Continue => Some (_ ← use_handle f; Ret (f, CloseWait, true))
  | CloseWait, Continue =>
      if f_wg f =? 0 then Some (close_fd f ≫= λ f : win32File, Ret (f, CloseDone, false)) else None
  | _, _ => None
  end.

Definition apply_next (p : nat) (s : fstate) (x : win32File * thread * bool) : fstate :=
  let '(f, t, all) := x in
  let ts := <[p := t]> (s_threads s) in
  mkFS f (if all then cancel_thread <$> ts else ts).

Inductive fstep : fstate → res fstate → Prop :=
| step_call s p k : s_threads s !! p = None → fstep s (Ret (mkFS (s_file s) (<[p := IOStart k]> (s_threads s))))
| step_close s p : s_threads s !! p = None → fstep s (Ret (mkFS (s_file s) (<[p := CloseStart]> (s_threads s))))
| step_next s p t c r :
    s_threads s !! p = Some t → next (s_file s) t c = Some r → fstep s (apply_next p s <$> r).

Definition new_file (socket : bool) : fstate := mkFS (mkFile true 0 false socket) ∅.
Inductive freach (socket : bool) : fstate → Prop :=
| freach_init : freach socket (new_file socket)
| freach_step s s' : freach socket s → fstep s (Ret s') → freach socket s'.

(** ** The invariant *)

(** Threads that are counted in the wait group. *)
Definition counted (t : thread) : bool :=
  match t with Prepared _ | Issued _ _ | Selecting _ _ | TimedOut _ _ | Finishing _ => true | _ => false end.
(** The closer that won the swap, until it has closed the handle. *)
Definition closer (t : thread) : bool := match t with CloseCancel | CloseWait => true | _ => false end.
(** Operations that nobody will cancel any more: in the kernel, not cancelled,
    and past the test of [closing]. *)
Definition forgotten (t : thread) : bool :=
  match t with
  | Selecting _ (InKernel b) | TimedOut _ (InKernel b) => negb b
  | _ => false
  end.

Definition count (P : thread → bool) (ts : gmap nat thread) : Z :=
  Z.of_nat (size (filter (λ x : nat * thread, P x.2 = true) ts)).
Definition b2z (b : bool) : Z := if b then 1 else 0.

Record file_inv (s : fstate) : Prop := {
  fi_wg : f_wg (s_file s) = count counted (s_threads s);
  fi_closer : count closer (s_threads s) = b2z (f_open (s_file s) && f_closing (s_file s));
  fi_open : f_open (s_file s) = false → f_closing (s_file s) = true ∧ f_wg (s_file s) = 0;
  fi_cancel p : s_threads s !! p = Some CloseWait →
    ∀ q t, s_threads s !! q = Some t → forgotten t = false
}.

Lemma count_new P ts p t : ts !! p = None → count P (<[p := t]> ts) = b2z (P t) + count P ts.
Proof.
  intros Hp. unfold count. destruct (P t) eqn:Ht.
  - rewrite map_filter_insert_True by done. rewrite map_size_insert_None; [cbn; lia|].
    by apply map_lookup_filter_None_2; left.
  - rewrite map_filter_insert_False by (cbn; congruence). by rewrite delete_id.
Qed.
Lemma count_set P ts p t t' :
  ts !! p = Some t → count P (<[p := t']> ts) = count P ts - b2z (P t) + b2z (P t').
Proof.
  intros Hp. rewrite <- (insert_delete_id ts p t Hp) at 2. rewrite <- (insert_delete_eq ts p t').
  rewrite !count_new by apply lookup_delete_eq. lia.
Qed.
Lemma count_cancel P ts : (∀ t, P (cancel_thread t) = P t) → count P (cancel_thread <$> ts) = count P ts.
Proof.
  intros HP. unfold count. f_equal. rewrite map_filter_fmap, map_size_fmap. f_equal.
  apply map_filter_ext. intros i x _. cbn. by rewrite HP.
Qed.
Lemma count_pos P ts p t : ts !! p = Some t → P t = true → 1 ≤ count P ts.
Proof.
  intros Hp Ht. rewrite <- (insert_delete_id ts p t Hp). rewrite count_new by apply lookup_delete_eq.
  rewrite Ht. unfold count. cbn. lia.
Qed.
Lemma count_zero P ts p t : count P ts = 0 → ts !! p = Some t → P t = false.
Proof. intros Hc Hp. destruct (P t) eqn:Ht; [|done]. pose proof (count_pos P ts p t Hp Ht). lia. Qed.

Lemma count_nonneg P ts : 0 ≤ count P ts.
Proof. unfold count. lia. Qed.

(** A counted thread, and the closer, have the handle open. *)
Lemma counted_open s p t :
  file_inv s → s_threads s !! p = Some t → counted t || closer t = true →
  f_open (s_file s) = true ∧ (counted t = true → 1 ≤ f_wg (s_file s)).
Proof.
  intros [Hwg Hcl Hop _] Hp Ht. destruct (counted t) eqn:Hct.
  - pose proof (count_pos counted _ _ _ Hp Hct). split; [|lia].
    destruct (f_open (s_file s)); [done|]. destruct Hop; [done|lia].
  - pose proof (count_pos closer _ _ _ Hp Ht). split; [|done].
    destruct (f_open (s_file s)); [done|]. cbn in Hcl. lia.
Qed.

Lemma inv_set s p t t' f' :
  file_inv s → s_threads s !! p = Some t →
  f_wg f' = f_wg (s_file s) - b2z (counted t) + b2z (counted t') →
  b2z (f_open f' && f_closing f') = b2z (f_open (s_file s) && f_closing (s_file s)) - b2z (closer t) + b2z (closer t') →
  (f_open f' = false → f_closing f' = true ∧ f_wg f' = 0) →
  t' ≠ CloseWait →
  (forgotten t' = true → f_closing (s_file s) = false) →
  file_inv (mkFS f' (<[p := t']> (s_threads s))).
Proof.
  intros [Hwg Hcl Hop Hca] Hp H1 H2 H3 H4 H5. split; cbn.
  - rewrite (count_set _ _ _ _ _ Hp). lia.
  - rewrite (count_set _ _ _ _ _ Hp). lia.
  - done.
  - intros q. rewrite lookup_insert_Some. intros [[_ ?]|[Hne Hq]]; [done|].
    intros q' t0. rewrite lookup_insert_Some. intros [[_ <-]|[_ Hq']]; [|by eapply Hca].
    destruct (forgotten t') eqn:Hf; [|done]. specialize (H5 eq_refl).
    pose proof (count_pos closer _ _ _ Hq eq_refl) as Hpos. rewrite H5, andb_false_r in Hcl. cbn in Hcl. lia.
Qed.

Lemma cancel_class P t : P = counted ∨ P = closer → P (cancel_thread t) = P t.
Proof. by intros [-> | ->]; destruct t. Qed.
Lemma forgotten_cancel t : forgotten (cancel_thread t) = false.
Proof. by destruct t as [| |? []|? []|? []| | | | | |]. Qed.

(** The step that cancels everything. *)
Lemma inv_cancel s p :
  file_inv s → s_threads s !! p = Some CloseCancel →
  file_inv (mkFS (s_file s) (cancel_thread <$> <[p := CloseWait]> (s_threads s))).
Proof.
  intros [Hwg Hcl Hop Hca] Hp. split; cbn.
  - rewrite count_cancel by (intros; apply cancel_class; auto). rewrite (count_set _ _ _ _ _ Hp). cbn. lia.
  - rewrite count_cancel by (intros; apply cancel_class; auto). rewrite (count_set _ _ _ _ _ Hp). cbn. lia.
  - done.
  - intros q _ q' t. rewrite lookup_fmap. intros (t0 & _ & ->)%fmap_Some. apply forgotten_cancel.
Qed.

Ltac use_open := unfold use_handle; match goal with H : f_open _ = true |- _ => rewrite H end; cbn.

(** The steps that change the counter, the flag or the handle. *)
Lemma next_prepare s p k r :
  file_inv s → s_threads s !! p = Some (IOStart k) → next (s_file s) (IOStart k) Continue = Some r →
  ∃ x, r = Ret x ∧ file_inv (apply_next p s x).
Proof.
  intros Hi Hp [= <-]. pose proof Hi as [Hwg Hcl Hop _]. pose proof (count_nonneg counted (s_threads s)).
  unfold prepareIO. destruct (f_closing (s_file s)) eqn:Hc; cbn.
  - eexists. split; [reflexivity|]. apply (inv_set s p (IOStart k)); cbn; try done; try lia. by rewrite Hc.
  - unfold wg_Add. replace (f_wg (s_file s) + 1 <? 0) with false by lia. cbn.
    eexists. split; [reflexivity|]. apply (inv_set s p (IOStart k)); cbn; try done; try lia.
    intros Hf. destruct (Hop Hf) as [E _]. rewrite E in Hc. done.
Qed.
Lemma next_finish s p x r :
  file_inv s → s_threads s !! p = Some (Finishing x) → next (s_file s) (Finishing x) Continue = Some r →
  ∃ y, r = Ret y ∧ file_inv (apply_next p s y).
Proof.
  intros Hi Hp [= <-]. destruct (counted_open s p _ Hi Hp eq_refl) as [Ho Hw]. specialize (Hw eq_refl).
  unfold wg_Add. replace (f_wg (s_file s) + -1 <? 0) with false by lia. cbn.
  eexists. split; [reflexivity|]. apply (inv_set s p (Finishing x)); cbn; try done; try lia. by rewrite Ho.
Qed.
Lemma next_swap s p r :
  file_inv s → s_threads s !! p = Some CloseStart → next (s_file s) CloseStart Continue = Some r →
  ∃ x, r = Ret x ∧ file_inv (apply_next p s x).
Proof.
  intros Hi Hp [= <-]. pose proof Hi as [Hwg Hcl Hop _]. eexists. split; [reflexivity|].
  assert (Hop' : f_open (s_file s) = false → true = true ∧ f_wg (s_file s) = 0)
    by (intros Hf; split; [done|by apply Hop]).
  destruct (f_closing (s_file s)) eqn:Hc.
  - apply (inv_set s p CloseStart); cbn; rewrite ?Hc; done || lia.
  - destruct (f_open (s_file s)) eqn:Ho; [|by destruct (Hop eq_refl)].
    apply (inv_set s p CloseStart); cbn; rewrite ?Hc, ?Ho; done || lia.
Qed.
Lemma next_close s p r :
  file_inv s → s_threads s !! p = Some CloseWait → next (s_file s) CloseWait Continue = Some r →
  ∃ x, r = Ret x ∧ file_inv (apply_next p s x).
Proof.
  intros Hi Hp Hn. pose proof Hi as [Hwg Hcl Hop _]. destruct (counted_open s p _ Hi Hp eq_refl) as [Ho _].
  pose proof (count_pos closer _ _ _ Hp eq_refl) as Hpos. rewrite Ho in Hcl. cbn in Hcl.
  assert (Hc : f_closing (s_file s) = true) by (destruct (f_closing (s_file s)); [done|cbn in Hcl; lia]).
  cbn in Hn. destruct (Z.eqb_spec (f_wg (s_file s)) 0) as [Hz|]; [|done]. injection Hn as <-.
  unfold close_fd, use_handle. rewrite Ho. cbn. eexists. split; [reflexivity|].
  apply (inv_set s p CloseWait); cbn; rewrite ?Ho, ?Hc; try done. lia.
Qed.
Lemma inv_spawn s p t :
  file_inv s → s_threads s !! p = None → counted t || closer t || forgotten t = false → t ≠ CloseWait →
  file_inv (mkFS (s_file s) (<[p := t]> (s_threads s))).
Proof.
  intros [Hwg Hcl Hop Hca] Hp Ht Hne. destruct (counted t) eqn:E1, (closer t) eqn:E2, (forgotten t) eqn:E3; try done.
  split; cbn.
  - rewrite count_new, E1 by done. cbn. lia.
  - rewrite count_new, E2 by done. cbn. lia.
  - done.
  - intros q. rewrite lookup_insert_Some. intros [[_ ?]|[_ Hq]]; [done|].
    intros q' t'. rewrite lookup_insert_Some. intros [[_ <-]|[_ Hq']]; [done|by eapply Hca].
Qed.

Lemma next_inv s p t c r :
  file_inv s → s_threads s !! p = Some t → next (s_file s) t c = Some r →
  ∃ x, r = Ret x ∧ file_inv (apply_next p s x).
Proof.
  intros Hi Hp Hn. pose proof (counted_open s p t Hi Hp) as Ho. pose proof Hi as [Hwg Hcl Hop _].
  pose proof (count_nonneg counted (s_threads s)) as Hnn.
  assert (Hbusy : counted t || closer t = true → f_open (s_file s) = true) by (intros; by apply Ho).
  assert (Hkeep : ∀ t' , counted t' = counted t → closer t' = closer t → t' ≠ CloseWait →
    (forgotten t' = true → f_closing (s_file s) = false) → file_inv (mkFS (s_file s) (<[p := t']> (s_threads s)))).
  { intros t' E1 E2 E3 E4. apply (inv_set s p t); rewrite ?E1, ?E2; try done; lia. }
  assert (Huse : counted t || closer t = true → use_handle (s_file s) = Ret ())
    by (intros Hb; unfold use_handle; by rewrite Hbusy).
  destruct t, c; cbn in Hn; try discriminate Hn; try (destruct o; try discriminate Hn);
    try rewrite (Huse eq_refl) in Hn; cbn in Hn; try (destruct (has_deadline k); [|discriminate Hn]);
    try (injection Hn as <-; eexists; split; [reflexivity|]; cbn; apply Hkeep; done);
    try (destruct (f_closing (s_file s)) eqn:Hc; injection Hn as <-; eexists; (split; [reflexivity|]); cbn; by apply Hkeep).
  - by apply (next_prepare s p k).
  - injection Hn as <-. unfold asyncIO_done.
    assert (E : (if wsa_queried (f_socket (s_file s)) r0 then Ret () else Ret ()) = Ret ()) by (by destruct (wsa_queried _ _)).
    rewrite E. eexists. split; [reflexivity|]. by apply Hkeep.
  - by apply (next_finish s p x).
  - by apply (next_swap s p).
  - injection Hn as <-. eexists. split; [reflexivity|]. by apply inv_cancel.
  - by apply (next_close s p).
Qed.

Lemma fstep_inv s r : file_inv s → fstep s r → ∃ s', r = Ret s' ∧ file_inv s'.
Proof.
  intros Hi. destruct 1 as [s p k Hp|s p Hp|s p t c r Hp Hn].
  - eexists. split; [done|]. by apply inv_spawn.
  - eexists. split; [done|]. by apply inv_spawn.
  - destruct (next_inv s p t c r Hi Hp Hn) as (x & -> & Hx). by exists (apply_next p s x).
Qed.
Lemma freach_inv socket s : freach socket s → file_inv s.
Proof.
  induction 1 as [|s s' _ IH Hs].
  - by split; cbn.
  - destruct (fstep_inv s _ IH Hs) as (s1 & [= <-] & ?). done.
Qed.

(** ** What files guarantee *)

(** C18: however operations, deadlines, completions and any number of [Close]
    interleave, no system call is made on the handle after it has been closed
    (nor is it closed twice) and the wait group never goes negative: no step
    panics. *)
Theorem file_safe socket s r : freach socket s → fstep s r → ∃ s', r = Ret s'.
Proof. intros Hr Hs. destruct (fstep_inv s r (freach_inv socket s Hr) Hs) as (s' & ? & _). by exists s'. Qed.

(** once the handle is closed no operation is in progress, and an operation
    that starts then returns [ErrFileClosed] without touching the handle. *)
Theorem file_closed socket s :
  freach socket s → f_open (s_file s) = false →
  IsClosed (s_file s) = true ∧
  (∀ p t, s_threads s !! p = Some t → counted t = false) ∧
  ∀ p k, s_threads s !! p = Some (IOStart k) →
    next (s_file s) (IOStart k) Continue = Some (Ret (s_file s, IODone (0, Some ErrFileClosed), false)).
Proof.
  intros Hr Ho. destruct (freach_inv socket s Hr) as [Hwg _ Hop _]. destruct (Hop Ho) as [Hc Hz].
  split; [done|]. split.
  - intros p t. apply count_zero. lia.
  - intros p k _. cbn. unfold prepareIO. by rewrite Hc.
Qed.

(** An operation in progress is on its way to its end. *)
Definition will_end (f : win32File) (t : thread) : Prop :=
  match t with
  | Prepared k => True
  | Issued k o => next f t Continue = Some (Ret (f, Selecting k (cancel_op o), false))
  | Selecting _ o | TimedOut _ o => o = InKernel true ∨ ∃ r, o = Completed r
  | Finishing _ => True
  | _ => False
  end.
(** C19: [Close] does not wait for ever: when the closer waits, every operation
    still counted either has completed, or has been cancelled, or is about to
    find [closing] set and cancel itself; and when the count is zero the closer
    closes the handle. *)
Theorem close_waits_for_cancelled socket s p :
  freach socket s → s_threads s !! p = Some CloseWait →
  (∀ q t, s_threads s !! q = Some t → counted t = true → will_end (s_file s) t) ∧
  (f_wg (s_file s) = 0 →
    next (s_file s) CloseWait Continue =
      Some (Ret (mkFile false 0 true (f_socket (s_file s)), CloseDone, false))).
Proof.
  intros Hr Hp. pose proof (freach_inv socket s Hr) as Hi. pose proof Hi as [Hwg Hcl Hop Hca].
  destruct (counted_open s p _ Hi Hp eq_refl) as [Ho _].
  pose proof (count_pos closer _ _ _ Hp eq_refl) as Hpos. rewrite Ho in Hcl. cbn in Hcl.
  assert (Hc : f_closing (s_file s) = true) by (destruct (f_closing (s_file s)); [done|cbn in Hcl; lia]).
  split.
  - intros q t Hq Ht. pose proof (Hca p Hp q t Hq) as Hf. destruct t as [|k|k o|k o|k o|x| | | | |]; try done; cbn in *.
    + unfold use_handle. rewrite Hc, Ho. by destruct o.
    + destruct o as [[]|r]; [by left|done|right; by exists r].
    + destruct o as [[]|r]; [by left|done|right; by exists r].
  - intros Hz. cbn. rewrite Hz, Z.eqb_refl. unfold close_fd, use_handle. rewrite Ho. cbn. by rewrite Hc, Hz.
Qed.

(** what [Read] reports: end of file exactly for a broken pipe and for an
    empty read into a non-empty buffer that did not fail, [ErrFileClosed] and
    [ErrTimeout] exactly for an operation that was aborted (by [Close], by the
    deadline), and any other outcome as it came. *)
Theorem read_outcome blen closing wsa r :
  let file := read_result blen (asyncIO_done closing false wsa r) in
  let late := read_result blen (asyncIO_timeout r) in
  match r_err r with
  | None =>
      file = late ∧ file = if (r_bytes r =? 0) && negb (blen =? 0) then (0, Some EOF) else (r_bytes r, None)
  | Some e =>
      if bool_decide (e = ERROR_OPERATION_ABORTED) then
        file = (r_bytes r, Some (if closing then ErrFileClosed else e)) ∧ late = (r_bytes r, Some ErrTimeout)
      else if bool_decide (e = ERROR_BROKEN_PIPE) then file = (0, Some EOF) ∧ late = (0, Some EOF)
      else file = (r_bytes r, Some e) ∧ late = (r_bytes r, Some e)
  end.
Proof.
  destruct r as [n [e|]]; unfold asyncIO_done, wsa_queried, asyncIO_timeout, read_result; cbn [r_err r_bytes];
    [|rewrite !(bool_decide_eq_false_2 (None = Some _)) by done; cbn; by destruct (n =? 0), (blen =? 0)].
  destruct (decide (e = ERROR_OPERATION_ABORTED)) as [->|Hne]; [by destruct closing; vm_compute|].
  destruct (decide (e = ERROR_BROKEN_PIPE)) as [->|Hne2]; [by destruct closing; vm_compute|].
  repeat case_bool_decide; try congruence; by rewrite ?andb_false_r.
Qed.

(** ** Witnesses: a read that is pending when the file is closed *)
Definition ex_read : io_kind := KRead 8.
(** Choices of the threads, in order. *)
Fixpoint drive (cs : list (nat * choice)) (s : fstate) : option fstate :=
  match cs with
  | [] => Some s
  | (p, c) :: cs =>
      match s_threads s !! p with
      | Some t => match next (s_file s) t c with Some (Ret x) => drive cs (apply_next p s x) | _ => None end
      | None => None
      end
  end.
Lemma drive_reach socket cs s s' : freach socket s → drive cs s = Some s' → freach socket s'.
Proof.
  revert s. induction cs as [|[p c] cs IH]; intros s Hr; cbn; [by intros [= <-]|].
  destruct (s_threads s !! p) as [t|] eqn:Hp; [|done].
  destruct (next (s_file s) t c) as [[x| | |]|] eqn:Hn; try done. apply IH.
  eapply freach_step; [exact Hr|]. exact (step_next s p t c _ Hp Hn).
Qed.
Definition ex_started : fstate := mkFS (s_file (new_file false)) (<[2%nat := CloseStart]> (<[1%nat := IOStart ex_read]> ∅)).
Lemma ex_started_reach : freach false ex_started.
Proof.
  set (s1 := mkFS (s_file (new_file false)) (<[1%nat := IOStart ex_read]> ∅)).
  apply (freach_step false s1); [apply (freach_step false (new_file false)); [constructor|]|].
  - by apply (step_call (new_file false) 1 ex_read).
  - by apply (step_close s1 2).
Qed.
Definition ex_schedule : list (nat * choice) :=
  [(1%nat, Continue); (1%nat, Continue); (1%nat, Continue); (2%nat, Continue); (2%nat, Continue)].
Definition ex_waiting : fstate := default ex_started (drive ex_schedule ex_started).
Lemma ex_waiting_reach : freach false ex_waiting.
Proof. apply (drive_reach false ex_schedule ex_started); [apply ex_started_reach|vm_compute; reflexivity]. Qed.
Definition ex_end : list (nat * choice) :=
  [(1%nat, Complete (mkIR 0 (Some ERROR_OPERATION_ABORTED))); (1%nat, Wsa None); (1%nat, Continue); (2%nat, Continue)].
Definition ex_closed : fstate := default ex_waiting (drive ex_end ex_waiting).
Lemma ex_closed_reach : freach false ex_closed.
Proof. apply (drive_reach false ex_end ex_waiting); [apply ex_waiting_reach|vm_compute; reflexivity]. Qed.

Lemma file_safe_witness : ∃ s', apply_next 1 ex_started <$>
  default NoFuel (next (s_file ex_started) (IOStart ex_read) Continue) = Ret s'.
Proof.
  apply (file_safe false ex_started).
  - apply ex_started_reach.
  - apply (step_next ex_started 1 (IOStart ex_read) Continue); vm_compute; reflexivity.
Defined.
Lemma file_closed_witness :
  IsClosed (s_file ex_closed) = true ∧ s_threads ex_closed !! 1%nat = Some (IODone (0, Some ErrFileClosed)).
Proof.
  destruct (file_closed false ex_closed) as (H & _).
  - apply ex_closed_reach.
  - vm_compute. reflexivity.
  - split; [exact H|vm_compute; reflexivity].
Defined.
Lemma close_waits_for_cancelled_witness : will_end (s_file ex_waiting) (Selecting ex_read (InKernel true)).
Proof.
  destruct (close_waits_for_cancelled false ex_waiting 2) as [H _].
  - apply ex_waiting_reach.
  - vm_compute. reflexivity.
  - apply (H 1%nat); vm_compute; reflexivity.
Defined.
