(* ===== verification/PipeConn.v ===== *)
(** * Byte streams over message pipes ([pipe.go], [win32MessageBytePipe])

    A message pipe is presented as a byte stream whose write side can be closed:
    [CloseWrite] sends a zero-byte message, which the reader takes for the end of
    the stream.  Here both ends of one direction: the flags each end keeps, the
    file operations they call, and the stream they implement together. *)
From S2P Require Import Prelude Win32File.

Definition errPipeWriteClosed : error := New "pipe has been closed for write".
Definition ERROR_MORE_DATA : error := Errno 234.

(** ** The pipe below

    An overlapped call on the handle, waited for by [asyncIO]; a read of a pipe
    with nothing in it blocks. *)
Class PipeFile (F : Type) : Type := {
  pf_read : Z → F → option ((list Z * option error) * F);
  pf_write : list Z → F → (Z * option error) * F;
  pf_flush : F → option error * F }.

(** What the documentation of named pipes says of a pipe of type message, read
    in either mode: it holds bytes and zero-byte messages ([None]); a read
    returns the zero-byte message at the head, or some of the bytes before the
    next one, with [ERROR_MORE_DATA] when a message was read in part; a write
    that fails may have sent a part. *)
Class MessagePipe (F : Type) `{PipeFile F} : Type := {
  mp_items : F → list (option Z);
  mp_read_empty n f : mp_items f = [] → pf_read n f = None;
  mp_read_zero n f l : mp_items f = None :: l →
    ∃ f', pf_read n f = Some (([], None), f') ∧ mp_items f' = l;
  mp_read_bytes n f x l : 0 < n → mp_items f = Some x :: l →
    ∃ bs e f', pf_read n f = Some ((bs, e), f') ∧ bs ≠ [] ∧ zlen bs ≤ n ∧
      (e = None ∨ e = Some ERROR_MORE_DATA) ∧ mp_items f = (Some <$> bs) ++ mp_items f';
  mp_write b f : ∃ n e f', pf_write b f = ((n, e), f') ∧
    match e with
    | None => n = zlen b ∧ mp_items f' = mp_items f ++ (if bool_decide (b = []) then [None] else Some <$> b)
    | Some _ => ∃ k, mp_items f' = mp_items f ++ (Some <$> ztake k b)
    end;
  mp_flush f : ∃ e f', pf_flush f = (e, f') ∧ mp_items f' = mp_items f }.

(** ** The methods *)
Record win32MessageBytePipe := mkMBP { writeClosed : bool; readEOF : bool }.
Definition new_pipe : win32MessageBytePipe := mkMBP false false.

Section Methods.
Context {F : Type} `{PipeFile F}.

(** [win32File.Read], [Write] and [Flush]. *)
Definition file_Read (n : Z) (f : F) : option ((list Z * option error) * F) :=
  '((b, err), f) ← pf_read n f;
  let '(k, err) := read_result n (zlen b, err) in Some ((ztake k b, err), f).
Definition file_Write (b : list Z) (f : F) : (Z * option error) * F := pf_write b f.
Definition Flush (f : F) : option error * F := pf_flush f.

Definition CloseWrite (p : win32MessageBytePipe) (f : F) : option error * win32MessageBytePipe * F :=
  if writeClosed p then (Some errPipeWriteClosed, p, f)
  else
    let '(err, f) := Flush f in
    match err with
    | Some e => (Some e, p, f)
    | None =>
        let '((_, err), f) := file_Write [] f in
        match err with
        | Some e => (Some e, p, f)
        | None => (None, mkMBP true (readEOF p), f)
        end
    end.

Definition Write (b : list Z) (p : win32MessageBytePipe) (f : F) :
    (Z * option error) * win32MessageBytePipe * F :=
  if writeClosed p then ((0, Some errPipeWriteClosed), p, f)
  else if zlen b =? 0 then ((0, None), p, f)
  else let '(r, f) := file_Write b f in (r, p, f).

Definition Read (n : Z) (p : win32MessageBytePipe) (f : F) :
    option ((list Z * option error) * win32MessageBytePipe * F) :=
  if readEOF p then Some (([], Some EOF), p, f)
  else
    '((b, err), f) ← file_Read n f;
    if bool_decide (err = Some EOF) then Some ((b, err), mkMBP (writeClosed p) true, f)
    else if bool_decide (err = Some ERROR_MORE_DATA) then Some ((b, None), p, f)
    else Some ((b, err), p, f).

(** One direction in use: what the writer and the reader call, in any order. *)
Inductive pipe_op := OpWrite (b : list Z) | OpCloseWrite | OpRead (n : Z).
Inductive outcome :=
| Wrote (n : Z) (err : option error)
| ClosedWrite (err : option error)
| Got (b : list Z) (err : option error)
| Blocks.

Record ends := mkEnds { e_writer : win32MessageBytePipe; e_reader : win32MessageBytePipe; e_file : F }.
Definition connected (f : F) : ends := mkEnds new_pipe new_pipe f.

Definition do_op (o : pipe_op) (s : ends) : outcome * ends :=
  match o with
  | OpWrite b =>
      let '((n, err), p, f) := Write b (e_writer s) (e_file s) in (Wrote n err, mkEnds p (e_reader s) f)
  | OpCloseWrite =>
      let '(err, p, f) := CloseWrite (e_writer s) (e_file s) in (ClosedWrite err, mkEnds p (e_reader s) f)
  | OpRead n =>
      match Read n (e_reader s) (e_file s) with
      | Some ((b, err), p, f) => (Got b err, mkEnds (e_writer s) p f)
      | None => (Blocks, s)
      end
  end.
Fixpoint do_ops (os : list pipe_op) (s : ends) : list outcome * ends :=
  match os with
  | [] => ([], s)
  | o :: os => let '(r, s) := do_op o s in let '(rs, s) := do_ops os s in (r :: rs, s)
  end.
End Methods.
Arguments ends : clear implicits.

(** ** The stream they implement *)
Record stream := mkStream { st_queue : list Z; st_closed : bool }.

Inductive stream_step : stream → pipe_op → outcome → stream → Prop :=
| ss_write q b : stream_step (mkStream q false) (OpWrite b) (Wrote (zlen b) None) (mkStream (q ++ b) false)
| ss_write_part q b n e k :
    stream_step (mkStream q false) (OpWrite b) (Wrote n (Some e)) (mkStream (q ++ ztake k b) false)
| ss_write_closed q b :
    stream_step (mkStream q true) (OpWrite b) (Wrote 0 (Some errPipeWriteClosed)) (mkStream q true)
| ss_close q : stream_step (mkStream q false) OpCloseWrite (ClosedWrite None) (mkStream q true)
| ss_close_fails q e : stream_step (mkStream q false) OpCloseWrite (ClosedWrite (Some e)) (mkStream q false)
| ss_close_closed q :
    stream_step (mkStream q true) OpCloseWrite (ClosedWrite (Some errPipeWriteClosed)) (mkStream q true)
| ss_read b q c n : b ≠ [] → zlen b ≤ n → stream_step (mkStream (b ++ q) c) (OpRead n) (Got b None) (mkStream q c)
| ss_read_end n : stream_step (mkStream [] true) (OpRead n) (Got [] (Some EOF)) (mkStream [] true)
| ss_read_blocks n : stream_step (mkStream [] false) (OpRead n) Blocks (mkStream [] false).

Inductive stream_run : stream → list pipe_op → list outcome → stream → Prop :=
| sr_nil s : stream_run s [] [] s
| sr_cons s o r s1 os rs s2 :
    stream_step s o r s1 → stream_run s1 os rs s2 → stream_run s (o :: os) (r :: rs) s2.

(** ** The refinement *)
Section Refinement.
Context {F : Type} `{MessagePipe F}.

(** What the pipe holds, and what the flags say of the zero-byte message. *)
Record implements (s : stream) (p : ends F) : Prop := {
  im_writer : writeClosed (e_writer p) = st_closed s;
  im_reader : readEOF (e_reader p) = true → st_queue s = [] ∧ st_closed s = true;
  im_items : mp_items (e_file p) =
    (Some <$> st_queue s) ++ (if st_closed s && negb (readEOF (e_reader p)) then [None] else []) }.

Lemma Write_implements s p b :
  implements s p → ∃ s', stream_step s (OpWrite b) (do_op (OpWrite b) p).1 s' ∧ implements s' (do_op (OpWrite b) p).2.
Proof.
  destruct s as [q c]. intros [Hw Hr Hi]. cbn in Hw, Hr, Hi. cbn. unfold Write. rewrite Hw. destruct c; cbn.
  - eexists. split; [constructor|]. by split.
  - assert (Hne : readEOF (e_reader p) = false) by (destruct (readEOF (e_reader p)); [by destruct Hr|done]).
    rewrite app_nil_r in Hi. destruct (Z.eqb_spec (zlen b) 0) as [Hb|Hb].
    + destruct b as [|? ?]; [|rewrite zlen_cons in Hb; pose proof (zlen_nonneg b); lia]. eexists. split; [apply ss_write|].
      split; cbn; rewrite ?Hne, ?app_nil_r; done.
    + unfold file_Write. destruct (mp_write b (e_file p)) as (n & e & f' & -> & He). destruct e as [e|].
      * destruct He as [k He]. eexists. split; [by apply (ss_write_part q b n e k)|].
        split; cbn; [done|by rewrite Hne|]. by rewrite He, Hi, fmap_app, app_nil_r.
      * destruct He as [-> He]. eexists. split; [by constructor|].
        rewrite bool_decide_eq_false_2 in He by (by intros ->).
        split; cbn; [done|by rewrite Hne|]. by rewrite He, Hi, fmap_app, app_nil_r.
Qed.

Lemma CloseWrite_implements s p :
  implements s p → ∃ s', stream_step s OpCloseWrite (do_op OpCloseWrite p).1 s' ∧ implements s' (do_op OpCloseWrite p).2.
Proof.
  destruct s as [q c]. intros [Hw Hr Hi]. cbn in Hw, Hr, Hi. cbn. unfold CloseWrite. rewrite Hw. destruct c; cbn.
  - eexists. split; [constructor|]. by split.
  - assert (Hne : readEOF (e_reader p) = false) by (destruct (readEOF (e_reader p)); [by destruct Hr|done]).
    rewrite app_nil_r in Hi. unfold Flush. destruct (mp_flush (e_file p)) as (e1 & f1 & -> & E1).
    destruct e1 as [e1|].
    { eexists. split; [by constructor|]. split; cbn; [done|by rewrite Hne|]. by rewrite E1, Hi, app_nil_r. }
    unfold file_Write. destruct (mp_write [] f1) as (n & e2 & f2 & -> & E2). destruct e2 as [e2|].
    + destruct E2 as [k E2]. rewrite ztake_nil, app_nil_r in E2. eexists. split; [by constructor|].
      split; cbn; [done|by rewrite Hne|]. by rewrite E2, E1, Hi, app_nil_r.
    + destruct E2 as [_ E2]. eexists. split; [by constructor|].
      split; cbn; [done|by rewrite Hne|]. by rewrite Hne, E2, E1, Hi.
Qed.

Lemma Read_implements s p n :
  0 < n → implements s p →
  ∃ s', stream_step s (OpRead n) (do_op (OpRead n) p).1 s' ∧ implements s' (do_op (OpRead n) p).2.
Proof.
  destruct s as [q c]. intros Hn [Hw Hr Hi]. cbn in Hw, Hr, Hi. cbn. unfold Read.
  destruct (readEOF (e_reader p)) eqn:HE.
  { destruct Hr as [-> ->]; [done|]. eexists. split; [by constructor|]. by split; cbn; rewrite ?HE. }
  unfold file_Read. destruct q as [|x q].
  - destruct c; cbn in Hi.
    + destruct (mp_read_zero n _ _ Hi) as (f' & -> & Hf). cbn. rewrite (proj2 (Z.eqb_neq n 0)) by lia. cbn.
      eexists. split; [by constructor|]. by split.
    + rewrite (mp_read_empty n _ Hi). eexists. split; [constructor|]. by split; cbn; rewrite ?HE.
  - destruct (mp_read_bytes n _ _ _ Hn Hi) as (bs & e & f' & -> & Hne & Hlen & He & Hf).
    rewrite Hi in Hf. cbn [mbind option_bind].
    assert (Hpre : ∃ q', x :: q = bs ++ q' ∧ mp_items f' = (Some <$> q') ++ (if c && negb false then [None] else [])).
    { clear -Hf Hn. revert Hf. generalize (x :: q). clear x q. induction bs as [|y bs IH]; intros q Hq; cbn in *; [by exists q|].
      destruct q as [|x q]; cbn in Hq.
      - destruct c; [|done]. injection Hq as ?. done.
      - injection Hq as <- Hq. destruct (IH q Hq) as (q' & -> & ?). by exists q'. }
    destruct Hpre as (q' & -> & Hf').
    assert (Hz : (zlen bs =? 0) = false) by (apply Z.eqb_neq; destruct bs; [done|unfold zlen; cbn; lia]).
    unfold read_result. rewrite Hz, andb_false_r. cbn [andb].
    rewrite (bool_decide_eq_false_2 (e = Some ERROR_BROKEN_PIPE)) by (by destruct He as [-> | ->]).
    cbn [mbind option_bind]; rewrite ztake_all by lia.
    rewrite (bool_decide_eq_false_2 (e = Some EOF)) by (by destruct He as [-> | ->]).
    rewrite (bool_decide_ext (e = Some ERROR_MORE_DATA) (e ≠ None)) by (destruct He as [-> | ->]; done).
    destruct He as [-> | ->]; cbn; (eexists; split; [by constructor|]; by split; cbn; rewrite ?HE).
Qed.

Lemma do_op_implements s p o :
  (∀ n, o = OpRead n → 0 < n) → implements s p →
  ∃ s', stream_step s o (do_op o p).1 s' ∧ implements s' (do_op o p).2.
Proof.
  intros Hn Hs. destruct o as [b| |n].
  - by apply Write_implements.
  - by apply CloseWrite_implements.
  - apply Read_implements; [by apply Hn|done].
Qed.
End Refinement.

(** C14: the two ends of a message pipe implement a byte stream with a closable
    write side, for any sequence of calls: reads return, in order and without
    loss, the bytes that were written, whatever pieces the pipe delivers them
    in and whatever empty writes there were; a read blocks only when nothing
    is left and the write side is open; [io.EOF] comes exactly after
    [CloseWrite] and the last byte, and then again on every later read. *)
Theorem MessageBytePipe_refines_stream {F} `{MessagePipe F} (f : F) os :
  mp_items f = [] → Forall (λ o, ∀ n, o = OpRead n → 0 < n) os →
  ∃ s, stream_run (mkStream [] false) os (do_ops os (connected f)).1 s ∧ implements s (do_ops os (connected f)).2.
Proof.
  intros Hf Hos. assert (Hi : implements (mkStream [] false) (connected f)) by (by split).
  revert Hi. generalize (mkStream [] false), (connected f). clear Hf f.
  induction Hos as [|o os Ho _ IH]; intros s p Hi; cbn.
  - exists s. split; [constructor|done].
  - destruct (do_op_implements s p o Ho Hi) as (s1 & Hs1 & Hi1). destruct (do_op o p) as [r p1].
    destruct (IH s1 p1 Hi1) as (s2 & Hs2 & Hi2). cbn in *. destruct (do_ops os p1) as [rs p2].
    exists s2. split; [by econstructor|done].
Qed.

(** ** Witness: a queue of messages, read a message at a time *)
Definition queue := list (list Z).
Definition queue_items (l : queue) : list (option Z) :=
  concat ((λ m, if bool_decide (m = []) then [None] else Some <$> m) <$> l).
Lemma queue_items_cons m l : m ≠ [] → queue_items (m :: l) = (Some <$> m) ++ queue_items l.
Proof. intros Hm. unfold queue_items. rewrite fmap_cons. cbn [concat]. by rewrite bool_decide_eq_false_2. Qed.
#[export] Instance queue_PipeFile : PipeFile queue := {|
  pf_read n l :=
    match l with
    | [] => None
    | m :: l =>
        if (0 <? n) && (n <? zlen m) then Some ((ztake n m, Some ERROR_MORE_DATA), zdrop n m :: l)
        else Some ((m, None), l)
    end;
  pf_write b l := ((zlen b, None), l ++ [b]);
  pf_flush l := (None, l) |}.
#[export, program] Instance queue_MessagePipe : MessagePipe queue := {| mp_items := queue_items |}.
Next Obligation. intros n [|m l]; [done|]. by destruct m. Qed.
Next Obligation.
  intros n [|m l] l'; [done|]. destruct m as [|x m]; [|done]. intros [= <-]. exists l. split; [|done].
  unfold pf_read, queue_PipeFile. replace (n <? zlen []) with (n <? 0) by done. by destruct (Z.ltb_spec 0 n), (Z.ltb_spec n 0); try lia.
Qed.
Next Obligation.
  intros n [|m l] x l' Hn; [done|]. destruct m as [|y m]; [done|]. intros Hx.
  rewrite (queue_items_cons (y :: m) l) in Hx by done. injection Hx as -> _.
  unfold pf_read, queue_PipeFile. destruct (Z.ltb_spec 0 n); [|lia]. destruct (Z.ltb_spec n (zlen (x :: m))) as [Hlt|Hge]; cbn [andb].
  - assert (Hl : zlen (ztake n (x :: m)) = n) by (rewrite zlen_ztake; lia).
    exists (ztake n (x :: m)), (Some ERROR_MORE_DATA), (zdrop n (x :: m) :: l). split_and!; [done|..].
    + intros E. rewrite E in Hl. unfold zlen in Hl. cbn in Hl. lia.
    + lia.
    + by right.
    + rewrite (queue_items_cons (x :: m)) by done. rewrite queue_items_cons.
      * by rewrite (app_assoc (Some <$> ztake n (x :: m))), <- fmap_app, ztake_zdrop.
      * intros E. assert (zlen (zdrop n (x :: m)) = 0) by (by rewrite E). rewrite zlen_zdrop in *; lia.
  - exists (x :: m), None, l. split_and!; [done|done|done|by left|done].
Qed.
Next Obligation.
  intros b l. exists (zlen b), None, (l ++ [b]). split_and!; [done|done|].
  unfold queue_items. rewrite fmap_app, concat_app. cbn. by rewrite app_nil_r.
Qed.
Next Obligation. intros l. by exists None, l. Qed.

Definition ex_ops : list pipe_op :=
  [OpWrite [1; 2; 3]; OpRead 2; OpWrite []; OpWrite [4]; OpRead 9; OpRead 9; OpRead 9; OpCloseWrite;
   OpWrite [5]; OpRead 9; OpRead 9].
Lemma MessageBytePipe_refines_stream_witness :
  (∃ s, stream_run (mkStream [] false) ex_ops (do_ops ex_ops (connected ([] : queue))).1 s) ∧
  (do_ops ex_ops (connected ([] : queue))).1 =
    [Wrote 3 None; Got [1; 2] None; Wrote 0 None; Wrote 1 None; Got [3] None; Got [4] None; Blocks; ClosedWrite None;
     Wrote 0 (Some errPipeWriteClosed); Got [] (Some EOF); Got [] (Some EOF)].
Proof.
  split; [|vm_compute; reflexivity].
  destruct (MessageBytePipe_refines_stream ([] : queue) ex_ops) as (s & Hs & _).
  - reflexivity.
  - repeat constructor; intros n [= <-]; lia.
  - by exists s.
Defined.
