(* ===== verification/PipeListener.v ===== *)
(** * The pipe listener ([pipe.go], [win32PipeListener])

    One goroutine, [listenerRoutine], serves [Accept] and [Close], which hand
    their requests over unbuffered channels: a send and its receive are one
    step.  It makes a server pipe for each [Accept], connects it in a goroutine
    of its own, and on [Close] closes the handle that reserves the pipe's name
    and then [doneCh]. *)
From S2P Require Import Prelude Win32File.

(** [net.ErrClosed] *)
Definition ErrPipeListenerClosed : error := New "use of closed network connection".
Definition ERROR_NO_DATA : error := Errno 232.

(** [acceptResponse]: a connected server pipe, by its number, or an error. *)
Definition acceptResponse := res nat.

(** The goroutine that runs [connectPipe]: running, or sending its result. *)
Inductive connecting := Running | Ready (err : option error).

(** Where [listenerRoutine] is; [a] is the [Accept] it serves, [p] the pipe. *)
Inductive listener_pc :=
| LIdle                                            (** the [select] on [closeCh] and [acceptCh] *)
| LMake (a : nat)                                  (** [l.makeServerPipe()] *)
| LSelect (a p : nat) (c : connecting)             (** the [select] on [ch] and [closeCh] *)
| LAbort (a : nat) (c : connecting)                (** [p] closed; [err = <-ch] *)
| LRespond (a : nat) (r : acceptResponse)          (** [responseCh <- acceptResponse{p, err}] *)
| LExit                                            (** [windows.Close(l.firstHandle)] *)
| LNotify                                          (** [close(l.doneCh)] *)
| LDone.

Inductive accept_pc := AStart | AWait | ADone (r : acceptResponse).
Inductive close_pc := CStart | CSent | CDone.

(** [l_first]: [firstHandle] is open; [l_done]: [doneCh] is closed; [l_pipes]:
    the server pipes the listener made and has not closed. *)
Record win32PipeListener := mkL {
  l_pc : listener_pc; l_first : bool; l_done : bool; l_pipes : gset nat;
  l_accepts : gmap nat accept_pc; l_closes : gmap nat close_pc }.

Definition set_l_pc (pc : listener_pc) (l : win32PipeListener) : win32PipeListener :=
  mkL pc (l_first l) (l_done l) (l_pipes l) (l_accepts l) (l_closes l).
Definition set_accept (a : nat) (x : accept_pc) (l : win32PipeListener) : win32PipeListener :=
  mkL (l_pc l) (l_first l) (l_done l) (l_pipes l) (<[a := x]> (l_accepts l)) (l_closes l).
Definition set_close (k : nat) (x : close_pc) (l : win32PipeListener) : win32PipeListener :=
  mkL (l_pc l) (l_first l) (l_done l) (l_pipes l) (l_accepts l) (<[k := x]> (l_closes l)).
Definition open_pipe (p : nat) (l : win32PipeListener) : win32PipeListener :=
  mkL (l_pc l) (l_first l) (l_done l) ({[p]} ∪ l_pipes l) (l_accepts l) (l_closes l).
Definition close_pipe (p : nat) (l : win32PipeListener) : win32PipeListener :=
  mkL (l_pc l) (l_first l) (l_done l) (l_pipes l ∖ {[p]}) (l_accepts l) (l_closes l).

Definition ListenPipe : win32PipeListener := mkL LIdle true false ∅ ∅ ∅.

(** The loop of [listenerRoutine] on the result of [makeConnectedServerPipe]. *)
Definition after_connect (a : nat) (r : acceptResponse) : listener_pc :=
  if bool_decide (r = Fail ERROR_NO_DATA) then LMake a else LRespond a r.
(** [makeConnectedServerPipe] when [ch] was ready first, and after an abort. *)
Definition connected_result (p : nat) (err : option error) : acceptResponse :=
  match err with None => Ret p | Some e => Fail e end.
Definition aborted_result (err : option error) : acceptResponse :=
  match err with
  | None => Fail ErrPipeListenerClosed
  | Some e => if bool_decide (e = ErrFileClosed) then Fail ErrPipeListenerClosed else Fail e
  end.

(** What the environment decides: whether a pipe could be made, and what
    [connectPipe] returns. *)
Inductive event := Go | MakeFails (e : error) | Connects (err : option error).

(** A step of [listenerRoutine] or of its goroutine; [None] when it is blocked. *)
Definition listener_next (l : win32PipeListener) (ev : event) : option (res win32PipeListener) :=
  match l_pc l, ev with
  | LMake a, MakeFails e => Some (Ret (set_l_pc (after_connect a (Fail e)) l))
  | LMake a, Go =>
      let p := fresh (l_pipes l) in Some (Ret (set_l_pc (LSelect a p Running) (open_pipe p l)))
  | LSelect a p Running, Connects err => Some (Ret (set_l_pc (LSelect a p (Ready err)) l))
  | LSelect a p (Ready err), Go =>
      let l' := match err with None => l | Some _ => close_pipe p l end in
      Some (Ret (set_l_pc (after_connect a (connected_result p err)) l'))
  | LAbort a Running, Connects err => Some (Ret (set_l_pc (LAbort a (Ready err)) l))
  | LAbort a (Ready err), Go => Some (Ret (set_l_pc (after_connect a (aborted_result err)) l))
  | LRespond a r, Go =>
      match l_accepts l !! a with
      | Some AWait =>
          let pc := if bool_decide (r = Fail ErrPipeListenerClosed) then LExit else LIdle in
          Some (Ret (set_l_pc pc (set_accept a (ADone r) l)))
      | _ => None
      end
  | LExit, Go =>
      Some (if l_first l
            then Ret (mkL LNotify false (l_done l) (l_pipes l) (l_accepts l) (l_closes l))
            else Panic "handle closed twice")
  | LNotify, Go =>
      Some (if l_done l then Panic "close of closed channel"
            else Ret (mkL LDone (l_first l) true (l_pipes l) (l_accepts l) (l_closes l)))
  | _, _ => None
  end.

(** [Accept]: the [select], the response. *)
Definition accept_next (a : nat) (l : win32PipeListener) : option win32PipeListener :=
  match l_accepts l !! a with
  | Some AStart =>
      if l_done l then Some (set_accept a (ADone (Fail ErrPipeListenerClosed)) l)
      else match l_pc l with
           | LIdle => Some (set_l_pc (LMake a) (set_accept a AWait l))
           | _ => None
           end
  | _ => None
  end.

(** [Close]: the [select], which either select of the routine can answer, and
    [<-l.doneCh]. *)
Definition close_next (k : nat) (l : win32PipeListener) : option win32PipeListener :=
  match l_closes l !! k with
  | Some CStart =>
      if l_done l then Some (set_close k CDone l)
      else match l_pc l with
           | LIdle => Some (set_l_pc LExit (set_close k CSent l))
           | LSelect a p c => Some (set_l_pc (LAbort a c) (close_pipe p (set_close k CSent l)))
           | _ => None
           end
  | Some CSent => if l_done l then Some (set_close k CDone l) else None
  | _ => None
  end.

(** All interleavings. [aborts] are the results a connection can have that is
    aborted. *)
Inductive lstep (aborts : option error → Prop) : win32PipeListener → res win32PipeListener → Prop :=
| ls_accept l a : l_accepts l !! a = None → lstep aborts l (Ret (set_accept a AStart l))
| ls_close l k : l_closes l !! k = None → lstep aborts l (Ret (set_close k CStart l))
| ls_listener l ev r :
    listener_next l ev = Some r →
    (∀ a err, l_pc l = LAbort a (Ready err) → aborts err) → lstep aborts l r
| ls_accept_next l a l' : accept_next a l = Some l' → lstep aborts l (Ret l')
| ls_close_next l k l' : close_next k l = Some l' → lstep aborts l (Ret l').
Inductive lreach (aborts : option error → Prop) : win32PipeListener → Prop :=
| lreach_init : lreach aborts ListenPipe
| lreach_step l l' : lreach aborts l → lstep aborts l (Ret l') → lreach aborts l'.

(** ** The invariant *)
Definition serving (pc : listener_pc) : option nat :=
  match pc with
  | LMake a | LSelect a _ _ | LAbort a _ | LRespond a _ => Some a
  | _ => None
  end.
Definition holding (pc : listener_pc) : option nat :=
  match pc with LSelect _ p _ | LRespond _ (Ret p) => Some p | _ => None end.
(** [Accept] [a] returned the pipe [p]. *)
Definition returned (l : win32PipeListener) (a p : nat) : Prop := l_accepts l !! a = Some (ADone (Ret p)).

Record listener_inv (l : win32PipeListener) : Prop := {
  li_first : l_first l = match l_pc l with LNotify | LDone => false | _ => true end;
  li_done : l_done l = match l_pc l with LDone => true | _ => false end;
  li_wait a : l_accepts l !! a = Some AWait ↔ serving (l_pc l) = Some a;
  li_pipes p : p ∈ l_pipes l ↔ holding (l_pc l) = Some p ∨ ∃ a, returned l a p;
  li_unique a b p : returned l a p → returned l b p → a = b;
  li_held a p : holding (l_pc l) = Some p → ¬ returned l a p }.

(** Steps that leave the calls as they are. *)
Lemma inv_pc l pc l' :
  listener_inv l → l_accepts l' = l_accepts l →
  l_first l' = match pc with LNotify | LDone => false | _ => true end →
  l_done l' = match pc with LDone => true | _ => false end →
  serving pc = serving (l_pc l) →
  (∀ p, holding pc = Some p → ∀ a, ¬ returned l a p) →
  (∀ p, p ∈ l_pipes l' ↔ holding pc = Some p ∨ (p ∈ l_pipes l ∧ holding (l_pc l) ≠ Some p)) →
  listener_inv (set_l_pc pc l').
Proof.
  intros [Hf Hd Hw Hp Hu Hh] Ea E1 E2 E3 E4 E5. unfold returned in *.
  split; cbn; unfold returned; cbn; rewrite ?Ea; try done.
  - intros a. by rewrite E3.
  - intros p. rewrite E5, Hp. split.
    + intros [?|[[?|?] ?]]; [by left|done|by right].
    + intros [?|[a Ha]]; [by left|right]. split; [right; by exists a|]. intros Hp'. by apply (Hh a p).
  - intros a p Hp'. by apply E4.
Qed.

Lemma after_connect_serving a r : serving (after_connect a r) = Some a.
Proof. unfold after_connect. by case_bool_decide. Qed.
Lemma after_connect_fail a e : holding (after_connect a (Fail e)) = None.
Proof. unfold after_connect. by case_bool_decide. Qed.
Lemma after_connect_first a r : match after_connect a r with LNotify | LDone => false | _ => true end = true.
Proof. unfold after_connect. by case_bool_decide. Qed.
Lemma after_connect_done a r : match after_connect a r with LDone => true | _ => false end = false.
Proof. unfold after_connect. by case_bool_decide. Qed.
Lemma aborted_fail err : ∃ e, aborted_result err = Fail e.
Proof. destruct err; cbn; [case_bool_decide|]; eauto. Qed.

(** The end of an attempt to connect: the pipe goes to the response, or none is
    left. *)
Lemma inv_after l a l' r :
  listener_inv l → l_accepts l' = l_accepts l → l_first l' = l_first l → l_done l' = l_done l →
  serving (l_pc l) = Some a →
  (∀ p, r = Ret p → holding (l_pc l) = Some p) →
  l_pipes l' = match r, holding (l_pc l) with Fail _, Some p => l_pipes l ∖ {[p]} | _, _ => l_pipes l end →
  (∀ w, r ≠ Panic w) → r ≠ NoFuel →
  listener_inv (set_l_pc (after_connect a r) l').
Proof.
  intros Hi Ea E1 E2 Hs Hr Hp Hw Hn. pose proof Hi as [Hf Hd _ Hpi _ Hh].
  assert (Hpc : match l_pc l with LNotify | LDone => false | _ => true end = true) by (by destruct (l_pc l)).
  assert (Hdn : match l_pc l with LDone => true | _ => false end = false) by (by destruct (l_pc l)).
  apply (inv_pc l); try done.
  - by rewrite after_connect_first, E1, Hf.
  - by rewrite after_connect_done, E2, Hd.
  - by rewrite after_connect_serving.
  - intros p Hp' b. destruct r as [q|e| |]; try done.
    + injection Hp' as <-. apply Hh. by apply Hr.
    + by rewrite after_connect_fail in Hp'.
  - intros p. rewrite Hp. destruct r as [q|e|w|]; [| |by destruct (Hw w)|done].
    + specialize (Hr q eq_refl). rewrite Hr. change (holding (after_connect a (Ret q))) with (Some q).
      split.
      * intros Hin. destruct (decide (q = p)) as [->|Hne]; [by left|right; split; [done|congruence]].
      * intros [[= <-]|[? _]]; [apply Hpi; by left|done].
    + rewrite after_connect_fail. clear. destruct (holding (l_pc l)); set_solver.
Qed.

(** A call ends, or begins, without a pipe. *)
Lemma inv_call l a x :
  listener_inv l → l_accepts l !! a ≠ Some AWait → (∀ p, l_accepts l !! a ≠ Some (ADone (Ret p))) →
  x ≠ AWait → (∀ p, x ≠ ADone (Ret p)) → listener_inv (set_accept a x l).
Proof.
  intros [Hf Hd Hw Hp Hu Hh] Ha1 Ha2 Hx1 Hx2.
  assert (Hret : ∀ b p, returned (set_accept a x l) b p ↔ returned l b p).
  { intros b p. unfold returned. cbn. rewrite lookup_insert_Some. split; [naive_solver|].
    intros Hb. right. split; [|done]. intros <-. by destruct (Ha2 p). }
  split; cbn; try done.
  - intros b. rewrite <- Hw, lookup_insert_Some. naive_solver.
  - intros p. rewrite Hp. by setoid_rewrite Hret.
  - intros b c p. rewrite !Hret. apply Hu.
  - intros b p. rewrite Hret. apply Hh.
Qed.

Lemma inv_respond l a r :
  listener_inv l → l_pc l = LRespond a r → l_accepts l !! a = Some AWait →
  listener_inv (set_l_pc (if bool_decide (r = Fail ErrPipeListenerClosed) then LExit else LIdle) (set_accept a (ADone r) l)).
Proof.
  intros [Hf Hd Hw Hp Hu Hh] Hpc Ha. rewrite Hpc in *. set (pc := if bool_decide _ then LExit else LIdle).
  assert (Hq : ∀ q, holding (LRespond a r) = Some q ↔ r = Ret q) by (intros q; destruct r; cbn; naive_solver).
  assert (Hret : ∀ b p, returned (set_l_pc pc (set_accept a (ADone r) l)) b p ↔ (b = a ∧ r = Ret p) ∨ returned l b p).
  { intros b p. unfold returned. cbn. rewrite lookup_insert_Some. naive_solver. }
  assert (Hpcs : serving pc = None ∧ holding pc = None) by (unfold pc; by case_bool_decide). destruct Hpcs as [Hs Hho].
  split; cbn.
  - rewrite Hf. unfold pc. by case_bool_decide.
  - rewrite Hd. unfold pc. by case_bool_decide.
  - intros b. rewrite Hs, lookup_insert_Some. split; [|done]. intros [[_ ?]|[Hne Hb]]; [done|].
    apply Hw in Hb. cbn in Hb. congruence.
  - intros p. rewrite Hp, Hho, Hq. setoid_rewrite Hret. naive_solver.
  - intros b c p. rewrite !Hret. intros [[-> Hr]|Hb] [[-> Hr']|Hc]; try done.
    + by destruct (Hh c p); [apply Hq|].
    + by destruct (Hh b p); [apply Hq|].
    + by apply (Hu b c p).
  - intros b p. by rewrite Hho.
Qed.

Lemma listener_next_inv l ev r :
  listener_inv l → listener_next l ev = Some r → ∃ l', r = Ret l' ∧ listener_inv l'.
Proof.
  intros Hi. pose proof Hi as [Hf Hd _ Hp _ Hh]. unfold listener_next.
  destruct (l_pc l) as [|a|a p [|err]|a [|err]|a rr| | |] eqn:Hpc; destruct ev as [|e|er]; try done;
    cbn in Hf, Hd.
  - intros [= <-]. eexists. split; [done|]. set (p := fresh (l_pipes l)).
    assert (Hfr : p ∉ l_pipes l) by apply is_fresh.
    apply (inv_pc l); rewrite ?Hpc; cbn; try done.
    + intros q [= <-] b Hb. apply Hfr, Hp. right. by exists b.
    + set_solver.
  - intros [= <-]. eexists. split; [done|]. apply (inv_after l); rewrite ?Hpc; done.
  - intros [= <-]. eexists. split; [done|]. apply (inv_pc l); rewrite ?Hpc; cbn; try done.
    + intros q [= <-] b. by apply Hh.
    + intros q. rewrite Hp. cbn. naive_solver.
  - intros [= <-]. eexists. split; [done|]. apply (inv_after l); rewrite ?Hpc; destruct err; cbn; try done; congruence.
  - intros [= <-]. eexists. split; [done|]. apply (inv_pc l); rewrite ?Hpc; cbn; try done. naive_solver.
  - intros [= <-]. eexists. split; [done|]. destruct (aborted_fail err) as [e ->].
    apply (inv_after l); rewrite ?Hpc; done.
  - destruct (l_accepts l !! a) as [[]|] eqn:Ha; try done. intros [= <-]. eexists. split; [done|]. by apply inv_respond.
  - rewrite Hf. intros [= <-]. eexists. split; [done|].
    apply (inv_pc l LNotify (mkL LNotify false (l_done l) (l_pipes l) (l_accepts l) (l_closes l))); rewrite ?Hpc; cbn; try done.
    naive_solver.
  - rewrite Hd. intros [= <-]. eexists. split; [done|].
    apply (inv_pc l LDone (mkL LDone (l_first l) true (l_pipes l) (l_accepts l) (l_closes l))); rewrite ?Hpc; cbn; try done.
    naive_solver.
Qed.

Lemma inv_set_close l k x : listener_inv l → listener_inv (set_close k x l).
Proof. by intros [Hf Hd Hw Hp Hu Hh]. Qed.

Lemma accept_next_inv l a l' : listener_inv l → accept_next a l = Some l' → listener_inv l'.
Proof.
  intros Hi. unfold accept_next. destruct (l_accepts l !! a) as [[]|] eqn:Ha; try done.
  destruct (l_done l) eqn:Hd.
  - intros [= <-]. apply inv_call; try done; intros; rewrite Ha; done.
  - destruct (l_pc l) eqn:Hpc; try done. intros [= <-]. destruct Hi as [Hf Hdn Hw Hp Hu Hh]. rewrite Hpc in *.
    assert (Hret : ∀ b p, returned (set_l_pc (LMake a) (set_accept a AWait l)) b p ↔ returned l b p).
    { intros b p. unfold returned. cbn. rewrite lookup_insert_Some. naive_solver. }
    split; cbn; try done.
    + intros b. rewrite lookup_insert_Some. cbn in Hw. specialize (Hw b). naive_solver.
    + intros p. rewrite Hp. by setoid_rewrite Hret.
    + intros b c p. rewrite !Hret. apply Hu.
Qed.

Lemma close_next_inv l k l' : listener_inv l → close_next k l = Some l' → listener_inv l'.
Proof.
  intros Hi. unfold close_next. destruct (l_closes l !! k) as [[]|] eqn:Hk; try done.
  - destruct (l_done l) eqn:Hd; [intros [= <-]; by apply inv_set_close|].
    pose proof Hi as [Hf Hdn Hw Hp Hu Hh].
    destruct (l_pc l) as [| |a p c| | | | |] eqn:Hpc; try done; intros [= <-].
    + apply (inv_pc l); rewrite ?Hpc; cbn; try done. naive_solver.
    + apply (inv_pc l); rewrite ?Hpc; cbn; try done. clear. set_solver.
  - destruct (l_done l); [|done]. intros [= <-]. by apply inv_set_close.
Qed.

Lemma lstep_inv aborts l r : listener_inv l → lstep aborts l r → ∃ l', r = Ret l' ∧ listener_inv l'.
Proof.
  intros Hi. destruct 1 as [l a Ha|l k Hk|l ev r Hn _|l a l' Hn|l k l' Hn].
  - eexists. split; [done|]. apply inv_call; try done; intros; rewrite Ha; done.
  - eexists. split; [done|]. by apply inv_set_close.
  - by apply (listener_next_inv l ev).
  - eexists. split; [done|]. by apply (accept_next_inv l a).
  - eexists. split; [done|]. by apply (close_next_inv l k).
Qed.
Lemma lreach_inv aborts l : lreach aborts l → listener_inv l.
Proof.
  induction 1 as [|l l' _ IH Hs].
  - split; cbn; try done; unfold returned; cbn; intros *; rewrite ?lookup_empty; try done.
    split; [set_solver|]. intros [?|[a Ha]]; [done|]. by rewrite lookup_empty in Ha.
  - destruct (lstep_inv aborts l _ IH Hs) as (l1 & [= <-] & ?). done.
Qed.

(** ** What the listener guarantees *)

(** C15: in every interleaving of [Accept], [Close], the routine and the
    connecting goroutine, the handle and [doneCh] are closed once only (no step
    panics), and the server pipes that are open are exactly those some [Accept]
    returned, one pipe to one [Accept], and the one being connected: an aborted
    or failed connection leaves no pipe open. *)
Theorem listener_safe aborts l r :
  lreach aborts l → lstep aborts l r →
  ∃ l', r = Ret l' ∧
    (∀ p, p ∈ l_pipes l' ↔ holding (l_pc l') = Some p ∨ ∃ a, returned l' a p) ∧
    (∀ a b p, returned l' a p → returned l' b p → a = b).
Proof.
  intros Hr Hs. destruct (lstep_inv aborts l r (lreach_inv aborts l Hr) Hs) as (l' & -> & [_ _ _ Hp Hu _]).
  by exists l'.
Qed.

(** C30: no [Accept] is forgotten: one that waits for its response is the one the
    routine serves, and the response can be delivered when it is ready; and
    once the listener is done no [Accept] is waiting, and an [Accept] or a
    [Close] that has not returned does so at once, the [Accept] with
    [ErrPipeListenerClosed]. *)
Theorem accept_answered aborts l a :
  lreach aborts l →
  (l_accepts l !! a = Some AWait →
    serving (l_pc l) = Some a ∧
    ∀ r, l_pc l = LRespond a r → ∃ l', listener_next l Go = Some (Ret l') ∧ l_accepts l' !! a = Some (ADone r)) ∧
  (l_pc l = LDone →
    l_accepts l !! a ≠ Some AWait ∧
    (l_accepts l !! a = Some AStart →
      accept_next a l = Some (set_accept a (ADone (Fail ErrPipeListenerClosed)) l)) ∧
    ∀ k x, l_closes l !! k = Some x → x ≠ CDone → close_next k l = Some (set_close k CDone l)).
Proof.
  intros Hr. destruct (lreach_inv aborts l Hr) as [_ Hd Hw _ _ _]. split.
  - intros Ha. split; [by apply Hw|]. intros r Hpc. unfold listener_next. rewrite Hpc, Ha.
    eexists. split; [done|]. cbn. by rewrite lookup_insert_eq.
  - intros Hpc. rewrite Hpc in Hd, Hw. cbn in Hw. split_and!.
    + intros Ha. by apply Hw in Ha.
    + intros Ha. unfold accept_next. by rewrite Ha, Hd.
    + intros k x Hk Hx. unfold close_next. rewrite Hk, Hd. by destruct x.
Qed.

(** *** [Close] returns *)

(** What an aborted connection reports when it did not fail by itself. *)
Definition aborted_cleanly (err : option error) : Prop := err = None ∨ err = Some ErrFileClosed.

(** How far the routine is from [close(l.doneCh)] after a [Close] reached it. *)
Definition closing_steps (pc : listener_pc) : option nat :=
  match pc with
  | LAbort _ Running => Some 5%nat
  | LAbort _ (Ready _) => Some 4%nat
  | LRespond _ (Fail e) => if bool_decide (e = ErrPipeListenerClosed) then Some 3%nat else None
  | LExit => Some 2%nat
  | LNotify => Some 1%nat
  | LDone => Some 0%nat
  | _ => None
  end.
Definition close_heard (l : win32PipeListener) : Prop :=
  ∀ k, l_closes l !! k = Some CSent → is_Some (closing_steps (l_pc l)).

Lemma aborted_clean_result a err : aborted_cleanly err →
  after_connect a (aborted_result err) = LRespond a (Fail ErrPipeListenerClosed).
Proof. intros [-> | ->]; done. Qed.

(** Each step of the routine brings it nearer, whatever the environment does. *)
Lemma closing_step l ev l' n :
  (∀ a err, l_pc l = LAbort a (Ready err) → aborted_cleanly err) →
  closing_steps (l_pc l) = Some n → listener_next l ev = Some (Ret l') →
  l_closes l' = l_closes l ∧ ∃ m, closing_steps (l_pc l') = Some m ∧ (m < n)%nat.
Proof.
  intros Hab Hn. unfold listener_next.
  destruct (l_pc l) as [| | |a [|err]|a [p|e|w|]| | |] eqn:Hpc; destruct ev; try done; cbn in Hn.
  - injection Hn as <-. intros [= <-]. split; [done|]. exists 4%nat. split; [done|lia].
  - injection Hn as <-. rewrite (aborted_clean_result a err) by by eapply Hab. intros [= <-]. split; [done|].
    exists 3%nat. split; [done|lia].
  - case_bool_decide as He; [|done]. subst e. injection Hn as <-.
    destruct (l_accepts l !! a) as [[]|]; try done. intros [= <-]. split; [done|]. exists 2%nat. split; [done|lia].
  - injection Hn as <-. destruct (l_first l); [|done]. intros [= <-]. split; [done|]. exists 1%nat. split; [done|lia].
  - injection Hn as <-. destruct (l_done l); [done|]. intros [= <-]. split; [done|]. exists 0%nat. split; [done|lia].
Qed.
Lemma closing_enabled l n :
  listener_inv l → closing_steps (l_pc l) = Some (S n) → ∃ ev l', listener_next l ev = Some (Ret l').
Proof.
  intros [Hf Hd Hw _ _ _] Hn. unfold listener_next.
  destruct (l_pc l) as [| | |a [|err]|a [p|e|w|]| | |] eqn:Hpc; try done.
  - exists (Connects None). eauto.
  - exists Go. eauto.
  - exists Go. assert (Ha : l_accepts l !! a = Some AWait) by (by apply Hw). rewrite Ha. eauto.
  - exists Go. rewrite Hf. eauto.
  - exists Go. rewrite Hd. eauto.
Qed.

Lemma close_next_heard l k l' : close_heard l → close_next k l = Some l' → close_heard l'.
Proof.
  intros Hc. unfold close_next. destruct (l_closes l !! k) as [[]|] eqn:Hk; try done.
  - destruct (l_done l) eqn:Hd.
    + intros [= <-] j. cbn. rewrite lookup_insert_Some. intros [[_ ?]|[_ Hj]]; [done|by eapply Hc].
    + destruct (l_pc l) as [| |a p [|err]| | | | |] eqn:Hpc; try done; intros [= <-] j _; cbn; eauto.
  - destruct (l_done l) eqn:Hd; [|done]. intros [= <-] j. cbn. rewrite lookup_insert_Some.
    intros [[_ ?]|[_ Hj]]; [done|by eapply Hc].
Qed.
Lemma lreach_heard l : lreach aborted_cleanly l → close_heard l.
Proof.
  induction 1 as [|l l' Hr IH Hs]; [intros k Hk; cbn in Hk; by rewrite lookup_empty in Hk|].
  inversion Hs as [? a Ha|? k Hk|? ev r Hn Hab|? a ? Hn|? k ? Hn]; subst.
  - intros j Hj. by eapply IH.
  - intros j. cbn. rewrite lookup_insert_Some. intros [[_ ?]|[_ Hj]]; [done|by eapply IH].
  - intros j Hj. destruct (closing_steps (l_pc l)) as [n|] eqn:Hc.
    + destruct (closing_step l ev l' n Hab Hc Hn) as (_ & m & -> & _). eauto.
    + assert (Hcl : l_closes l' = l_closes l).
      { clear -Hn. unfold listener_next in Hn.
        destruct (l_pc l) as [| |? ? []|? []| | | |], ev; try done; try (injection Hn as <-; done).
        - injection Hn as <-. by destruct err.
        - destruct (l_accepts l !! a) as [[]|]; try done. by injection Hn as <-.
        - destruct (l_first l); [|done]. by injection Hn as <-.
        - destruct (l_done l); [done|]. by injection Hn as <-. }
      rewrite Hcl in Hj. destruct (IH j Hj) as [n Hn']. congruence.
  - intros j Hj. unfold accept_next in Hn. destruct (l_accepts l !! a) as [[]|]; try done.
    destruct (l_done l); [injection Hn as <-; by eapply IH|].
    destruct (l_pc l) eqn:Hpc; try done. injection Hn as <-. destruct (IH j Hj) as [n Hn']. by rewrite Hpc in Hn'.
  - by eapply close_next_heard.
Qed.

(** C32: [Close] returns: provided that a connection aborted by closing its pipe
    reports success or [ErrFileClosed], a [Close] that the routine has heard
    waits for a routine that is on its way out; some step of the routine is
    always possible, each one brings it nearer to closing [doneCh], and then
    the [Close] returns. *)
Theorem close_progress l k :
  lreach aborted_cleanly l → l_closes l !! k = Some CSent →
  match closing_steps (l_pc l) with
  | None => False
  | Some O => close_next k l = Some (set_close k CDone l)
  | Some (S n) =>
      (∃ ev l', listener_next l ev = Some (Ret l')) ∧
      ∀ ev l', listener_next l ev = Some (Ret l') →
        (∀ a err, l_pc l = LAbort a (Ready err) → aborted_cleanly err) →
        l_closes l' !! k = Some CSent ∧ ∃ m, closing_steps (l_pc l') = Some m ∧ (m ≤ n)%nat
  end.
Proof.
  intros Hr Hk. destruct (lreach_heard l Hr k Hk) as [n Hn]. pose proof (lreach_inv _ l Hr) as Hi. rewrite Hn.
  destruct n as [|n].
  - unfold close_next. rewrite Hk. destruct Hi as [_ Hd _ _ _ _]. rewrite Hd.
    destruct (l_pc l) as [| | |? []|? []| | |]; try done. cbn in Hn. by case_bool_decide.
  - split; [by apply (closing_enabled l n)|]. intros ev l' Hs Hab.
    destruct (closing_step l ev l' _ Hab Hn Hs) as (-> & m & Hm & Hlt). split; [done|]. exists m. split; [done|lia].
Qed.

(** ** Runs *)
Inductive action := NewAccept (a : nat) | NewClose (k : nat) | Routine (ev : event) | AcceptGoes (a : nat) | CloseGoes (k : nat).
Definition act (ok : option error → bool) (x : action) (l : win32PipeListener) : option win32PipeListener :=
  match x with
  | NewAccept a => if bool_decide (l_accepts l !! a = None) then Some (set_accept a AStart l) else None
  | NewClose k => if bool_decide (l_closes l !! k = None) then Some (set_close k CStart l) else None
  | Routine ev =>
      if match l_pc l with LAbort _ (Ready err) => ok err | _ => true end
      then match listener_next l ev with Some (Ret l') => Some l' | _ => None end else None
  | AcceptGoes a => accept_next a l
  | CloseGoes k => close_next k l
  end.
#[export] Instance accept_pc_eq_dec : EqDecision accept_pc.
Proof. solve_decision. Defined.
#[export] Instance close_pc_eq_dec : EqDecision close_pc.
Proof. solve_decision. Defined.
Fixpoint acts (ok : option error → bool) (xs : list action) (l : win32PipeListener) : option win32PipeListener :=
  match xs with [] => Some l | x :: xs => l ← act ok x l; acts ok xs l end.

Lemma acts_reach aborts ok xs l l' :
  (∀ err, ok err = true → aborts err) → lreach aborts l → acts ok xs l = Some l' → lreach aborts l'.
Proof.
  intros Hok. revert l. induction xs as [|x xs IH]; intros l Hr; cbn; [by intros [= <-]|].
  destruct (act ok x l) as [l1|] eqn:Hx; [|done]. apply IH. apply (lreach_step _ l); [done|].
  destruct x as [a|k|ev|a|k]; cbn in Hx.
  - case_bool_decide; [|done]. injection Hx as <-. by apply ls_accept.
  - case_bool_decide; [|done]. injection Hx as <-. by apply ls_close.
  - destruct (listener_next l ev) as [[l2| | |]|] eqn:Hn; try by destruct (match l_pc l with LAbort _ (Ready err) => ok err | _ => true end).
    apply (ls_listener _ l ev).
    + destruct (match l_pc l with LAbort _ (Ready err) => ok err | _ => true end); [congruence|done].
    + intros b err Hpc. rewrite Hpc in Hx. apply Hok. by destruct (ok err).
  - by apply (ls_accept_next _ l a).
  - by apply (ls_close_next _ l k).
Qed.

Definition clean (err : option error) : bool := bool_decide (err = None ∨ err = Some ErrFileClosed).
Definition or_no_data (err : option error) : Prop := aborted_cleanly err ∨ err = Some ERROR_NO_DATA.

(** An [Accept] that is answered; another, waiting for a client, and a [Close]
    that aborts it. *)
Definition ex_served : list action :=
  [NewAccept 1; AcceptGoes 1; Routine Go; Routine (Connects None); Routine Go; Routine Go].
Definition ex_aborting : list action :=
  ex_served ++ [NewAccept 2; AcceptGoes 2; Routine Go; NewClose 1; CloseGoes 1].
(** A client that comes and goes at once while the listener is closed. *)
Definition ex_no_data : list action :=
  [NewAccept 1; AcceptGoes 1; Routine Go; Routine (Connects (Some ERROR_NO_DATA)); NewClose 1; CloseGoes 1; Routine Go; Routine Go].
Definition after (ok : option error → bool) (xs : list action) : win32PipeListener := default ListenPipe (acts ok xs ListenPipe).

Lemma ex_aborting_reach : lreach aborted_cleanly (after clean ex_aborting).
Proof.
  apply (acts_reach _ clean ex_aborting ListenPipe).
  - intros err. unfold clean. by case_bool_decide.
  - constructor.
  - vm_compute. reflexivity.
Qed.

(** a [Close] can be lost: when the client has connected and gone by the time
    the routine hears the [Close] ([ERROR_NO_DATA]), the aborted attempt is
    taken for one to repeat; the routine makes another pipe and waits for
    another client, and the [Close], whose request has been consumed, waits
    with it. *)
Theorem close_lost :
  ∃ l a p, lreach or_no_data l ∧ l_closes l = {[1%nat := CSent]} ∧ l_pc l = LSelect a p Running ∧
    close_next 1 l = None ∧ l_done l = false ∧
    ∀ ev r, listener_next l ev = Some r → ∃ err, ev = Connects err.
Proof.
  exists (after (λ _, true) ex_no_data), 1%nat, 0%nat. split.
  - apply (acts_reach _ (λ err, bool_decide (err = None ∨ err = Some ErrFileClosed) || bool_decide (err = Some ERROR_NO_DATA)) ex_no_data ListenPipe).
    + intros err. by rewrite orb_true_iff, !bool_decide_eq_true.
    + constructor.
    + vm_compute. reflexivity.
  - split_and!; [vm_compute; reflexivity..|]. intros ev r Hn.
    change (after (λ _, true) ex_no_data) with (set_l_pc (LSelect 1 0 Running) (after (λ _, true) ex_no_data)) in Hn.
    destruct ev as [|e|err]; try done. by exists err.
Qed.

Lemma listener_safe_witness : ∃ l', listener_next (after clean ex_aborting) (Connects (Some ErrFileClosed)) = Some (Ret l') ∧
  (∀ p, p ∈ l_pipes l' ↔ holding (l_pc l') = Some p ∨ ∃ a, returned l' a p).
Proof.
  destruct (listener_next (after clean ex_aborting) (Connects (Some ErrFileClosed))) as [r|] eqn:E; [|vm_compute in E; discriminate E].
  destruct (listener_safe aborted_cleanly (after clean ex_aborting) r) as (l' & -> & Hp & _).
  - apply ex_aborting_reach.
  - apply (ls_listener _ _ _ _ E). vm_compute. discriminate.
  - by exists l'.
Defined.
Lemma accept_answered_witness : serving (l_pc (after clean ex_aborting)) = Some 2%nat.
Proof.
  destruct (accept_answered aborted_cleanly (after clean ex_aborting) 2) as [H _].
  - apply ex_aborting_reach.
  - apply H. vm_compute. reflexivity.
Defined.
Lemma close_progress_witness :
  closing_steps (l_pc (after clean ex_aborting)) = Some 5%nat ∧
  ∃ ev l', listener_next (after clean ex_aborting) ev = Some (Ret l').
Proof.
  split; [vm_compute; reflexivity|].
  pose proof (close_progress (after clean ex_aborting) 1) as H.
  destruct H as [H _]; [apply ex_aborting_reach|vm_compute; reflexivity|exact H].
Defined.
