(* ===== verification/Handles.v ===== *)
(** * Handles ([file.go], [makeWin32File])

    The part of the system the files, pipes and sockets share: handles that are
    opened and closed, and the completion port every file is attached to.  The
    calls are an interface; the clients are proved against its laws, which say
    what each call does to the set of open handles. *)
From S2P Require Import Prelude.

(** ** Computations that end and leave something as it was

    The one panic of these parts of the package is that of [initIO], when the
    completion port cannot be made. *)
Definition port_panic : string := "createIoCompletionPort".
Definition keeps {S A X} (f : S → X) (m : St S A) : Prop :=
  ∀ s, match m s with (Panic w, _) => w = port_panic | (NoFuel, _) => False | (_, s') => f s' = f s end.

Section Keeps.
Context {S X : Type} (f : S → X).
Lemma keeps_ret {A} (a : A) : keeps f (mret a : St S A).
Proof. done. Qed.
Lemma keeps_fail {A} e : keeps f (fail e : St S A).
Proof. done. Qed.
Lemma keeps_bind {A B} (m : St S A) (k : A → St S B) :
  keeps f m → (∀ a, keeps f (k a)) → keeps f (m ≫= k).
Proof.
  intros Hm Hk s. specialize (Hm s). rewrite St_bind_eq. destruct (m s) as [[a| | |] s1]; try done.
  specialize (Hk a s1). destruct (k a s1) as [[]]; congruence.
Qed.
End Keeps.

Definition map_err {S A} (f : error → error) (m : St S A) : St S A := λ s,
  match m s with (Fail err, s) => (Fail (f err), s) | x => x end.
Lemma keeps_map_err {S X A} (f : S → X) g (m : St S A) : keeps f m → keeps f (map_err g m).
Proof. intros Hm s. unfold map_err. specialize (Hm s). by destruct (m s) as [[]]. Qed.

(** ** The calls *)
Class FileApi (E : Type) : Type := {
  createIoCompletionPort : Z → Z → St E Z;
  setFileCompletionNotificationModes : Z → Z → St E unit;
  CloseHandle : Z → E → E }.

Class FileApiSpec (E : Type) `{FileApi E} : Type := {
  files : E → gset Z;   (** the open handles of files, pipes and sockets *)
  createIoCompletionPort_keeps h p : keeps files (createIoCompletionPort h p);
  setModes_keeps h m : keeps files (setFileCompletionNotificationModes h m);
  CloseHandle_files h e : files (CloseHandle h e) = files e ∖ {[h]} }.

(** [ctx.Err()]: the error of a context that is done. *)
Class Context (E : Type) : Type := ctx_Err : E → option error.

(** The process: the package's completion port, made once, and the system. *)
Record proc (E : Type) := mkProc { ioCompletionPort : option Z; sys : E }.
Arguments mkProc {E} _ _.
Arguments ioCompletionPort {E} _.
Arguments sys {E} _.

Definition on_sys {E A} (m : St E A) : St (proc E) A := λ p,
  let '(r, e) := m (sys p) in (r, mkProc (ioCompletionPort p) e).
Definition do_sys {E} (f : E → E) : St (proc E) unit := λ p, (Ret (), mkProc (ioCompletionPort p) (f (sys p))).

Definition InvalidHandle : Z := 18446744073709551615.
Definition FILE_SKIP_COMPLETION_PORT_ON_SUCCESS : Z := 1.
Definition FILE_SKIP_SET_EVENT_ON_HANDLE : Z := 2.

Section Make.
Context {E : Type} `{FileApi E}.

(** [ioInitOnce.Do(initIO)] *)
Definition initIO : St (proc E) Z := λ p,
  match ioCompletionPort p with
  | Some port => (Ret port, p)
  | None =>
      match createIoCompletionPort InvalidHandle 0 (sys p) with
      | (Ret port, e) => (Ret port, mkProc (Some port) e)
      | (Fail _, e) => (Panic port_panic, mkProc None e)
      | (Panic w, e) => (Panic w, mkProc None e)
      | (NoFuel, e) => (NoFuel, mkProc None e)
      end
  end.

(** A file is known here by its handle. *)
Definition makeWin32File (h : Z) : St (proc E) Z :=
  port ← initIO;
  _ ← on_sys (createIoCompletionPort h port);
  _ ← on_sys (setFileCompletionNotificationModes h
        (Z.lor FILE_SKIP_COMPLETION_PORT_ON_SUCCESS FILE_SKIP_SET_EVENT_ON_HANDLE));
  mret h.

(** The result as an interface. *)
Definition NewOpenFile (h : Z) : St (proc E) Z := f ← makeWin32File h; mret f.
Definition MakeOpenFile (h : Z) : St (proc E) Z := NewOpenFile h.

(** The file of a new handle, which is closed when there is none. *)
Definition file_or_close (h : Z) : St (proc E) Z := λ p,
  match makeWin32File h p with
  | (Fail err, p) => (Fail err, mkProc (ioCompletionPort p) (CloseHandle h (sys p)))
  | x => x
  end.
End Make.

Section MakeSpec.
Context {E : Type} `{FileApiSpec E}.
Definition pfiles (p : proc E) : gset Z := files (sys p).

Lemma keeps_on_sys {A} (m : St E A) : keeps files m → keeps pfiles (on_sys m).
Proof. intros Hm p. unfold on_sys, pfiles. specialize (Hm (sys p)). by destruct (m (sys p)) as [[]]. Qed.
Lemma makeWin32File_keeps h : keeps pfiles (makeWin32File h).
Proof.
  apply keeps_bind; [|intros port; apply keeps_bind; [|intros _; apply keeps_bind; [|intros _; apply keeps_ret]]].
  - intros p. unfold initIO. destruct (ioCompletionPort p); [done|].
    pose proof (createIoCompletionPort_keeps InvalidHandle 0 (sys p)) as Hk.
    by destruct (createIoCompletionPort InvalidHandle 0 (sys p)) as [[]].
  - apply keeps_on_sys, createIoCompletionPort_keeps.
  - apply keeps_on_sys, setModes_keeps.
Qed.
Lemma makeWin32File_handle h p h' p' : makeWin32File h p = (Ret h', p') → h' = h.
Proof.
  unfold makeWin32File. rewrite St_bind_eq. destruct (initIO p) as [[port| | |] p1]; try done.
  rewrite St_bind_eq. destruct (on_sys _ p1) as [[x| | |] p2]; try done.
  rewrite St_bind_eq. destruct (on_sys _ p2) as [[y| | |] p3]; try done. by intros [= <- _].
Qed.

(** A new handle becomes a file or is closed again. *)
Lemma file_or_close_error h p :
  match file_or_close h p with (Fail err, _) => (makeWin32File h p).1 = Fail err | _ => True end.
Proof. unfold file_or_close. by destruct (makeWin32File h p) as [[]]. Qed.
Lemma file_or_close_spec h p :
  match file_or_close h p with
  | (Ret h', p') => h' = h ∧ pfiles p' = pfiles p
  | (Fail _, p') => pfiles p' = pfiles p ∖ {[h]}
  | (Panic w, _) => w = port_panic
  | (NoFuel, _) => False
  end.
Proof.
  unfold file_or_close. pose proof (makeWin32File_keeps h p) as Hk.
  destruct (makeWin32File h p) as [[h'|err| |] p1] eqn:E1; try done.
  - split; [by eapply makeWin32File_handle|done].
  - unfold pfiles in *. cbn. by rewrite CloseHandle_files, Hk.
Qed.
End MakeSpec.
