(* ===== verification/PipeOpen.v ===== *)
(** * Dialing and creating named pipes ([pipe.go])

    [DialPipe] and its variants, which poll for a free instance of the pipe
    until the context ends, and [makeServerPipeHandle], which creates an instance
    and frees the local memory it needed on the way.  The states are those of
    the process with its open handles and its local memory. *)
From S2P Require Import Prelude FsFlags GoStrings Win32File Handles.

Definition ERROR_PIPE_BUSY : error := Errno 231.
Definition DeadlineExceeded : error := New "context deadline exceeded".
(** [&os.PathError{Op: "open", Path: path, Err: err}] *)
Definition PathError (path : list Z) (err : error) : error := Wrapf "open" [] [path] err.

(** Constants of [internal/fs] and of [x/sys/windows]. *)
Definition PIPE_TYPE_MESSAGE : Z := 4.
Definition FILE_PIPE_REJECT_REMOTE_CLIENTS : Z := 2.
Definition FILE_PIPE_MESSAGE_TYPE : Z := 1.
Definition OBJ_CASE_INSENSITIVE : Z := 64.
Definition SE_DACL_PRESENT : Z := 4.
Definition PipeImpLevelAnonymous : Z := SECURITY_ANONYMOUS.
Definition PipeImpLevelIdentification : Z := SECURITY_IDENTIFICATION.
Definition PipeImpLevelImpersonation : Z := SECURITY_IMPERSONATION.
Definition PipeImpLevelDelegation : Z := SECURITY_DELEGATION.

(** The security descriptor of [objectAttributes]: none, local memory, or a
    [securityDescriptor] of its own with a discretionary access control list. *)
Inductive descriptor := NoDescriptor | LocalDescriptor (p : Z) | AbsoluteDescriptor (Revision Control Dacl : Z).
Record pipe_args := mkPA {
  pa_access : Z; pa_name : Z; pa_attributes : Z; pa_sd : descriptor; pa_share : Z; pa_disposition : Z;
  pa_options : Z; pa_typ : Z; pa_readMode : Z; pa_completionMode : Z; pa_maxInstances : Z;
  pa_inbound : Z; pa_outbound : Z; pa_timeout : Z }.

(** ** The calls

    The calls of the native interface return a status. *)
Class PipeApi (E : Type) : Type := {
  Sleep10 : E → E;
  CreateFile : list Z → Z → Z → Z → Z → St E Z;
  getNamedPipeInfo : Z → St E Z;
  UTF16FromString : list Z → error + list Z;
  rtlDosPathNameToNtPathName : list Z → E → (Z * Z) * E;
  rtlDefaultNpAcl : E → (Z * Z) * E;
  rtlNtStatusToDosError : Z → error;
  LocalAlloc : Z → St E Z;
  LocalStore : Z → list Z → E → E;
  LocalFree : Z → E → E;
  ntCreateNamedPipeFile : pipe_args → E → (Z * Z) * E;
  SddlToSecurityDescriptor : list Z → St E (list Z) }.

Class PipeApiSpec (E : Type) `{FileApiSpec E} `{Context E} `{PipeApi E} : Type := {
  local : E → gmap Z (list Z);     (** the local memory in use *)
  ctx_left : E → nat;              (** naps until the context ends *)
  ctx_ends e : ctx_left e = O → is_Some (ctx_Err e);
  Sleep_left e : ctx_left (Sleep10 e) = pred (ctx_left e);
  Sleep_files e : files (Sleep10 e) = files e;
  CreateFile_left n a s d f : keeps ctx_left (CreateFile n a s d f);
  CreateFile_files n a s d f e :
    match CreateFile n a s d f e with
    | (Ret h, e') => (h ∉ files e) ∧ files e' = {[h]} ∪ files e
    | (Fail _, e') => files e' = files e
    | _ => False
    end;
  getNamedPipeInfo_keeps h : keeps files (getNamedPipeInfo h);
  rtlDos_spec w e :
    let '((status, p), e') := rtlDosPathNameToNtPathName w e in
    files e' = files e ∧
    if 0 <=? status then local e !! p = None ∧ ∃ x, local e' = <[p := x]> (local e) else local e' = local e;
  rtlDefaultNpAcl_spec e :
    let '((status, p), e') := rtlDefaultNpAcl e in
    files e' = files e ∧
    if 0 <=? status then local e !! p = None ∧ ∃ x, local e' = <[p := x]> (local e) else local e' = local e;
  LocalAlloc_spec n e :
    match LocalAlloc n e with
    | (Ret p, e') => files e' = files e ∧ local e !! p = None ∧ ∃ x, local e' = <[p := x]> (local e)
    | (Fail _, e') => files e' = files e ∧ local e' = local e
    | _ => False
    end;
  LocalStore_spec p b e : files (LocalStore p b e) = files e ∧ local (LocalStore p b e) = <[p := b]> (local e);
  LocalFree_spec p e : files (LocalFree p e) = files e ∧ local (LocalFree p e) = delete p (local e);
  ntCreate_spec a e :
    let '((status, h), e') := ntCreateNamedPipeFile a e in
    local e' = local e ∧
    if 0 <=? status then (h ∉ files e) ∧ files e' = {[h]} ∪ files e else files e' = files e }.

(** ** Dialing *)

(** A [net.Conn]: a pipe, or a message pipe presented as bytes. *)
Record pipe_conn := mkConn { c_handle : Z; c_path : list Z; c_message : bool }.

Section Dial.
Context {E : Type} `{FileApi E} `{Context E} `{PipeApi E}.

Fixpoint tryDialPipe (fuel : nat) (path : list Z) (access impLevel : Z) : St E Z := λ e,
  match fuel with
  | O => (NoFuel, e)
  | S fuel =>
      match ctx_Err e with
      | Some err => (Fail err, e)
      | None =>
          match CreateFile path access 0 OPEN_EXISTING
                  (Z.lor (Z.lor FILE_FLAG_OVERLAPPED SECURITY_SQOS_PRESENT) impLevel) e with
          | (Fail err, e) =>
              if bool_decide (err = ERROR_PIPE_BUSY) then tryDialPipe fuel path access impLevel (Sleep10 e)
              else (Fail (PathError path err), e)
          | x => x
          end
      end
  end.

Definition DialPipeAccessImpLevel (fuel : nat) (path : list Z) (access impLevel : Z) : St (proc E) pipe_conn :=
  h ← on_sys (tryDialPipe fuel path access impLevel);
  flags ← on_sys (getNamedPipeInfo h);
  f ← file_or_close h;
  mret (mkConn f path (negb (Z.land flags PIPE_TYPE_MESSAGE =? 0))).
Definition DialPipeAccess (fuel : nat) (path : list Z) (access : Z) : St (proc E) pipe_conn :=
  DialPipeAccessImpLevel fuel path access PipeImpLevelAnonymous.
Definition DialPipeContext (fuel : nat) (path : list Z) : St (proc E) pipe_conn :=
  DialPipeAccess fuel path (Z.lor GENERIC_READ GENERIC_WRITE).
(** The context of [DialPipe] ends at its deadline. *)
Definition DialPipe (fuel : nat) (path : list Z) : St (proc E) pipe_conn := λ p,
  match DialPipeContext fuel path p with
  | (Fail err, p) => (Fail (if errors_is err DeadlineExceeded then ErrTimeout else err), p)
  | x => x
  end.
End Dial.

(** ** Creating *)
Record PipeConfig := mkPC {
  SecurityDescriptor : list Z; MessageMode : bool; InputBufferSize : Z; OutputBufferSize : Z }.

Section Create.
Context {E : Type} `{FileApi E} `{Context E} `{PipeApi E}.

Definition of_sum {A} (x : error + A) : res A := match x with inl err => Fail err | inr a => Ret a end.
(** [ntStatus.Err] *)
Definition nt {A} (m : E → (Z * A) * E) : St E A := λ e,
  let '((status, a), e) := m e in
  (if 0 <=? status then Ret a else Fail (rtlNtStatusToDosError status), e).
(** [defer windows.LocalFree(p)] *)
Definition defer_free {A} (p : Z) (m : St E A) : St E A := λ e,
  let '(r, e) := m e in (r, LocalFree p e).
(** The security descriptor of the first instance, for the rest of the call. *)
Definition with_descriptor {A} (sd : option (list Z)) (k : descriptor → St E A) : St E A :=
  match sd with
  | Some sd =>
      p ← map_err (Wrapf "LocalAlloc for security descriptor with of length %d: %w" [u32 (zlen sd)] []) (LocalAlloc (u32 (zlen sd)));
      defer_free p (λ e, k (LocalDescriptor p) (LocalStore p (ztake 65535 sd) e))
  | None =>
      dacl ← map_err (Wrapf "getting default named pipe ACL: %w" [] []) (nt rtlDefaultNpAcl);
      defer_free dacl (k (AbsoluteDescriptor 1 SE_DACL_PRESENT dacl))
  end.

Definition pipe_type (c : PipeConfig) : Z :=
  if MessageMode c then Z.lor FILE_PIPE_REJECT_REMOTE_CLIENTS FILE_PIPE_MESSAGE_TYPE else FILE_PIPE_REJECT_REMOTE_CLIENTS.
Definition pipe_args_of (c : PipeConfig) (first : bool) (name : Z) (sd : descriptor) : pipe_args :=
  mkPA (if first then SYNCHRONIZE else Z.lor (Z.lor GENERIC_READ GENERIC_WRITE) SYNCHRONIZE)
    name OBJ_CASE_INSENSITIVE sd (Z.lor FILE_SHARE_READ FILE_SHARE_WRITE)
    (if first then FILE_CREATE else FILE_OPEN) 0 (pipe_type c) 0 0 4294967295
    (u32 (InputBufferSize c)) (u32 (OutputBufferSize c)) (-500000).

Definition makeServerPipeHandle (path : list Z) (sd : option (list Z)) (c : PipeConfig) (first : bool) : St E Z :=
  path16 ← map_err (PathError path) (lift (of_sum (UTF16FromString path)));
  ntPath ← map_err (PathError path) (nt (rtlDosPathNameToNtPathName path16));
  defer_free ntPath
    ((if first then with_descriptor sd else λ k, k NoDescriptor) (λ desc,
       map_err (PathError path) (nt (ntCreateNamedPipeFile (pipe_args_of c first ntPath desc))))).

(** [win32PipeListener.makeServerPipe] *)
Definition makeServerPipe (path : list Z) (c : PipeConfig) : St (proc E) Z :=
  h ← on_sys (makeServerPipeHandle path None c false); file_or_close h.

(** [ListenPipe] up to the start of [listenerRoutine]: the handle of the first
    instance, which reserves the name. *)
Definition ListenPipe_handle (path : list Z) (c : PipeConfig) : St E Z :=
  sd ← (if bool_decide (SecurityDescriptor c = []) then mret None
        else sd ← SddlToSecurityDescriptor (SecurityDescriptor c); mret (Some sd));
  makeServerPipeHandle path sd c true.
End Create.

(** ** Dialing ends, and leaves no handle behind *)
Section DialSpec.
Context {E : Type} `{PipeApiSpec E}.

(** Opening the client end: for the access asked for, shared with nobody, an existing pipe, overlapped
    and at the impersonation level. *)
Definition open_client (path : list Z) (access lvl : Z) (e : E) : res Z * E :=
  CreateFile path access 0 3 (Z.lor 1074790400 lvl) e.
(** Why a dial did not get a handle: the context had ended, or the pipe could not be opened and was not busy (231). *)
Definition not_opened (path : list Z) (access lvl : Z) (err : error) : Prop :=
  (∃ e : E, ctx_Err e = Some err) ∨
  (∃ e err', (open_client path access lvl e).1 = Fail err' ∧ err' ≠ Errno 231 ∧ err = PathError path err').

Lemma tryDialPipe_spec fuel path access lvl e :
  (ctx_left e < fuel)%nat →
  match tryDialPipe fuel path access lvl e with
  | (Ret h, e') => (h ∉ files e) ∧ files e' = {[h]} ∪ files e
  | (Fail err, e') => files e' = files e ∧ not_opened path access lvl err
  | _ => False
  end.
Proof.
  revert e. induction fuel as [|fuel IH]; intros e Hl; [lia|]. cbn [tryDialPipe].
  destruct (ctx_Err e) as [err|] eqn:Hc; [split; [done|left; eauto]|].
  change OPEN_EXISTING with 3. change (Z.lor (Z.lor FILE_FLAG_OVERLAPPED SECURITY_SQOS_PRESENT) lvl) with (Z.lor 1074790400 lvl).
  pose proof (CreateFile_files path access 0 3 (Z.lor 1074790400 lvl) e) as Hf.
  pose proof (CreateFile_left path access 0 3 (Z.lor 1074790400 lvl) e) as Hn.
  destruct (CreateFile path access 0 3 _ e) as [[h|err| |] e1] eqn:Eo; try done.
  case_bool_decide as Hb; [|split; [done|right; exists e, err; unfold open_client; by rewrite Eo]].
  assert (Hpos : ctx_left e ≠ O) by (intros Hz; destruct (ctx_ends e Hz); congruence).
  specialize (IH (Sleep10 e1)). rewrite Sleep_left, Sleep_files, Hn, Hf in IH.
  apply IH. lia.
Qed.

(** What a dial leaves: the handle of the connection, or none; the exception is a
    pipe that [getNamedPipeInfo] fails for. *)
Definition dialed (path : list Z) (p : proc E) (c : pipe_conn) (p' : proc E) : Prop :=
  c_path c = path ∧ (c_handle c ∉ pfiles p) ∧ pfiles p' = {[c_handle c]} ∪ pfiles p ∧
  ∃ e flags, (getNamedPipeInfo (c_handle c) e).1 = Ret flags ∧ c_message c = Z.testbit flags 2.
Definition not_dialed (path : list Z) (access lvl : Z) (p : proc E) (err : error) (p' : proc E) : Prop :=
  (pfiles p' = pfiles p ∧ (not_opened path access lvl err ∨ ∃ h (q : proc E), (makeWin32File h q).1 = Fail err)) ∨
  (∃ h e1 e2, getNamedPipeInfo h e1 = (Fail err, e2) ∧ (h ∉ pfiles p) ∧ pfiles p' = {[h]} ∪ pfiles p).
Lemma message_bit flags : negb (Z.land flags PIPE_TYPE_MESSAGE =? 0) = Z.testbit flags 2.
Proof. exact (land_bit flags 2 ltac:(done)). Qed.
Lemma dial_spec fuel path access lvl (p : proc E) :
  (ctx_left (sys p) < fuel)%nat →
  match DialPipeAccessImpLevel fuel path access lvl p with
  | (Ret c, p') => dialed path p c p'
  | (Fail err, p') => not_dialed path access lvl p err p'
  | (Panic w, _) => w = port_panic
  | (NoFuel, _) => False
  end.
Proof.
  intros Hl. unfold DialPipeAccessImpLevel. rewrite St_bind_eq. unfold on_sys at 1.
  pose proof (tryDialPipe_spec fuel path access lvl (sys p) Hl) as Hd.
  destruct (tryDialPipe fuel path access lvl (sys p)) as [[h|err| |] e1]; try done.
  2: { destruct Hd as [Hf Hno]. left. split; [done|by left]. }
  destruct Hd as [Hh He1]. rewrite St_bind_eq. unfold on_sys. cbn [sys ioCompletionPort].
  pose proof (getNamedPipeInfo_keeps h e1) as Hg.
  destruct (getNamedPipeInfo h e1) as [[flags|err| |] e2] eqn:Eg; try done.
  - rewrite St_bind_eq. pose proof (file_or_close_spec h (mkProc (ioCompletionPort p) e2)) as Hf.
    pose proof (file_or_close_error h (mkProc (ioCompletionPort p) e2)) as He.
    destruct (file_or_close h _) as [[h'|err| |] p3]; try done; unfold pfiles in *; cbn in *.
    + destruct Hf as [-> Hf]. split; [done|]. cbn [c_handle]. split; [done|]. unfold pfiles. split; [congruence|]. exists e1, flags.
      cbn [c_message]. by rewrite Eg, message_bit.
    + left. split; [|by right; eauto]. unfold pfiles. cbn in Hf |- *. rewrite Hf, Hg, He1. clear -Hh. apply set_eq. set_unfold. naive_solver.
  - right. exists h, e1, e2. unfold pfiles. cbn. split_and!; [done|done|congruence].
Qed.
(** The exception happens: no one closes the handle of such a pipe. *)
Lemma dial_leak fuel path access lvl (p : proc E) h e1 err e2 :
  tryDialPipe fuel path access lvl (sys p) = (Ret h, e1) → getNamedPipeInfo h e1 = (Fail err, e2) →
  DialPipeAccessImpLevel fuel path access lvl p = (Fail err, mkProc (ioCompletionPort p) e2) ∧ files e2 = files e1.
Proof.
  intros Ht Hg. pose proof (getNamedPipeInfo_keeps h e1) as Hk. rewrite Hg in Hk. split; [|done].
  unfold DialPipeAccessImpLevel. rewrite St_bind_eq. unfold on_sys at 1. rewrite Ht, St_bind_eq.
  unfold on_sys. cbn. by rewrite Hg.
Qed.
End DialSpec.

(** C36: dialing ends with the context: with fuel for the naps that fit in the
    time left, [DialPipe] returns a connection or an error, whatever other
    clients do to the pipe; a connection owns one new handle, opened for reading and writing, and is a message
    pipe when the system says so. An error has a cause: the end of the context, the error of a pipe that is
    not busy, or that of one of the calls for its file; it is [ErrTimeout] when the cause is a deadline, and
    the cause itself otherwise. No handle is left open behind an error, with the exception of the one of a pipe for
    which [getNamedPipeInfo] fails. The only panic is that of [initIO] when it cannot make the completion port. *)
Theorem DialPipe_spec {E} `{PipeApiSpec E} fuel path (p : proc E) :
  (ctx_left (sys p) < fuel)%nat →
  match DialPipe fuel path p with
  | (Ret c, p') => dialed path p c p'
  | (Fail err, p') => ∃ cause, not_dialed path 3221225472 0 p cause p' ∧
      err = if errors_is cause DeadlineExceeded then ErrTimeout else cause
  | (Panic w, _) => w = port_panic
  | (NoFuel, _) => False
  end.
Proof.
  intros Hl. unfold DialPipe, DialPipeContext, DialPipeAccess.
  pose proof (dial_spec fuel path (Z.lor GENERIC_READ GENERIC_WRITE) PipeImpLevelAnonymous p Hl) as Hd.
  destruct (DialPipeAccessImpLevel fuel path _ _ p) as [[c|err| |] p']; try done. by exists err.
Qed.

(** ** Creating an instance gives back what it borrowed *)
Section CreateSpec.
Context {E : Type} `{PipeApiSpec E}.

(** From the state [e], a computation returns the local memory it uses and opens
    at most the handle it returns, of which [R] holds. *)
Definition opens_one (R : Z → Prop) (m : St E Z) (e : E) : Prop :=
  match m e with
  | (Ret h, e') => local e' = local e ∧ (h ∉ files e) ∧ files e' = {[h]} ∪ files e ∧ R h
  | (Fail _, e') => local e' = local e ∧ files e' = files e
  | _ => False
  end.
(** The descriptor that the call for the first instance passes: local memory
    with the caller's bytes, or the default access control list. *)
Definition descriptor_ok (first : bool) (sd : option (list Z)) (d : descriptor) (e : E) : Prop :=
  match first, sd, d with
  | false, _, NoDescriptor => True
  | true, Some b, LocalDescriptor p => local e !! p = Some (ztake 65535 b)
  | true, None, AbsoluteDescriptor 1 4 dacl => is_Some (local e !! dacl)
  | _, _, _ => False
  end.
(** The arguments a configuration asks for, by the documentation of NtCreateNamedPipeFile: the first instance
    is created (2) and only synchronized on (0x100000), so that it is no instance to connect to; the others open (1) the
    pipe for reading and writing (0xC0000000 more). Names ignore case (0x40), both ends may read
    and write (3), remote clients are rejected (2) and messages kept apart (1) on request;
    there is no bound on the instances, and clients wait 50 ms, in units of 100 ns, relative. *)
Definition configured (first : bool) (c : PipeConfig) (a : pipe_args) : Prop :=
  pa_access a = (if first then 0x100000 else 0xC0100000) ∧ pa_disposition a = (if first then 2 else 1) ∧
  pa_attributes a = 0x40 ∧ pa_share a = 3 ∧ pa_options a = 0 ∧ pa_typ a = (if MessageMode c then 3 else 2) ∧
  pa_readMode a = 0 ∧ pa_completionMode a = 0 ∧ pa_maxInstances a = 2 ^ 32 - 1 ∧
  pa_inbound a = InputBufferSize c mod 2 ^ 32 ∧ pa_outbound a = OutputBufferSize c mod 2 ^ 32 ∧ pa_timeout a = - (50 * 10000).
(** [h] was created by a call with the arguments of [c]. *)
Definition created (first : bool) (sd : option (list Z)) (c : PipeConfig) (h : Z) : Prop :=
  ∃ a e1 e2 status, ntCreateNamedPipeFile a e1 = ((status, h), e2) ∧ 0 ≤ status ∧ configured first c a ∧
    is_Some (local e1 !! pa_name a) ∧ descriptor_ok first sd (pa_sd a) e1.
Lemma pipe_args_configured c first name d :
  configured first c (pipe_args_of c first name d) ∧ pa_name (pipe_args_of c first name d) = name ∧ pa_sd (pipe_args_of c first name d) = d.
Proof. unfold configured, pipe_args_of, pipe_type. destruct first, (MessageMode c); done. Qed.

Lemma opens_map_err R f m e : opens_one R m e → opens_one R (map_err f m) e.
Proof. intros Hm. unfold opens_one, map_err in *. by destruct (m e) as [[]]. Qed.

(** Memory that was allocated for [m] and is freed after it. *)
Lemma opens_alloc R p x m e e1 :
  local e !! p = None → local e1 = <[p := x]> (local e) → files e1 = files e → opens_one R m e1 →
  match defer_free p m e1 with
  | (Ret h, e') => local e' = local e ∧ (h ∉ files e) ∧ files e' = {[h]} ∪ files e ∧ R h
  | (Fail _, e') => local e' = local e ∧ files e' = files e
  | _ => False
  end.
Proof.
  intros Hp Hl Hf Hm. unfold defer_free, opens_one in *.
  assert (Hdel : ∀ e2, local e2 = local e1 → local (LocalFree p e2) = local e).
  { intros e2 He2. destruct (LocalFree_spec p e2) as [_ ->]. rewrite He2, Hl. by rewrite delete_insert_id. }
  destruct (m e1) as [[h|err| |] e2]; try done; destruct (LocalFree_spec p e2) as [-> _].
  - destruct Hm as (Hl2 & Hh & Hf2 & HR). rewrite (Hdel _ Hl2), Hf2, Hf. by rewrite Hf in Hh.
  - destruct Hm as (Hl2 & Hf2). by rewrite (Hdel _ Hl2), Hf2, Hf.
Qed.

Lemma opens_with_descriptor R sd (k : descriptor → St E Z) name x e :
  local e !! name = Some x →
  (∀ d e1, is_Some (local e1 !! name) → descriptor_ok true sd d e1 → opens_one R (k d) e1) →
  opens_one R (with_descriptor sd k) e.
Proof.
  intros Hn Hk. unfold opens_one, with_descriptor. destruct sd as [sd|]; rewrite St_bind_eq; unfold map_err.
  - pose proof (LocalAlloc_spec (u32 (zlen sd)) e) as Ha.
    destruct (LocalAlloc (u32 (zlen sd)) e) as [[p|err| |] e1]; try done; [|by destruct Ha].
    destruct Ha as (Hf & Hp & y & Hl).
    destruct (LocalStore_spec p (ztake 65535 sd) e1) as [Hf1 Hl1]. rewrite Hl, insert_insert_eq in Hl1.
    assert (Hne : p ≠ name) by congruence.
    apply (opens_alloc R p (ztake 65535 sd) (k (LocalDescriptor p)) e (LocalStore p (ztake 65535 sd) e1)); try done; [congruence|].
    apply Hk; [rewrite Hl1, lookup_insert_ne by done; eauto|]. cbn. by rewrite Hl1, lookup_insert_eq.
  - unfold nt. pose proof (rtlDefaultNpAcl_spec e) as Ha. destruct (rtlDefaultNpAcl e) as [[status p] e1].
    destruct Ha as [Hf Ha]. destruct (0 <=? status); [|done]. destruct Ha as (Hp & y & Hl).
    assert (Hne : p ≠ name) by congruence.
    apply (opens_alloc R p y); try done.
    apply Hk; [rewrite Hl, lookup_insert_ne by done; eauto|]. cbn. rewrite Hl, lookup_insert_eq. eauto.
Qed.

Lemma opens_create first sd c name d path e :
  is_Some (local e !! name) → descriptor_ok first sd d e →
  opens_one (created first sd c) (map_err (PathError path) (nt (ntCreateNamedPipeFile (pipe_args_of c first name d)))) e.
Proof.
  intros Hn Hd. apply opens_map_err. unfold opens_one, nt.
  pose proof (ntCreate_spec (pipe_args_of c first name d) e) as Hs.
  destruct (ntCreateNamedPipeFile (pipe_args_of c first name d) e) as [[status h] e'] eqn:Ec.
  destruct Hs as [Hl Hs]. destruct (Z.leb_spec 0 status); [|done]. destruct Hs as [Hh Hf]. split_and!; try done.
  destruct (pipe_args_configured c first name d) as (Hc & Hna & Hsd).
  exists (pipe_args_of c first name d), e, e', status. by rewrite Hna, Hsd.
Qed.

End CreateSpec.


(** ** Witnesses: a host with a pipe that is busy for a while *)
Record host := mkHost { h_files : gset Z; h_local : gmap Z (list Z); h_left : nat; h_busy : nat }.
Definition host_alloc (e : host) : Z * host :=
  let p := fresh (dom (h_local e) : gset Z) in (p, mkHost (h_files e) (<[p := []]> (h_local e)) (h_left e) (h_busy e)).
Definition host_open (e : host) : Z * host :=
  let h := fresh (h_files e) in (h, mkHost ({[h]} ∪ h_files e) (h_local e) (h_left e) (h_busy e)).

#[export] Instance host_FileApi : FileApi host := {|
  createIoCompletionPort h p e := (Ret 1, e);
  setFileCompletionNotificationModes h m e := (Ret (), e);
  CloseHandle h e := mkHost (h_files e ∖ {[h]}) (h_local e) (h_left e) (h_busy e) |}.
#[export, program] Instance host_FileApiSpec : FileApiSpec host := {| files := h_files |}.
Next Obligation. done. Qed.
Next Obligation. done. Qed.
Next Obligation. done. Qed.

#[export] Instance host_Context : Context host := λ e, if bool_decide (h_left e = O) then Some DeadlineExceeded else None.
#[export] Instance host_PipeApi : PipeApi host := {|
  Sleep10 e := mkHost (h_files e) (h_local e) (pred (h_left e)) (h_busy e);
  CreateFile n a s d f e :=
    match h_busy e with
    | S b => (Fail ERROR_PIPE_BUSY, mkHost (h_files e) (h_local e) (h_left e) b)
    | O => let '(h, e) := host_open e in (Ret h, e)
    end;
  getNamedPipeInfo h e := (Ret 4, e);
  UTF16FromString s := inr (s ++ [0]);
  rtlDosPathNameToNtPathName w e := let '(p, e) := host_alloc e in ((0, p), e);
  rtlDefaultNpAcl e := let '(p, e) := host_alloc e in ((0, p), e);
  rtlNtStatusToDosError status := Errno 317;
  LocalAlloc n e := let '(p, e) := host_alloc e in (Ret p, e);
  LocalStore p b e := mkHost (h_files e) (<[p := b]> (h_local e)) (h_left e) (h_busy e);
  LocalFree p e := mkHost (h_files e) (delete p (h_local e)) (h_left e) (h_busy e);
  ntCreateNamedPipeFile a e := let '(h, e) := host_open e in ((0, h), e);
  SddlToSecurityDescriptor s e := (Ret s, e) |}.
Lemma host_alloc_ok e : let '(p, e') := host_alloc e in
  h_files e' = h_files e ∧ h_local e !! p = None ∧ ∃ x, h_local e' = <[p := x]> (h_local e).
Proof. cbn. split; [done|]. split; [apply not_elem_of_dom, is_fresh|eauto]. Qed.
#[export, program] Instance host_PipeApiSpec : PipeApiSpec host := {| local := h_local; ctx_left := h_left |}.
Next Obligation. intros e He. unfold ctx_Err, host_Context. cbn. rewrite bool_decide_eq_true_2 by done. eauto. Qed.
Next Obligation. done. Qed.
Next Obligation. done. Qed.
Next Obligation. intros n a s d f e. cbn. by destruct (h_busy e). Qed.
Next Obligation. intros n a s d f e. cbn. destruct (h_busy e); [|done]. split; [apply is_fresh|done]. Qed.
Next Obligation. done. Qed.
Next Obligation. intros w e. exact (host_alloc_ok e). Qed.
Next Obligation. intros e. exact (host_alloc_ok e). Qed.
Next Obligation. intros n e. exact (host_alloc_ok e). Qed.
Next Obligation. done. Qed.
Next Obligation. done. Qed.
Next Obligation. intros a e. cbn. split; [done|]. split; [apply is_fresh|done]. Qed.

Definition busy_host (left busy : nat) : proc host := mkProc None (mkHost {[7]} ∅ left busy).
Lemma DialPipe_spec_witness :
  (∃ p', DialPipe 9 (str "pipe") (busy_host 8 3) = (Ret (mkConn 8 (str "pipe") true), p') ∧ pfiles p' = {[7; 8]}) ∧
  match DialPipe 9 (str "pipe") (busy_host 8 12) with
  | (Fail err, p') => err = ErrTimeout ∧ ∃ cause, err = if errors_is cause DeadlineExceeded then ErrTimeout else cause
  | _ => False
  end.
Proof.
  split; [eexists; split; vm_compute; reflexivity|].
  pose proof (DialPipe_spec 9 (str "pipe") (busy_host 8 12)) as H.
  destruct (DialPipe 9 (str "pipe") (busy_host 8 12)) as [[c|err| |] p'] eqn:E; vm_compute in E; try discriminate E.
  destruct H as (cause & _ & He); [vm_compute; lia|]. split; [by injection E as <-|]. by exists cause.
Defined.

