(* ===== verification/HvsockAddr.v ===== *)
(** * Hyper-V socket addresses ([hvsock.go])

    [HvsockAddr], its raw form for the socket calls (36 bytes in memory: the
    family, two bytes of padding and two GUIDs in the layout of Windows), and
    the well-known GUIDs. *)
From S2P Require Import Prelude GoStrings Guid.

Definition afHVSock : Z := 34.
Definition ErrBufferSize : error := New "buffer size".
Definition ErrAddrFamily : error := New "address family".

Definition HvsockGUIDWildcard : GUID := zero_GUID.
Definition HvsockGUIDBroadcast : GUID := mkGUID 0xffffffff 0xffff 0xffff (replicate 8 0xff).
Definition HvsockGUIDLoopback : GUID :=
  mkGUID 0xe0e16197 0xdd56 0x4a10 [0x91; 0x95; 0x5e; 0xe7; 0xa1; 0x55; 0xa8; 0x38].
Definition HvsockGUIDSiloHost : GUID :=
  mkGUID 0x36bd0c5c 0x7276 0x4223 [0x88; 0xba; 0x7d; 0x03; 0xb6; 0x54; 0xc5; 0x68].
Definition HvsockGUIDChildren : GUID :=
  mkGUID 0x90db8b89 0xd35 0x4f79 [0x8c; 0xe9; 0x49; 0xea; 0xa; 0xc8; 0xb7; 0xcd].
Definition HvsockGUIDParent : GUID :=
  mkGUID 0xa42e7cda 0xd03f 0x480c [0x9c; 0xc2; 0xa4; 0xde; 0x20; 0xab; 0xb8; 0x78].
Definition hvsockVsockServiceTemplate : GUID :=
  mkGUID 0 0xfacb 0x11e6 [0xbd; 0x58; 0x64; 0x00; 0x6a; 0x79; 0x86; 0xd3].
Definition VsockServiceID (port : Z) : GUID :=
  let g := hvsockVsockServiceTemplate in mkGUID port (Data2 g) (Data3 g) (Data4 g).

(** The comments beside the definitions are their text. *)
Example guid_comments :
  GUID_String HvsockGUIDLoopback = str "e0e16197-dd56-4a10-9195-5ee7a155a838" ∧
  GUID_String HvsockGUIDSiloHost = str "36bd0c5c-7276-4223-88ba-7d03b654c568" ∧
  GUID_String HvsockGUIDChildren = str "90db8b89-0d35-4f79-8ce9-49ea0ac8b7cd" ∧
  GUID_String HvsockGUIDParent = str "a42e7cda-d03f-480c-9cc2-a4de20abb878" ∧
  GUID_String hvsockVsockServiceTemplate = str "00000000-facb-11e6-bd58-64006a7986d3" ∧
  GUID_String HvsockGUIDBroadcast = str "ffffffff-ffff-ffff-ffff-ffffffffffff".
Proof. vm_compute. done. Qed.

Record HvsockAddr := mkHA { VMID : GUID; ServiceID : GUID }.
Record rawHvsockAddr := mkRaw { rha_Family : Z; rha_pad : Z; rha_VMID : GUID; rha_ServiceID : GUID }.
#[export] Instance rawHvsockAddr_eq_dec : EqDecision rawHvsockAddr.
Proof. solve_decision. Defined.

Definition HvsockAddr_String (a : HvsockAddr) : list Z := GUID_String (VMID a) ++ str ":" ++ GUID_String (ServiceID a).
Definition raw (a : HvsockAddr) : rawHvsockAddr := mkRaw afHVSock 0 (VMID a) (ServiceID a).
Definition fromRaw (r : rawHvsockAddr) : HvsockAddr := mkHA (rha_VMID r) (rha_ServiceID r).

(** The struct in memory, little-endian, and back: [unsafe.Sizeof(rawHvsockAddr{})]. *)
Definition rawSize : Z := 36.
Definition raw_bytes (r : rawHvsockAddr) : list Z :=
  le_bytes 2 (rha_Family r) ++ le_bytes 2 (rha_pad r) ++ ToWindowsArray (rha_VMID r) ++ ToWindowsArray (rha_ServiceID r).
Definition raw_of_bytes (b : list Z) : rawHvsockAddr :=
  mkRaw (le_val (ztake 2 b)) (le_val (ztake 2 (zdrop 2 b)))
    (FromWindowsArray (ztake 16 (zdrop 4 b))) (FromWindowsArray (ztake 16 (zdrop 20 b))).

(** [rawHvsockAddr.FromBytes]: the new content of the struct and the error; an
    address of another family has been copied when it is refused. *)
Definition FromBytes (r : rawHvsockAddr) (b : list Z) : rawHvsockAddr * option error :=
  if zlen b <? rawSize then (r, Some (Wrapf "got %d, want %d: %w" [zlen b; rawSize] [] ErrBufferSize))
  else
    let r := raw_of_bytes (ztake rawSize b) in
    (r, if rha_Family r =? afHVSock then None
        else Some (Wrapf "got %d, want %d: %w" [rha_Family r; afHVSock] [] ErrAddrFamily)).

Definition addr_ok (a : HvsockAddr) : Prop := guid_ok (VMID a) ∧ guid_ok (ServiceID a).
Definition raw_ok (r : rawHvsockAddr) : Prop :=
  0 ≤ rha_Family r < 65536 ∧ 0 ≤ rha_pad r < 65536 ∧ guid_ok (rha_VMID r) ∧ guid_ok (rha_ServiceID r).

Lemma zlen_toArray g o : guid_ok g → zlen (toArray g o) = 16.
Proof.
  intros (_ & _ & _ & Hl & _). unfold toArray. rewrite !zlen_app, !zlen_order_bytes. unfold zlen. rewrite Hl. lia.
Qed.
Lemma zlen_raw_bytes r : raw_ok r → zlen (raw_bytes r) = rawSize.
Proof.
  intros (_ & _ & Hv & Hs). unfold raw_bytes, ToWindowsArray.
  rewrite !zlen_app, !zlen_le_bytes, !zlen_toArray by done. done.
Qed.
Lemma raw_of_raw_bytes r : raw_ok r → raw_of_bytes (raw_bytes r) = r.
Proof.
  intros (Hf & Hp & Hv & Hs). destruct r as [f p v s]; cbn [rha_Family rha_pad rha_VMID rha_ServiceID] in *.
  unfold raw_of_bytes, raw_bytes. cbn [rha_Family rha_pad rha_VMID rha_ServiceID].
  set (x1 := le_bytes 2 f). set (x2 := le_bytes 2 p). set (x3 := ToWindowsArray v). set (x4 := ToWindowsArray s).
  assert (L1 : zlen x1 = 2) by apply zlen_le_bytes. assert (L2 : zlen x2 = 2) by apply zlen_le_bytes.
  assert (L3 : zlen x3 = 16) by by apply zlen_toArray. assert (L4 : zlen x4 = 16) by by apply zlen_toArray.
  rewrite (ztake_app_eq 2 x1) by done. rewrite (zdrop_app_eq 2 x1) by done.
  rewrite (ztake_app_eq 2 x2) by done.
  assert (E4 : zdrop 4 (x1 ++ x2 ++ x3 ++ x4) = x3 ++ x4)
    by (rewrite app_assoc; apply zdrop_app_eq; rewrite zlen_app; lia).
  assert (E20 : zdrop 20 (x1 ++ x2 ++ x3 ++ x4) = x4)
    by (rewrite !app_assoc; apply zdrop_app_eq; rewrite !zlen_app; lia).
  rewrite E4, E20, (ztake_app_eq 16 x3), (ztake_all 16 x4) by (done || lia).
  unfold x1, x2. rewrite !le_val_le_bytes, !Z.mod_small by (cbn; lia).
  unfold x3, x4, FromWindowsArray, ToWindowsArray. by rewrite !fromArray_toArray_eq.
Qed.
Lemma bytes_of_raw b : zlen b = rawSize → bytes_ok b → raw_bytes (raw_of_bytes b) = b ∧ raw_ok (raw_of_bytes b).
Proof.
  intros Hl Hb. unfold rawSize in Hl. unfold raw_bytes, raw_of_bytes, raw_ok. cbn [rha_Family rha_pad rha_VMID rha_ServiceID].
  assert (Hpart : ∀ i n, 0 ≤ i → 0 ≤ n → i + n ≤ 36 → zlen (ztake n (zdrop i b)) = n ∧ bytes_ok (ztake n (zdrop i b))).
  { intros i n Hi Hn Hin. split; [rewrite zlen_ztake, zlen_zdrop; lia|]. by apply bytes_ok_ztake, bytes_ok_zdrop. }
  destruct (Hpart 0 2) as [L0 B0]; [lia..|]. rewrite zdrop_0 in L0, B0. destruct (Hpart 2 2) as [L2 B2]; [lia..|].
  destruct (Hpart 4 16) as [L4 B4]; [lia..|]. destruct (Hpart 20 16) as [L20 B20]; [lia..|].
  assert (Hlen : ∀ (l : list Z) n, zlen l = Z.of_nat n → length l = n) by (unfold zlen; intros; lia).
  unfold ToWindowsArray, FromWindowsArray. rewrite !toArray_fromArray by (try done; by apply Hlen).
  assert (Hle : ∀ x n, zlen x = Z.of_nat n → bytes_ok x → le_bytes n (le_val x) = x)
    by (intros x n Hx; apply (order_bytes_val LittleEndian); by apply Hlen).
  rewrite !Hle by done. split.
  - assert (Hcut : ∀ i n, 0 ≤ i → 0 ≤ n → zdrop i b = ztake n (zdrop i b) ++ zdrop (i + n) b).
    { intros i n Hi Hn. rewrite <- (ztake_zdrop n (zdrop i b)) at 1. f_equal. rewrite zdrop_zdrop; [f_equal|..]; lia. }
    rewrite (ztake_all 16 (zdrop 20 b)) by (rewrite zlen_zdrop; lia).
    change (zdrop 20 b) with (zdrop (4 + 16) b). rewrite <- Hcut by lia. change (zdrop 4 b) with (zdrop (2 + 2) b).
    rewrite <- Hcut by lia. apply ztake_zdrop.
  - split_and!; try (apply guid_ok_fromArray; [by apply Hlen|done]).
    all: pose proof (le_val_range _ B0) as R0; pose proof (le_val_range _ B2) as R2;
      rewrite L0 in R0; rewrite L2 in R2; cbn in R0, R2 |- *; lia.
Qed.

(** the bytes of an address's raw form are read back as that address; and
    [FromBytes] accepts exactly the buffers of at least 36 bytes whose first
    two are the family, of which it keeps the first 36 bytes. *)
Theorem FromBytes_spec a tl r b :
  addr_ok a → bytes_ok b →
  FromBytes r (raw_bytes (raw a) ++ tl) = (raw a, None) ∧ fromRaw (raw a) = a ∧
  (∀ r', FromBytes r b = (r', None) →
     raw_ok r' ∧ rha_Family r' = afHVSock ∧ ztake rawSize b = raw_bytes r' ∧ zlen (raw_bytes r') = rawSize).
Proof.
  intros [Hv Hs] Hb.
  assert (Hraw : raw_ok (raw a)) by (split_and!; cbn; try done; unfold afHVSock; lia).
  pose proof (zlen_raw_bytes _ Hraw) as Hl. split_and!.
  - unfold FromBytes. rewrite zlen_app, Hl. pose proof (zlen_nonneg tl).
    replace (rawSize + zlen tl <? rawSize) with false by lia.
    rewrite ztake_app_eq, raw_of_raw_bytes by done. done.
  - by destruct a.
  - intros r'. unfold FromBytes. destruct (Z.ltb_spec (zlen b) rawSize) as [|Hge]; [done|].
    set (x := raw_of_bytes (ztake rawSize b)). destruct (Z.eqb_spec (rha_Family x) afHVSock) as [Hf|]; [|done].
    intros [= <-]. destruct (bytes_of_raw (ztake rawSize b)) as [E Hok].
    + rewrite zlen_ztake. unfold rawSize in *. lia.
    + by apply bytes_ok_ztake.
    + fold x in E, Hok. split_and!; try done. by apply zlen_raw_bytes.
Qed.

Definition addr_example : HvsockAddr := mkHA HvsockGUIDParent (VsockServiceID 1024).
Lemma addr_example_ok : addr_ok addr_example.
Proof. repeat split; try (cbn; lia); repeat constructor; cbn; lia. Qed.
Lemma FromBytes_spec_witness :
  FromBytes (raw addr_example) (raw_bytes (raw addr_example) ++ [9]) = (raw addr_example, None) ∧
  snd (FromBytes (raw addr_example) (replicate 36 1)) = Some (Wrapf "got %d, want %d: %w" [257; 34] [] ErrAddrFamily).
Proof.
  split; [|vm_compute; reflexivity].
  destruct (FromBytes_spec addr_example [9] (raw addr_example) []) as [H _].
  - apply addr_example_ok.
  - constructor.
  - exact H.
Defined.
