(* ===== verification/Hvsock.v ===== *)
(** * Hyper-V sockets ([hvsock.go], [internal/socket/socket.go])

    Listening, accepting and dialing, with the overlapped file of each socket
    ([Win32File]) and the deferred calls of the functions; reading and writing
    of a connection.  Each function is run by itself here: the goroutines that
    share a socket are the subject of [Win32File]. *)
From S2P Require Import Prelude GoStrings Guid HvsockAddr Win32File Handles.

Definition ErrClosed : error := New "use of closed network connection".
Definition ErrSocketClosed : error := Wrapf "socket closed: %w" [] [] ErrClosed.
Definition WSAECONNREFUSED : error := Errno 10061.
Definition WSAENETUNREACH : error := Errno 10051.
Definition WSAETIMEDOUT : error := Errno 10060.
Definition ERROR_CONNECTION_REFUSED : error := Errno 1225.
Definition ERROR_CONNECTION_UNAVAIL : error := Errno 1201.
Definition WSAENOTCONN : error := Errno 10057.
Definition WSAESHUTDOWN : error := Errno 10058.
Definition SO_UPDATE_ACCEPT_CONTEXT : Z := 28683.
Definition SO_UPDATE_CONNECT_CONTEXT : Z := 28688.

(** [os.NewSyscallError] and [net.OpError]; the addresses of the latter, which
    only its text shows, are left out. *)
Definition NewSyscallError (name : string) (err : error) : error := Wrapf "syscall" [] [str name] err.
Definition OpError (op : string) (err : error) : error := Wrapf "hvsock" [] [str op] err.
(** [HvsockConn.opErr]; [HvsockListener.opErr] is [OpError]. *)
Definition opErr (op : string) (err : error) : error :=
  OpError op (if errors_is err ErrFileClosed then ErrSocketClosed else err).

Definition canRedial (err : error) : bool :=
  bool_decide (err ∈ [WSAECONNREFUSED; WSAENETUNREACH; WSAETIMEDOUT; ERROR_CONNECTION_REFUSED; ERROR_CONNECTION_UNAVAIL]).

(** [errors.As] for an [Errno]. *)
Fixpoint as_errno (err : error) : option error :=
  match err with
  | Errno n => Some (Errno n)
  | Wrapf _ _ _ e => as_errno e
  | _ => None
  end.
Definition syscall_err (name : string) (err : error) : error :=
  match as_errno err with Some eno => NewSyscallError name eno | None => err end.

(** ** The calls

    Those that overlap are waited for by [asyncIO]. *)
Class SockApi (E : Type) : Type := {
  Socket : Z → Z → Z → St E Z;
  WSAIoctl : Z → GUID → E → option error * E;
  bind : Z → list Z → St E unit;
  Listen : Z → Z → St E unit;
  connectEx : Z → list Z → St E unit;
  AcceptEx : Z → Z → St E (list Z);
  Setsockopt : Z → Z → list Z → St E unit;
  getsockname : Z → St E (list Z);
  wait_redial : Z → E → bool * E;         (** whether the timer fired before the context ended *)
  WSASend : Z → list Z → St E Z;
  WSARecv : Z → Z → St E (list Z);
  Shutdown : Z → Z → St E unit }.

Class SockApiSpec (E : Type) `{FileApiSpec E} `{Context E} `{SockApi E} : Type := {
  Socket_files a b c e :
    match Socket a b c e with
    | (Ret h, e') => (h ∉ files e) ∧ files e' = {[h]} ∪ files e
    | (Fail _, e') => files e' = files e
    | _ => False
    end;
  WSAIoctl_files h g e : files (WSAIoctl h g e).2 = files e;
  bind_keeps h b : keeps files (bind h b);
  Listen_keeps h n : keeps files (Listen h n);
  connectEx_keeps h b : keeps files (connectEx h b);
  AcceptEx_keeps l h : keeps files (AcceptEx l h);
  Setsockopt_keeps h n b : keeps files (Setsockopt h n b);
  getsockname_keeps h : keeps files (getsockname h);
  wait_files w e : files (wait_redial w e).2 = files e;
  sent : Z → E → list Z;
  WSASend_sent h b e : zlen b > 0 →
    match WSASend h b e with
    | (Ret n, e') => 1 ≤ n ≤ zlen b ∧ sent h e' = sent h e ++ ztake n b
    | (Fail _, e') => sent h e' = sent h e
    | _ => False
    end }.

(** A system that logs the calls of [ConnectEx]: the socket, the address, and the outcome. *)
Class ConnectLog (E : Type) `{FileApi E} `{SockApi E} : Type := {
  attempts : E → list (Z * list Z * res unit);
  connectEx_attempts h b e : attempts (connectEx h b e).2 = attempts e ++ [(h, b, (connectEx h b e).1)];
  Socket_attempts a b c e : attempts (Socket a b c e).2 = attempts e;
  WSAIoctl_attempts h g e : attempts (WSAIoctl h g e).2 = attempts e;
  bind_attempts h b e : attempts (bind h b e).2 = attempts e;
  Setsockopt_attempts h n b e : attempts (Setsockopt h n b e).2 = attempts e;
  getsockname_attempts h e : attempts (getsockname h e).2 = attempts e;
  wait_attempts w e : attempts (wait_redial w e).2 = attempts e;
  port_attempts h p e : attempts (createIoCompletionPort h p e).2 = attempts e;
  modes_attempts h m e : attempts (setFileCompletionNotificationModes h m e).2 = attempts e;
  CloseHandle_attempts h e : attempts (CloseHandle h e) = attempts e }.

(** The process with the files of its sockets and the cell of [connectExFunc]. *)
Record hv (E : Type) := mkHv { hv_p : proc E; hv_socks : gmap Z win32File; hv_connectEx : option (option error) }.
Arguments mkHv {E} _ _ _.
Arguments hv_p {E} _.
Arguments hv_socks {E} _.
Arguments hv_connectEx {E} _.

Section Sockets.
Context {E : Type} `{FileApi E} `{Context E} `{SockApi E}.

Definition on_proc {A} (m : St (proc E) A) : St (hv E) A := λ s,
  let '(r, p) := m (hv_p s) in (r, mkHv p (hv_socks s) (hv_connectEx s)).
Definition on_e {A} (m : St E A) : St (hv E) A := on_proc (on_sys m).

(** *** The file of a socket *)
Definition set_sock (h : Z) (f : win32File) (s : hv E) : hv E := mkHv (hv_p s) (<[h := f]> (hv_socks s)) (hv_connectEx s).
Definition sock_file (h : Z) : St (hv E) win32File := λ s,
  match hv_socks s !! h with Some f => (Ret f, s) | None => (Panic "nil file", s) end.
(** [prepareIO] and [wg.Done]. *)
Definition sock_prepare (h : Z) : St (hv E) unit :=
  f ← sock_file h;
  '((ok, f) : bool * win32File) ← lift (prepareIO f);
  _ ← modify (set_sock h f);
  if ok then mret () else fail ErrFileClosed.
Definition sock_done (h : Z) : St (hv E) unit :=
  f ← sock_file h; f ← lift (wg_Add (-1) f); modify (set_sock h f).
(** [win32File.Close]; waiting for an operation of one's own would not end. *)
Definition sock_close (h : Z) : St (hv E) unit :=
  f ← sock_file h;
  let '(was, f) := close_swap f in
  _ ← modify (set_sock h f);
  if was then mret ()
  else if f_wg f =? 0 then
    f ← lift (close_fd f);
    _ ← modify (set_sock h f);
    on_proc (do_sys (CloseHandle h))
  else panic "wg.Wait in the goroutine that holds the count".

(** [defer fin()], and [defer] of a call made only when the function fails. *)
Definition deferred {A} (fin : St (hv E) unit) (m : St (hv E) A) : St (hv E) A := λ s,
  match m s with
  | (Panic w, s) => (Panic w, s)
  | (r, s) => match fin s with (Ret _, s) => (r, s) | (Fail _, s) => (r, s) | (Panic w, s) => (Panic w, s) | (NoFuel, s) => (NoFuel, s) end
  end.
Definition on_failure {A} (fin : St (hv E) unit) (m : St (hv E) A) : St (hv E) A := λ s,
  match m s with
  | (Fail err, s) => deferred fin (fail err) s
  | x => x
  end.

Definition newHVSocket : St (hv E) Z :=
  fd ← map_err (NewSyscallError "socket") (on_e (Socket afHVSock 1 1));
  f ← on_proc (file_or_close fd);
  _ ← modify (set_sock f (mkFile true 0 false true));
  mret f.

(** [socket.Bind] and [socket.GetSockName] of a [rawHvsockAddr], whose
    [Sockaddr] does not fail. *)
Definition Bind (h : Z) (sa : rawHvsockAddr) : St (hv E) unit := on_e (bind h (raw_bytes sa)).
Definition GetSockName (h : Z) : St (hv E) rawHvsockAddr := b ← on_e (getsockname h); mret (raw_of_bytes b).

(** [connectExFunc.Load], once; the outcome is kept. *)
Definition WSAID_CONNECTEX : GUID := mkGUID 0x25a207b9 0xddf3 0x4660 [0x8e; 0xe9; 0x76; 0xe5; 0x8c; 0x74; 0x06; 0x3e].
Definition load_once (e : E) : option error * E :=
  match Socket 2 1 6 e with
  | (Ret h, e) =>
      let '(err, e) := WSAIoctl h WSAID_CONNECTEX e in (err, CloseHandle h e)
  | (Fail err, e) => (Some err, e)
  | (_, e) => (None, e)
  end.
Definition Load : St (hv E) unit := λ s,
  let '(x, s) :=
    match hv_connectEx s with
    | Some x => (x, s)
    | None => let '(x, e) := load_once (sys (hv_p s)) in
              (x, mkHv (mkProc (ioCompletionPort (hv_p s)) e) (hv_socks s) (Some x))
    end in
  (match x with Some err => Fail err | None => Ret () end, s).
Definition ConnectEx (h : Z) (sa : rawHvsockAddr) : St (hv E) unit :=
  _ ← map_err (Wrapf "failed to load ConnectEx function pointer: %w" [] []) Load;
  on_e (connectEx h (raw_bytes sa)).

(** *** Listening *)
Record HvsockListener := mkHL { hl_sock : Z; hl_addr : HvsockAddr }.
Record HvsockConn := mkHC { hc_sock : Z; hc_local : HvsockAddr; hc_remote : HvsockAddr }.

Definition ListenHvsock (addr : HvsockAddr) : St (hv E) HvsockListener :=
  sock ← map_err (OpError "listen") newHVSocket;
  on_failure (sock_close sock) (
    _ ← map_err (OpError "listen" ∘ NewSyscallError "socket") (Bind sock (raw addr));
    _ ← map_err (OpError "listen" ∘ NewSyscallError "listen") (on_e (Listen sock 16));
    mret (mkHL sock addr)).

(** The length AcceptEx needs for an address. *)
Definition addrlen : Z := 16 + rawSize.
Definition Accept (l : HvsockListener) : St (hv E) HvsockConn :=
  sock ← map_err (OpError "accept") newHVSocket;
  on_failure (sock_close sock) (
    _ ← map_err (OpError "accept") (sock_prepare (hl_sock l));
    deferred (sock_done (hl_sock l)) (
      addrbuf ← map_err (OpError "accept" ∘ NewSyscallError "acceptex") (on_e (AcceptEx (hl_sock l) sock));
      _ ← map_err (opErr "accept" ∘ NewSyscallError "setsockopt")
            (on_e (Setsockopt sock SO_UPDATE_ACCEPT_CONTEXT (le_bytes 8 (hl_sock l))));
      mret (mkHC sock (fromRaw (raw_of_bytes addrbuf)) (fromRaw (raw_of_bytes (zdrop addrlen addrbuf)))))).

(** *** Dialing *)
Record HvsockDialer := mkHD { Retries : nat; RetryWait : Z }.

Definition check_ctx : St (hv E) unit := λ s,
  (match ctx_Err (sys (hv_p s)) with Some err => Fail err | None => Ret () end, s).
(** The timer is armed for the wait and is stopped or drained when it ends. *)
Definition redialWait (d : HvsockDialer) : St (hv E) unit :=
  if RetryWait d =? 0 then mret ()
  else
    fired ← (λ s, let '(b, e) := wait_redial (RetryWait d) (sys (hv_p s)) in
                  (Ret b, mkHv (mkProc (ioCompletionPort (hv_p s)) e) (hv_socks s) (hv_connectEx s)));
    if fired : bool then mret () else check_ctx.

(** The loop of [Dial]; [more] is [d.Retries - i]. *)
Fixpoint connect_loop (more : nat) (d : HvsockDialer) (h : Z) (sa : rawHvsockAddr) : St (hv E) unit := λ s,
  match ConnectEx h sa s with
  | (Fail err, s) =>
      match more with
      | O => (Fail err, s)
      | S more =>
          if canRedial err then (_ ← redialWait d; connect_loop more d h sa) s else (Fail err, s)
      end
  | x => x
  end.

Definition Dial (d : HvsockDialer) (addr : HvsockAddr) : St (hv E) HvsockConn :=
  _ ← map_err (opErr "dial") check_ctx;
  sock ← map_err (opErr "dial") newHVSocket;
  on_failure (sock_close sock) (
    _ ← map_err (opErr "dial" ∘ NewSyscallError "bind") (Bind sock (raw addr));
    _ ← map_err (opErr "dial") (sock_prepare sock);
    deferred (sock_done sock) (
      _ ← map_err (opErr "dial" ∘ NewSyscallError "connectex") (connect_loop (Retries d) d sock (raw addr));
      _ ← map_err (opErr "dial" ∘ NewSyscallError "setsockopt") (on_e (Setsockopt sock SO_UPDATE_CONNECT_CONTEXT []));
      sal ← map_err (opErr "dial" ∘ NewSyscallError "getsockname") (GetSockName sock);
      _ ← map_err (opErr "dial") check_ctx;
      mret (mkHC sock (fromRaw sal) addr))).

(** *** A connection *)
Definition prepared {A} (op : string) (h : Z) (m : St (hv E) A) : St (hv E) A :=
  _ ← map_err (opErr op) (sock_prepare h); deferred (sock_done h) m.

(** [Read] with a buffer of [blen] bytes; [&b[0]] panics when it is empty. *)
Definition conn_Read (c : HvsockConn) (blen : Z) : St (hv E) (list Z) :=
  prepared "read" (hc_sock c) (
    if blen =? 0 then panic "index out of range [0] with length 0"
    else
      b ← map_err (λ err, opErr "read" (syscall_err "wsarecv" err)) (on_e (WSARecv (hc_sock c) (u32 blen)));
      if zlen b =? 0 then fail EOF else mret b).
Definition conn_write (c : HvsockConn) (b : list Z) : St (hv E) Z :=
  prepared "write" (hc_sock c) (
    if zlen b =? 0 then panic "index out of range [0] with length 0"
    else map_err (λ err, opErr "write" (syscall_err "wsasend" err)) (on_e (WSASend (hc_sock c) (ztake (u32 (zlen b)) b)))).
(** The count of bytes written and the error of [Write]. *)
Fixpoint conn_Write (fuel : nat) (c : HvsockConn) (b : list Z) (t : Z) : St (hv E) (Z * option error) := λ s,
  if zlen b =? 0 then (Ret (t, None), s)
  else match fuel with
  | O => (NoFuel, s)
  | S fuel =>
      match conn_write c b s with
      | (Ret n, s) => if n <=? zlen b then conn_Write fuel c (zdrop n b) (t + n) s else (Panic "slice bounds out of range", s)
      | (Fail err, s) => (Ret (t, Some err), s)
      | (Panic w, s) => (Panic w, s)
      | (NoFuel, s) => (NoFuel, s)
      end
  end.

Definition shutdown (c : HvsockConn) (how : Z) : St (hv E) unit :=
  f ← sock_file (hc_sock c);
  if IsClosed f then fail ErrSocketClosed
  else map_err (λ err, NewSyscallError "shutdown"
         (if errors_is err WSAENOTCONN || errors_is err WSAESHUTDOWN then ErrSocketClosed else err))
       (on_e (Shutdown (hc_sock c) how)).
Definition CloseRead (c : HvsockConn) : St (hv E) unit := map_err (opErr "closeread") (shutdown c 0).
Definition conn_CloseWrite (c : HvsockConn) : St (hv E) unit := map_err (opErr "closewrite") (shutdown c 1).

(** *** The rest of [net.Conn] and [net.Listener] *)
Definition conn_IsClosed (c : HvsockConn) : St (hv E) bool := f ← sock_file (hc_sock c); mret (IsClosed f).
Definition LocalAddr (c : HvsockConn) : HvsockAddr := hc_local c.
Definition RemoteAddr (c : HvsockConn) : HvsockAddr := hc_remote c.
Definition Listener_Addr (l : HvsockListener) : HvsockAddr := hl_addr l.
Definition Listener_Close (l : HvsockListener) : St (hv E) unit := sock_close (hl_sock l).
(** The function [Dial]: no further connects, and no deadline of its own. *)
Definition Dial_default (addr : HvsockAddr) : St (hv E) HvsockConn := Dial (mkHD 0 0) addr.
Definition Network (_ : HvsockAddr) : list Z := str "hvsock".
Definition conn_Close (c : HvsockConn) : St (hv E) unit := sock_close (hc_sock c).
End Sockets.

(** ** Who owns the handles *)
Section Ownership.
Context {E : Type} `{SockApiSpec E}.

(** What the open handles and the files of the sockets are. *)
Definition view (s : hv E) : gset Z * gmap Z win32File := (pfiles (hv_p s), hv_socks s).
Definition keeps_at {A} (m : St (hv E) A) (s : hv E) : Prop :=
  match m s with (Panic w, _) => w = port_panic | (NoFuel, _) => False | (_, s') => view s' = view s end.

Lemma keeps_at_bind {A B} (m : St (hv E) A) (k : A → St (hv E) B) s :
  keeps_at m s → (∀ a s', view s' = view s → keeps_at (k a) s') → keeps_at (m ≫= k) s.
Proof.
  unfold keeps_at. intros Hm Hk. rewrite St_bind_eq. destruct (m s) as [[a| | |] s1]; try done.
  specialize (Hk a s1 Hm). destruct (k a s1) as [[]]; congruence.
Qed.
Lemma keeps_at_map_err {A} g (m : St (hv E) A) s : keeps_at m s → keeps_at (map_err g m) s.
Proof. unfold keeps_at, map_err. by destruct (m s) as [[]]. Qed.
Lemma keeps_on_e {A} (m : St E A) : keeps files m → keeps view (on_e m).
Proof.
  intros Hm s. unfold on_e, on_proc. pose proof (keeps_on_sys m Hm (hv_p s)) as Hk.
  destruct (on_sys m (hv_p s)) as [[] p]; try done; unfold view; cbn; by rewrite Hk.
Qed.
Lemma check_ctx_keeps : keeps view check_ctx.
Proof. intros s. unfold check_ctx. by destruct (ctx_Err _). Qed.

Lemma load_once_files e : files (load_once e).2 = files e.
Proof.
  unfold load_once. pose proof (Socket_files 2 1 6 e) as Hs. destruct (Socket 2 1 6 e) as [[h|err| |] e1]; try done.
  destruct Hs as [Hh Hs]. pose proof (WSAIoctl_files h WSAID_CONNECTEX e1) as Hk.
  destruct (WSAIoctl h WSAID_CONNECTEX e1) as [r e2]. cbn in *. rewrite CloseHandle_files, Hk, Hs.
  clear -Hh. apply set_eq. set_unfold. naive_solver.
Qed.
Lemma Load_keeps : keeps view Load.
Proof.
  intros s. unfold Load. destruct (hv_connectEx s) as [x|]; [by destruct x|].
  pose proof (load_once_files (sys (hv_p s))) as Hf. destruct (load_once (sys (hv_p s))) as [x e].
  unfold view, pfiles. cbn in *. destruct x; cbn; by rewrite Hf.
Qed.
Lemma ConnectEx_keeps h sa : keeps view (ConnectEx h sa).
Proof.
  apply keeps_bind; [apply keeps_map_err, Load_keeps|intros _; apply keeps_on_e, connectEx_keeps].
Qed.
Lemma redialWait_keeps d : keeps view (redialWait d).
Proof.
  unfold redialWait. destruct (RetryWait d =? 0); [apply keeps_ret|]. apply keeps_bind.
  - intros s. pose proof (wait_files (RetryWait d) (sys (hv_p s))) as Hf.
    destruct (wait_redial (RetryWait d) (sys (hv_p s))) as [b e]. unfold view, pfiles. cbn in *. by rewrite Hf.
  - intros []; [apply keeps_ret|apply check_ctx_keeps].
Qed.
Lemma connect_loop_keeps more d h sa : keeps view (connect_loop more d h sa).
Proof.
  induction more as [|more IH]; intros s; cbn [connect_loop]; pose proof (ConnectEx_keeps h sa s) as Hc;
    destruct (ConnectEx h sa s) as [[u|err| |] s1]; try done.
  destruct (canRedial err); [|done].
  assert (Hk : keeps view (_ ← redialWait d; connect_loop more d h sa)) by (apply keeps_bind; [apply redialWait_keeps|done]).
  specialize (Hk s1). destruct ((_ ← redialWait d; connect_loop more d h sa) s1) as [[]]; congruence.
Qed.

(** *** An operation of one's own on a socket *)
Lemma file_ext (f : win32File) : mkFile (f_open f) (f_wg f) (f_closing f) (f_socket f) = f.
Proof. by destruct f. Qed.
Definition counted_once (f : win32File) : win32File := mkFile (f_open f) (f_wg f + 1) (f_closing f) (f_socket f).
Lemma sock_prepare_eq h f (s : hv E) :
  hv_socks s !! h = Some f → 0 ≤ f_wg f →
  sock_prepare h s = if f_closing f then (Fail ErrFileClosed, set_sock h f s) else (Ret (), set_sock h (counted_once f) s).
Proof.
  intros Hf Hwg. unfold sock_prepare, sock_file. rewrite St_bind_eq, Hf. unfold prepareIO.
  destruct (f_closing f) eqn:Hc; [reflexivity|]. unfold wg_Add.
  replace (f_wg f + 1 <? 0) with false by lia. unfold counted_once. by rewrite Hc.
Qed.
Lemma sock_done_eq h f (s : hv E) :
  hv_socks s !! h = Some (counted_once f) → 0 ≤ f_wg f → sock_done h s = (Ret (), set_sock h f s).
Proof.
  intros Hf Hwg. unfold sock_done, sock_file. rewrite St_bind_eq, Hf. unfold wg_Add. cbn [f_wg counted_once].
  replace (f_wg f + 1 + -1 <? 0) with false by lia.
  assert (Hb : mkFile (f_open f) (f_wg f + 1 + -1) (f_closing f) (f_socket f) = f)
    by (replace (f_wg f + 1 + -1) with (f_wg f) by lia; apply file_ext).
  unfold counted_once. cbn [f_open f_closing f_socket]. rewrite Hb. reflexivity.
Qed.
Lemma view_set_sock h f (s s' : hv E) : view s = view s' → hv_socks s' !! h = Some f → view (set_sock h f s) = view s'.
Proof. intros [= Hv Hs] Hf. unfold view, set_sock. cbn [hv_p hv_socks]. by rewrite Hv, Hs, insert_id. Qed.

Lemma prepared_keeps {A} g h f (m : St (hv E) A) s :
  hv_socks s !! h = Some f → 0 ≤ f_wg f → keeps view m →
  keeps_at (_ ← map_err g (sock_prepare h); deferred (sock_done h) m) s.
Proof.
  intros Hf Hwg Hm. unfold keeps_at. rewrite St_bind_eq. unfold map_err. rewrite (sock_prepare_eq h f) by done.
  destruct (f_closing f); [by apply view_set_sock|].
  set (s1 := set_sock h (counted_once f) s). unfold deferred. specialize (Hm s1). destruct (m s1) as [r s2].
  assert (Hdone : view s2 = view s1 → ∃ s3, sock_done h s2 = (Ret (), s3) ∧ view s3 = view s).
  { intros [= Hv Hs]. rewrite (sock_done_eq h f) by (try done; rewrite Hs; apply lookup_insert_eq).
    eexists. split; [done|]. unfold view, set_sock. cbn [hv_p hv_socks]. rewrite Hv, Hs.
    unfold s1, set_sock. cbn [hv_p hv_socks]. rewrite insert_insert_eq. by rewrite insert_id. }
  destruct r as [a|err|w|]; try done; destruct (Hdone Hm) as (s3 & -> & Hv); exact Hv.
Qed.

(** *** A new socket, returned or closed *)
Definition new_sock : win32File := mkFile true 0 false true.
Lemma sock_close_new h (s : hv E) :
  hv_socks s !! h = Some new_sock →
  ∃ s', sock_close h s = (Ret (), s') ∧ pfiles (hv_p s') = pfiles (hv_p s) ∖ {[h]} ∧
    ∀ h', h' ≠ h → hv_socks s' !! h' = hv_socks s !! h'.
Proof.
  intros Hf. unfold sock_close, sock_file. rewrite St_bind_eq, Hf. eexists. split; [reflexivity|]. split.
  - apply CloseHandle_files.
  - intros h' Hne. cbn -[insert]. by rewrite !lookup_insert_ne.
Qed.

(** The outcome of a function that makes a socket: it returns the one handle it
    opened, whose file is unused, or leaves nothing open. *)
Definition owns_one {A} (sock_of : A → Z) (m : St (hv E) A) (s : hv E) : Prop :=
  match m s with
  | (Ret a, s') =>
      (sock_of a ∉ pfiles (hv_p s)) ∧ pfiles (hv_p s') = {[sock_of a]} ∪ pfiles (hv_p s) ∧
      hv_socks s' = <[sock_of a := new_sock]> (hv_socks s)
  | (Fail _, s') =>
      pfiles (hv_p s') = pfiles (hv_p s) ∧ ∀ h, h ∈ pfiles (hv_p s) → hv_socks s' !! h = hv_socks s !! h
  | (Panic w, _) => w = port_panic
  | (NoFuel, _) => False
  end.

Lemma newHVSocket_owns s : owns_one id newHVSocket s.
Proof.
  unfold owns_one, newHVSocket. rewrite St_bind_eq. unfold map_err, on_e, on_proc, on_sys.
  pose proof (Socket_files afHVSock 1 1 (sys (hv_p s))) as Hs.
  destruct (Socket afHVSock 1 1 (sys (hv_p s))) as [[h|err| |] e1]; try done.
  destruct Hs as [Hh Hf]. rewrite St_bind_eq.
  pose proof (file_or_close_spec h (mkProc (ioCompletionPort (hv_p s)) e1)) as Hc. cbn [hv_p].
  destruct (file_or_close h _) as [[h'|err| |] p]; try done.
  - destruct Hc as [-> Hc]. rewrite St_bind_eq. unfold modify. split; [done|]. split; [|done]. cbn. rewrite Hc. exact Hf.
  - cbn. split; [|done]. rewrite Hc. unfold pfiles. cbn. rewrite Hf. unfold pfiles in Hh. clear -Hh.
    apply set_eq. set_unfold. naive_solver.
Qed.

Lemma with_socket {A} (sock_of : A → Z) g (body : Z → St (hv E) A) s :
  (∀ h s1, (h ∉ pfiles (hv_p s)) → hv_socks s1 = <[h := new_sock]> (hv_socks s) →
     keeps_at (body h) s1 ∧ ∀ a s2, body h s1 = (Ret a, s2) → sock_of a = h) →
  owns_one sock_of (sock ← map_err g newHVSocket; on_failure (sock_close sock) (body sock)) s.
Proof.
  intros Hbody. unfold owns_one. rewrite St_bind_eq. unfold map_err.
  pose proof (newHVSocket_owns s) as Hn. unfold owns_one in Hn. destruct (newHVSocket s) as [[h|err| |] s1]; try done.
  destruct Hn as (Hh & Hf & Hsk). cbn [id] in *. unfold on_failure. destruct (Hbody h s1 Hh Hsk) as [Hk Hof].
  unfold keeps_at in Hk. destruct (body h s1) as [[a|err| |] s2]; try done; injection Hk as Hf2 Hsk2.
  - rewrite (Hof a s2) by done. rewrite Hf2, Hsk2. done.
  - destruct (sock_close_new h s2) as (s3 & Hcl & Hf3 & Hsk3); [rewrite Hsk2, Hsk; apply lookup_insert_eq|].
    unfold deferred, fail. rewrite Hcl. split.
    + rewrite Hf3, Hf2, Hf. clear -Hh. apply set_eq. set_unfold. naive_solver.
    + intros h' Hin. assert (Hne : h' ≠ h) by (intros ->; contradiction).
      rewrite Hsk3 by done. rewrite Hsk2, Hsk. by apply lookup_insert_ne.
Qed.

(** What a computation returns, for the clients that name the socket. *)
Definition returns {A} (P : A → Prop) (m : St (hv E) A) : Prop := ∀ s a s', m s = (Ret a, s') → P a.
Lemma returns_ret {A} (P : A → Prop) a : P a → returns P (mret a : St (hv E) A).
Proof. by intros Hp s a' s' [= <- _]. Qed.
Lemma returns_bind {A B} (P : B → Prop) (m : St (hv E) A) k : (∀ a, returns P (k a)) → returns P (m ≫= k).
Proof. intros Hk s b s'. rewrite St_bind_eq. destruct (m s) as [[a| | |] s1]; try done. apply Hk. Qed.
Lemma returns_deferred {A} (P : A → Prop) fin (m : St (hv E) A) : returns P m → returns P (deferred fin m).
Proof.
  intros Hm s a s'. unfold deferred. destruct (m s) as [[a1| | |] s1] eqn:E1; try done;
    destruct (fin s1) as [[[]| | |] s2]; try done; intros [= <- <-]; by eapply Hm.
Qed.
End Ownership.

Lemma prepared_owns {E} `{SockApiSpec E} {A} (sock_of : A → Z) h s1 g k f (m : St (hv E) A) :
  hv_socks s1 !! k = Some f → 0 ≤ f_wg f → keeps view m → returns (λ a, sock_of a = h) m →
  let body := (_ ← map_err g (sock_prepare k); deferred (sock_done k) m) in
  keeps_at body s1 ∧ ∀ a s2, body s1 = (Ret a, s2) → sock_of a = h.
Proof.
  intros Hf Hwg Hm Hr. split; [by apply (prepared_keeps g k f)|].
  intros a s2. apply (returns_bind (λ a, sock_of a = h)). intros _. by apply returns_deferred.
Qed.

Lemma ListenHvsock_owns {E} `{SockApiSpec E} addr (s : hv E) : owns_one hl_sock (ListenHvsock addr) s.
Proof.
  apply with_socket. intros h s1 _ _. split.
  + apply keeps_at_bind; [apply keeps_at_map_err, keeps_on_e, bind_keeps|]. intros _ s2 _.
    apply keeps_at_bind; [apply keeps_at_map_err, keeps_on_e, Listen_keeps|done].
  + intros a s2. apply (returns_bind (λ a, hl_sock a = h)). intros _. apply returns_bind. intros _. by apply returns_ret.
Qed.
Lemma Accept_owns {E} `{SockApiSpec E} l f (s : hv E) :
  hv_socks s !! hl_sock l = Some f → hl_sock l ∈ pfiles (hv_p s) → 0 ≤ f_wg f → owns_one hc_sock (Accept l) s.
Proof.
  intros Hl Hopen Hwg.
  apply with_socket. intros h s1 Hh Hs1.
  assert (Hne : hl_sock l ≠ h) by (intros E1; rewrite <- E1 in Hh; contradiction).
  apply (prepared_owns hc_sock h s1 (OpError "accept") (hl_sock l) f); [|done|..].
  + rewrite Hs1. by rewrite lookup_insert_ne.
  + apply keeps_bind; [apply keeps_map_err, keeps_on_e, AcceptEx_keeps|]. intros buf.
    apply keeps_bind; [apply keeps_map_err, keeps_on_e, Setsockopt_keeps|]. intros _. apply keeps_ret.
  + apply returns_bind. intros buf. apply returns_bind. intros _. by apply returns_ret.
Qed.
Lemma Dial_owns {E} `{SockApiSpec E} d addr (s : hv E) : owns_one hc_sock (Dial d addr) s.
Proof.
  unfold Dial, owns_one. rewrite St_bind_eq. unfold map_err at 1, check_ctx at 1.
  destruct (ctx_Err (sys (hv_p s))); [done|].
  apply with_socket. intros h s1 Hh Hs1.
  assert (Hb : keeps_at (map_err (opErr "dial" ∘ NewSyscallError "bind") (Bind h (raw addr))) s1)
    by (apply keeps_at_map_err, keeps_on_e, bind_keeps).
  match goal with |- keeps_at (_ ≫= ?k) _ ∧ _ => assert (Hk : ∀ s2, view s2 = view s1 →
    keeps_at (k ()) s2 ∧ ∀ a s3, k () s2 = (Ret a, s3) → hc_sock a = h) end.
  { intros s2 [= _ Hs2]. apply (prepared_owns hc_sock h s2 (opErr "dial") h new_sock); [|done|..].
    - rewrite Hs2, Hs1. apply lookup_insert_eq.
    - apply keeps_bind; [apply keeps_map_err, connect_loop_keeps|]. intros _.
      apply keeps_bind; [apply keeps_map_err, keeps_on_e, Setsockopt_keeps|]. intros _.
      apply keeps_bind; [apply keeps_map_err, keeps_bind; [apply keeps_on_e, getsockname_keeps|intros ?; apply keeps_ret]|].
      intros sal. apply keeps_bind; [apply keeps_map_err, check_ctx_keeps|]. intros _. apply keeps_ret.
    - apply returns_bind. intros _. apply returns_bind. intros _. apply returns_bind. intros sal. apply returns_bind.
      intros _. by apply returns_ret. }
  split; [apply keeps_at_bind; [done|]; intros [] s2 Hs2; by apply Hk|].
  intros a s2. rewrite St_bind_eq. unfold keeps_at in Hb. destruct (map_err _ _ s1) as [[[]| | |] s3]; try done.
  by apply Hk.
Qed.

(** C16: dialing, listening and accepting own what they open: with whatever
    errors the calls, the context or the retries end, they return a socket
    whose handle is open, not closing and not counted as in use, or leave open
    exactly the handles that were, the other sockets untouched; the deferred
    calls neither make the count negative nor wait in [Close] for the
    function's own operation. *)
Theorem Hvsock_ownership {E} `{SockApiSpec E} (d : HvsockDialer) addr l f (s : hv E) :
  hv_socks s !! hl_sock l = Some f → hl_sock l ∈ pfiles (hv_p s) → 0 ≤ f_wg f →
  owns_one hl_sock (ListenHvsock addr) s ∧
  owns_one hc_sock (Accept l) s ∧
  owns_one hc_sock (Dial d addr) s.
Proof.
  intros Hl Hopen Hwg. split; [apply ListenHvsock_owns|]. split; [by apply (Accept_owns l f)|apply Dial_owns].
Qed.

(** ** Retries *)

(** A computation that leaves a view of the state alone, however it ends. *)
Definition quiet {S X A} (v : S → X) (m : St S A) : Prop := ∀ s, v (m s).2 = v s.
Section Quiet.
Context {S X : Type} (v : S → X).
Lemma quiet_ret {A} (a : A) : quiet v (mret a).
Proof. done. Qed.
Lemma quiet_lift {A} (r : res A) : quiet v (lift r).
Proof. done. Qed.
Lemma quiet_bind {A B} (m : St S A) (k : A → St S B) : quiet v m → (∀ a, quiet v (k a)) → quiet v (m ≫= k).
Proof.
  intros Hm Hk s. rewrite St_bind_eq. specialize (Hm s). destruct (m s) as [[a| | |] s1]; try done.
  by rewrite (Hk a s1).
Qed.
Lemma quiet_map_err {A} g (m : St S A) : quiet v m → quiet v (map_err g m).
Proof. intros Hm s. unfold map_err. specialize (Hm s). by destruct (m s) as [[]]. Qed.
End Quiet.

Section Dialing.
Context {E : Type} `{FileApi E} `{Context E} `{SockApi E} `{!ConnectLog E}.
Definition plog (p : proc E) : list (Z * list Z * res unit) := attempts (sys p).
Definition log (s : hv E) : list (Z * list Z * res unit) := plog (hv_p s).

Lemma quiet_on_sys {A} (m : St E A) : quiet attempts m → quiet plog (on_sys m).
Proof. intros Hm p. unfold on_sys, plog. specialize (Hm (sys p)). by destruct (m _). Qed.
Lemma quiet_on_proc {A} (m : St (proc E) A) : quiet plog m → quiet log (on_proc m).
Proof. intros Hm s. unfold on_proc, log. specialize (Hm (hv_p s)). by destruct (m _). Qed.
Lemma quiet_on_e {A} (m : St E A) : quiet attempts m → quiet log (on_e m).
Proof. intros Hm. by apply quiet_on_proc, quiet_on_sys. Qed.
Lemma quiet_sock_file h : quiet log (sock_file h).
Proof. intros s. unfold sock_file. by destruct (hv_socks s !! h). Qed.
Lemma quiet_set_sock h f : quiet log (modify (set_sock h f)).
Proof. done. Qed.
Lemma quiet_deferred {A} fin (m : St (hv E) A) : quiet log fin → quiet log m → quiet log (deferred fin m).
Proof.
  intros Hf Hm s. unfold deferred. specialize (Hm s). destruct (m s) as [[] s1]; try done;
    specialize (Hf s1); destruct (fin s1) as [[[]| | |] s2]; cbn in *; congruence.
Qed.

Lemma quiet_prepare h : quiet log (sock_prepare h).
Proof.
  apply quiet_bind; [apply quiet_sock_file|intros f]. apply quiet_bind; [apply quiet_lift|intros [[] f']]; by apply quiet_bind.
Qed.
Lemma quiet_done h : quiet log (sock_done h).
Proof. apply quiet_bind; [apply quiet_sock_file|intros f]. by apply quiet_bind; [apply quiet_lift|]. Qed.
Lemma quiet_close h : quiet log (sock_close h).
Proof.
  apply quiet_bind; [apply quiet_sock_file|intros f]. destruct (close_swap f) as [was f1].
  apply quiet_bind; [done|intros _]. destruct was; [done|]. destruct (f_wg f1 =? 0); [|done].
  apply quiet_bind; [done|intros f2]. apply quiet_bind; [done|intros _].
  apply quiet_on_proc. intros p. apply CloseHandle_attempts.
Qed.
Lemma quiet_make h : quiet plog (file_or_close h).
Proof.
  assert (Hm : quiet plog (makeWin32File h)).
  { apply quiet_bind; [|intros port; apply quiet_bind; [apply quiet_on_sys; intros e; apply port_attempts|intros _];
      apply quiet_bind; [apply quiet_on_sys; intros e; apply modes_attempts|intros _; apply quiet_ret]].
    intros p. unfold initIO, plog. destruct (ioCompletionPort p); [done|].
    pose proof (port_attempts InvalidHandle 0 (sys p)) as Hp. by destruct (createIoCompletionPort _ _ _) as [[]]. }
  intros p. unfold file_or_close. specialize (Hm p). destruct (makeWin32File h p) as [[] p1]; try done.
  unfold plog in *. cbn in *. by rewrite CloseHandle_attempts.
Qed.
Lemma quiet_new : quiet log newHVSocket.
Proof.
  apply quiet_bind; [apply quiet_map_err, quiet_on_e; intros e; apply Socket_attempts|intros fd].
  apply quiet_bind; [apply quiet_on_proc, quiet_make|intros f]. by apply quiet_bind.
Qed.
Lemma quiet_check_ctx : quiet log check_ctx.
Proof. intros s. unfold check_ctx. by destruct (ctx_Err _). Qed.
Lemma quiet_Load : quiet log Load.
Proof.
  intros s. unfold Load, log, plog. destruct (hv_connectEx s) as [x|]; [done|]. unfold load_once.
  pose proof (Socket_attempts 2 1 6 (sys (hv_p s))) as Hs. destruct (Socket _ _ _ _) as [[h| | |] e]; try done.
  pose proof (WSAIoctl_attempts h WSAID_CONNECTEX e) as Hw. destruct (WSAIoctl _ _ _) as [err e1]. cbn in *.
  by rewrite CloseHandle_attempts, Hw.
Qed.

(** The errors another attempt may help with: refused (10061, 1225), no network (10051), timed out
    (10060), unavailable (1201). *)
Definition calls_for_another (err : error) : Prop := err ∈ Errno <$> [10061; 1225; 10051; 10060; 1201].
Lemma canRedial_spec err : canRedial err = true ↔ calls_for_another err.
Proof. unfold canRedial, calls_for_another. rewrite bool_decide_eq_true. cbn. rewrite !elem_of_cons, elem_of_nil. tauto. Qed.

(** With [n] retries left, the attempts end like this and the loop with this outcome. *)
Inductive dialing : nat → list (res unit) → res unit → Prop :=
| dial_ends n x : (∀ err, x = Fail err → calls_for_another err → n = O) → dialing n [x] x
| dial_again n err xs x : calls_for_another err → dialing n xs x → dialing (S n) (Fail err :: xs) x
| dial_stops n err e ce : calls_for_another err → ctx_Err (e : E) = Some ce → dialing (S n) [Fail err] (Fail ce).
Lemma dialing_length n xs x : dialing n xs x → (length xs ≤ S n)%nat.
Proof. induction 1; simpl; lia. Qed.

Definition logged (h : Z) (sa : rawHvsockAddr) (xs : list (res unit)) : list (Z * list Z * res unit) :=
  (λ x, (h, raw_bytes sa, x)) <$> xs.
(** Once the function pointer is loaded a [ConnectEx] is one call. *)
Lemma ConnectEx_loaded h sa s :
  hv_connectEx s = Some None →
  let '(r, s') := ConnectEx h sa s in hv_connectEx s' = Some None ∧ log s' = log s ++ logged h sa [r].
Proof.
  intros Hc. unfold ConnectEx. rewrite St_bind_eq. unfold map_err, Load. rewrite Hc.
  unfold on_e, on_proc, on_sys, log, plog. pose proof (connectEx_attempts h (raw_bytes sa) (sys (hv_p s))) as Hn.
  destruct (connectEx h _ _) as [r e]. by split.
Qed.
(** When it cannot be loaded there is none. *)
Lemma ConnectEx_first h sa s :
  (∃ err s', ConnectEx h sa s = (Fail (Wrapf "failed to load ConnectEx function pointer: %w" [] [] err), s') ∧ log s' = log s) ∨
  (∃ s1, hv_connectEx s1 = Some None ∧ log s1 = log s ∧ ConnectEx h sa s = ConnectEx h sa s1).
Proof.
  pose proof (quiet_Load s) as Hl. unfold ConnectEx. rewrite St_bind_eq. unfold map_err. unfold Load in *.
  destruct (match hv_connectEx s with Some x => (x, s) | None => _ end) as [[err|] s1] eqn:E1.
  - left. by exists err, s1.
  - right. exists s1. assert (Hs1 : hv_connectEx s1 = Some None).
    { destruct (hv_connectEx s) as [x|] eqn:Ex; [by injection E1 as -> <-|].
      destruct (load_once _) as [x e]. by injection E1 as -> <-. }
    split; [done|]. split; [done|]. by rewrite St_bind_eq, Hs1.
Qed.
Lemma redialWait_spec d s :
  let '(r, s') := redialWait d s in hv_connectEx s' = hv_connectEx s ∧ log s' = log s ∧
  match r with Ret _ => True | Fail ce => ∃ e : E, ctx_Err e = Some ce | _ => False end.
Proof.
  unfold redialWait. destruct (RetryWait d =? 0); [done|]. rewrite St_bind_eq.
  pose proof (wait_attempts (RetryWait d) (sys (hv_p s))) as Hw.
  destruct (wait_redial (RetryWait d) (sys (hv_p s))) as [[] e]; [done|].
  unfold check_ctx. cbn in *. destruct (ctx_Err e) as [err|] eqn:Hc; split_and!; try done. by exists e.
Qed.
Lemma connect_loop_loaded more d h sa s :
  hv_connectEx s = Some None →
  let '(r, s') := connect_loop more d h sa s in ∃ xs, log s' = log s ++ logged h sa xs ∧ dialing more xs r.
Proof.
  revert s. induction more as [|more IH]; intros s Hc; cbn [connect_loop]; pose proof (ConnectEx_loaded h sa s Hc) as Hx;
    destruct (ConnectEx h sa s) as [[u|err| |] s1]; destruct Hx as (Hc1 & Hl1);
    try (eexists [_]; split; [exact Hl1|]; constructor; done).
  destruct (canRedial err) eqn:Hr.
  2: { eexists [_]. split; [exact Hl1|]. constructor. intros ? [= <-] Ha%canRedial_spec. congruence. }
  apply canRedial_spec in Hr. rewrite St_bind_eq. pose proof (redialWait_spec d s1) as Hw.
  destruct (redialWait d s1) as [[[]|ce| |] s2]; destruct Hw as (Hc2 & Hl2 & Hw); try done.
  - specialize (IH s2 (eq_trans Hc2 Hc1)). destruct (connect_loop more d h sa s2) as [r s3].
    destruct IH as (xs & Hl3 & Hd). exists (Fail err :: xs). split; [|by constructor].
    rewrite Hl3, Hl2, Hl1, <- app_assoc. done.
  - destruct Hw as [e He]. exists [Fail err]. split; [by rewrite Hl2|]. by eapply dial_stops.
Qed.
Lemma connect_loop_dialing more d h sa s :
  let '(r, s') := connect_loop more d h sa s in
  ∃ xs, log s' = log s ++ logged h sa xs ∧ (xs = [] ∧ (∃ err, r = Fail err) ∨ dialing more xs r).
Proof.
  destruct (ConnectEx_first h sa s) as [(err & s' & Ex & Hl)|(s1 & Hc & Hl & Ex)].
  - assert (El : connect_loop more d h sa s = (Fail (Wrapf "failed to load ConnectEx function pointer: %w" [] [] err), s'))
      by (destruct more; cbn [connect_loop]; by rewrite Ex).
    rewrite El. exists []. split; [by rewrite app_nil_r|]. left. eauto.
  - assert (El : connect_loop more d h sa s = connect_loop more d h sa s1)
      by (destruct more; cbn [connect_loop]; by rewrite Ex).
    rewrite El. pose proof (connect_loop_loaded more d h sa s1 Hc) as Hd. destruct (connect_loop more d h sa s1) as [r s'].
    destruct Hd as (xs & Hxs & Hd). exists xs. rewrite Hxs, Hl. eauto.
Qed.

(** What [Dial] makes of the outcome of its attempts. *)
Definition ends_with (x : res unit) (r : res HvsockConn) : Prop :=
  match x, r with
  | Fail err, Fail err' => err' = opErr "dial" (NewSyscallError "connectex" err)
  | Ret _, _ | _, Panic _ | _, NoFuel => True
  | _, _ => False
  end.
(** The attempts of a [Dial] of [n] retries that ends with [r]. *)
Definition attempted n (xs : list (res unit)) (r : res HvsockConn) : Prop :=
  (xs = [] ∧ ∀ c, r ≠ Ret c) ∨ ∃ x, dialing n xs x ∧ ends_with x r.
Definition dials n h sa (m : St (hv E) HvsockConn) (s : hv E) : Prop :=
  ∃ xs, log (m s).2 = log s ++ logged h sa xs ∧ attempted n xs (m s).1.

Lemma attempted_panic n xs r r' :
  attempted n xs r → (match r' with Panic _ | NoFuel => True | _ => False end) → attempted n xs r'.
Proof.
  intros [[-> Hr]|(x & Hd & _)] Hr'; [left; split; [done|]; by intros c ->|].
  right. exists x. split; [done|]. by destruct x, r'.
Qed.
Lemma dials_bind {A} n h sa (m : St (hv E) A) k s :
  quiet log m → (∀ a s1, dials n h sa (k a) s1) → dials n h sa (m ≫= k) s.
Proof.
  intros Hm Hk. unfold dials. rewrite St_bind_eq. specialize (Hm s). destruct (m s) as [[a| | |] s1]; cbn [fst snd] in *.
  { destruct (Hk a s1) as (xs & Hl & Ha). exists xs. by rewrite Hl, Hm. }
  all: exists []; split; [by rewrite app_nil_r|by left].
Qed.
Lemma dials_deferred n h sa fin (m : St (hv E) HvsockConn) s :
  quiet log fin → dials n h sa m s → dials n h sa (deferred fin m) s.
Proof.
  intros Hf (xs & Hl & Ha). exists xs. unfold deferred. destruct (m s) as [r s1]. cbn [fst snd] in *. specialize (Hf s1).
  destruct r; try done; destruct (fin s1) as [[[]| | |] s2]; cbn [fst snd] in *;
    (split; [congruence|first [done|by eapply attempted_panic]]).
Qed.
Lemma dials_on_failure n h sa fin (m : St (hv E) HvsockConn) s :
  quiet log fin → dials n h sa m s → dials n h sa (on_failure fin m) s.
Proof.
  intros Hf (xs & Hl & Ha). exists xs. unfold on_failure, deferred, fail. destruct (m s) as [r s1]. cbn [fst snd] in *. specialize (Hf s1).
  destruct r; try done; destruct (fin s1) as [[[]| | |] s2]; cbn [fst snd] in *;
    (split; [congruence|first [done|by eapply attempted_panic]]).
Qed.
Lemma dials_connect d h sa (k : unit → St (hv E) HvsockConn) s :
  (∀ u, quiet log (k u)) →
  dials (Retries d) h sa (map_err (opErr "dial" ∘ NewSyscallError "connectex") (connect_loop (Retries d) d h sa) ≫= k) s.
Proof.
  intros Hk. unfold dials. rewrite St_bind_eq. unfold map_err. pose proof (connect_loop_dialing (Retries d) d h sa s) as Hd.
  destruct (connect_loop (Retries d) d h sa s) as [r s1]. destruct Hd as (xs & Hl & Hd). exists xs.
  destruct r as [[]|err|w|]; cbn [fst snd].
  - split; [by rewrite (Hk () s1)|]. destruct Hd as [[_ [err Hr]]|Hd]; [done|]. right. exists (Ret ()). split; [done|]. by destruct (k () s1).1.
  - split; [done|]. destruct Hd as [[-> _]|Hd]; [by left|]. right. by exists (Fail err).
  - split; [done|]. destruct Hd as [[-> _]|Hd]; [by left|]. right. by exists (Panic w).
  - split; [done|]. destruct Hd as [[-> _]|Hd]; [by left|]. right. by exists NoFuel.
Qed.
Lemma dials_step {A} n (h0 : Z) sa (m : St (hv E) A) (g : error → error) (k : A → St (hv E) HvsockConn) s :
  quiet log m → (∀ a s1, ∃ h, dials n h sa (k a) s1) → ∃ h, dials n h sa (map_err g m ≫= k) s.
Proof.
  intros Hm Hk. apply (quiet_map_err _ g) in Hm. unfold dials. setoid_rewrite St_bind_eq. specialize (Hm s).
  destruct (map_err g m s) as [[a|err|w|] s1]; cbn [fst snd] in *.
  { destruct (Hk a s1) as (h & xs & Hl & Ha). exists h, xs. by rewrite Hl, Hm. }
  all: exists h0, []; split; [by rewrite app_nil_r|by left].
Qed.
Lemma Dial_dials d addr s : ∃ sock, dials (Retries d) sock (raw addr) (Dial d addr) s.
Proof.
  unfold Dial. apply (dials_step _ 0 (raw addr)); [apply quiet_check_ctx|intros _ s1].
  apply (dials_step _ 0 (raw addr)); [apply quiet_new|intros sock s2]. exists sock.
  apply dials_on_failure; [apply quiet_close|].
  apply dials_bind; [apply quiet_map_err, quiet_on_e; intros e; apply bind_attempts|intros _ s3].
  apply dials_bind; [apply quiet_map_err, quiet_prepare|intros _ s4].
  apply dials_deferred; [apply quiet_done|]. apply (dials_connect d sock (raw addr)). intros _.
  apply quiet_bind; [apply quiet_map_err, quiet_on_e; intros e; apply Setsockopt_attempts|intros _].
  apply quiet_bind; [|intros sal; apply quiet_bind; [apply quiet_map_err, quiet_check_ctx|intros _; apply quiet_ret]].
  apply quiet_map_err, quiet_bind; [apply quiet_on_e; intros e; apply getsockname_attempts|intros b; apply quiet_ret].
Qed.
End Dialing.


(** ** Writing *)
Section WriteSpec.
Context {E : Type} `{SockApiSpec E}.

(** A socket that is in order: its count is sound. *)
Definition sock_ok (h : Z) (s : hv E) : Prop := ∃ f, hv_socks s !! h = Some f ∧ 0 ≤ f_wg f.

Lemma conn_write_spec c b (s : hv E) :
  sock_ok (hc_sock c) s → 0 < zlen b < 4294967296 →
  match conn_write c b s with
  | (Ret n, s') => sock_ok (hc_sock c) s' ∧ 1 ≤ n ≤ zlen b ∧
      sent (hc_sock c) (sys (hv_p s')) = sent (hc_sock c) (sys (hv_p s)) ++ ztake n b
  | (Fail _, s') => sent (hc_sock c) (sys (hv_p s')) = sent (hc_sock c) (sys (hv_p s))
  | _ => False
  end.
Proof.
  intros (f & Hf & Hwg) Hb. unfold conn_write, prepared. rewrite St_bind_eq. unfold map_err at 1.
  rewrite (sock_prepare_eq _ f) by done. destruct (f_closing f); [done|].
  unfold deferred. rewrite (proj2 (Z.eqb_neq (zlen b) 0)) by lia. unfold map_err, on_e, on_proc, on_sys.
  rewrite u32_small, ztake_all by lia. unfold set_sock. cbn [hv_p hv_socks hv_connectEx].
  pose proof (WSASend_sent (hc_sock c) b (sys (hv_p s))) as Hs.
  destruct (WSASend (hc_sock c) b (sys (hv_p s))) as [[n|err| |] e]; try (exfalso; apply Hs; lia).
  - destruct Hs as [Hn Hs]; [lia|]. rewrite (sock_done_eq _ f); [|apply lookup_insert_eq|done]. split.
    + exists f. split; [apply lookup_insert_eq|done].
    + split; [done|exact Hs].
  - rewrite (sock_done_eq _ f); [|apply lookup_insert_eq|done]. apply Hs. lia.
Qed.
End WriteSpec.

(** [Write] ends, and its count is exact: the peer is sent that many bytes of
    the buffer, in order, however the calls split them, and it is all of them
    when there is no error; an empty buffer is not sent. *)
Theorem conn_Write_spec {E} `{SockApiSpec E} fuel c b (s : hv E) :
  sock_ok (hc_sock c) s → zlen b < 4294967296 → (length b ≤ fuel)%nat →
  ∃ t err s', conn_Write fuel c b 0 s = (Ret (t, err), s') ∧ 0 ≤ t ≤ zlen b ∧
    sent (hc_sock c) (sys (hv_p s')) = sent (hc_sock c) (sys (hv_p s)) ++ ztake t b ∧
    (err = None → t = zlen b).
Proof.
  assert (G : ∀ t0, sock_ok (hc_sock c) s → zlen b < 4294967296 → (length b ≤ fuel)%nat →
    ∃ t err s', conn_Write fuel c b t0 s = (Ret (t0 + t, err), s') ∧ 0 ≤ t ≤ zlen b ∧
      sent (hc_sock c) (sys (hv_p s')) = sent (hc_sock c) (sys (hv_p s)) ++ ztake t b ∧ (err = None → t = zlen b));
    [|intros Hs Hb Hf; by apply (G 0)].
  revert b s. induction fuel as [|fuel IH]; intros b s t0 Hs Hb Hf.
  - destruct b; [|cbn in Hf; lia]. exists 0, None, s. cbn. by rewrite Z.add_0_r, app_nil_r.
  - cbn [conn_Write]. pose proof (zlen_nonneg b). destruct (Z.eqb_spec (zlen b) 0) as [Hz|Hz].
    { exists 0, None, s. rewrite ztake_0, app_nil_r, Z.add_0_r. done. }
    pose proof (conn_write_spec c b s Hs) as Hw. destruct (conn_write c b s) as [[n|err| |] s1]; try (destruct Hw; lia).
    + destruct Hw as (Hs1 & Hn & Hsent); [lia|]. replace (n <=? zlen b) with true by lia.
      destruct (IH (zdrop n b) s1 (t0 + n)) as (t & err & s2 & Ew & Ht & Hsent2 & He); [done| | |].
      * rewrite zlen_zdrop. lia.
      * unfold zlen, zdrop in *. rewrite length_drop. lia.
      * rewrite zlen_zdrop in Ht, He. exists (n + t), err, s2. split; [by rewrite Ew, Z.add_assoc|]. split; [lia|].
        split; [|intros Hnone; specialize (He Hnone); lia].
        rewrite Hsent2, Hsent, <- app_assoc. f_equal.
        unfold ztake, zdrop. rewrite take_take_drop. f_equal. lia.
    + exists 0, (Some err), s1. rewrite ztake_0, app_nil_r, Z.add_0_r. split; [done|]. split; [lia|].
      split; [apply Hw; lia|done].
Qed.

(** ** Witnesses: a network that refuses some connections and sends in pieces *)
Record net := mkNet {
  n_files : gset Z; n_refused : nat; n_connects : list (Z * list Z * res unit); n_sent : list Z; n_piece : Z }.
Definition with_files (x : gset Z) (e : net) : net := mkNet x (n_refused e) (n_connects e) (n_sent e) (n_piece e).
#[export] Instance net_FileApi : FileApi net := {|
  createIoCompletionPort h p e := (Ret 1, e);
  setFileCompletionNotificationModes h m e := (Ret (), e);
  CloseHandle h e := with_files (n_files e ∖ {[h]}) e |}.
#[export, program] Instance net_FileApiSpec : FileApiSpec net := {| files := n_files |}.
Next Obligation. done. Qed.
Next Obligation. done. Qed.
Next Obligation. done. Qed.
#[export] Instance net_Context : Context net := λ e, None.
#[export] Instance net_SockApi : SockApi net := {|
  Socket a b c e := let h := fresh (n_files e) in (Ret h, with_files ({[h]} ∪ n_files e) e);
  WSAIoctl h g e := (None, e);
  bind h b e := (Ret (), e);
  Listen h n e := (Ret (), e);
  connectEx h b e :=
    match n_refused e with
    | O => (Ret (), mkNet (n_files e) O (n_connects e ++ [(h, b, Ret ())]) (n_sent e) (n_piece e))
    | S r => (Fail WSAECONNREFUSED,
        mkNet (n_files e) r (n_connects e ++ [(h, b, Fail WSAECONNREFUSED)]) (n_sent e) (n_piece e))
    end;
  AcceptEx l h e := (Ret (raw_bytes (raw addr_example) ++ replicate 16 0 ++ raw_bytes (raw addr_example) ++ replicate 16 0), e);
  Setsockopt h n b e := (Ret (), e);
  getsockname h e := (Ret (raw_bytes (raw addr_example)), e);
  wait_redial w e := (true, e);
  WSASend h b e :=
    let n := Z.max 1 (Z.min (zlen b) (n_piece e)) in
    (Ret n, mkNet (n_files e) (n_refused e) (n_connects e) (n_sent e ++ ztake n b) (n_piece e));
  WSARecv h n e := (Ret [], e);
  Shutdown h n e := (Ret (), e) |}.
#[export, program] Instance net_SockApiSpec : SockApiSpec net := {| sent h := n_sent |}.
Next Obligation. intros a b c e. cbn. split; [apply is_fresh|done]. Qed.
Next Obligation. done. Qed.
Next Obligation. done. Qed.
Next Obligation. done. Qed.
Next Obligation. intros h b e. cbn. by destruct (n_refused e). Qed.
Next Obligation. done. Qed.
Next Obligation. done. Qed.
Next Obligation. done. Qed.
Next Obligation. done. Qed.
Next Obligation. intros h b e Hb. cbn. split; [lia|done]. Qed.
#[export, program] Instance net_ConnectLog : ConnectLog net := {| attempts := n_connects |}.
Solve All Obligations with (intros; cbn; try done; by destruct (n_refused _)).

Definition ex_net (refused : nat) : hv net :=
  mkHv (mkProc None (mkNet {[7]} refused [] [] 2)) {[7 := mkFile true 0 false true]} (Some None).
Lemma Hvsock_ownership_witness :
  owns_one hc_sock (Dial (mkHD 3 1) addr_example) (ex_net 9) ∧
  fst (Dial (mkHD 3 1) addr_example (ex_net 9)) = Fail (opErr "dial" (NewSyscallError "connectex" WSAECONNREFUSED)) ∧
  n_files (sys (hv_p (snd (Dial (mkHD 3 1) addr_example (ex_net 9))))) = {[7]} ∧
  fst (Accept (mkHL 7 addr_example) (ex_net 0)) = Ret (mkHC 8 addr_example addr_example).
Proof.
  split; [|vm_compute; split_and!; reflexivity].
  destruct (Hvsock_ownership (mkHD 3 1) addr_example (mkHL 7 addr_example) (mkFile true 0 false true) (ex_net 9)) as (_ & _ & H).
  - vm_compute. reflexivity.
  - apply (bool_decide_eq_true_1 _). vm_compute. reflexivity.
  - vm_compute. discriminate.
  - exact H.
Defined.
(** Refused twice, then connected; the function pointer is loaded by the first attempt. *)
Definition ex_unloaded (refused : nat) : hv net :=
  mkHv (mkProc None (mkNet {[7]} refused [] [] 2)) {[7 := mkFile true 0 false true]} None.
Lemma conn_Write_spec_witness :
  ∃ s', conn_Write 5 (mkHC 7 addr_example addr_example) [1; 2; 3; 4; 5] 0 (ex_net 0) = (Ret (5, None), s') ∧
    n_sent (sys (hv_p s')) = [1; 2; 3; 4; 5].
Proof.
  destruct (conn_Write_spec 5 (mkHC 7 addr_example addr_example) [1; 2; 3; 4; 5] (ex_net 0)) as (t & err & s' & E1 & Ht & Hs & He).
  - exists (mkFile true 0 false true). split; [vm_compute; reflexivity|vm_compute; discriminate].
  - vm_compute. reflexivity.
  - cbn. lia.
  - exists s'. assert (Hterr : t = 5 ∧ err = None) by (vm_compute in E1; by injection E1 as <- <- _).
    destruct Hterr as [-> ->]. split; [exact E1|]. exact Hs.
Defined.
