(* ===== verification/WString.v ===== *)
(** * Wide string buffers ([internal/stringbuffer])

    [WString] takes its buffer from a pool shared by all strings and gives it
    back; the heap of buffers, the pool and the ownership of each buffer are
    explicit here. *)
From S2P Require Import Prelude Unicode.

Definition MinWStringCap : Z := 310.

(** The buffers by address, the addresses in the pool, and the next address. *)
Record heap := mkHeap { h_bufs : gmap nat (list Z); h_pool : list nat; h_next : nat }.
(** The field [b]; [None] is [nil]. *)
Record WString := mkWS { ws_b : option nat }.

(** [make([]uint16, n)] *)
Definition make_buffer (n : Z) (h : heap) : nat * heap :=
  (h_next h, mkHeap (<[h_next h := replicate (Z.to_nat n) 0]> (h_bufs h)) (h_pool h) (S (h_next h))).

(** [pathPool.Get]: one of the buffers of the pool, or a new one ([sync.Pool] may
    forget what it holds); [pick] says which. *)
Definition newBuffer (pick : option nat) (h : heap) : nat * heap :=
  match pick ≫= λ n, (λ i, (n, i)) <$> h_pool h !! n with
  | Some (n, i) => (i, mkHeap (h_bufs h) (delete n (h_pool h)) (h_next h))
  | None => make_buffer MinWStringCap h
  end.
Definition freeBuffer (i : nat) (h : heap) : heap := mkHeap (h_bufs h) (i :: h_pool h) (h_next h).

Definition NewWString (pick : option nat) (h : heap) : WString * heap :=
  let '(i, h) := newBuffer pick h in (mkWS (Some i), h).

(** The words of the slice. *)
Definition words (b : WString) (h : heap) : list Z := default [] (ws_b b ≫= (h_bufs h !!.)).
Definition cap (b : WString) (h : heap) : Z := u32 (zlen (words b h)).
Definition empty (b : WString) (h : heap) : bool := cap b h =? 0.
Definition Cap (b : WString) (h : heap) : Z := if empty b h then 0 else cap b h.
Definition Buffer (b : WString) (h : heap) : list Z := if empty b h then [] else words b h.
Definition Pointer (b : WString) (h : heap) : option nat := if empty b h then None else ws_b b.
Definition WString_String (b : WString) (h : heap) : list Z := of_utf16 (until_nul (words b h)).

Definition Free (b : WString) (h : heap) : WString * heap :=
  if empty b h then (b, h)
  else match ws_b b with Some i => (mkWS None, freeBuffer i h) | None => (b, h) end.

(** [copy(b2, b)] into a larger buffer. *)
Definition copy_words (old new : list Z) : list Z := old ++ zdrop (zlen old) new.
Definition ResizeTo (c : Z) (b : WString) (h : heap) : Z * WString * heap :=
  if c <=? Cap b h then (Cap b h, b, h)
  else
    let c := if c <=? MinWStringCap then MinWStringCap else c in
    let c := if c <=? u32 (2 * Cap b h) then u32 (2 * Cap b h) else c in
    let old := words b h in
    let '(b2, h2) := make_buffer c h in
    let h3 := if empty b h then h2 else
      match ws_b b with
      | Some i => freeBuffer i (mkHeap (alter (copy_words old) b2 (h_bufs h2)) (h_pool h2) (h_next h2))
      | None => h2
      end in
    (c, mkWS (Some b2), h3).

(** What the caller writes through the pointer, from the first word on. *)
Definition fill (ws : list Z) (b : WString) (h : heap) : heap :=
  match Pointer b h with
  | Some i => mkHeap (alter (λ old, ztake (zlen old) (ws ++ zdrop (zlen ws) old)) i (h_bufs h)) (h_pool h) (h_next h)
  | None => h
  end.

(** ** Many strings on one pool *)
Record strings := mkSS { s_heap : heap; s_live : gmap nat WString }.
Inductive wop := NewOp (k : nat) (pick : option nat) | FreeOp (k : nat) | ResizeOp (k : nat) (c : Z) | FillOp (k : nat) (ws : list Z).

Definition wrun (o : wop) (s : strings) : option strings :=
  match o with
  | NewOp k pick =>
      match s_live s !! k with
      | Some _ => None
      | None => let '(b, h) := NewWString pick (s_heap s) in Some (mkSS h (<[k := b]> (s_live s)))
      end
  | FreeOp k => b ← s_live s !! k; let '(b, h) := Free b (s_heap s) in Some (mkSS h (<[k := b]> (s_live s)))
  | ResizeOp k c =>
      b ← s_live s !! k; if decide (0 ≤ c < 4294967296)
      then let '(_, b, h) := ResizeTo c b (s_heap s) in Some (mkSS h (<[k := b]> (s_live s))) else None
  | FillOp k ws => b ← s_live s !! k; Some (mkSS (fill ws b (s_heap s)) (s_live s))
  end.
Definition op_string (o : wop) : nat := match o with NewOp k _ | FreeOp k | ResizeOp k _ | FillOp k _ => k end.
Definition no_strings : strings := mkSS (mkHeap ∅ [] 0) ∅.
Inductive reach : strings → Prop :=
| reach_none : reach no_strings
| reach_op o s s' : reach s → wrun o s = Some s' → reach s'.

(** The contents of a string of the program. *)
Definition contents (s : strings) (k : nat) : option (list Z) := (λ b, words b (s_heap s)) <$> s_live s !! k.

(** ** Ownership *)
Definition owns (s : strings) (k i : nat) : Prop := s_live s !! k = Some (mkWS (Some i)).
Definition good_buffer (h : heap) (i : nat) : Prop :=
  (i < h_next h)%nat ∧ ∃ l, h_bufs h !! i = Some l ∧ MinWStringCap ≤ zlen l < 4294967296.
Record inv (s : strings) : Prop := {
  one_owner k1 k2 i : owns s k1 i → owns s k2 i → k1 = k2;
  not_pooled k i : owns s k i → i ∉ h_pool (s_heap s);
  pool_once : NoDup (h_pool (s_heap s));
  owned_good k i : owns s k i → good_buffer (s_heap s) i;
  pool_good i : i ∈ h_pool (s_heap s) → good_buffer (s_heap s) i }.

Lemma Cap_good b h : 0 ≤ Cap b h < 4294967296.
Proof. unfold Cap, empty. pose proof (u32_range (zlen (words b h))). unfold cap in *. case_match; lia. Qed.
Lemma words_owned i h l : h_bufs h !! i = Some l → words (mkWS (Some i)) h = l.
Proof. intros Hi. unfold words. cbn. by rewrite Hi. Qed.
Lemma Cap_owned i h l : h_bufs h !! i = Some l → zlen l < 4294967296 → Cap (mkWS (Some i)) h = zlen l.
Proof.
  intros Hi Hl. unfold Cap, empty, cap. rewrite (words_owned _ _ _ Hi). pose_lens. rewrite u32_small by lia.
  destruct (Z.eqb_spec (zlen l) 0); lia.
Qed.
Lemma empty_owned i h l : h_bufs h !! i = Some l → 0 < zlen l < 4294967296 → empty (mkWS (Some i)) h = false.
Proof. intros Hi Hl. unfold empty, cap. rewrite (words_owned _ _ _ Hi), u32_small by lia. lia. Qed.
Lemma empty_none h : empty (mkWS None) h = true.
Proof. done. Qed.

(** The capacity [ResizeTo] settles for. *)
Definition new_cap (c old : Z) : Z := if 2 * old <? 4294967296 then Z.max (Z.max c MinWStringCap) (2 * old) else c.

Lemma grown_cap c old :
  0 ≤ old < 4294967296 → old < c < 4294967296 →
  (let c := if c <=? MinWStringCap then MinWStringCap else c in if c <=? u32 (2 * old) then u32 (2 * old) else c) = new_cap c old ∧
  c ≤ new_cap c old < 4294967296 ∧ MinWStringCap ≤ new_cap c old.
Proof.
  intros Ho Hc. unfold new_cap, MinWStringCap, u32. cbv zeta.
  destruct (Z.ltb_spec (2 * old) 4294967296).
  - rewrite Z.mod_small by lia. repeat case_match; lia.
  - replace ((2 * old) mod 4294967296) with (2 * old - 4294967296).
    + repeat case_match; lia.
    + apply (Z.mod_unique_pos _ _ 1); lia.
Qed.

(** [ResizeTo] of a string: enough room, at least doubled, the old words kept,
    and the old buffer in the pool. *)
Lemma ResizeTo_spec c i h l :
  h_bufs h !! i = Some l → MinWStringCap ≤ zlen l < 4294967296 → (i < h_next h)%nat → 0 ≤ c < 4294967296 →
  ResizeTo c (mkWS (Some i)) h =
    if c <=? zlen l then (zlen l, mkWS (Some i), h)
    else (new_cap c (zlen l), mkWS (Some (h_next h)),
          mkHeap (<[h_next h := l ++ replicate (Z.to_nat (new_cap c (zlen l) - zlen l)) 0]> (h_bufs h))
            (i :: h_pool h) (S (h_next h))).
Proof.
  intros Hi Hl Hn Hc. unfold ResizeTo, MinWStringCap in *. rewrite (Cap_owned _ _ _ Hi) by lia.
  destruct (Z.leb_spec c (zlen l)); [done|]. destruct (grown_cap c (zlen l)) as (E & Hb & _); [lia..|].
  unfold MinWStringCap in E. cbv zeta in *. rewrite E. clear E. rewrite (empty_owned _ _ _ Hi), (words_owned _ _ _ Hi) by lia.
  unfold make_buffer, freeBuffer. cbn [ws_b h_bufs h_pool h_next]. f_equal. f_equal. f_equal.
  rewrite alter_insert_eq. f_equal. unfold copy_words. f_equal. unfold zdrop, zlen. rewrite drop_replicate. f_equal. lia.
Qed.
Lemma ResizeTo_freed c h :
  0 ≤ c < 4294967296 →
  ResizeTo c (mkWS None) h =
    if c <=? 0 then (0, mkWS None, h)
    else (Z.max c MinWStringCap, mkWS (Some (h_next h)), snd (make_buffer (Z.max c MinWStringCap) h)).
Proof.
  intros Hc. unfold ResizeTo. change (Cap (mkWS None) h) with 0. destruct (Z.leb_spec c 0); [done|].
  destruct (grown_cap c 0) as (E & _); [lia..|]. change (2 * 0) with 0 in *. change (u32 0) with 0 in *.
  cbv zeta in *. rewrite E. unfold new_cap. change (2 * 0 <? 4294967296) with true. cbv iota.
  replace (Z.max (Z.max c MinWStringCap) (2 * 0)) with (Z.max c MinWStringCap) by (unfold MinWStringCap; lia). done.
Qed.

(** *** The invariant *)
Lemma insert_owns h m k k' (b : WString) i :
  owns (mkSS h (<[k := b]> m)) k' i ↔ (k' = k ∧ b = mkWS (Some i)) ∨ (k' ≠ k ∧ m !! k' = Some (mkWS (Some i))).
Proof.
  unfold owns. cbn [s_live]. destruct (decide (k' = k)) as [->|Hk].
  - rewrite lookup_insert_eq. naive_solver.
  - rewrite lookup_insert_ne by done. naive_solver.
Qed.
Lemma good_buffer_insert h i j l p :
  good_buffer h i → MinWStringCap ≤ zlen l < 4294967296 →
  good_buffer (mkHeap (<[j := l]> (h_bufs h)) p (S (h_next h))) i.
Proof.
  intros (Hn & l0 & Hi & Hl) Hj. split; [cbn; lia|]. cbn [h_bufs]. destruct (decide (i = j)) as [->|Hne].
  - exists l. by rewrite lookup_insert_eq.
  - exists l0. by rewrite lookup_insert_ne.
Qed.
Lemma good_buffer_new h l p :
  MinWStringCap ≤ zlen l < 4294967296 → good_buffer (mkHeap (<[h_next h := l]> (h_bufs h)) p (S (h_next h))) (h_next h).
Proof. intros Hl. split; [cbn; lia|]. exists l. cbn [h_bufs]. by rewrite lookup_insert_eq. Qed.

(** A string is handed a buffer nobody has, and perhaps gives its own away. *)
Lemma inv_move h m k i h' old :
  inv (mkSS h m) → (∀ k', ¬ owns (mkSS h m) k' i) → (i ∉ h_pool h') → NoDup (h_pool h') →
  (∀ j, j ∈ h_pool h' → j ∈ h_pool h ∨ old = Some j) → (∀ j, old = Some j → owns (mkSS h m) k j) →
  (∀ j, good_buffer h j → good_buffer h' j) → good_buffer h' i →
  (∀ j, owns (mkSS h m) k j → old = Some j) →
  inv (mkSS h' (<[k := mkWS (Some i)]> m)).
Proof.
  intros I Hfree Hpool Hnd Hsub Hold Hgood Hi Hmine. split; cbn [s_heap]; [| |done| |].
  - intros k1 k2 j [[-> E1]|[N1 E1]]%insert_owns [[-> E2]|[N2 E2]]%insert_owns; try done.
    + injection E1 as ->. by apply Hfree in E2.
    + injection E2 as ->. by apply Hfree in E1.
    + by eapply (one_owner _ I).
  - intros k' j [[-> E]|[N E]]%insert_owns; [by injection E as ->|].
    intros Hj. destruct (Hsub j Hj) as [Hp|Ho%Hold]; [by eapply (not_pooled _ I)|]. by apply N, (one_owner _ I k' k j).
  - intros k' j [[-> E]|[N E]]%insert_owns; [by injection E as ->|]. by apply Hgood, (owned_good _ I k').
  - intros j Hj. apply Hgood. destruct (Hsub j Hj) as [Hp|Ho%Hold]; [by apply (pool_good _ I)|by apply (owned_good _ I k)].
Qed.

(** A string gives its buffer away, or has none. *)
Lemma inv_drop h m k i :
  inv (mkSS h m) → owns (mkSS h m) k i → inv (mkSS (freeBuffer i h) (<[k := mkWS None]> m)).
Proof.
  intros I Ho. split; cbn [s_heap freeBuffer h_pool].
  - intros k1 k2 j [[_ E]|[N1 E1]]%insert_owns [[_ E']|[N2 E2]]%insert_owns; try done. by eapply (one_owner _ I).
  - intros k' j [[_ E]|[N E]]%insert_owns; [done|]. intros [->|Hj]%elem_of_cons; [by apply N, (one_owner _ I k' k i)|].
    by eapply (not_pooled _ I).
  - apply NoDup_cons. split; [by apply (not_pooled _ I k)|apply (pool_once _ I)].
  - intros k' j [[_ E]|[N E]]%insert_owns; [done|]. by apply (owned_good _ I k').
  - intros j [->|Hj]%elem_of_cons; [by apply (owned_good _ I k)|by apply (pool_good _ I)].
Qed.
Lemma inv_nobody h m k : inv (mkSS h m) → (∀ i, ¬ owns (mkSS h m) k i) → inv (mkSS h (<[k := mkWS None]> m)).
Proof.
  intros I Hk. split; cbn [s_heap].
  - intros k1 k2 j [[_ E]|[N1 E1]]%insert_owns [[_ E']|[N2 E2]]%insert_owns; try done. by eapply (one_owner _ I).
  - intros k' j [[_ E]|[N E]]%insert_owns; [done|]. by eapply (not_pooled _ I).
  - apply (pool_once _ I).
  - intros k' j [[_ E]|[N E]]%insert_owns; [done|]. by apply (owned_good _ I k').
  - intros j Hj. by apply (pool_good _ I).
Qed.
(** The words of a buffer change, not their number. *)
Lemma inv_words h m i f :
  (∀ l, zlen (f l) = zlen l) → inv (mkSS h m) → inv (mkSS (mkHeap (alter f i (h_bufs h)) (h_pool h) (h_next h)) m).
Proof.
  intros Hf I. assert (Hg : ∀ j, good_buffer h j → good_buffer (mkHeap (alter f i (h_bufs h)) (h_pool h) (h_next h)) j).
  { intros j (Hn & l & Hj & Hl). split; [done|]. cbn [h_bufs]. destruct (decide (i = j)) as [->|Hne].
    - exists (f l). rewrite lookup_alter_eq, Hj, Hf. done.
    - exists l. by rewrite lookup_alter_ne. }
  split; cbn [s_heap h_pool].
  - apply (one_owner _ I).
  - apply (not_pooled _ I).
  - apply (pool_once _ I).
  - intros k j Ho. apply Hg, (owned_good _ I k j Ho).
  - intros j Hj. apply Hg, (pool_good _ I j Hj).
Qed.
Lemma fill_length (ws old : list Z) : zlen (ztake (zlen old) (ws ++ zdrop (zlen ws) old)) = zlen old.
Proof. unfold ztake, zdrop, zlen. rewrite length_take, length_app, length_drop. lia. Qed.

Lemma fresh_unowned h m : inv (mkSS h m) → (∀ k, ¬ owns (mkSS h m) k (h_next h)) ∧ (h_next h ∉ h_pool h).
Proof.
  intros I. split; [intros k Ho%(owned_good _ I)|intros Ho%(pool_good _ I)]; destruct Ho as [Hn _]; cbn in Hn; lia.
Qed.

Lemma newBuffer_spec pick h :
  (∃ n i, h_pool h !! n = Some i ∧ newBuffer pick h = (i, mkHeap (h_bufs h) (delete n (h_pool h)) (h_next h))) ∨
  newBuffer pick h = make_buffer MinWStringCap h.
Proof.
  unfold newBuffer. destruct pick as [n|]; cbn [mbind option_bind]; [|by right].
  destruct (h_pool h !! n) as [i|] eqn:E; cbn [fmap option_fmap option_map]; [left; by exists n, i|by right].
Qed.
Lemma inv_take pick h m k :
  inv (mkSS h m) → m !! k = None →
  inv (let '(b, h') := NewWString pick h in mkSS h' (<[k := b]> m)).
Proof.
  intros I Hk. assert (Hno : ∀ j, ¬ owns (mkSS h m) k j) by (unfold owns; cbn; congruence).
  unfold NewWString. destruct (newBuffer_spec pick h) as [(n & i & Hi & E)|E]; rewrite E.
  - pose proof (list_elem_of_lookup_2 _ _ _ Hi) as Hin. pose proof (delete_Permutation _ _ _ Hi) as Hp.
    pose proof (pool_once _ I) as Hnd. cbn [s_heap] in Hnd. rewrite Hp in Hnd. apply NoDup_cons in Hnd as [Hni Hnd].
    eapply (inv_move h m k i _ None I); cbn [h_pool]; try done.
    + intros k' Ho. by apply (not_pooled _ I _ _ Ho).
    + intros j Hj. left. rewrite Hp. by apply elem_of_cons; right.
    + by apply (pool_good _ I).
    + intros j Hj. by apply Hno in Hj.
  - destruct (fresh_unowned h m I) as [Hf1 Hf2]. unfold make_buffer.
    eapply (inv_move h m k (h_next h) _ None I); cbn [h_pool]; try done.
    + apply (pool_once _ I).
    + intros j Hj. by left.
    + intros j Hj. by apply good_buffer_insert.
    + by apply good_buffer_new.
    + intros j Hj. by apply Hno in Hj.
Qed.

Lemma inv_resize c h m k b :
  inv (mkSS h m) → m !! k = Some b → 0 ≤ c < 4294967296 →
  inv (let '(_, b', h') := ResizeTo c b h in mkSS h' (<[k := b']> m)).
Proof.
  intros I Hk Hc. destruct (fresh_unowned h m I) as [Hf1 Hf2]. destruct b as [[i|]].
  - destruct (owned_good _ I k i Hk) as (Hn & l & Hi & Hl). cbn [s_heap] in *. rewrite (ResizeTo_spec c i h l) by done.
    destruct (Z.leb_spec c (zlen l)); [by rewrite insert_id|].
    destruct (grown_cap c (zlen l)) as (_ & Hb & Hm); [unfold MinWStringCap in *; lia..|].
    assert (Hlen : zlen (l ++ replicate (Z.to_nat (new_cap c (zlen l) - zlen l)) 0) = new_cap c (zlen l))
      by (unfold zlen in *; rewrite length_app, length_replicate; lia).
    eapply (inv_move h m k (h_next h) _ (Some i) I); cbn [h_pool]; try done.
    + intros [E|]%elem_of_cons; [lia|done].
    + apply NoDup_cons. split; [by apply (not_pooled _ I k)|apply (pool_once _ I)].
    + intros j [->|Hj]%elem_of_cons; auto.
    + by intros j [= <-].
    + intros j Hj. apply good_buffer_insert; [done|lia].
    + apply good_buffer_new. lia.
    + unfold owns. cbn. congruence.
  - rewrite ResizeTo_freed by done. destruct (Z.leb_spec c 0); [by rewrite insert_id|].
    assert (Hlen : zlen (replicate (Z.to_nat (Z.max c MinWStringCap)) 0) = Z.max c MinWStringCap)
      by (unfold zlen; rewrite length_replicate; lia).
    unfold make_buffer. cbn [snd]. eapply (inv_move h m k (h_next h) _ None I); cbn [h_pool]; try done.
    + apply (pool_once _ I).
    + intros j Hj. by left.
    + intros j Hj. apply good_buffer_insert; [done|unfold MinWStringCap in *; lia].
    + apply good_buffer_new. unfold MinWStringCap in *. lia.
    + unfold owns. cbn. congruence.
Qed.
Lemma empty_good i h : good_buffer h i → empty (mkWS (Some i)) h = false.
Proof. intros (_ & l & Hi & Hl). eapply empty_owned; [done|unfold MinWStringCap in *; lia]. Qed.

Lemma reach_inv s : reach s → inv s.
Proof.
  induction 1 as [|o [h m] s' _ I Hrun]; [by split; try done; intros; (by apply elem_of_nil in H) || constructor|].
  destruct o as [k pick|k|k c|k ws]; cbn [wrun s_heap s_live] in Hrun.
  - destruct (m !! k) eqn:Hk; [done|]. pose proof (inv_take pick h m k I Hk) as I'.
    destruct (NewWString pick h) as [b h']. by injection Hrun as <-.
  - destruct (m !! k) as [[[i|]]|] eqn:Hk; cbn in Hrun; [| |done].
    + unfold Free in Hrun. rewrite empty_good in Hrun by by apply (owned_good _ I k). injection Hrun as <-. by apply inv_drop.
    + injection Hrun as <-. apply inv_nobody; [done|]. unfold owns. cbn. congruence.
  - destruct (m !! k) as [b|] eqn:Hk; cbn in Hrun; [|done]. case_decide as Hc; [|done].
    pose proof (inv_resize c h m k b I Hk Hc) as I'. destruct (ResizeTo c b h) as [[n b'] h']. by injection Hrun as <-.
  - destruct (m !! k) as [b|] eqn:Hk; cbn in Hrun; [|done]. injection Hrun as <-. unfold fill.
    destruct (Pointer b h); [|done]. apply inv_words; [|done]. intros l. apply fill_length.
Qed.

(** ** Strings do not share words *)
Definition all_words (s : strings) (k i : nat) (l : list Z) : Prop := owns s k i ∧ h_bufs (s_heap s) !! i = Some l.
Lemma contents_owned s k i l : all_words s k i l → contents s k = Some l.
Proof. intros [Ho Hi]. unfold contents. rewrite Ho. cbn [fmap option_fmap option_map]. by erewrite words_owned. Qed.
Lemma contents_other s s' k :
  inv s → s_live s' !! k = s_live s !! k →
  (∀ i, owns s k i → h_bufs (s_heap s') !! i = h_bufs (s_heap s) !! i) → contents s' k = contents s k.
Proof.
  intros I Hl Hi. unfold contents. rewrite Hl. destruct (s_live s !! k) as [[[i|]]|] eqn:E; [|done..].
  cbn [fmap option_fmap option_map]. unfold words. cbn [ws_b mbind option_bind]. by rewrite Hi.
Qed.

Lemma wrun_live o s s' k : wrun o s = Some s' → k ≠ op_string o → s_live s' !! k = s_live s !! k.
Proof.
  destruct s as [h m]. intros Hrun Hk. destruct o as [k' pick|k'|k' c|k' ws]; cbn [wrun s_heap s_live op_string] in *.
  - destruct (m !! k'); [done|]. destruct (NewWString pick h). injection Hrun as <-. by apply lookup_insert_ne.
  - destruct (m !! k') as [b|]; [|done]. cbn [mbind option_bind] in Hrun. destruct (Free b h). injection Hrun as <-. by apply lookup_insert_ne.
  - destruct (m !! k') as [b|]; [|done]. cbn [mbind option_bind] in Hrun. case_decide; [|done].
    destruct (ResizeTo c b h) as [[]]. injection Hrun as <-. by apply lookup_insert_ne.
  - destruct (m !! k'); [|done]. by injection Hrun as <-.
Qed.
(** The buffers an operation on one string writes are not those of another. *)
Lemma wrun_bufs o s s' k i :
  inv s → wrun o s = Some s' → k ≠ op_string o → owns s k i →
  h_bufs (s_heap s') !! i = h_bufs (s_heap s) !! i.
Proof.
  destruct s as [h m]. intros I Hrun Hk Ho. pose proof (owned_good _ I k i Ho) as [Hn _].
  assert (Hne : i ≠ h_next h) by (cbn in Hn; lia).
  destruct o as [k' pick|k'|k' c|k' ws]; cbn [wrun s_heap s_live op_string] in *.
  - destruct (m !! k'); [done|]. unfold NewWString in Hrun.
    destruct (newBuffer_spec pick h) as [(n & j & _ & E)|E]; rewrite E in Hrun; unfold make_buffer in Hrun; injection Hrun as <-;
      cbn [s_heap h_bufs]; by rewrite ?lookup_insert_ne by congruence.
  - destruct (m !! k') as [b|]; [|done]. cbn [mbind option_bind] in Hrun. unfold Free in Hrun.
    destruct (empty b h); [|destruct (ws_b b)]; by injection Hrun as <-.
  - destruct (m !! k') as [[[j|]]|] eqn:Ej; [| |done]; cbn [mbind option_bind] in Hrun; (case_decide; [|done]).
    + destruct (owned_good _ I k' j Ej) as (Hj & l & Hl & Hb). rewrite (ResizeTo_spec c j h l) in Hrun by done.
      destruct (c <=? zlen l); injection Hrun as <-; cbn [s_heap h_bufs]; by rewrite ?lookup_insert_ne by done.
    + rewrite ResizeTo_freed in Hrun by done. unfold make_buffer in Hrun.
      destruct (c <=? 0); injection Hrun as <-; cbn [s_heap h_bufs snd]; by rewrite ?lookup_insert_ne by done.
  - destruct (m !! k') as [b|] eqn:Eb; [|done]. cbn [mbind option_bind] in Hrun. injection Hrun as <-. unfold fill, Pointer.
    destruct (empty b h); [done|]. destruct b as [[j|]]; [|done]. cbn [s_heap h_bufs ws_b].
    rewrite lookup_alter_ne; [done|]. intros ->. by apply Hk, (one_owner _ I k k' i).
Qed.

(** What each operation does to its own string. *)
Definition effect (o : wop) (s s' : strings) : Prop :=
  match o with
  | FillOp k ws => ∀ l i, all_words s k i l → contents s' k = Some (ztake (zlen l) (ws ++ zdrop (zlen ws) l))
  | ResizeOp k c => ∀ l i, all_words s k i l → ∃ more, contents s' k = Some (l ++ more) ∧ c ≤ zlen (l ++ more) ∧
      (more ≠ [] → 2 * zlen l < 4294967296 → 2 * zlen l ≤ zlen (l ++ more))
  | FreeOp k => contents s' k = Some []
  | NewOp k _ => ∃ i, owns s' k i
  end.
Lemma wrun_effect o s s' : inv s → wrun o s = Some s' → effect o s s'.
Proof.
  destruct s as [h m]. intros I Hrun. destruct o as [k pick|k|k c|k ws]; cbn [wrun s_heap s_live effect] in *.
  - destruct (m !! k); [done|]. unfold NewWString in Hrun. destruct (newBuffer pick h) as [i h'].
    injection Hrun as <-. exists i. apply lookup_insert_eq.
  - destruct (m !! k) as [[[i|]]|] eqn:Hk; cbn in Hrun; [| |done].
    + unfold Free in Hrun. rewrite empty_good in Hrun by by apply (owned_good _ I k). injection Hrun as <-.
      unfold contents. cbn [s_live]. by rewrite lookup_insert_eq.
    + injection Hrun as <-. unfold contents. cbn [s_live]. by rewrite lookup_insert_eq.
  - intros l i [Hk Hi]. cbn [s_heap] in Hi. destruct (owned_good _ I k i Hk) as (Hn & l' & Hi' & Hl). cbn [s_heap] in *.
    assert (l' = l) as -> by congruence. unfold owns in Hk. cbn [s_live] in Hk. rewrite Hk in Hrun. cbn [mbind option_bind] in Hrun.
    case_decide as Hc; [|done]. rewrite (ResizeTo_spec c i h l) in Hrun by done. destruct (Z.leb_spec c (zlen l)).
    + injection Hrun as <-. exists []. rewrite app_nil_r. split_and!; [|done..]. apply (contents_owned _ _ i). by split; [apply lookup_insert_eq|].
    + injection Hrun as <-. eexists. split_and!; [apply (contents_owned _ _ (h_next h)); split; [apply lookup_insert_eq|apply lookup_insert_eq]|..].
      all: destruct (grown_cap c (zlen l)) as (_ & Hb & Hm); [unfold MinWStringCap in *; lia..|].
      all: unfold zlen in *; rewrite length_app, length_replicate.
      * lia.
      * intros _ H2. unfold new_cap in *. rewrite (proj2 (Z.ltb_lt _ _) H2) in *. lia.
  - intros l i [Hk Hi]. cbn [s_heap] in Hi. destruct (owned_good _ I k i Hk) as (Hn & l' & Hi' & Hl). cbn [s_heap] in *.
    assert (l' = l) as -> by congruence. unfold owns in Hk. cbn [s_live] in Hk. rewrite Hk in Hrun. cbn [mbind option_bind] in Hrun.
    injection Hrun as <-. apply (contents_owned _ _ i). split; [done|]. unfold fill, Pointer. cbn [s_heap].
    rewrite empty_good by (by split; [|exists l]). cbn [ws_b h_bufs]. by rewrite lookup_alter_eq, Hi.
Qed.

(** C27: the strings of a program never share a buffer, however the pool hands
    buffers out: an operation on one string leaves the words of every other as
    they were, and a string that is live has room for at least 310 words.
    Filling a buffer writes the words that fit; [ResizeTo] keeps the words there were,
    has the room it was asked for, and at least doubles it while that can be
    counted in 32 bits. *)
Theorem WString_isolation o s s' :
  reach s → wrun o s = Some s' →
  (∀ k, k ≠ op_string o → contents s' k = contents s k) ∧
  (∀ k i, owns s' k i → ∃ l, all_words s' k i l ∧ Cap (mkWS (Some i)) (s_heap s') = zlen l ∧ MinWStringCap ≤ zlen l) ∧
  effect o s s'.
Proof.
  intros Hr Hrun. pose proof (reach_inv s Hr) as I. pose proof (reach_inv s' (reach_op _ _ _ Hr Hrun)) as I'. split_and!.
  - intros k Hk. apply contents_other; [done|by eapply wrun_live|]. intros i. by eapply wrun_bufs.
  - intros k i Ho. destruct (owned_good _ I' k i Ho) as (_ & l & Hl & Hb). exists l. split; [done|].
    rewrite (Cap_owned _ _ _ Hl); unfold MinWStringCap in *; lia.
  - by apply wrun_effect.
Qed.

(** *** Witness: two strings, one of which grew out of a buffer the other then took *)
Definition wruns (l : list wop) (s : strings) : strings := foldl (λ s o, default s (wrun o s)) s l.
Lemma reach_wruns l s : reach s → reach (wruns l s).
Proof.
  unfold wruns. revert s. induction l as [|o l IH]; intros s Hs; [done|]. cbn [foldl]. apply IH.
  destruct (wrun o s) as [s'|] eqn:E; [by eapply reach_op|done].
Qed.
Definition strings_example : strings :=
  wruns [NewOp 0 None; FillOp 0 [104; 105; 0]; ResizeOp 0 400; NewOp 1 (Some 0%nat); FreeOp 0; NewOp 2 None] no_strings.
Lemma WString_isolation_witness :
  contents (default no_strings (wrun (FillOp 2 [97; 98; 0]) strings_example)) 1 = contents strings_example 1 ∧
  (ztake 2 <$> contents strings_example 1) = Some [104; 105].
Proof.
  split; [|by vm_compute].
  refine (proj1 (WString_isolation (FillOp 2 [97; 98; 0]) strings_example _ (reach_wruns _ _ reach_none) _) 1%nat _); [|done].
  by vm_compute.
Defined.
