(* ===== verification/Paths.v ===== *)
(** * Resolving paths ([internal/fs], [pkg/fs])

    [GetFinalPathNameByHandle] with a pooled buffer, and [ResolvePath], which
    asks for the name of a file in several ways.  The system is an interface
    with the handles of [Handles]. *)
From S2P Require Import Prelude FsFlags GoStrings Unicode Handles WString.

Definition FILE_SHARE_ALL : Z := Z.lor (Z.lor 1 2) 4.
Definition ERROR_PATH_NOT_FOUND : error := Errno 3.
Definition ERROR_ACCESS_DENIED : error := Errno 5.

(** ** The calls

    [FinalPathName h cap flags] returns a count and the words it wrote. *)
Class PathApi (E : Type) : Type := {
  OpenPath : list Z → Z → Z → Z → Z → St E Z;
  FinalPathName : Z → Z → Z → St E (Z * list Z) }.

(** The name of a handle is text, or there is an error, and asking does not change it; a buffer
    without room for the name and its NUL is not written, and the count is what is needed.
    [queries] are the handles and flags of all calls so far. *)
Class PathApiSpec (E : Type) `{FileApiSpec E} `{PathApi E} : Type := {
  final_path : E → Z → Z → error + list Z;
  final_path_text e h fl s : final_path e h fl = inr s → valid_utf8 s ∧ (0 ∉ s) ∧ zlen (to_utf16 s) < 4294967295;
  queries : E → list (Z * Z);
  FinalPathName_spec h cap fl e :
    let '(r, e') := FinalPathName h cap fl e in
    r = match final_path e h fl with
        | inl err => Fail err
        | inr s => Ret (if zlen (to_utf16 s) <? cap then (zlen (to_utf16 s), to_utf16 s ++ [0]) else (zlen (to_utf16 s) + 1, []))
        end ∧
    queries e' = queries e ++ [(h, fl)] ∧ files e' = files e ∧ ∀ h' fl', final_path e' h' fl' = final_path e h' fl';
  OpenPath_spec p a s d f e :
    match OpenPath p a s d f e with
    | (Ret h, e') => (h ∉ files e) ∧ files e' = {[h]} ∪ files e
    | (Fail _, e') => files e' = files e
    | _ => False
    end }.

(** [defer windows.CloseHandle(h)] *)
Definition with_handle {E A} `{FileApi E} (h : Z) (m : St E A) : St E A := λ e, let '(r, e) := m e in (r, CloseHandle h e).

Section Paths.
Context {E : Type} `{FileApi E} `{PathApi E}.

(** The pool of strings is part of the state. *)
Definition pstate : Type := heap * E.
Definition on_path {A} (m : St E A) : St pstate A := λ s, let '(r, e) := m (snd s) in (r, (fst s, e)).

Fixpoint final_loop (fuel : nat) (h flags : Z) (b : WString) : St pstate (list Z) := λ '((hp, e) : pstate),
  match fuel with
  | O => (NoFuel, (hp, e))
  | S fuel =>
      match FinalPathName h (Cap b hp) flags e with
      | (Ret (n, ws), e) =>
          let hp := fill ws b hp in
          if Cap b hp <? n then let '(_, b, hp) := ResizeTo n b hp in final_loop fuel h flags b (hp, e)
          else (Ret (WString_String b hp), (hp, e))
      | (Fail err, e) => (Fail err, (hp, e))
      | (Panic w, e) => (Panic w, (hp, e))
      | (NoFuel, e) => (NoFuel, (hp, e))
      end
  end.
Definition GetFinalPathNameByHandle (fuel : nat) (pick : option nat) (h flags : Z) : St pstate (list Z) := λ s,
  let '(b, hp) := NewWString pick (fst s) in final_loop fuel h flags b (hp, snd s).

Definition openMetadata (path : list Z) : St E Z :=
  map_err (Wrapf "CreateFile" [] [path])
    (OpenPath path FILE_ANY_ACCESS FILE_SHARE_ALL OPEN_EXISTING FILE_FLAG_BACKUP_SEMANTICS).

Definition final_flags (normalize guid : bool) : Z :=
  Z.lor (Z.lor 0 (if normalize then FILE_NAME_NORMALIZED else FILE_NAME_OPENED))
        (if guid then VOLUME_NAME_GUID else VOLUME_NAME_DOS).
Fixpoint resolve_loop (i : nat) (picks : list (option nat)) (fuel : nat) (h : Z) (normalize guid : bool) (last : res (list Z)) :
    pstate → res (list Z) * pstate := λ s,
  match i with
  | O => (last, s)
  | S i =>
      let '(r, s) := GetFinalPathNameByHandle fuel (default None (head picks)) h (final_flags normalize guid) s in
      match r with
      | Fail err =>
          if guid && errors_is err ERROR_PATH_NOT_FOUND then resolve_loop i (tail picks) fuel h normalize false r s
          else if normalize && errors_is err ERROR_ACCESS_DENIED then resolve_loop i (tail picks) fuel h false guid r s
          else (r, s)
      | _ => (r, s)
      end
  end.
Definition unc_prefix : list Z := str "\\?\UNC\".
Definition strip_unc (p : list Z) : list Z :=
  if HasPrefix p unc_prefix then str "\\" ++ zdrop (zlen unc_prefix) p else p.
Definition ResolvePath (fuel : nat) (picks : list (option nat)) (path : list Z) : St pstate (list Z) := λ s,
  match on_path (openMetadata path) s with
  | (Ret h, s) =>
      let '(r, (hp, e)) := resolve_loop 4 picks fuel h true true (Ret []) s in
      (match r with Ret p => Ret (strip_unc p) | _ => r end, (hp, CloseHandle h e))
  | (Fail err, s) => (Fail err, s)
  | (Panic w, s) => (Panic w, s)
  | (NoFuel, s) => (NoFuel, s)
  end.
End Paths.

(** ** The specification: the first name the system gives

    The name with the volume's GUID; on a share the DOS name; where the parts
    of the path may not be read, the name it was opened with. *)
Definition first_name (q : bool → bool → error + list Z) : error + list Z :=
  let opened guid := q false guid in
  match q true true with
  | inl e =>
      if errors_is e ERROR_PATH_NOT_FOUND then
        match q true false with
        | inl e' => if errors_is e' ERROR_ACCESS_DENIED then opened false else inl e'
        | inr s => inr s
        end
      else if errors_is e ERROR_ACCESS_DENIED then
        match opened true with
        | inl e' => if errors_is e' ERROR_PATH_NOT_FOUND then opened false else inl e'
        | inr s => inr s
        end
      else inl e
  | inr s => inr s
  end.
(** The ways that are tried, in order: normalized or not, with the volume's GUID or not. *)
Definition tried (q : bool → bool → error + list Z) : list (bool * bool) :=
  (true, true) ::
  match q true true with
  | inl e =>
      if errors_is e ERROR_PATH_NOT_FOUND then
        (true, false) :: match q true false with
                         | inl e' => if errors_is e' ERROR_ACCESS_DENIED then [(false, false)] else []
                         | inr _ => []
                         end
      else if errors_is e ERROR_ACCESS_DENIED then
        (false, true) :: match q false true with
                         | inl e' => if errors_is e' ERROR_PATH_NOT_FOUND then [(false, false)] else []
                         | inr _ => []
                         end
      else []
  | inr _ => []
  end.
(** The flags of a way: FILE_NAME_OPENED is 8, VOLUME_NAME_GUID is 1. *)
Definition flags_of (x : bool * bool) : Z := (if fst x then 0 else 8) + (if snd x then 1 else 0).
(** The name is asked for once in each way, or twice when the first buffer is too small. *)
Inductive asked_once_or_twice (h : Z) : list (bool * bool) → list (Z * Z) → Prop :=
| asked_nil : asked_once_or_twice h [] []
| asked_way x n xs l : (1 ≤ n ≤ 2)%nat → asked_once_or_twice h xs l →
    asked_once_or_twice h (x :: xs) (replicate n (h, flags_of x) ++ l).
Definition of_sum {A} (x : error + A) : res A := match x with inl e => Fail e | inr a => Ret a end.

Section PathProofs.
Context {E : Type} `{PathApiSpec E}.
Implicit Types e : E.
Definition pool_ok (hp : heap) : Prop := ∀ i, i ∈ h_pool hp → good_buffer hp i.

Lemma pick_spec pick hp :
  pool_ok hp → ∃ i hp', NewWString pick hp = (mkWS (Some i), hp') ∧ good_buffer hp' i ∧ pool_ok hp'.
Proof.
  intros Hp. unfold NewWString. destruct (newBuffer_spec pick hp) as [(n & i & Hi & E0)|E0]; rewrite E0.
  - exists i, (mkHeap (h_bufs hp) (delete n (h_pool hp)) (h_next hp)). split; [done|]. split.
    + apply (Hp i). by eapply list_elem_of_lookup_2.
    + intros j Hj. apply (Hp j). rewrite (delete_Permutation _ _ _ Hi). by apply elem_of_cons; right.
  - unfold make_buffer. exists (h_next hp), (snd (make_buffer MinWStringCap hp)). split; [done|]. split.
    + by apply good_buffer_new.
    + intros j Hj. by apply good_buffer_insert; [apply Hp|].
Qed.
Lemma pool_ok_alter i f hp :
  (∀ l, zlen (f l) = zlen l) → ∀ j, good_buffer hp j → good_buffer (mkHeap (alter f i (h_bufs hp)) (h_pool hp) (h_next hp)) j.
Proof.
  intros Hf j (Hn & l & Hj & Hl). split; [done|]. cbn [h_bufs]. destruct (decide (i = j)) as [->|Hne].
  - exists (f l). by rewrite lookup_alter_eq, Hj, Hf.
  - exists l. by rewrite lookup_alter_ne.
Qed.
Lemma fill_good ws i hp :
  good_buffer hp i → pool_ok hp → pool_ok (fill ws (mkWS (Some i)) hp) ∧ good_buffer (fill ws (mkWS (Some i)) hp) i.
Proof.
  intros Hi Hp. unfold fill, Pointer. rewrite empty_good by done. cbn [ws_b].
  split; [intros j Hj; apply pool_ok_alter; [apply fill_length|by apply Hp]|apply pool_ok_alter; [apply fill_length|done]].
Qed.

(** A buffer with room for the name and its NUL gives the name. *)
Lemma String_filled i hp l s :
  h_bufs hp !! i = Some l → good_buffer hp i → valid_utf8 s → 0 ∉ s → zlen (to_utf16 s) < zlen l →
  WString_String (mkWS (Some i)) (fill (to_utf16 s ++ [0]) (mkWS (Some i)) hp) = s.
Proof.
  intros Hi Hg Hv Hn Hl. unfold fill, Pointer. rewrite empty_good by done. unfold WString_String. cbn [ws_b].
  erewrite words_owned by (cbn [h_bufs]; by rewrite lookup_alter_eq, Hi).
  set (w := to_utf16 s) in *. rewrite <- app_assoc. unfold ztake. rewrite take_app_ge by (unfold zlen in *; lia).
  replace (Z.to_nat (zlen l) - length w)%nat with (S (Z.to_nat (zlen l) - length w - 1)) by (unfold zlen in *; lia).
  cbn [app take]. by apply (utf16_to_string_nul (UTF16ToString := utf16_cstring)).
Qed.
Lemma Cap_good_buffer hp i l : good_buffer hp i → h_bufs hp !! i = Some l → Cap (mkWS (Some i)) hp = zlen l ∧ MinWStringCap ≤ zlen l < 4294967296.
Proof. intros (_ & l' & Hi & Hl) Hi'. assert (l' = l) as -> by congruence. split; [|done]. eapply Cap_owned; [done|lia]. Qed.

Lemma fill_Cap ws i hp : good_buffer hp i → Cap (mkWS (Some i)) (fill ws (mkWS (Some i)) hp) = Cap (mkWS (Some i)) hp.
Proof.
  intros Hg. pose proof Hg as (_ & l & Hi & Hl). rewrite (Cap_owned i hp l Hi) by lia. unfold fill, Pointer. rewrite empty_good by done.
  cbn [ws_b]. erewrite Cap_owned; [apply (fill_length ws l)|cbn [h_bufs]; by rewrite lookup_alter_eq, Hi|].
  cbv beta. rewrite fill_length. lia.
Qed.
(** After [l] was asked: nothing else changed. *)
Definition asked (l : list (Z * Z)) e e' : Prop :=
  queries e' = queries e ++ l ∧ files e' = files e ∧ ∀ h fl, final_path e' h fl = final_path e h fl.
Lemma asked_trans l1 l2 e1 e2 e3 : asked l1 e1 e2 → asked l2 e2 e3 → asked (l1 ++ l2) e1 e3.
Proof.
  intros (Q1 & F1 & P1) (Q2 & F2 & P2). split; [by rewrite Q2, Q1, <- app_assoc|]. split; [congruence|].
  intros h fl. by rewrite P2, P1.
Qed.
Lemma FinalPathName_eq h cap fl e : ∃ e', asked [(h, fl)] e e' ∧
  FinalPathName h cap fl e =
    (match final_path e h fl with
     | inl err => Fail err
     | inr s => Ret (if zlen (to_utf16 s) <? cap then (zlen (to_utf16 s), to_utf16 s ++ [0]) else (zlen (to_utf16 s) + 1, []))
     end, e').
Proof.
  pose proof (FinalPathName_spec h cap fl e) as Hs. destruct (FinalPathName h cap fl e) as [r e'].
  destruct Hs as (-> & Hq). by exists e'.
Qed.
Lemma final_loop_room fuel h fl i hp e l s :
  good_buffer hp i → pool_ok hp → h_bufs hp !! i = Some l → final_path e h fl = inr s → zlen (to_utf16 s) < zlen l →
  ∃ hp' e', pool_ok hp' ∧ asked [(h, fl)] e e' ∧ final_loop (S fuel) h fl (mkWS (Some i)) (hp, e) = (Ret s, (hp', e')).
Proof.
  intros Hg Hp Hi Hs Hl. destruct (Cap_good_buffer hp i l Hg Hi) as [Hc Hb]. cbn [final_loop]. rewrite Hc.
  destruct (FinalPathName_eq h (zlen l) fl e) as (e' & Ha & ->). rewrite Hs.
  destruct (final_path_text _ _ _ _ Hs) as (Hv & Hn & _). rewrite (proj2 (Z.ltb_lt _ _) Hl).
  destruct (fill_good (to_utf16 s ++ [0]) i hp Hg Hp) as [Hp' Hg'].
  rewrite fill_Cap, Hc by done. replace (zlen l <? zlen (to_utf16 s)) with false by lia.
  eexists _, e'. split; [exact Hp'|]. split; [done|]. by rewrite (String_filled i hp l s).
Qed.

(** A buffer that is too small is replaced by one with room for the name. *)
Lemma grown i hp l n :
  good_buffer hp i → pool_ok hp → h_bufs hp !! i = Some l → zlen l < n → n < 4294967296 →
  ∃ b j hp' l', ResizeTo n (mkWS (Some i)) (fill [] (mkWS (Some i)) hp) = (b, mkWS (Some j), hp') ∧
    good_buffer hp' j ∧ pool_ok hp' ∧ h_bufs hp' !! j = Some l' ∧ n ≤ zlen l'.
Proof.
  intros Hg Hp Hi Hn Ht. destruct (Cap_good_buffer hp i l Hg Hi) as [Hc Hb].
  set (hp1 := fill [] (mkWS (Some i)) hp).
  assert (E1 : hp1 = mkHeap (alter (λ old, ztake (zlen old) old) i (h_bufs hp)) (h_pool hp) (h_next hp)).
  { unfold hp1, fill, Pointer. by rewrite empty_good. }
  destruct (fill_good [] i hp Hg Hp) as [Hp1 Hg1]. fold hp1 in Hp1, Hg1.
  assert (Hi1 : h_bufs hp1 !! i = Some l).
  { rewrite E1. cbn [h_bufs]. rewrite lookup_alter_eq, Hi. cbn. f_equal. apply ztake_all. lia. }
  destruct Hg1 as (Hn1 & _). pose_lens. rewrite (ResizeTo_spec n i hp1 l) by (done || lia).
  replace (n <=? zlen l) with false by lia.
  destruct (grown_cap n (zlen l)) as (_ & Hb2 & Hm); [unfold MinWStringCap in *; lia..|].
  set (l2 := l ++ _). assert (Hl2 : zlen l2 = new_cap n (zlen l))
    by (unfold l2, zlen in *; rewrite length_app, length_replicate; lia).
  eexists _, _, _, l2. split; [reflexivity|]. split; [apply good_buffer_new; lia|]. split; [|split].
  - intros j [->|Hj]%elem_of_cons; apply good_buffer_insert; try lia; [|by apply Hp1].
    split; [done|]. by exists l.
  - cbn [h_bufs]. by rewrite lookup_insert_eq.
  - lia.
Qed.

(** Two rounds are enough: after the first the buffer has room for the name. *)
Lemma final_loop_spec fuel h fl i hp e :
  good_buffer hp i → pool_ok hp → (2 ≤ fuel)%nat →
  ∃ n hp' e', (1 ≤ n ≤ 2)%nat ∧ pool_ok hp' ∧ asked (replicate n (h, fl)) e e' ∧
    final_loop fuel h fl (mkWS (Some i)) (hp, e) = (of_sum (final_path e h fl), (hp', e')).
Proof.
  intros Hg Hp Hf. destruct fuel as [|[|fuel]]; [lia..|]. pose proof Hg as (Hn & l & Hi & _).
  destruct (Cap_good_buffer hp i l Hg Hi) as [Hc Hb].
  destruct (final_path e h fl) as [err|s] eqn:Hs.
  { cbn [final_loop]. destruct (FinalPathName_eq h (Cap (mkWS (Some i)) hp) fl e) as (e' & Ha & ->). rewrite Hs.
    exists 1%nat, hp, e'. split_and!; (done || lia). }
  destruct (Z.ltb_spec (zlen (to_utf16 s)) (zlen l)) as [Hl|Hl].
  { destruct (final_loop_room (S fuel) h fl i hp e l s) as (hp' & e' & Hp' & Ha & E1); try done.
    exists 1%nat, hp', e'. split_and!; (done || lia). }
  destruct (final_path_text _ _ _ _ Hs) as (_ & _ & Ht). remember (S fuel) as fuel1 eqn:Ef. cbn [final_loop]. rewrite Hc.
  destruct (FinalPathName_eq h (zlen l) fl e) as (e1 & Ha1 & ->). rewrite Hs.
  replace (zlen (to_utf16 s) <? zlen l) with false by lia. rewrite fill_Cap, Hc by done.
  replace (zlen l <? zlen (to_utf16 s) + 1) with true by lia.
  destruct (grown i hp l (zlen (to_utf16 s) + 1) Hg Hp Hi) as (b & j & hp1 & l' & -> & Hg1 & Hp1 & Hj & Hl'); [lia..|].
  subst fuel1. destruct (final_loop_room fuel h fl j hp1 e1 l' s) as (hp' & e' & Hp' & Ha & E1);
    [done|done|done|by rewrite (proj2 (proj2 Ha1))|lia|].
  exists 2%nat, hp', e'. split_and!; [lia..|done|by apply (asked_trans [_] [_] _ e1)|done].
Qed.
Lemma GetFinalPathNameByHandle_eq fuel pick h fl hp e :
  pool_ok hp → (2 ≤ fuel)%nat →
  ∃ n hp' e', (1 ≤ n ≤ 2)%nat ∧ pool_ok hp' ∧ asked (replicate n (h, fl)) e e' ∧
    GetFinalPathNameByHandle fuel pick h fl (hp, e) = (of_sum (final_path e h fl), (hp', e')).
Proof.
  intros Hp Hf. unfold GetFinalPathNameByHandle. cbn [fst snd].
  destruct (pick_spec pick hp Hp) as (i & hp1 & -> & Hg & Hp1). by apply final_loop_spec.
Qed.

(** The name of a handle in one of the ways. *)
Definition name_of e (h : Z) (normalize guid : bool) : error + list Z := final_path e h (flags_of (normalize, guid)).
Lemma final_flags_of normalize guid : final_flags normalize guid = flags_of (normalize, guid).
Proof. by destruct normalize, guid. Qed.

(** Asking in the ways [xs]. *)
Definition ways h xs e e' : Prop := ∃ l, asked_once_or_twice h xs l ∧ asked l e e'.
Lemma ways_name e e' h xs : ways h xs e e' → ∀ n g, name_of e' h n g = name_of e h n g.
Proof. intros (l & _ & _ & _ & Hp) n g. apply Hp. Qed.
Lemma ways_nil h e : ways h [] e e.
Proof. exists []. split; [constructor|]. split; [by rewrite app_nil_r|done]. Qed.
Lemma ways_cons h x n xs e e1 e2 :
  (1 ≤ n ≤ 2)%nat → asked (replicate n (h, flags_of x)) e e1 → ways h xs e1 e2 → ways h (x :: xs) e e2.
Proof.
  intros Hn Ha (l & Hl & Ha'). exists (replicate n (h, flags_of x) ++ l). split; [by constructor|].
  by eapply asked_trans.
Qed.
Lemma query fuel pick h nz g hp e :
  pool_ok hp → (2 ≤ fuel)%nat →
  ∃ hp' e', pool_ok hp' ∧ (∀ xs e2, ways h xs e' e2 → ways h ((nz, g) :: xs) e e2) ∧ (∀ n g, name_of e' h n g = name_of e h n g) ∧
    GetFinalPathNameByHandle fuel pick h (final_flags nz g) (hp, e) = (of_sum (name_of e h nz g), (hp', e')).
Proof.
  intros Hp Hf. rewrite final_flags_of.
  destruct (GetFinalPathNameByHandle_eq fuel pick h (flags_of (nz, g)) hp e Hp Hf) as (n & hp' & e' & Hn & Hp' & Ha & ->).
  exists hp', e'. split; [done|]. split; [intros xs e2; by apply (ways_cons h (nz, g) n)|]. split; [|done].
  intros n' g'. apply Ha.
Qed.
Lemma resolve_loop_eq fuel picks h hp e :
  pool_ok hp → (2 ≤ fuel)%nat →
  ∃ hp' e', pool_ok hp' ∧ ways h (tried (name_of e h)) e e' ∧
    resolve_loop 4 picks fuel h true true (Ret []) (hp, e) = (of_sum (first_name (name_of e h)), (hp', e')).
Proof.
  intros Hp Hf. unfold first_name, tried. cbn [resolve_loop].
  edestruct (query fuel (default None (head picks)) h true true hp e) as (hp1 & e1 & Hp1 & W1 & N1 & ->); [done..|].
  destruct (name_of e h true true) as [x1|s1]; cbn [of_sum andb]; [|by eauto 7 using ways_nil].
  destruct (errors_is x1 ERROR_PATH_NOT_FOUND); [|destruct (errors_is x1 ERROR_ACCESS_DENIED); [|by eauto 7 using ways_nil]].
  1: edestruct (query fuel (default None (head (tail picks))) h true false hp1 e1) as (hp2 & e2 & Hp2 & W2 & N2 & ->); [done..|]; rewrite N1;
    destruct (name_of e h true false) as [x2|s2]; cbn [of_sum andb]; [|by eauto 8 using ways_nil];
    destruct (errors_is x2 ERROR_ACCESS_DENIED); [|by eauto 8 using ways_nil].
  2: edestruct (query fuel (default None (head (tail picks))) h false true hp1 e1) as (hp2 & e2 & Hp2 & W2 & N2 & ->); [done..|]; rewrite N1;
    destruct (name_of e h false true) as [x2|s2]; cbn [of_sum andb]; [|by eauto 8 using ways_nil];
    destruct (errors_is x2 ERROR_PATH_NOT_FOUND); [|by eauto 8 using ways_nil].
  all: edestruct (query fuel (default None (head (tail (tail picks)))) h false false hp2 e2) as (hp3 & e3 & Hp3 & W3 & N3 & ->); [done..|]; rewrite N2, N1;
    destruct (name_of e h false false) as [x3|s3]; cbn [of_sum andb]; by eauto 9 using ways_nil.
Qed.
Lemma tried_length q : (length (tried q) ≤ 3)%nat.
Proof. unfold tried. repeat case_match; simpl; lia. Qed.
End PathProofs.

(** C24: [ResolvePath] opens the path, asks for the name of the file in at most three ways, each
    by one call of the system or by two when the first buffer is too small, in the order of [tried], and
    closes the handle again, also when it fails.  It ends with the first name in the
    order of [first_name], the prefix of a share stripped, whatever buffers the
    pool hands out and however long the name is.  (The names do not change meanwhile; a name that
    keeps growing is the case the code leaves open.) *)
Theorem ResolvePath_spec {E : Type} `{PathApiSpec E} fuel picks path hp (e : E) :
  pool_ok hp → (2 ≤ fuel)%nat →
  match openMetadata path e with
  | (Ret h, e1) => ∃ hp' e2 l, pool_ok hp' ∧
      ResolvePath fuel picks path (hp, e) =
        (match first_name (name_of e1 h) with inr s => Ret (strip_unc s) | inl err => Fail err end, (hp', CloseHandle h e2)) ∧
      queries e2 = queries e1 ++ l ∧ asked_once_or_twice h (tried (name_of e1 h)) l ∧
      (length (tried (name_of e1 h)) ≤ 3)%nat ∧ files (CloseHandle h e2) = files e
  | (Fail err, e1) => ResolvePath fuel picks path (hp, e) = (Fail err, (hp, e1)) ∧ files e1 = files e
  | _ => False
  end.
Proof.
  intros Hp Hf. unfold ResolvePath, on_path, openMetadata, map_err. cbn [fst snd].
  pose proof (OpenPath_spec path FILE_ANY_ACCESS FILE_SHARE_ALL OPEN_EXISTING FILE_FLAG_BACKUP_SEMANTICS e) as Ho.
  destruct (OpenPath _ _ _ _ _ e) as [[h|err| |] e1]; try done. destruct Ho as [Hn He].
  destruct (resolve_loop_eq fuel picks h hp e1 Hp Hf) as (hp' & e2 & Hp' & (l & Hl & Hq & Hfi & _) & ->).
  exists hp', e2, l. split; [done|]. split; [by destruct (first_name (name_of e1 h))|].
  split; [done|]. split; [done|]. split; [apply tried_length|].
  rewrite CloseHandle_files, Hfi, He. clear -Hn. apply set_eq. set_unfold. naive_solver.
Qed.

(** *** Witness: a disk and a share *)
Record disk := mkDisk { d_files : gmap Z (list Z); d_queries : list (Z * Z) }.
Definition disk_name (p : list Z) (fl : Z) : error + list Z :=
  if bool_decide (p = str "\\srv\x") then
    if fl =? 1 then inl ERROR_PATH_NOT_FOUND else if fl =? 0 then inl ERROR_ACCESS_DENIED else inr (str "\\?\UNC\srv\x")
  else if bool_decide (p = str "C:\x") then
    if fl =? 1 then inr (str "\\?\Volume{1}\x") else inr (str "\\?\C:\x")
  else if bool_decide (p = str "\\.\GLOBALROOT\Device\Vol1\a") then
    if fl =? 0 then inl (Errno 3) else inr (str "\\?\Volume{1}\a")
  else inl (Errno 2).
#[export] Instance disk_FileApi : FileApi disk := {|
  createIoCompletionPort h p e := (Ret 1, e);
  setFileCompletionNotificationModes h m e := (Ret (), e);
  CloseHandle h e := mkDisk (delete h (d_files e)) (d_queries e) |}.
#[export, program] Instance disk_FileApiSpec : FileApiSpec disk := {| files e := dom (d_files e) |}.
Next Obligation. done. Qed.
Next Obligation. done. Qed.
Next Obligation. intros h e. cbn. apply dom_delete_L. Qed.
#[export] Instance disk_PathApi : PathApi disk := {|
  OpenPath p a s d f e :=
    let h := fresh (dom (d_files e) : gset Z) in (Ret h, mkDisk (<[h := p]> (d_files e)) (d_queries e));
  FinalPathName h cap fl e :=
    (match disk_name (default [] (d_files e !! h)) fl with
     | inl err => Fail err
     | inr s => Ret (if zlen (to_utf16 s) <? cap then (zlen (to_utf16 s), to_utf16 s ++ [0]) else (zlen (to_utf16 s) + 1, []))
     end, mkDisk (d_files e) (d_queries e ++ [(h, fl)])) |}.
#[export, program] Instance disk_PathApiSpec : PathApiSpec disk := {|
  final_path e h fl := disk_name (default [] (d_files e !! h)) fl; queries := d_queries |}.
Next Obligation.
  intros e h fl s. unfold disk_name. repeat case_match; intros [= <-]; (split; [apply ascii_valid_utf8; decide_now|split; [decide_now|by vm_compute]]).
Qed.
Next Obligation. done. Qed.
Next Obligation. intros p a s d f e. set (m := d_files e).
  exact (conj (is_fresh (dom m : gset Z)) (dom_insert_L (M := gmap Z) (D := gset Z) m (fresh (dom m : gset Z)) p)).
Qed.

Definition no_heap : heap := mkHeap ∅ [] 0.
Lemma ResolvePath_spec_witness :
  ∃ hp' e', ResolvePath 2 [] (str "\\srv\x") (no_heap, mkDisk ∅ []) = (Ret (str "\\srv\x"), (hp', e')) ∧
    d_files e' = ∅ ∧ snd <$> d_queries e' = [1; 0; 8].
Proof.
  pose proof (ResolvePath_spec 2 [] (str "\\srv\x") no_heap (mkDisk ∅ [])) as Hr.
  destruct Hr as (hp' & e2 & l & _ & E & _); [by intros i Hi%elem_of_nil|lia|].
  eexists hp', _. split; [etransitivity; [exact E|by vm_compute]|]. split.
  - etransitivity; [symmetry; exact (f_equal (λ x, d_files (snd (snd x))) E)|by vm_compute].
  - etransitivity; [symmetry; exact (f_equal (λ x, snd <$> d_queries (snd (snd x))) E)|by vm_compute].
Defined.
