(* ===== verification/BindFilter.v ===== *)
(** * Bind mappings ([pkg/bindfilter])

    The response of [BfGetMappings] is parsed with offsets the system provides;
    every path in it is resolved to its final name. *)
From S2P Require Import Prelude FsFlags GoStrings Unicode Handles WString Paths.

Definition BINDFLT_FLAG_READ_ONLY_MAPPING : Z := 1.
Definition BINDFLT_FLAG_NO_MULTIPLE_TARGETS : Z := 64.
Definition BINDFLT_GET_MAPPINGS_FLAG_VOLUME : Z := 1.
Definition BINDFLT_GET_MAPPINGS_FLAG_SILO : Z := 2.
Definition BINDFLT_GET_MAPPINGS_FLAG_USER : Z := 4.

(** ** Slices with their capacity

    Go bounds [b[i:j]] by the capacity of [b], not by its length. *)
Record byte_slice := mkSlice { sl_arr : list Z; sl_len : Z }.
Definition reslice (b : byte_slice) (i j : Z) : res byte_slice :=
  if decide (0 ≤ i ≤ j ∧ j ≤ zlen (sl_arr b)) then Ret (mkSlice (zdrop i (sl_arr b)) (j - i)) else Panic "slice bounds out of range".
Definition sl_bytes (b : byte_slice) : list Z := ztake (sl_len b) (sl_arr b).

Record mappingEntry := mkME {
  VirtRootLength : Z; VirtRootOffset : Z; me_Flags : Z; NumberOfTargets : Z; TargetEntriesOffset : Z }.
Record mappingTargetEntry := mkMT { TargetRootLength : Z; TargetRootOffset : Z }.
Record getMappingsResponseHeader := mkGM { gm_Size : Z; gm_Status : Z; MappingCount : Z }.
Record BindMapping := mkBM { MountPoint : list Z; bm_Flags : Z; Targets : list (list Z) }.

(** The [n]th 32-bit field of a structure. *)
Definition field32 (b : list Z) (n : Z) : Z := le_val (ztake 4 (zdrop (4 * n) b)).
Definition mapping_entry (b : list Z) : mappingEntry :=
  mkME (field32 b 0) (field32 b 1) (field32 b 2) (field32 b 3) (field32 b 4).
Definition target_entry (b : list Z) : mappingTargetEntry := mkMT (field32 b 0) (field32 b 1).
Definition response_header (b : list Z) : getMappingsResponseHeader := mkGM (field32 b 0) (field32 b 1) (field32 b 2).

(** [errors.Is(err, os.ErrNotExist)] *)
Fixpoint is_not_exist (e : error) : bool :=
  match e with
  | Errno n => bool_decide (n ∈ [2; 3; 53])
  | Wrapf _ _ _ e => is_not_exist e
  | _ => false
  end.

(** ** The calls; [bfGetMappings] returns the size and the whole buffer. *)
Class BindApi (E : Type) : Type := {
  MkdirAllDir : list Z → St E unit;     (** [os.MkdirAll(filepath.Dir(root), 0)] *)
  bfSetupFilter : Z → Z → list Z → list Z → St E unit;
  bfRemoveMapping : Z → list Z → St E unit;
  bfGetMappings : Z → list Z → Z → St E (Z * list Z) }.

Section BindFilter.
Context {E : Type} `{FileApi E} `{PathApi E} `{BindApi E}.
Context (UTF16ToString : list Z → list Z).

Definition volume_source (source : list Z) : list Z :=
  if Contains source (str "Volume{") && negb (HasSuffix source (str "\")) then source ++ str "\" else source.
Definition ApplyFileBinding (root source : list Z) (readOnly : bool) : St E unit :=
  _ ← MkdirAllDir root;
  let source := volume_source source in
  let flags := BINDFLT_FLAG_NO_MULTIPLE_TARGETS in
  let flags := if readOnly then Z.lor flags BINDFLT_FLAG_READ_ONLY_MAPPING else flags in
  map_err (Wrapf "failed to bind target %q to root %q: %w" [] [source; root]) (bfSetupFilter 0 flags root source).
Definition RemoveFileBinding (root : list Z) : St E unit :=
  map_err (Wrapf "removing file binding: %w" [] []) (bfRemoveMapping 0 root).

Definition openPath (path : list Z) : St E Z :=
  if bool_decide (0 ∈ path) then fail EINVAL
  else map_err (Wrapf "CreateFile" [] [path]) (OpenPath path 0 FILE_SHARE_ALL OPEN_EXISTING FILE_FLAG_BACKUP_SEMANTICS).

(** The loop over [GetFinalPathNameByHandle], with its buffer. *)
Fixpoint path_loop (fuel : nat) (han : Z) (buf : list Z) (flags : Z) : St E (list Z * Z) := λ e,
  match fuel with
  | O => (NoFuel, e)
  | S fuel =>
      match FinalPathName han (zlen buf) flags e with
      | (Fail err, e) =>
          if is_not_exist err && negb (flags =? 1) then path_loop fuel han buf 1 e
          else (Fail (Wrapf "getting final path name: %w" [] [] err), e)
      | (Ret (n, ws), e) =>
          let buf := ztake (zlen buf) (ws ++ zdrop (zlen ws) buf) in
          if n <? zlen buf then (Ret (buf, flags), e) else path_loop fuel han (replicate (Z.to_nat n) 0) flags e
      | (Panic w, e) => (Panic w, e)
      | (NoFuel, e) => (NoFuel, e)
      end
  end.
Definition strip_final (flags : Z) (p : list Z) : list Z :=
  if (4 <? zlen p) && HasPrefix p (str "\\?\") && (flags =? 0) then
    let p := zdrop 4 p in
    if (3 <? zlen p) && HasPrefix p (str "UNC") then str "\" ++ zdrop 3 p else p
  else p.
Definition device_path (p : list Z) : list Z :=
  if HasPrefix p (str "\Device") then str "\\.\GLOBALROOT" ++ p else p.
Definition getFinalPath (fuel : nat) (pth : list Z) : St E (list Z) :=
  han ← map_err (Wrapf "fetching file handle: %w" [] []) (openPath (device_path pth));
  with_handle han (
    '((buf, flags) : list Z * Z) ← path_loop fuel han (replicate 100 0) 0;
    mret (strip_final flags (UTF16ToString buf))).

Definition decodeEntry (b : list Z) : list Z := UTF16ToString (words_of_le (Z.to_nat (zlen b / 2)) b).

Fixpoint targets_loop (n : nat) (fuel : nat) (buffer : byte_slice) (offset i : Z) : St E (list (list Z)) :=
  match n with
  | O => mret []
  | S n =>
      entryBuf ← lift (reslice buffer (offset + i * 8) (offset + i * 8 + 8));
      let tgt := target_entry (sl_bytes entryBuf) in
      if sl_len buffer <? TargetRootOffset tgt + TargetRootLength tgt then fail (New "invalid buffer")
      else
        name ← lift (reslice buffer (TargetRootOffset tgt) (u32 (TargetRootOffset tgt + TargetRootLength tgt)));
        decoded ← map_err (Wrapf "fetching final path: %w" [] []) (getFinalPath fuel (decodeEntry (sl_bytes name)));
        targets ← targets_loop n fuel buffer offset (i + 1);
        mret (decoded :: targets)
  end.
Definition getTargetsFromBuffer (fuel : nat) (buffer : byte_slice) (offset count : Z) : St E (list (list Z)) :=
  if sl_len buffer <? offset + count * 6 then fail (New "invalid buffer")
  else targets_loop (Z.to_nat count) fuel buffer offset 0.

Definition getBindMappingFromBuffer (fuel : nat) (buffer : byte_slice) (en : mappingEntry) : St E BindMapping :=
  if sl_len buffer <? VirtRootOffset en + VirtRootLength en then fail (New "invalid buffer")
  else
    root ← lift (reslice buffer (VirtRootOffset en) (u32 (VirtRootOffset en + VirtRootLength en)));
    let src := decodeEntry (sl_bytes root) in
    targets ← map_err (Wrapf "fetching targets: %w" [] []) (getTargetsFromBuffer fuel buffer (TargetEntriesOffset en) (NumberOfTargets en));
    src ← map_err (Wrapf "fetching final path: %w" [] []) (getFinalPath fuel src);
    mret (mkBM src (me_Flags en) targets).

(** The mappings are read through a pointer, without a bound of their own. *)
Fixpoint mappings_loop (n : nat) (fuel : nat) (result : byte_slice) (mappings : list Z) (i : Z) : St E (list BindMapping) :=
  match n with
  | O => mret []
  | S n =>
      en ← lift (slice mappings (20 * i) (20 * i + 20));
      m ← map_err (Wrapf "fetching bind mappings: %w" [] []) (getBindMappingFromBuffer fuel result (mapping_entry en));
      ms ← mappings_loop n fuel result mappings (i + 1);
      mret (m :: ms)
  end.
Definition GetBindMappings (fuel : nat) (volumePath : list Z) : St E (list BindMapping) :=
  if bool_decide (0 ∈ volumePath) then fail EINVAL
  else
    '((outBuffSize, buf) : Z * list Z) ← bfGetMappings BINDFLT_GET_MAPPINGS_FLAG_VOLUME volumePath (256 * 1024);
    if outBuffSize <? 12 then fail (New "invalid buffer returned")
    else
      result ← lift (reslice (mkSlice buf (zlen buf)) 0 outBuffSize);
      headerBuffer ← lift (reslice result 0 12);
      let header := response_header (sl_bytes headerBuffer) in
      if MappingCount header =? 0 then mret []
      else
        mappingsBuffer ← lift (reslice result 12 (20 * MappingCount header));
        mappings_loop (Z.to_nat (MappingCount header)) fuel result (sl_arr mappingsBuffer) 0.
End BindFilter.

(** ** The final name of a path *)
Section FinalPath.
Context {E : Type} `{PathApiSpec E} (U : list Z → list Z) `{!UTF16ToStringSpec U}.
Implicit Types e : E.

(** The DOS name of a handle, or for a volume without a drive letter its GUID name. *)
Definition dos_or_guid (e : E) (h : Z) : error + (list Z * Z) :=
  match final_path e h 0 with
  | inr s => inr (s, 0)
  | inl err => if is_not_exist err then match final_path e h 1 with inr s => inr (s, 1) | inl err => inl err end else inl err
  end.

Lemma path_loop_room fuel h s fl buf e :
  final_path e h fl = inr s → zlen (to_utf16 s) < zlen buf →
  ∃ buf' e', path_loop (S fuel) h buf fl e = (Ret (buf', fl), e') ∧ files e' = files e ∧ U buf' = s.
Proof.
  intros Hs Hl. destruct (final_path_text _ _ _ _ Hs) as (Hv & Hn & _). cbn [path_loop].
  destruct (FinalPathName_eq h (zlen buf) fl e) as (e' & (_ & Hfi & _) & ->). rewrite Hs, (proj2 (Z.ltb_lt _ _) Hl).
  rewrite (fill_length (to_utf16 s ++ [0]) buf).
  rewrite (proj2 (Z.ltb_lt _ _) Hl). eexists _, e'. split; [done|]. split; [done|]. set (w := to_utf16 s) in *.
  rewrite <- app_assoc. unfold ztake. rewrite take_app_ge by (unfold zlen in *; lia).
  replace (Z.to_nat (zlen buf) - length w)%nat with (S (Z.to_nat (zlen buf) - length w - 1)) by (unfold zlen in *; lia).
  cbn [app take]. by apply utf16_to_string_nul.
Qed.
Lemma path_loop_name fuel h s fl buf e :
  final_path e h fl = inr s → (2 ≤ fuel)%nat → 0 < zlen buf →
  ∃ buf' e', path_loop fuel h buf fl e = (Ret (buf', fl), e') ∧ files e' = files e ∧ U buf' = s.
Proof.
  intros Hs Hf Hb. destruct fuel as [|[|fuel]]; [lia..|].
  destruct (Z.ltb_spec (zlen (to_utf16 s)) (zlen buf)) as [Hl|Hl]; [by eapply path_loop_room|].
  remember (S fuel) as f1 eqn:Ef. cbn [path_loop].
  destruct (FinalPathName_eq h (zlen buf) fl e) as (e1 & (_ & Hfi & Hp) & ->). rewrite Hs, (proj2 (Z.ltb_ge _ _) Hl).
  rewrite (fill_length [] buf). replace (zlen (to_utf16 s) + 1 <? zlen buf) with false by lia. subst f1.
  rewrite <- Hfi. apply path_loop_room; [by rewrite Hp|]. pose_lens. unfold zlen at 2. rewrite length_replicate. lia.
Qed.
Lemma path_loop_spec fuel h e :
  (3 ≤ fuel)%nat →
  ∃ r e', path_loop fuel h (replicate 100 0) 0 e = (r, e') ∧ files e' = files e ∧
  match dos_or_guid e h with
  | inr (s, fl) => ∃ buf, r = Ret (buf, fl) ∧ U buf = s
  | inl err => r = Fail (Wrapf "getting final path name: %w" [] [] err)
  end.
Proof.
  intros Hf. unfold dos_or_guid. destruct (final_path e h 0) as [err|s] eqn:E0.
  2: { destruct (path_loop_name fuel h s 0 (replicate 100 0) e E0 ltac:(lia) ltac:(done)) as (buf & e' & -> & Hfi & Hu). eauto 9. }
  destruct fuel as [|fuel]; [lia|]. cbn [path_loop].
  destruct (FinalPathName_eq h (zlen (replicate 100 0)) 0 e) as (e1 & (_ & Hfi & Hp) & ->). rewrite E0.
  change (negb (0 =? 1)) with true. rewrite andb_true_r. destruct (is_not_exist err) eqn:Ee; [|by eauto].
  rewrite <- Hp, <- Hfi. destruct (final_path e1 h 1) as [err'|s] eqn:E1.
  2: { destruct (path_loop_name fuel h s 1 (replicate 100 0) e1 E1 ltac:(lia) ltac:(done)) as (buf & e' & -> & Hfi' & Hu). eauto 9. }
  destruct fuel as [|fuel]; [lia|]. cbn [path_loop].
  destruct (FinalPathName_eq h (zlen (replicate 100 0)) 1 e1) as (e2 & (_ & Hfi2 & _) & ->). rewrite E1, andb_false_r. eauto.
Qed.

(** What [getFinalPath] promises: the name of the file the path leads to, and no open handle left. *)
Definition final_name (pth : list Z) (e : E) (r : res (list Z)) (e' : E) : Prop :=
  files e' = files e ∧
  match openPath (device_path pth) e with
  | (Ret h, e1) => r = match dos_or_guid e1 h with
                       | inr (s, fl) => Ret (strip_final fl s)
                       | inl err => Fail (Wrapf "getting final path name: %w" [] [] err)
                       end
  | (Fail err, _) => r = Fail (Wrapf "fetching file handle: %w" [] [] err)
  | _ => False
  end.
Lemma getFinalPath_final fuel pth e :
  (3 ≤ fuel)%nat → let '(r, e') := getFinalPath U fuel pth e in final_name pth e r e'.
Proof.
  intros Hf. unfold getFinalPath, final_name. rewrite St_bind_eq. unfold map_err, openPath.
  destruct (bool_decide (0 ∈ device_path pth)); [done|]. unfold map_err.
  pose proof (OpenPath_spec (device_path pth) 0 FILE_SHARE_ALL OPEN_EXISTING FILE_FLAG_BACKUP_SEMANTICS e) as Ho.
  destruct (OpenPath _ _ _ _ _ e) as [[h|err| |] e1]; try done. destruct Ho as [Hn He].
  unfold with_handle. rewrite St_bind_eq. destruct (path_loop_spec fuel h e1 Hf) as (r & e2 & -> & Hfi & Hp).
  assert (Hc : files (CloseHandle h e2) = files e).
  { rewrite CloseHandle_files, Hfi, He. clear -Hn. apply set_eq. set_unfold. naive_solver. }
  destruct (dos_or_guid e1 h) as [err|[s fl]]; [by rewrite Hp|]. by destruct Hp as (buf & -> & <-).
Qed.
End FinalPath.

(** ** Responses

    A response of [len] bytes that describes the mappings, wherever in it the
    system put the entries and the names. *)
Record mapping := mkMapping { m_root : list Z; m_flags : Z; m_targets : list (list Z) }.

Section Response.
Context (arr : list Z) (len : Z).
Definition text_at (off n : Z) (s : list Z) : Prop :=
  valid_utf8 s ∧ (0 ∉ s) ∧ 0 ≤ off ∧ off + n ≤ len ∧ n = zlen (le_words (to_utf16 s)) ∧
  slice arr off (off + n) = Ret (le_words (to_utf16 s)).
Definition target_at (off : Z) (s : list Z) : Prop :=
  ∃ o n, text_at o n s ∧ slice arr off (off + 8) = Ret (le_bytes 4 n ++ le_bytes 4 o).
Definition entry_at (off : Z) (m : mapping) : Prop :=
  ∃ ro rn to, text_at ro rn (m_root m) ∧ 0 ≤ m_flags m < 4294967296 ∧ 0 ≤ to ∧ to + 6 * zlen (m_targets m) ≤ len ∧
    slice arr off (off + 20) =
      Ret (le_bytes 4 rn ++ le_bytes 4 ro ++ le_bytes 4 (m_flags m) ++ le_bytes 4 (zlen (m_targets m)) ++ le_bytes 4 to) ∧
    ∀ i s, m_targets m !! i = Some s → target_at (to + 8 * Z.of_nat i) s.
Definition response_at (ms : list mapping) : Prop :=
  12 ≤ len ∧ len ≤ zlen arr ∧ zlen arr < 4294967296 ∧ slice arr 8 12 = Ret (le_bytes 4 (zlen ms)) ∧ 20 * zlen ms ≤ zlen arr ∧
  ∀ i m, ms !! i = Some m → entry_at (12 + 20 * Z.of_nat i) m.
End Response.

Section Parsing.
Context {E : Type} `{PathApiSpec E} `{!BindApi E} (U : list Z → list Z) `{!UTF16ToStringSpec U} (fuel : nat).

(** The mapping with final names. *)
Definition final_targets (ts : list (list Z)) : St E (list (list Z)) :=
  mapM (λ s, map_err (Wrapf "fetching final path: %w" [] []) (getFinalPath U fuel s)) ts.
Definition final_mapping (m : mapping) : St E BindMapping :=
  targets ← map_err (Wrapf "fetching targets: %w" [] []) (final_targets (m_targets m));
  src ← map_err (Wrapf "fetching final path: %w" [] []) (getFinalPath U fuel (m_root m));
  mret (mkBM src (m_flags m) targets).

Lemma field32_app n a b c : zlen a = 4 * n → 0 ≤ b < 4294967296 → field32 (a ++ le_bytes 4 b ++ c) n = b.
Proof. intros Ha Hb. unfold field32. rewrite zdrop_app_eq by done. rewrite ztake_app_eq by done. by apply le_val_le32. Qed.

Lemma reslice_bytes arr len i j b :
  slice arr i j = Ret b → ∃ r, reslice (mkSlice arr len) i j = Ret r ∧ sl_bytes r = b.
Proof.
  unfold slice, reslice, sl_bytes. cbn [sl_arr]. case_decide; [|done]. intros [= <-]. rewrite decide_True by lia. by eexists.
Qed.
Lemma decodeEntry_text arr len off n s :
  text_at arr len off n s → len ≤ zlen arr → zlen arr < 4294967296 →
  ∃ r, reslice (mkSlice arr len) off (u32 (off + n)) = Ret r ∧ decodeEntry U (sl_bytes r) = s.
Proof.
  intros (Hv & Hz & Ho & Hl & Hn & Hs) Hlen Harr. pose_lens. rewrite u32_small by lia.
  destruct (reslice_bytes arr len _ _ _ Hs) as (r & -> & Hr). exists r. split; [done|].
  rewrite Hr. unfold decodeEntry. rewrite zlen_le_words.
  replace (Z.to_nat (2 * zlen (to_utf16 s) / 2)) with (length (to_utf16 s)) by (unfold zlen; rewrite Z.mul_comm, Z.div_mul by lia; lia).
  rewrite <- (app_nil_r (le_words _)), words_of_le_words by apply words_ok_utf16_encode. by apply utf16_to_string.
Qed.

Lemma St_bind_ext {S A B} (m : St S A) (k1 k2 : A → St S B) s :
  (∀ a s, k1 a s = k2 a s) → (m ≫= k1) s = (m ≫= k2) s.
Proof. intros Hk. rewrite !St_bind_eq. destruct (m s) as [[]]; auto. Qed.
Lemma St_bind_ext_l {S A B} (m1 m2 : St S A) (k : A → St S B) s : m1 s = m2 s → (m1 ≫= k) s = (m2 ≫= k) s.
Proof. intros Hm. by rewrite !St_bind_eq, Hm. Qed.
Lemma lift_bind {S A B} (r : res A) a (k : A → St S B) s : r = Ret a → (lift r ≫= k) s = k a s.
Proof. by intros ->. Qed.
Lemma map_err_ext {S A} g (m1 m2 : St S A) s : m1 s = m2 s → map_err g m1 s = map_err g m2 s.
Proof. unfold map_err. by intros ->. Qed.

Section Buffer.
Context (arr : list Z) (len : Z) (Hlen : len ≤ zlen arr) (Harr : zlen arr < 4294967296).

Lemma target_entry_at off s :
  target_at arr len off s → ∃ r o n, reslice (mkSlice arr len) off (off + 8) = Ret r ∧
    target_entry (sl_bytes r) = mkMT n o ∧ text_at arr len o n s.
Proof.
  intros (o & n & Ht & Hs). destruct (reslice_bytes arr len _ _ _ Hs) as (r & Hr & Hb). exists r, o, n. split; [done|]. split; [|done].
  destruct Ht as (_ & _ & Ho & Hl & Hn & _). pose proof (zlen_nonneg (le_words (to_utf16 s))).
  rewrite Hb. unfold target_entry. f_equal.
  - apply (field32_app 0 [] n (le_bytes 4 o)); [done|lia].
  - rewrite <- (app_nil_r (le_bytes 4 o)). apply (field32_app 1 (le_bytes 4 n) o []); [done|lia].
Qed.
Lemma targets_loop_eq ts to i e :
  (∀ j s, ts !! j = Some s → target_at arr len (to + (i + Z.of_nat j) * 8) s) →
  targets_loop U (length ts) fuel (mkSlice arr len) to i e = final_targets ts e.
Proof.
  revert i e. induction ts as [|s ts IH]; intros i e Hts; [done|]. cbn [length targets_loop].
  destruct (target_entry_at _ s (Hts O s eq_refl)) as (r & o & n & Hr & Hte & Ht). rewrite Z.add_0_r in Hr.
  rewrite (lift_bind _ _ _ _ Hr). cbv zeta. rewrite Hte. cbn [TargetRootOffset TargetRootLength sl_len].
  destruct (decodeEntry_text arr len o n s Ht Hlen Harr) as (r' & Hr' & Hd). destruct Ht as (_ & _ & _ & Hl & _).
  rewrite (proj2 (Z.ltb_ge _ _) Hl). rewrite (lift_bind _ _ _ _ Hr'), Hd. apply St_bind_ext. intros d e1.
  apply St_bind_ext_l. apply IH. intros j s' Hj. specialize (Hts (S j) s' Hj).
  replace (i + 1 + Z.of_nat j) with (i + Z.of_nat (S j)) by lia. done.
Qed.

Lemma getTargets_eq ts to e :
  to + 6 * zlen ts ≤ len → (∀ j s, ts !! j = Some s → target_at arr len (to + 8 * Z.of_nat j) s) →
  getTargetsFromBuffer U fuel (mkSlice arr len) to (zlen ts) e = final_targets ts e.
Proof.
  intros Hl Hts. unfold getTargetsFromBuffer. cbn [sl_len]. rewrite (proj2 (Z.ltb_ge _ _)) by lia.
  unfold zlen. rewrite Nat2Z.id. apply targets_loop_eq. intros j s Hj.
  replace (to + (0 + Z.of_nat j) * 8) with (to + 8 * Z.of_nat j) by lia. by apply Hts.
Qed.
Lemma entry_fields off m :
  entry_at arr len off m → zlen (m_targets m) < 4294967296 ∧
  ∃ b ro rn to, slice arr off (off + 20) = Ret b ∧ mapping_entry b = mkME rn ro (m_flags m) (zlen (m_targets m)) to ∧
    text_at arr len ro rn (m_root m) ∧ to + 6 * zlen (m_targets m) ≤ len ∧
    ∀ i s, m_targets m !! i = Some s → target_at arr len (to + 8 * Z.of_nat i) s.
Proof.
  intros (ro & rn & to & Ht & Hfl & Hto & Hl & Hs & Hts). pose proof (zlen_nonneg (m_targets m)).
  assert (zlen (m_targets m) < 4294967296) by lia. split; [done|]. eexists _, ro, rn, to. split; [exact Hs|].
  split_and!; [|done..]. destruct Ht as (_ & _ & Ho & Hol & Hn & _). pose proof (zlen_nonneg (le_words (to_utf16 (m_root m)))).
  unfold mapping_entry. f_equal.
  - apply (field32_app 0 []); [done|lia].
  - apply (field32_app 1 (le_bytes 4 rn)); [done|lia].
  - rewrite (app_assoc (le_bytes 4 rn)). by apply field32_app.
  - rewrite !(app_assoc (le_bytes 4 rn)), (app_assoc (_ ++ _) (le_bytes 4 (m_flags m))). apply field32_app; [done|lia].
  - rewrite <- (app_nil_r (le_bytes 4 to)). rewrite !app_assoc, <- (app_assoc _ (le_bytes 4 to) []). apply field32_app; [done|lia].
Qed.
Lemma getBindMapping_eq off m e b :
  entry_at arr len off m → slice arr off (off + 20) = Ret b →
  getBindMappingFromBuffer U fuel (mkSlice arr len) (mapping_entry b) e = final_mapping m e.
Proof.
  intros Hm Hb. destruct (entry_fields off m Hm) as (_ & b' & ro & rn & to & Hs & He & Ht & Hl & Hts).
  assert (b' = b) as -> by congruence. rewrite He. unfold getBindMappingFromBuffer.
  cbn [VirtRootOffset VirtRootLength me_Flags NumberOfTargets TargetEntriesOffset sl_len].
  destruct (decodeEntry_text arr len ro rn _ Ht Hlen Harr) as (r & Hr & Hd). destruct Ht as (_ & _ & _ & Hrl & _).
  rewrite (proj2 (Z.ltb_ge _ _) Hrl). rewrite (lift_bind _ _ _ _ Hr). cbv zeta. rewrite Hd. unfold final_mapping.
  apply St_bind_ext_l, map_err_ext. by apply getTargets_eq.
Qed.
Lemma mappings_loop_eq ms i e :
  0 ≤ i → (∀ j m, ms !! j = Some m → entry_at arr len (12 + 20 * (i + Z.of_nat j)) m) →
  mappings_loop U (length ms) fuel (mkSlice arr len) (zdrop 12 arr) i e =
    mapM (λ m, map_err (Wrapf "fetching bind mappings: %w" [] []) (final_mapping m)) ms e.
Proof.
  revert i e. induction ms as [|m ms IH]; intros i e Hi Hms; [done|]. cbn [length mappings_loop].
  pose proof (Hms O m eq_refl) as Hm. rewrite Z.add_0_r in Hm. destruct (entry_fields _ m Hm) as (_ & b & _ & _ & _ & Hs & _).
  assert (Hb : slice (zdrop 12 arr) (20 * i) (20 * i + 20) = Ret b).
  { revert Hs. unfold slice. rewrite zdrop_zdrop by lia. pose proof (zlen_zdrop 12 arr) as Hz. case_decide; [|done].
    intros [= <-]. rewrite decide_True by lia. do 2 f_equal; lia. }
  rewrite (lift_bind _ _ _ _ Hb).
  etransitivity; [apply St_bind_ext_l, map_err_ext; by apply (getBindMapping_eq (12 + 20 * i) m)|].
  apply St_bind_ext. intros d e1. apply St_bind_ext_l. apply IH; [lia|]. intros j m' Hj.
  replace (i + 1 + Z.of_nat j) with (i + Z.of_nat (S j)) by lia. by apply Hms.
Qed.
End Buffer.
End Parsing.

Lemma reslice_all buf n : 0 ≤ n ≤ zlen buf → reslice (mkSlice buf (zlen buf)) 0 n = Ret (mkSlice buf n).
Proof. intros Hn. unfold reslice. cbn [sl_arr]. rewrite decide_True by lia. by rewrite zdrop_0, Z.sub_0_r. Qed.

(** C9: from a response that describes the mappings, [GetBindMappings] returns
    them in order, each with its flags, its root and its targets replaced by their
    final names; the first name that cannot be resolved is its error.  Where in
    the buffer the system put the entries and the names does not matter. *)
Theorem GetBindMappings_spec {E : Type} `{PathApiSpec E} `{!BindApi E} (U : list Z → list Z) `{!UTF16ToStringSpec U}
    fuel volumePath ms outBuffSize buf (e e1 : E) :
  0 ∉ volumePath →
  bfGetMappings BINDFLT_GET_MAPPINGS_FLAG_VOLUME volumePath 262144 e = (Ret (outBuffSize, buf), e1) →
  response_at buf outBuffSize ms →
  GetBindMappings U fuel volumePath e =
    mapM (λ m, map_err (Wrapf "fetching bind mappings: %w" [] []) (final_mapping U fuel m)) ms e1.
Proof.
  intros Hv Hb (Hl & Hlen & Harr & Hcount & Hall & Hms). unfold GetBindMappings.
  rewrite bool_decide_eq_false_2 by done. rewrite (St_bind_Ret _ _ _ _ _ Hb). cbv beta iota.
  rewrite (proj2 (Z.ltb_ge _ _) Hl). rewrite (lift_bind _ _ _ _ (reslice_all buf outBuffSize ltac:(lia))).
  assert (Hh : slice buf 0 12 = Ret (ztake 12 buf)) by (rewrite slice_ok, zdrop_0 by lia; done).
  destruct (reslice_bytes buf outBuffSize _ _ _ Hh) as (r & Hr & Hrb). rewrite (lift_bind _ _ _ _ Hr). cbv zeta.
  pose proof (zlen_nonneg ms) as Hn.
  assert (Hc : MappingCount (response_header (sl_bytes r)) = zlen ms).
  { rewrite Hrb. cbn [response_header MappingCount]. unfold field32. rewrite slice_ok in Hcount by lia.
    assert (Hx : ztake (12 - 8) (zdrop 8 buf) = le_bytes 4 (zlen ms)) by congruence.
    rewrite <- (le_val_le32 (zlen ms)), <- Hx by lia. f_equal. unfold ztake, zdrop.
    change (take 4 (drop 8 (take 12 buf)) = take 4 (drop 8 buf)). by rewrite skipn_firstn_comm, take_take. }
  rewrite Hc. destruct ms as [|m ms]; [done|]. rewrite zlen_cons in *. pose proof (zlen_nonneg ms).
  rewrite (proj2 (Z.eqb_neq _ _)) by lia.
  assert (Hm : reslice (mkSlice buf outBuffSize) 12 (20 * (1 + zlen ms)) = Ret (mkSlice (zdrop 12 buf) (20 * (1 + zlen ms) - 12)))
    by (unfold reslice; cbn [sl_arr]; rewrite decide_True by lia; done).
  rewrite (lift_bind _ _ _ _ Hm). cbn [sl_arr].
  replace (Z.to_nat (1 + zlen ms)) with (length (m :: ms)) by (cbn; unfold zlen; lia).
  apply mappings_loop_eq; [done..|lia|]. intros j m' Hj. by apply Hms.
Qed.

(** [getFinalPath] returns the DOS name of the file a path leads to, without
    its prefix, or the GUID name when the volume has no drive letter; a device
    path is reached through the global root.  The handle it opens is closed on every path,
    and its loop ends however long the name is. *)
Theorem getFinalPath_spec {E : Type} `{PathApiSpec E} (U : list Z → list Z) `{!UTF16ToStringSpec U} fuel pth (e : E) :
  (3 ≤ fuel)%nat → let '(r, e') := getFinalPath U fuel pth e in final_name pth e r e'.
Proof. intros Hf. by apply getFinalPath_final. Qed.

(** *** Witnesses *)
Definition le_text (s : list Z) : list Z := le_words (to_utf16 s).
Definition root_text : list Z := le_text (str "C:\x").
Definition target_text : list Z := le_text (str "\Device\Vol1\a").
(** One mapping with one target: header, entry, target entry, the two names. *)
Definition response_example : list Z :=
  le_bytes 4 (40 + zlen root_text + zlen target_text) ++ le_bytes 4 0 ++ le_bytes 4 1 ++
  le_bytes 4 (zlen root_text) ++ le_bytes 4 40 ++ le_bytes 4 1 ++ le_bytes 4 1 ++ le_bytes 4 32 ++
  le_bytes 4 (zlen target_text) ++ le_bytes 4 (40 + zlen root_text) ++ root_text ++ target_text.
#[export] Instance disk_BindApi : BindApi disk := {|
  MkdirAllDir p e := (Ret (), e); bfSetupFilter j f r t e := (Ret (), e); bfRemoveMapping j r e := (Ret (), e);
  bfGetMappings f v n e := (Ret (zlen response_example, response_example), e) |}.
Definition mapping_example : mapping := mkMapping (str "C:\x") 1 [str "\Device\Vol1\a"].

Lemma response_example_ok : response_at response_example (zlen response_example) [mapping_example].
Proof.
  unfold response_at. split_and!; [by vm_compute..|].
  assert (Ht : ∀ o n s, Forall (λ b, 0 ≤ b < 128) s → 0 ∉ s → 0 ≤ o → o + n ≤ zlen response_example → n = zlen (le_text s) →
    slice response_example o (o + n) = Ret (le_text s) → text_at response_example (zlen response_example) o n s).
  { intros o n s Ha Hz Ho Hl Hn Hs. split_and!; try done. by apply ascii_valid_utf8. }
  intros [|i] m; [|done]. intros [= <-]. exists 40, (zlen root_text), 32. split; [|split; [by vm_compute|]; split; [done|]; split; [by vm_compute|]; split; [by vm_compute|]].
  - apply Ht; [decide_now|decide_now|by vm_compute..].
  - intros [|i] s; [|done]. intros [= <-]. exists (40 + zlen root_text), (zlen target_text). split; [|by vm_compute].
    apply Ht; [decide_now|decide_now|by vm_compute..].
Qed.
Lemma GetBindMappings_spec_witness :
  GetBindMappings utf16_cstring 3 (str "C:\") (mkDisk ∅ []) =
    (Ret [mkBM (str "C:\x") 1 [str "\\?\Volume{1}\a"]], mkDisk ∅ [(0, 0); (0, 1); (0, 0)]).
Proof.
  etransitivity; [eapply (GetBindMappings_spec utf16_cstring 3 (str "C:\") [mapping_example]); [decide_now|reflexivity|apply response_example_ok]|].
  by vm_compute.
Defined.
Lemma getFinalPath_spec_witness :
  let '(r, e') := getFinalPath utf16_cstring 3 (str "\Device\Vol1\a") (mkDisk ∅ []) in final_name (str "\Device\Vol1\a") (mkDisk ∅ []) r e'.
Proof. apply (getFinalPath_spec utf16_cstring 3 (str "\Device\Vol1\a") (mkDisk ∅ [])). lia. Defined.

(** ** Responses the checks let through

    The check of the target entries counts six bytes for each entry of eight: in a
    response whose entries end at the end of the buffer, the last ones are cut off
    and the code panics where it means to report an invalid buffer. *)
Example targets_past_buffer :
  let buffer := mkSlice (replicate 26 0) 26 in
  is_panic (fst (getTargetsFromBuffer utf16_cstring 3 buffer 20 1 (mkDisk ∅ []))) = true.
Proof. by vm_compute. Qed.
