(* ===== verification/Privilege.v ===== *)
(** * Privileges ([privilege.go])

    A function is run with privileges enabled on a token of its own thread: the
    thread is locked and impersonates its process, and all of it is undone when
    the function returns.  The tokens are part of the system. *)
From S2P Require Import Prelude FsFlags GoStrings Unicode Handles.

Definition SE_PRIVILEGE_ENABLED : Z := 2.
Definition ERROR_NOT_ALL_ASSIGNED : error := Errno 1300.
Definition SeBackupPrivilege : list Z := str "SeBackupPrivilege".
Definition SeRestorePrivilege : list Z := str "SeRestorePrivilege".
Definition SeSecurityPrivilege : list Z := str "SeSecurityPrivilege".
Definition TOKEN_ADJUST_PRIVILEGES : Z := 32.
Definition TOKEN_QUERY : Z := 8.
Definition token_access : Z := Z.lor TOKEN_ADJUST_PRIVILEGES TOKEN_QUERY.

(** ** The calls

    The lookups of names return a size and the words written. *)
Class TokenApi (E : Type) : Type := {
  lookupPrivilegeValue : list Z → St E Z;
  lookupPrivilegeName : Z → St E (Z * list Z);
  lookupPrivilegeDisplayName : list Z → St E (Z * list Z);
  impersonateSelf : Z → St E unit;
  revertToSelf : St E unit;
  openThreadToken : Z → St E Z;
  OpenProcessToken : Z → St E Z;
  CloseToken : Z → E → E;
  adjustTokenPrivileges : Z → list Z → E → (bool * option error) * E;
  LockOSThread : E → E;
  UnlockOSThread : E → E }.

(** The package's cache of identifiers, and the system. *)
Record privs (E : Type) := mkPrivs { privNames : gmap (list Z) Z; psys : E }.
Arguments mkPrivs {E} _ _.
Arguments privNames {E} _.
Arguments psys {E} _.

Definition on_psys {E A} (m : St E A) : St (privs E) A := λ p, let '(r, e) := m (psys p) in (r, mkPrivs (privNames p) e).
Definition do_psys {E} (f : E → E) : St (privs E) unit := λ p, (Ret (), mkPrivs (privNames p) (f (psys p))).
(** [defer fin()]: also after an error or a panic, which a panic of [fin] replaces. *)
Definition finally {S A} (fin : St S unit) (m : St S A) : St S A := λ s,
  let '(r, s) := m s in
  match fin s with
  | (Panic w, s) => (Panic w, s)
  | (NoFuel, s) => (NoFuel, s)
  | (_, s) => (r, s)
  end.

(** The [TOKEN_PRIVILEGES] structure. *)
Definition token_privileges (privileges : list Z) (action : Z) : list Z :=
  le_bytes 4 (zlen privileges) ++ concat ((λ p, le_bytes 8 p ++ le_bytes 4 action) <$> privileges).
(** [&PrivilegeError{privileges}] *)
Definition PrivilegeError (privileges : list Z) : error := Errorf "Could not enable privileges" privileges [].

Section Privileges.
Context {E : Type} `{TokenApi E}.

Fixpoint lookup_privileges (names : list (list Z)) : St (privs E) (list Z) :=
  match names with
  | [] => mret []
  | name :: names =>
      m ← get;
      p ← (match privNames m !! name with
           | Some p => mret p
           | None =>
               p ← on_psys (lookupPrivilegeValue name);
               _ ← modify (λ s, mkPrivs (<[name := p]> (privNames s)) (psys s));
               mret p
           end);
      ps ← lookup_privileges names;
      mret (p :: ps)
  end.
Definition mapPrivileges (names : list (list Z)) : St (privs E) (list Z) := lookup_privileges names.

Definition adjustPrivileges (token : Z) (privileges : list Z) (action : Z) : St E unit := λ e,
  match adjustTokenPrivileges token (token_privileges privileges action) e with
  | ((false, Some err), e) => (Fail err, e)
  | ((false, None), e) => (Ret (), e)
  | ((true, err), e) => (if bool_decide (err = Some ERROR_NOT_ALL_ASSIGNED) then Fail (PrivilegeError privileges) else Ret (), e)
  end.

Definition revert_panic : string := "revertToSelf".
Definition must_revert : St E unit := λ e,
  match revertToSelf e with (Fail _, e) => (Panic revert_panic, e) | x => x end.
Definition newThreadToken : St E Z :=
  _ ← impersonateSelf SecurityImpersonation;
  (λ e, match openThreadToken token_access e with
        | (Fail err, e) => (_ ← must_revert; fail err) e
        | x => x
        end) : St E Z.
Definition releaseThreadToken (h : Z) : St E unit := _ ← must_revert; modify (CloseToken h).

Definition RunWithPrivileges (names : list (list Z)) (fn : St (privs E) unit) : St (privs E) unit :=
  privileges ← mapPrivileges names;
  _ ← do_psys LockOSThread;
  finally (do_psys UnlockOSThread) (
    token ← on_psys newThreadToken;
    finally (on_psys (releaseThreadToken token)) (
      _ ← on_psys (adjustPrivileges token privileges SE_PRIVILEGE_ENABLED);
      fn)).
Definition RunWithPrivilege (name : list Z) (fn : St (privs E) unit) : St (privs E) unit := RunWithPrivileges [name] fn.

Definition enableDisableProcessPrivilege (names : list (list Z)) (action : Z) : St (privs E) unit :=
  privileges ← mapPrivileges names;
  token ← on_psys (OpenProcessToken token_access);
  finally (do_psys (CloseToken token)) (on_psys (adjustPrivileges token privileges action)).
Definition EnableProcessPrivileges (names : list (list Z)) : St (privs E) unit :=
  enableDisableProcessPrivilege names SE_PRIVILEGE_ENABLED.
Definition DisableProcessPrivileges (names : list (list Z)) : St (privs E) unit := enableDisableProcessPrivilege names 0.

(** The message of a [PrivilegeError]. *)
Definition name_buffer (ws : list Z) : list Z := ztake 256 (ws ++ replicate 256 0).
Definition getPrivilegeName (luid : Z) : St E (list Z) := λ e,
  match lookupPrivilegeName luid e with
  | (Ret (bufSize, ws), e) =>
      match lookupPrivilegeDisplayName (name_buffer ws) e with
      | (Ret (displayBufSize, ds), e) => (s ← slice (name_buffer ds) 0 displayBufSize; Ret (of_utf16 s), e)
      | (Fail _, e) => (s ← slice (name_buffer ws) 0 bufSize; Ret (str "<unknown privilege " ++ of_utf16 s ++ str ">"), e)
      | (Panic w, e) => (Panic w, e)
      | (NoFuel, e) => (NoFuel, e)
      end
  | (Fail _, e) => (Ret (str "<unknown privilege " ++ FormatUint luid 10 ++ str ">"), e)
  | (Panic w, e) => (Panic w, e)
  | (NoFuel, e) => (NoFuel, e)
  end.
Definition quote : list Z := [34].
Fixpoint quoted_names (first : bool) (privileges : list Z) : St E (list Z) :=
  match privileges with
  | [] => mret []
  | p :: ps =>
      name ← getPrivilegeName p;
      rest ← quoted_names false ps;
      mret ((if first then [] else str ", ") ++ quote ++ name ++ quote ++ rest)
  end.
Definition PrivilegeError_Error (privileges : list Z) : St E (list Z) :=
  names ← quoted_names true privileges;
  mret ((if 1 <? zlen privileges then str "Could not enable privileges " else str "Could not enable privilege ") ++ names).
End Privileges.

(** ** What the system promises

    An identifier is the name's, and does not change.  [enabled e t] are the
    privileges enabled on a token; a thread holds as many locks as it took. *)
Definition luids_ok (ps : list Z) : Prop := Forall (λ x, 0 ≤ x < 18446744073709551616) ps ∧ zlen ps < 4294967296.
Class TokenApiSpec (E : Type) `{TokenApi E} : Type := {
  luid : list Z → error + Z;
  impersonating : E → bool;
  tokens : E → gset Z;
  enabled : E → Z → gset Z;
  locks : E → nat;
  lookupPrivilegeValue_spec n e : lookupPrivilegeValue n e = (match luid n with inl err => Fail err | inr p => Ret p end, e);
  luid_range n x : luid n = inr x → 0 ≤ x < 18446744073709551616;
  impersonateSelf_spec l e :
    match impersonateSelf l e with
    | (Ret _, e') => impersonating e' = true ∧ tokens e' = tokens e ∧ locks e' = locks e
    | (Fail _, e') => e' = e
    | _ => False
    end;
  revertToSelf_spec e :
    match revertToSelf e with
    | (Ret _, e') => impersonating e' = false ∧ tokens e' = tokens e ∧ locks e' = locks e
    | (Fail _, e') => e' = e
    | _ => False
    end;
  openThreadToken_spec a e :
    match openThreadToken a e with
    | (Ret t, e') => (t ∉ tokens e) ∧ tokens e' = {[t]} ∪ tokens e ∧ impersonating e' = impersonating e ∧ locks e' = locks e
    | (Fail _, e') => e' = e
    | _ => False
    end;
  CloseToken_spec t e : let e' := CloseToken t e in
    tokens e' = tokens e ∖ {[t]} ∧ impersonating e' = impersonating e ∧ locks e' = locks e;
  adjust_spec t b e : let '((ok, err), e') := adjustTokenPrivileges t b e in
    tokens e' = tokens e ∧ impersonating e' = impersonating e ∧ locks e' = locks e ∧
    (ok = false → err ≠ None) ∧
    (ok = true → err ≠ Some ERROR_NOT_ALL_ASSIGNED →
     ∀ ps, luids_ok ps → b = token_privileges ps SE_PRIVILEGE_ENABLED → list_to_set ps ⊆ enabled e' t);
  Lock_spec e : let e' := LockOSThread e in
    locks e' = S (locks e) ∧ tokens e' = tokens e ∧ impersonating e' = impersonating e;
  Unlock_spec e : let e' := UnlockOSThread e in
    locks e' = pred (locks e) ∧ tokens e' = tokens e ∧ impersonating e' = impersonating e }.

Section PrivilegeProofs.
Context {E : Type} `{TokenApiSpec E}.
Implicit Types p : privs E.

Definition cache_ok p : Prop := ∀ n x, privNames p !! n = Some x → luid n = inr x.
(** The thread as it was: no token more, no lock more, not impersonating. *)
Definition thread_like p p' : Prop :=
  tokens (psys p') = tokens (psys p) ∧ locks (psys p') = locks (psys p) ∧
  impersonating (psys p') = false.
(** What the function finds when it runs. *)
Definition ready (names : list (list Z)) p p' : Prop :=
  ∃ t ps, Forall2 (λ n x, luid n = inr x) names ps ∧ (t ∉ tokens (psys p)) ∧ tokens (psys p') = {[t]} ∪ tokens (psys p) ∧
    list_to_set ps ⊆ enabled (psys p') t ∧ impersonating (psys p') = true ∧ locks (psys p') = S (locks (psys p)).
(** A function that keeps the thread as it found it ends in such a state. *)
Definition keeps p p' : Prop := tokens (psys p') = tokens (psys p) ∧ locks (psys p') = locks (psys p).
(** The system refuses to end the impersonation. *)
Definition reverting_fails (e : E) : Prop := ∃ err, fst (revertToSelf e) = Fail err.

(** The cache only saves calls. *)
Lemma mapPrivileges_spec names p :
  cache_ok p → ∃ m, let p' := mkPrivs m (psys p) in cache_ok p' ∧
    ((∃ ps, mapPrivileges names p = (Ret ps, p') ∧ Forall2 (λ n x, luid n = inr x) names ps) ∨
     (∃ err n, mapPrivileges names p = (Fail err, p') ∧ n ∈ names ∧ luid n = inl err)).
Proof.
  unfold mapPrivileges. revert p. induction names as [|n names IH]; intros p Hc; cbn [lookup_privileges].
  { exists (privNames p). destruct p as [m e]. split; [done|]. left. exists []. by split. }
  rewrite St_bind_eq. cbn [get].
  assert (Hstep : ∃ m, cache_ok (mkPrivs m (psys p)) ∧
    (match privNames p !! n with
     | Some x => mret x
     | None => x ← on_psys (lookupPrivilegeValue n); _ ← modify (λ s, mkPrivs (<[n := x]> (privNames s)) (psys s)); mret x
     end) p = (match luid n with inl err => Fail err | inr x => Ret x end, mkPrivs m (psys p))).
  { destruct (privNames p !! n) as [x|] eqn:En.
    - exists (privNames p). rewrite (Hc _ _ En). by destruct p.
    - rewrite St_bind_eq. unfold on_psys. rewrite lookupPrivilegeValue_spec. destruct (luid n) as [err|x] eqn:El.
      + by exists (privNames p).
      + exists (<[n := x]> (privNames p)). split; [|done]. intros n' x'. cbn [privNames].
        destruct (decide (n' = n)) as [->|]; [rewrite lookup_insert_eq; congruence|rewrite lookup_insert_ne by done; apply Hc]. }
  destruct Hstep as (m1 & Hc1 & E1). rewrite St_bind_eq, E1. destruct (luid n) as [err|x] eqn:El.
  { exists m1. split; [done|]. right. exists err, n. split; [done|]. split; [by apply elem_of_cons; left|done]. }
  destruct (IH _ Hc1) as (m & Hm & [(ps & E2 & Hps)|(err & n' & E2 & Hn' & Hl')]); exists m; (split; [done|]).
  - left. exists (x :: ps). rewrite (St_bind_Ret _ _ _ _ _ E2). by split; [|constructor].
  - right. exists err, n'. rewrite (St_bind_Fail _ _ _ _ _ E2). split; [done|]. split; [by apply elem_of_cons; right|done].
Qed.

(** *** The token of the thread *)
Lemma must_revert_spec e :
  match must_revert e with
  | (Ret _, e') => impersonating e' = false ∧ tokens e' = tokens e ∧ locks e' = locks e
  | (Panic w, e') => w = revert_panic ∧ e' = e ∧ reverting_fails e
  | _ => False
  end.
Proof.
  unfold must_revert. pose proof (revertToSelf_spec e) as Hr.
  destruct (revertToSelf e) as [[[]|err| |] e1] eqn:Er; try done. subst. split_and!; try done. exists err. by rewrite Er.
Qed.
Lemma newThreadToken_spec e :
  impersonating e = false →
  match newThreadToken e with
  | (Ret t, e') => (t ∉ tokens e) ∧ tokens e' = {[t]} ∪ tokens e ∧ impersonating e' = true ∧ locks e' = locks e
  | (Fail _, e') => tokens e' = tokens e ∧ impersonating e' = false ∧ locks e' = locks e
  | (Panic w, e') => w = revert_panic ∧ locks e' = locks e ∧ ∃ e1, reverting_fails e1
  | (NoFuel, _) => False
  end.
Proof.
  intros Hi. unfold newThreadToken. rewrite St_bind_eq. pose proof (impersonateSelf_spec SecurityImpersonation e) as Hs.
  destruct (impersonateSelf _ e) as [[[]|err| |] e1]; try done; [|by subst]. destruct Hs as (Hi1 & Ht1 & Hl1).
  pose proof (openThreadToken_spec token_access e1) as Ho. destruct (openThreadToken _ e1) as [[t|err| |] e2]; try done.
  - destruct Ho as (Hn & Ht2 & Hi2 & Hl2). rewrite Ht1 in *. split_and!; (done || congruence).
  - subst e2. rewrite St_bind_eq. pose proof (must_revert_spec e1) as Hr.
    destruct (must_revert e1) as [[[]| | |] e3]; try done.
    + destruct Hr as (Hi3 & Ht3 & Hl3). cbn. split_and!; (done || congruence).
    + destruct Hr as (-> & -> & Hf). split_and!; try done. by exists e1.
Qed.
Lemma releaseThreadToken_spec t e :
  match releaseThreadToken t e with
  | (Ret _, e') => tokens e' = tokens e ∖ {[t]} ∧ impersonating e' = false ∧ locks e' = locks e
  | (Panic w, e') => w = revert_panic ∧ e' = e ∧ reverting_fails e
  | _ => False
  end.
Proof.
  unfold releaseThreadToken. rewrite St_bind_eq. pose proof (must_revert_spec e) as Hr.
  destruct (must_revert e) as [[[]| | |] e1]; try done. destruct Hr as (Hi & Ht & Hl). cbn.
  destruct (CloseToken_spec t e1) as (Ht' & Hi' & Hl'). split_and!; congruence.
Qed.
Lemma adjustPrivileges_spec t ps e :
  luids_ok ps →
  match adjustPrivileges t ps SE_PRIVILEGE_ENABLED e with
  | (Ret _, e') => tokens e' = tokens e ∧ impersonating e' = impersonating e ∧ locks e' = locks e ∧ list_to_set ps ⊆ enabled e' t
  | (Fail _, e') => tokens e' = tokens e ∧ impersonating e' = impersonating e ∧ locks e' = locks e
  | _ => False
  end.
Proof.
  intros Hps. unfold adjustPrivileges. pose proof (adjust_spec t (token_privileges ps SE_PRIVILEGE_ENABLED) e) as Ha.
  destruct (adjustTokenPrivileges _ _ e) as [[[|] err] e']; destruct Ha as (Ht & Hi & Hl & H1 & H2).
  - case_bool_decide as He; [done|]. split_and!; try done. by apply H2.
  - destruct err; [done|]. by destruct H1.
Qed.

(** What happens between taking the token and giving it back. *)
Definition with_token (ps : list Z) (fn : St (privs E) unit) : St (privs E) unit :=
  token ← on_psys newThreadToken;
  finally (on_psys (releaseThreadToken token)) (_ ← on_psys (adjustPrivileges token ps SE_PRIVILEGE_ENABLED); fn).
(** From [p], the thread was restored behind a function that ended with [r] in [p2]; or that failed. *)
Definition restored p (r : res unit) p2 (x : res unit * privs E) : Prop :=
  (fst x = r ∧ thread_like p (snd x)) ∨
  (fst x = Panic revert_panic ∧ reverting_fails (psys p2) ∧ locks (psys (snd x)) = locks (psys p)).
(** It was restored before the function was called. *)
Definition not_called p (r : res unit) (p' : privs E) : Prop :=
  ((∃ err, r = Fail err) ∧ thread_like p p') ∨
  (r = Panic revert_panic ∧ (∃ e, reverting_fails e) ∧ locks (psys p') = locks (psys p)).

Definition release t (x : res unit * privs E) : res unit * privs E := finally (on_psys (releaseThreadToken t)) (λ _, x) (snd x).
Lemma release_token t r p2 p :
  (t ∉ tokens (psys p)) → tokens (psys p2) = {[t]} ∪ tokens (psys p) → locks (psys p2) = locks (psys p) → r ≠ NoFuel →
  restored p r p2 (release t (r, p2)).
Proof.
  intros Hn Ht Hl Hr. unfold release, finally, on_psys. pose proof (releaseThreadToken_spec t (psys p2)) as Hs. cbn [snd].
  destruct (releaseThreadToken t (psys p2)) as [[[]| | |] e]; try done.
  - destruct Hs as (Ht' & Hi' & Hl'). left. split; [done|]. unfold thread_like. cbn [snd psys]. rewrite Ht', Hl', Ht, Hl.
    split_and!; try done. clear -Hn. apply set_eq. set_unfold. naive_solver.
  - destruct Hs as (-> & -> & Hf). by right.
Qed.
Lemma with_token_eq ps fn p t e1 r e2 :
  newThreadToken (psys p) = (Ret t, e1) → adjustPrivileges t ps SE_PRIVILEGE_ENABLED e1 = (r, e2) →
  with_token ps fn p = release t
    (let p2 := mkPrivs (privNames p) e2 in
     match r with Ret _ => fn p2 | Fail err => (Fail err, p2) | Panic w => (Panic w, p2) | NoFuel => (NoFuel, p2) end).
Proof.
  intros Hn Ha. unfold with_token, release, finally. rewrite St_bind_eq. unfold on_psys at 1. rewrite Hn, St_bind_eq.
  unfold on_psys at 1. cbn [psys privNames]. rewrite Ha. by destruct r.
Qed.
Lemma with_token_no_token ps fn p :
  match newThreadToken (psys p) with
  | (Ret _, _) | (NoFuel, _) => True
  | (Fail err, e1) => with_token ps fn p = (Fail err, mkPrivs (privNames p) e1)
  | (Panic w, e1) => with_token ps fn p = (Panic w, mkPrivs (privNames p) e1)
  end.
Proof. unfold with_token. rewrite St_bind_eq. unfold on_psys. by destruct (newThreadToken (psys p)) as [[]]. Qed.

(** The function is given one state, and what it ends with is passed on; or it plays no part. *)
Lemma with_token_spec ps p :
  luids_ok ps → impersonating (psys p) = false →
  (∃ t p1, (t ∉ tokens (psys p)) ∧ tokens (psys p1) = {[t]} ∪ tokens (psys p) ∧ list_to_set ps ⊆ enabled (psys p1) t ∧
     impersonating (psys p1) = true ∧ locks (psys p1) = locks (psys p) ∧ ∀ fn, with_token ps fn p = release t (fn p1)) ∨
  (∃ r p', (∀ fn, with_token ps fn p = (r, p')) ∧ not_called p r p').
Proof.
  intros Hps Hi. pose proof (newThreadToken_spec (psys p) Hi) as Hn. pose proof (λ fn, with_token_no_token ps fn p) as Hno.
  destruct (newThreadToken (psys p)) as [[t|err|w|] e1] eqn:En; try done.
  - destruct Hn as (Hnt & Ht1 & Hi1 & Hl1). pose proof (adjustPrivileges_spec t ps e1 Hps) as Ha.
    destruct (adjustPrivileges t ps _ e1) as [r2 e2] eqn:Ea. pose proof (λ fn, with_token_eq ps fn p t e1 r2 e2 En Ea) as Heq.
    set (p2 := mkPrivs (privNames p) e2) in *. destruct r2 as [[]|err| |]; try done.
    + destruct Ha as (Ht2 & Hi2 & Hl2 & Hen). left. exists t, p2. cbn [psys p2]. split_and!; (done || congruence).
    + destruct Ha as (Ht2 & Hi2 & Hl2). right.
      pose proof (release_token t (Fail err) p2 p Hnt ltac:(cbn; congruence) ltac:(cbn; congruence) ltac:(done)) as Hrel.
      cbv zeta in Heq. destruct (release t _) as [rr p4]. exists rr, p4. split; [exact Heq|].
      destruct Hrel as [[Hr Hth]|(Hr & Hf & Hl)]; cbn [fst snd] in *; [left; eauto|right; eauto].
  - right. destruct Hn as (Ht & Hi1 & Hl). eexists _, _. split; [exact Hno|]. left. split; [eauto|done].
  - right. destruct Hn as (-> & Hl & Hf). eexists _, _. split; [exact Hno|]. by right.
Qed.
End PrivilegeProofs.

Section Run.
Context {E : Type} `{TokenApiSpec E}.

Lemma run_eq names ps fn (p : privs E) m :
  mapPrivileges names p = (Ret ps, mkPrivs m (psys p)) →
  RunWithPrivileges names fn p =
    (let '(r, p') := with_token ps fn (mkPrivs m (LockOSThread (psys p))) in
     (r, mkPrivs (privNames p') (UnlockOSThread (psys p')))).
Proof.
  intros Hm. unfold RunWithPrivileges. rewrite (St_bind_Ret _ _ _ _ _ Hm). rewrite St_bind_eq. unfold do_psys at 1.
  cbn [psys privNames]. unfold finally at 1. fold (with_token ps fn). by destruct (with_token ps fn _) as [r p'].
Qed.

(** The lock is given back last. *)
Lemma thread_like_unlocked (p p0 p' : privs E) m :
  locks (psys p0) = S (locks (psys p)) → tokens (psys p0) = tokens (psys p) →
  thread_like p0 p' → thread_like p (mkPrivs m (UnlockOSThread (psys p'))).
Proof.
  intros Hl Ht (H1 & H2 & H3). destruct (Unlock_spec (psys p')) as (Hl1 & Ht1 & Hi1).
  unfold thread_like. cbn [psys]. rewrite Ht1, Hl1, Hi1, H1, H2, Hl. by rewrite Ht.
Qed.
Lemma locks_unlocked (p p0 p' : privs E) :
  locks (psys p0) = S (locks (psys p)) → locks (psys p') = locks (psys p0) →
  locks (UnlockOSThread (psys p')) = locks (psys p).
Proof. intros Hl H1. destruct (Unlock_spec (psys p')) as (-> & _). by rewrite H1, Hl. Qed.
Lemma unlocked (p p0 : privs E) r p2 r' p' :
  locks (psys p0) = S (locks (psys p)) → tokens (psys p0) = tokens (psys p) →
  restored p0 r p2 (r', p') → restored p r p2 (r', mkPrivs (privNames p') (UnlockOSThread (psys p'))).
Proof.
  intros Hl Ht [[Hr Hth]|(Hr & Hf & Hl')]; cbn [fst snd] in *; [left|right]; cbn [fst snd psys].
  - split; [done|]. by apply (thread_like_unlocked p p0).
  - split_and!; try done. by apply (locks_unlocked p p0).
Qed.
Lemma unlocked_early (p p0 : privs E) r p' :
  locks (psys p0) = S (locks (psys p)) → tokens (psys p0) = tokens (psys p) →
  not_called p0 r p' → not_called p r (mkPrivs (privNames p') (UnlockOSThread (psys p'))).
Proof.
  intros Hl Ht [[Hr Hth]|(Hr & Hf & Hl')]; [left|right]; cbn [psys].
  - split; [done|]. by apply (thread_like_unlocked p p0).
  - split_and!; try done. by apply (locks_unlocked p p0).
Qed.

End Run.

(** *** Witness: a system with one thread *)
Record winsys := mkWin { w_tokens : gset Z; w_enabled : gmap Z (gset Z); w_imp : bool; w_locks : nat }.
Definition win_luid (n : list Z) : error + Z :=
  if bool_decide (n = SeBackupPrivilege) then inr 17 else if bool_decide (n = SeRestorePrivilege) then inr 18 else inl (Errno 1313).
(** The privileges in a [TOKEN_PRIVILEGES] structure. *)
Fixpoint luids_of (n : nat) (b : list Z) : list Z :=
  match n with O => [] | S n => le_val (ztake 8 b) :: luids_of n (zdrop 12 b) end.
Definition win_adjust (t : Z) (b : list Z) (e : winsys) : (bool * option error) * winsys :=
  let ps := luids_of (Z.to_nat (le_val (ztake 4 b))) (zdrop 4 b) in
  ((true, None), mkWin (w_tokens e) (<[t := list_to_set ps]> (w_enabled e)) (w_imp e) (w_locks e)).
Lemma luids_of_structure ps action : luids_ok ps → luids_of (Z.to_nat (le_val (ztake 4 (token_privileges ps action)))) (zdrop 4 (token_privileges ps action)) = ps.
Proof.
  intros [Hps Hl]. unfold token_privileges. pose_lens. rewrite ztake_app_eq, zdrop_app_eq, le_val_le32 by (done || lia).
  unfold zlen. rewrite Nat2Z.id. clear Hl. induction Hps as [|x ps Hx _ IH]; [done|]. cbn [length luids_of fmap list_fmap concat].
  rewrite <- !app_assoc. rewrite ztake_app_eq, le_val_le64 by done. f_equal.
  rewrite app_assoc, zdrop_app_eq by (rewrite zlen_app; done). apply IH, zlen_nonneg.
Qed.

#[export] Instance win_TokenApi : TokenApi winsys := {|
  lookupPrivilegeValue n e := (match win_luid n with inl err => Fail err | inr p => Ret p end, e);
  lookupPrivilegeName l e := (Ret (1, [65]), e);
  lookupPrivilegeDisplayName n e := (Ret (1, [66]), e);
  impersonateSelf l e := (Ret (), mkWin (w_tokens e) (w_enabled e) true (w_locks e));
  revertToSelf e := (Ret (), mkWin (w_tokens e) (w_enabled e) false (w_locks e));
  openThreadToken a e := let t := fresh (w_tokens e) in (Ret t, mkWin ({[t]} ∪ w_tokens e) (w_enabled e) (w_imp e) (w_locks e));
  OpenProcessToken a e := let t := fresh (w_tokens e) in (Ret t, mkWin ({[t]} ∪ w_tokens e) (w_enabled e) (w_imp e) (w_locks e));
  CloseToken t e := mkWin (w_tokens e ∖ {[t]}) (w_enabled e) (w_imp e) (w_locks e);
  adjustTokenPrivileges := win_adjust;
  LockOSThread e := mkWin (w_tokens e) (w_enabled e) (w_imp e) (S (w_locks e));
  UnlockOSThread e := mkWin (w_tokens e) (w_enabled e) (w_imp e) (pred (w_locks e)) |}.
#[export, program] Instance win_TokenApiSpec : TokenApiSpec winsys := {|
  luid := win_luid; impersonating := w_imp; tokens := w_tokens; locks := w_locks;
  enabled e t := default ∅ (w_enabled e !! t) |}.
Next Obligation. done. Qed.
Next Obligation. intros n x. unfold win_luid. repeat case_bool_decide; intros [= <-]; lia. Qed.
Next Obligation. done. Qed.
Next Obligation. done. Qed.
Next Obligation. intros a e. cbn. split; [apply is_fresh|done]. Qed.
Next Obligation. done. Qed.
Next Obligation.
  intros t b e. cbn [adjustTokenPrivileges win_TokenApi win_adjust w_tokens w_imp w_locks w_enabled]. split_and!; try done.
  intros _ _ ps Hps ->. rewrite luids_of_structure by done. rewrite lookup_insert_eq. done.
Qed.
Next Obligation. done. Qed.
Next Obligation. done. Qed.

Definition win_example : privs winsys := mkPrivs ∅ (mkWin {[3]} ∅ false 0).
