(* ===== verification/Vhd.v ===== *)
(** * Virtual disks ([vhd/vhd.go])

    The parameters of the calls to [virtdisk.dll], and the helpers that open a
    disk for the time of one call. *)
From S2P Require Import Prelude VhdFlags GoStrings Unicode Guid Handles Paths.


Record VirtualStorageType := mkVST { DeviceID : Z; VendorID : GUID }.
(** The paths are [nil] or NUL-terminated. *)
Record CreateVersion2 := mkCV2 {
  UniqueID : GUID; MaximumSize : Z; BlockSizeInBytes : Z; SectorSizeInBytes : Z; PhysicalSectorSizeInByte : Z;
  ParentPath : option (list Z); SourcePath : option (list Z); OpenFlags : Z;
  ParentVirtualStorageType : VirtualStorageType; SourceVirtualStorageType : VirtualStorageType; cv_ResiliencyGUID : GUID }.
Record CreateVirtualDiskParameters := mkCP { cp_Version : Z; cp_Version2 : CreateVersion2 }.
Record OpenVersion2 := mkOV2 { GetInfoOnly : bool; ReadOnly : bool; ov_ResiliencyGUID : GUID }.
Record OpenVirtualDiskParameters := mkOP { op_Version : Z; op_Version2 : OpenVersion2 }.
Record openVersion2 := mkov2 { getInfoOnly : Z; readOnly : Z; resiliencyGUID : GUID }.
Record openVirtualDiskParameters := mkop { version : Z; version2 : openVersion2 }.
Record AttachVersion2 := mkAV2 { RestrictedOffset : Z; RestrictedLength : Z }.
Record AttachVirtualDiskParameters := mkAP { ap_Version : Z; ap_Version2 : AttachVersion2 }.

Definition zero_guid : GUID := mkGUID 0 0 0 (replicate 8 0).
Definition zero_type : VirtualStorageType := mkVST 0 zero_guid.
(** [CreateVersion2{...}] with the fields the helpers set. *)
Definition create_version2 (MaximumSize BlockSizeInBytes : Z) (ParentPath : option (list Z)) (OpenFlags : Z) : CreateVersion2 :=
  mkCV2 zero_guid MaximumSize BlockSizeInBytes 0 0 ParentPath None OpenFlags zero_type zero_type zero_guid.

(** ** The calls *)
Class VhdApi (E : Type) : Type := {
  createVirtualDisk : VirtualStorageType → list Z → Z → Z → CreateVirtualDiskParameters → St E Z;
  openVirtualDisk : VirtualStorageType → list Z → Z → Z → openVirtualDiskParameters → St E Z;
  attachVirtualDisk : Z → Z → AttachVirtualDiskParameters → St E unit;
  detachVirtualDisk : Z → Z → St E unit;
  getVirtualDiskPhysicalPath : Z → Z → St E (list Z);
  syscall_CloseHandle : Z → St E unit }.

Section Vhd.
Context {E : Type} `{FileApi E} `{VhdApi E}.

Definition only_version_2 (v : Z) : error := Errorf "only version 2 VHDs are supported, found version: %d" [v] [].
Definition CreateVirtualDisk (path : list Z) (mask flags : Z) (parameters : CreateVirtualDiskParameters) : St E Z :=
  if negb (cp_Version parameters =? 2) then fail (only_version_2 (cp_Version parameters))
  else map_err (Wrapf "failed to create virtual disk: %w" [] []) (createVirtualDisk zero_type path mask flags parameters).

Definition bool_int32 (b : bool) : Z := if b then 1 else 0.
Definition OpenVirtualDiskWithParameters (vhdPath : list Z) (mask flags : Z) (parameters : OpenVirtualDiskParameters) : St E Z :=
  if negb (op_Version parameters =? 2) then fail (only_version_2 (op_Version parameters))
  else
    let v2 := op_Version2 parameters in
    let params := mkop (op_Version parameters)
      (mkov2 (bool_int32 (GetInfoOnly v2)) (bool_int32 (ReadOnly v2)) (ov_ResiliencyGUID v2)) in
    map_err (Wrapf "failed to open virtual disk: %w" [] []) (openVirtualDisk zero_type vhdPath mask flags params).
Definition OpenVirtualDisk (vhdPath : list Z) (mask flags : Z) : St E Z :=
  OpenVirtualDiskWithParameters vhdPath mask flags (mkOP 2 (mkOV2 false false zero_guid)).

Definition CreateVhdx (path : list Z) (maxSizeInGb blockSizeInMb : Z) : St E unit :=
  let params := mkCP 2 (create_version2 (u64 (maxSizeInGb * 1024 * 1024 * 1024)) (u32 (blockSizeInMb * 1024 * 1024)) None 0) in
  handle ← CreateVirtualDisk path VirtualDiskAccessNone CreateVirtualDiskFlagNone params;
  syscall_CloseHandle handle.

Definition DetachVirtualDisk (handle : Z) : St E unit :=
  map_err (Wrapf "failed to detach virtual disk: %w" [] []) (detachVirtualDisk handle 0).
Definition AttachVirtualDisk (handle flag : Z) (parameters : AttachVirtualDiskParameters) : St E unit :=
  map_err (Wrapf "failed to attach virtual disk: %w" [] []) (attachVirtualDisk handle flag parameters).

(** [defer syscall.CloseHandle(handle)], the error ignored *)
Definition closing {A} (h : Z) (m : St E A) : St E A := λ e, let '(r, e) := m e in (r, snd (syscall_CloseHandle h e)).
Definition helper_flags : Z := Z.lor OpenVirtualDiskFlagCachedIO OpenVirtualDiskFlagIgnoreRelativeParentLocator.
Definition DetachVhd (path : list Z) : St E unit :=
  handle ← OpenVirtualDisk path VirtualDiskAccessNone helper_flags;
  closing handle (DetachVirtualDisk handle).
Definition AttachVhd (path : list Z) : St E unit :=
  handle ← OpenVirtualDisk path VirtualDiskAccessNone helper_flags;
  closing handle (map_err (Wrapf "failed to attach virtual disk: %w" [] [])
    (AttachVirtualDisk handle AttachVirtualDiskFlagNone (mkAP 2 (mkAV2 0 0)))).

(** The words written, in a buffer of 256. *)
Definition GetVirtualDiskPhysicalPath (UTF16ToString : list Z → list Z) (handle : Z) : St E (list Z) :=
  ws ← map_err (Wrapf "failed to get disk physical path: %w" [] []) (getVirtualDiskPhysicalPath handle 512);
  mret (UTF16ToString (ztake 256 (ws ++ replicate 256 0))).

(** [windows.StringToUTF16Ptr] panics on a NUL. *)
Definition CreateDiffVhd (diffVhdPath baseVhdPath : list Z) (blockSizeInMB : Z) : St E unit :=
  if bool_decide (0 ∈ baseVhdPath) then panic "windows: string with NUL passed to StringToUTF16"
  else
    let createParams := mkCP 2 (create_version2 0 (u32 (blockSizeInMB * 1024 * 1024)) (Some (to_utf16 baseVhdPath ++ [0])) OpenVirtualDiskFlagCachedIO) in
    vhdHandle ← map_err (Wrapf "failed to create differencing vhd: %w" [] [])
      (CreateVirtualDisk diffVhdPath VirtualDiskAccessNone CreateVirtualDiskFlagNone createParams);
    map_err (Wrapf "failed to close differencing vhd handle: %w" [] []) (syscall_CloseHandle vhdHandle).
End Vhd.

(** ** Open handles *)
Class VhdApiSpec (E : Type) `{FileApiSpec E} `{VhdApi E} : Type := {
  create_spec t p m f c e :
    match createVirtualDisk t p m f c e with
    | (Ret h, e') => (h ∉ files e) ∧ files e' = {[h]} ∪ files e
    | (Fail _, e') => files e' = files e
    | _ => False
    end;
  open_spec t p m f o e :
    match openVirtualDisk t p m f o e with
    | (Ret h, e') => (h ∉ files e) ∧ files e' = {[h]} ∪ files e
    | (Fail _, e') => files e' = files e
    | _ => False
    end;
  attach_spec h f a e : match attachVirtualDisk h f a e with (Ret _, e') | (Fail _, e') => files e' = files e | _ => False end;
  detach_spec h f e : match detachVirtualDisk h f e with (Ret _, e') | (Fail _, e') => files e' = files e | _ => False end;
  close_spec h e : h ∈ files e →
    match syscall_CloseHandle h e with
    | (Ret _, e') | (Fail _, e') => files e' = files e ∖ {[h]}
    | _ => False
    end }.

Section VhdProofs.
Context {E : Type} `{VhdApiSpec E}.

(** A call that opens one disk when it succeeds. *)
Definition opens_disk (m : St E Z) : Prop := ∀ e,
  match m e with
  | (Ret h, e') => (h ∉ files e) ∧ files e' = {[h]} ∪ files e
  | (Fail _, e') => files e' = files e
  | _ => False
  end.
Lemma disk_map_err g m : opens_disk m → opens_disk (map_err g m).
Proof. intros Hm e. specialize (Hm e). unfold map_err. by destruct (m e) as [[]]. Qed.
Lemma opens_fail err : opens_disk (fail err).
Proof. done. Qed.
Lemma CreateVirtualDisk_opens p m f c : opens_disk (CreateVirtualDisk p m f c).
Proof. unfold CreateVirtualDisk. case_match; [apply opens_fail|]. apply disk_map_err. intros e. apply create_spec. Qed.
Lemma OpenVirtualDiskWithParameters_opens p m f o : opens_disk (OpenVirtualDiskWithParameters p m f o).
Proof. unfold OpenVirtualDiskWithParameters. case_match; [apply opens_fail|]. apply disk_map_err. intros e. apply open_spec. Qed.

(** Everything is closed again. *)
Definition closed_after {A} (m : St E A) : Prop := ∀ e,
  match m e with (Ret _, e') | (Fail _, e') => files e' = files e | (Panic _, e') => e' = e | (NoFuel, _) => False end.
Lemma diff_new h (x : gset Z) : h ∉ x → ({[h]} ∪ x) ∖ {[h]} = x.
Proof. intros Hn. apply set_eq. set_unfold. naive_solver. Qed.
Lemma closed_bind {A} (m : St E Z) (k : Z → St E A) :
  opens_disk m → (∀ h e, h ∈ files e → match k h e with (Ret _, e') | (Fail _, e') => files e' = files e ∖ {[h]} | _ => False end) →
  closed_after (m ≫= k).
Proof.
  intros Hm Hk e. rewrite St_bind_eq. specialize (Hm e). destruct (m e) as [[h|err| |] e1]; try done.
  destruct Hm as [Hn He]. assert (Hin : h ∈ files e1) by (rewrite He; clear; set_solver). specialize (Hk h e1 Hin).
  destruct (k h e1) as [[]]; try done; by rewrite Hk, He, diff_new.
Qed.
Definition no_handles {A} (m : St E A) : Prop := ∀ e,
  match m e with (Ret _, e') | (Fail _, e') => files e' = files e | _ => False end.
Lemma no_handles_map_err {A} g (m : St E A) : no_handles m → no_handles (map_err g m).
Proof. intros Hm e. specialize (Hm e). unfold map_err. by destruct (m e) as [[]]. Qed.
Lemma closing_closes {A} (m : St E A) h e :
  no_handles m → h ∈ files e →
  match closing h m e with (Ret _, e') | (Fail _, e') => files e' = files e ∖ {[h]} | _ => False end.
Proof.
  intros Hm Hin. unfold closing. specialize (Hm e). destruct (m e) as [r e1].
  assert (Hf : files e1 = files e → files (snd (syscall_CloseHandle h e1)) = files e ∖ {[h]}).
  { intros He. pose proof (close_spec h e1) as Hc. rewrite He in Hc. specialize (Hc Hin). by destruct (syscall_CloseHandle h e1) as [[]]. }
  destruct r; auto.
Qed.
Lemma attach_no_handles h f a : no_handles (AttachVirtualDisk h f a).
Proof. apply no_handles_map_err. intros e. apply attach_spec. Qed.
Lemma detach_no_handles h : no_handles (DetachVirtualDisk h).
Proof. apply no_handles_map_err. intros e. apply detach_spec. Qed.
End VhdProofs.

(** the helpers leave no handle open: [CreateVhdx], [CreateDiffVhd],
    [AttachVhd] and [DetachVhd] close the disk they create or open, also when the
    call in between fails; parameters of another version than 2 are refused
    before any call. *)
Theorem vhd_closed {E : Type} `{VhdApiSpec E} path base gb mb :
  closed_after (CreateVhdx path gb mb : St E unit) ∧ closed_after (CreateDiffVhd path base mb : St E unit) ∧
  closed_after (AttachVhd path : St E unit) ∧ closed_after (DetachVhd path : St E unit) ∧
  (∀ m f c (e : E), cp_Version c ≠ 2 → CreateVirtualDisk path m f c e = (Fail (only_version_2 (cp_Version c)), e)) ∧
  (∀ m f o (e : E), op_Version o ≠ 2 → OpenVirtualDiskWithParameters path m f o e = (Fail (only_version_2 (op_Version o)), e)).
Proof.
  split_and!.
  - apply closed_bind; [apply CreateVirtualDisk_opens|]. intros h e. apply close_spec.
  - intros e. unfold CreateDiffVhd. case_bool_decide; [done|]. revert e. apply closed_bind; [apply disk_map_err, CreateVirtualDisk_opens|].
    intros h e Hin. pose proof (close_spec h e Hin) as Hc. unfold map_err. by destruct (syscall_CloseHandle h e) as [[]].
  - apply closed_bind; [apply OpenVirtualDiskWithParameters_opens|]. intros h e.
    apply closing_closes, no_handles_map_err, attach_no_handles.
  - apply closed_bind; [apply OpenVirtualDiskWithParameters_opens|]. intros h e. apply closing_closes, detach_no_handles.
  - intros m f c e Hv. unfold CreateVirtualDisk. by rewrite (proj2 (Z.eqb_neq _ _) Hv).
  - intros m f o e Hv. unfold OpenVirtualDiskWithParameters. by rewrite (proj2 (Z.eqb_neq _ _) Hv).
Qed.

(** The sizes: the maximum is exact for every 32-bit count of gigabytes, the
    block size only below 4096 megabytes. *)
Lemma vhdx_sizes gb mb :
  0 ≤ gb < 4294967296 → 0 ≤ mb < 4294967296 →
  u64 (gb * 1024 * 1024 * 1024) = gb * 2 ^ 30 ∧ (u32 (mb * 1024 * 1024) = mb * 2 ^ 20 ↔ mb < 4096).
Proof.
  intros Hg Hm. rewrite u64_small by lia. split; [lia|]. split.
  - pose proof (u32_range (mb * 1024 * 1024)). lia.
  - intros. rewrite u32_small; lia.
Qed.
Example vhdx_block_size_wraps : u32 (4096 * 1024 * 1024) = 0.
Proof. reflexivity. Qed.

(** *** Witness: a host that knows its open disks *)
Record vhost := mkVH { vh_open : gset Z }.
#[export] Instance vhost_FileApi : FileApi vhost := {|
  createIoCompletionPort h p e := (Ret 1, e);
  setFileCompletionNotificationModes h m e := (Ret (), e);
  CloseHandle h e := mkVH (vh_open e ∖ {[h]}) |}.
#[export, program] Instance vhost_FileApiSpec : FileApiSpec vhost := {| files := vh_open |}.
Next Obligation. done. Qed.
Next Obligation. done. Qed.
Next Obligation. done. Qed.
Definition vhost_open (e : vhost) : res Z * vhost := (Ret (fresh (vh_open e)), mkVH ({[fresh (vh_open e)]} ∪ vh_open e)).
#[export] Instance vhost_VhdApi : VhdApi vhost := {|
  createVirtualDisk t p m f c := vhost_open;
  openVirtualDisk t p m f o := vhost_open;
  attachVirtualDisk h f a e := (Fail (Errno 5), e);
  detachVirtualDisk h f e := (Ret (), e);
  getVirtualDiskPhysicalPath h n e := (Ret (to_utf16 (str "\\.\PhysicalDrive1") ++ [0]), e);
  syscall_CloseHandle h e := (Ret (), mkVH (vh_open e ∖ {[h]})) |}.
#[export, program] Instance vhost_VhdApiSpec : VhdApiSpec vhost.
Next Obligation. intros t p m f c e. cbn. split; [apply is_fresh|done]. Qed.
Next Obligation. intros t p m f c e. cbn. split; [apply is_fresh|done]. Qed.
Next Obligation. done. Qed.
Next Obligation. done. Qed.
Next Obligation. done. Qed.
Lemma vhd_closed_witness :
  fst (AttachVhd (str "a.vhdx") (mkVH {[4]})) = Fail (Wrapf "failed to attach virtual disk: %w" [] []
    (Wrapf "failed to attach virtual disk: %w" [] [] (Errno 5))) ∧
  files (snd (AttachVhd (str "a.vhdx") (mkVH {[4]}))) = {[4]}.
Proof.
  pose proof (vhd_closed (E := vhost) (str "a.vhdx") (str "b.vhdx") 1 1) as (_ & _ & Ha & _). specialize (Ha (mkVH {[4]})).
  assert (E : fst (AttachVhd (str "a.vhdx") (mkVH {[4]})) = Fail (Wrapf "failed to attach virtual disk: %w" [] []
    (Wrapf "failed to attach virtual disk: %w" [] [] (Errno 5)))) by (by vm_compute).
  split; [exact E|]. destruct (AttachVhd (str "a.vhdx") (mkVH {[4]})) as [r e]. cbn [fst snd] in *. subst r. exact Ha.
Defined.
