(* ===== verification/Process.v ===== *)
(** * Processes ([pkg/process])

    The two calls whose result does not fit a buffer of known size, and the
    loops that find one. *)
From S2P Require Import Prelude GoStrings Unicode.

Definition ERROR_INSUFFICIENT_BUFFER : error := Errno 122.

(** [enumProcesses n] writes identifiers into [n] bytes and says how many bytes
    it used; [queryFullProcessImageName] returns the words it wrote and their number. *)
Class ProcessApi (E : Type) : Type := {
  enumProcesses : Z → St E (list Z * Z);
  queryFullProcessImageName : Z → Z → Z → St E (list Z * Z) }.

Section Process.
Context {E : Type} `{ProcessApi E}.

Fixpoint enum_loop (fuel : nat) (count : Z) : St E (list Z) := λ e,
  match fuel with
  | O => (NoFuel, e)
  | S fuel =>
      let bufferSize := u32 (count * 4) in
      match enumProcesses bufferSize e with
      | (Ret (ids, retBufferSize), e) =>
          let buf := ztake count (ids ++ replicate (Z.to_nat count) 0) in
          if retBufferSize =? bufferSize then enum_loop fuel (count * 2) e
          else (slice buf 0 (retBufferSize / 4), e)
      | (Fail err, e) => (Fail err, e)
      | (Panic w, e) => (Panic w, e)
      | (NoFuel, e) => (NoFuel, e)
      end
  end.
Definition EnumProcesses (fuel : nat) : St E (list Z) := enum_loop fuel 256.

(** A buffer of no words has no first word to point to. *)
Fixpoint name_loop (fuel : nat) (UTF16ToString : list Z → list Z) (process flags bufferSize : Z) : St E (list Z) := λ e,
  match fuel with
  | O => (NoFuel, e)
  | S fuel =>
      if bufferSize =? 0 then (Panic "index out of range", e)
      else
        match queryFullProcessImageName process flags bufferSize e with
        | (Ret (ws, n), e) =>
            let b := ztake bufferSize (ws ++ replicate (Z.to_nat bufferSize) 0) in
            (s ← slice b 0 n; Ret (UTF16ToString s), e)
        | (Fail err, e) =>
            if bool_decide (err = ERROR_INSUFFICIENT_BUFFER) then name_loop fuel UTF16ToString process flags (u32 (bufferSize * 2)) e
            else (Fail err, e)
        | (Panic w, e) => (Panic w, e)
        | (NoFuel, e) => (NoFuel, e)
        end
  end.
Definition QueryFullProcessImageName (fuel : nat) (UTF16ToString : list Z → list Z) (process flags : Z) : St E (list Z) :=
  name_loop fuel UTF16ToString process flags 256.
End Process.

(** The system's processes, and the image name of each, or an error that is
    not one of the buffer. *)
Class ProcessApiSpec (E : Type) `{ProcessApi E} : Type := {
  processes : E → list Z;
  image : E → Z → Z → error + list Z;
  image_text e p f s : image e p f = inr s → valid_utf8 s ∧ 0 ∉ s;
  image_error e p f err : image e p f = inl err → err ≠ ERROR_INSUFFICIENT_BUFFER;
  enumProcesses_spec n e :
    enumProcesses n e = (Ret (ztake (n / 4) (processes e), 4 * zlen (ztake (n / 4) (processes e))), e);
  query_spec p f n e :
    queryFullProcessImageName p f n e =
      (match image e p f with
       | inl err => Fail err
       | inr s => if zlen (to_utf16 s) <? n then Ret (to_utf16 s ++ [0], zlen (to_utf16 s)) else Fail ERROR_INSUFFICIENT_BUFFER
       end, e) }.

Section ProcessProofs.
Context {E : Type} `{ProcessApiSpec E}.
Implicit Types e : E.

Lemma ztake_zlen {A} n (l : list A) : 0 ≤ n → zlen (ztake n l) = Z.min n (zlen l).
Proof. intros. unfold ztake, zlen. rewrite length_take. lia. Qed.

Lemma enum_result (ids : list Z) count : zlen ids < count →
  slice (ztake count (ids ++ replicate (Z.to_nat count) 0)) 0 (4 * zlen ids / 4) = Ret ids.
Proof.
  intros Hl. pose_lens. rewrite (Z.mul_comm 4), Z.div_mul by lia.
  rewrite slice_ok, zdrop_0, Z.sub_0_r by (rewrite ?ztake_zlen, ?zlen_app; pose_lens; lia).
  unfold ztake. rewrite take_take, Nat.min_l, take_app_le by (unfold zlen in *; lia). by rewrite take_ge by (unfold zlen; lia).
Qed.
(** [k] doublings make the buffer large enough. *)
Lemma enum_loop_spec k fuel count e :
  0 < count → zlen (processes e) < count * 2 ^ Z.of_nat k → count * 2 ^ Z.of_nat k < 1073741824 → (k < fuel)%nat →
  enum_loop fuel count e = (Ret (processes e), e).
Proof.
  revert fuel count. induction k as [|k IH]; intros fuel count Hc Hl Hb Hf; (destruct fuel as [|fuel]; [lia|]);
    cbn [enum_loop]; rewrite enumProcesses_spec.
  - rewrite Z.mul_1_r in *. rewrite u32_small by lia. rewrite Z.div_mul by lia. pose_lens. rewrite ztake_all by lia.
    replace (4 * zlen (processes e) =? count * 4) with false by lia. by rewrite enum_result.
  - rewrite Nat2Z.inj_succ, Z.pow_succ_r in * by lia. assert (0 < 2 ^ Z.of_nat k) by (apply Z.pow_pos_nonneg; lia).
    rewrite u32_small by nia. rewrite Z.div_mul by lia. pose_lens.
    destruct (Z.leb_spec count (zlen (processes e))) as [Hle|Hgt].
    + rewrite ztake_zlen, Z.min_l, (Z.mul_comm 4), Z.eqb_refl by lia. apply IH; nia.
    + rewrite (ztake_all count) by lia. replace (4 * zlen (processes e) =? count * 4) with false by lia. by rewrite enum_result.
Qed.
End ProcessProofs.

Section Names.
Context {E : Type} `{ProcessApiSpec E} (U : list Z → list Z) `{!UTF16ToStringSpec U}.

Lemma name_loop_spec k fuel p f n (e : E) s :
  image e p f = inr s → 0 < n → zlen (to_utf16 s) < n * 2 ^ Z.of_nat k → n * 2 ^ Z.of_nat k < 4294967296 → (k < fuel)%nat →
  name_loop fuel U p f n e = (Ret s, e).
Proof.
  intros Hs. destruct (image_text _ _ _ _ Hs) as [Hv Hz]. revert fuel n.
  assert (Hlast : ∀ fuel n, 0 < n → zlen (to_utf16 s) < n → name_loop (S fuel) U p f n e = (Ret s, e)).
  { intros fuel n Hn Hl. cbn [name_loop]. rewrite (proj2 (Z.eqb_neq _ _)), query_spec, Hs, (proj2 (Z.ltb_lt _ _) Hl) by lia.
    pose_lens. rewrite slice_ok, zdrop_0, Z.sub_0_r by (rewrite ?ztake_zlen, ?zlen_app; pose_lens; change (zlen [0]) with 1; lia).
    cbn [mbind res_bind]. do 2 f_equal. unfold ztake. rewrite <- app_assoc, take_take, Nat.min_l, take_app_le by (unfold zlen in *; lia).
    rewrite take_ge by (unfold zlen; lia). by apply utf16_to_string. }
  induction k as [|k IH]; intros fuel n Hn Hl Hb Hf; (destruct fuel as [|fuel]; [lia|]).
  { rewrite Z.mul_1_r in Hl. by apply Hlast. }
  destruct (Z.ltb_spec (zlen (to_utf16 s)) n) as [Hlt|Hge]; [by apply Hlast|].
  rewrite Nat2Z.inj_succ, Z.pow_succ_r in * by lia. assert (0 < 2 ^ Z.of_nat k) by (apply Z.pow_pos_nonneg; lia).
  cbn [name_loop]. rewrite (proj2 (Z.eqb_neq _ _)), query_spec, Hs, (proj2 (Z.ltb_ge _ _) Hge) by lia.
  rewrite bool_decide_eq_true_2 by done. rewrite u32_small by nia. apply IH; nia.
Qed.
End Names.

(** with fewer than 2^29 processes, [EnumProcesses] ends and returns them all,
    as the system lists them: its buffer is doubled at most 21 times and its size never wraps.
    [QueryFullProcessImageName] ends with the name of the process for every name
    of less than 2^31 words, and with the system's error when there is none. *)
Theorem process_queries {E : Type} `{ProcessApiSpec E} (U : list Z → list Z) `{!UTF16ToStringSpec U} fuel p f (e : E) :
  (24 ≤ fuel)%nat → zlen (processes e) < 536870912 →
  (∀ s, image e p f = inr s → zlen (to_utf16 s) < 2147483648) →
  EnumProcesses fuel e = (Ret (processes e), e) ∧
  QueryFullProcessImageName fuel U p f e = (match image e p f with inr s => Ret s | inl err => Fail err end, e).
Proof.
  intros Hf Hp Hs. split.
  - apply (enum_loop_spec 21); [lia|change (256 * 2 ^ Z.of_nat 21) with 536870912; lia|done|lia].
  - unfold QueryFullProcessImageName. destruct (image e p f) as [err|s] eqn:Ei.
    + pose proof (image_error _ _ _ _ Ei). destruct fuel as [|fuel]; [lia|]. cbn [name_loop].
      change (256 =? 0) with false. cbv iota. rewrite query_spec, Ei. by rewrite bool_decide_eq_false_2.
    + apply (name_loop_spec U 23); [done|lia|specialize (Hs s eq_refl); change (256 * 2 ^ Z.of_nat 23) with 2147483648; lia|done|lia].
Qed.

(** *** Witness: 600 processes *)
#[export] Instance table_ProcessApi : ProcessApi (list Z) := {|
  enumProcesses n e := (Ret (ztake (n / 4) e, 4 * zlen (ztake (n / 4) e)), e);
  queryFullProcessImageName p f n e :=
    (match (if bool_decide (p ∈ e) then inr (str "C:\p.exe") else inl (Errno 6)) with
     | inl err => Fail err
     | inr s => if zlen (to_utf16 s) <? n then Ret (to_utf16 s ++ [0], zlen (to_utf16 s)) else Fail ERROR_INSUFFICIENT_BUFFER
     end, e) |}.
#[export, program] Instance table_ProcessApiSpec : ProcessApiSpec (list Z) := {|
  processes e := e; image e p f := if bool_decide (p ∈ e) then inr (str "C:\p.exe") else inl (Errno 6) |}.
Next Obligation. intros e p f s. cbn beta. case_bool_decide; [|done]. intros [= <-]. split; [apply ascii_valid_utf8; decide_now|decide_now]. Qed.
Next Obligation. intros e p f err. cbn beta. case_bool_decide; [done|]. by intros [= <-]. Qed.
Next Obligation. done. Qed.
Next Obligation. done. Qed.
Definition table_example : list Z := (λ n, 4 * Z.of_nat n) <$> seq 0 600.
Lemma process_queries_witness :
  EnumProcesses 24 table_example = (Ret table_example, table_example) ∧
  QueryFullProcessImageName 24 utf16_cstring 8 0 table_example = (Ret (str "C:\p.exe"), table_example).
Proof.
  destruct (process_queries utf16_cstring 24 8 0 table_example) as [He Hq]; [lia|by vm_compute| |split; [exact He|]].
  - intros s. intros Hs. vm_compute in Hs. injection Hs as <-. by vm_compute.
  - etransitivity; [exact Hq|]. by vm_compute.
Defined.
