(* ===== verification/Accounts.v ===== *)
(** * Accounts and access lists ([sd.go], [pkg/security])

    Lookups of accounts by name and by identifier, the conversion of security
    descriptors, and [GrantVmGroupAccess].  What they take from the system they
    give back: handles, and local memory. *)
From S2P Require Import Prelude FsFlags GoStrings Unicode Handles Paths BindFilter.

Definition ERROR_NONE_MAPPED : error := Errno 1332.
Definition ERROR_INSUFFICIENT_BUFFER : error := Errno 122.
Definition ERROR_INCORRECT_SIZE : error := Errno 1462.
(** [&AccountLookupError{name, err}] and [&SddlConversionError{sddl, err}] *)
Definition AccountLookupError (name : list Z) (err : error) : error := Wrapf "lookup account" [] [name] err.
Definition SddlConversionError (sddl : list Z) (err : error) : error := Wrapf "convert" [] [sddl] err.
(** Their texts, given those of other errors, and what they wrap. *)
Definition ERROR_INVALID_SID : error := Errno 1337.
Definition AccountLookupError_Error (Error : error → list Z) (name : list Z) (err : error) : list Z :=
  if bool_decide (name = []) then str "lookup account: empty account name specified"
  else
    let s := if errors_is err ERROR_INVALID_SID then str "the security ID structure is invalid"
             else if errors_is err ERROR_NONE_MAPPED then str "not found" else Error err in
    str "lookup account " ++ name ++ str ": " ++ s.
Definition SddlConversionError_Error (Error : error → list Z) (sddl : list Z) (err : error) : list Z :=
  str "convert " ++ sddl ++ str ": " ++ Error err.
Definition Unwrap (e : error) : option error := match e with Wrapf _ _ _ err => Some err | _ => None end.

(** ** The calls

    The lookups take the sizes of their two buffers and return the sizes they
    need or used, with what they wrote into the first. *)
Class AccountApi (E : Type) : Type := {
  lookupAccountName : list Z → Z → Z → E → (option error * (Z * Z * list Z)) * E;
  lookupAccountSid : Z → Z → Z → E → (option error * (Z * Z * list Z)) * E;
  convertSidToStringSid : list Z → St E Z;
  convertStringSidToSid : list Z → St E Z;
  local_words : Z → E → list Z;
  free : Z → E → E;
  SecurityDescriptorFromString : list Z → St E (list Z);
  SecurityDescriptor_String : list Z → list Z;
  IsDir : list Z → St E bool;
  OpenForSecurity : list Z → Z → Z → Z → Z → St E Z;
  getSecurityInfo : Z → Z → Z → St E (Z * Z);
  setSecurityInfo : Z → Z → Z → Z → St E unit;
  StringToSid : list Z → St E (list Z);
  setEntriesInAcl : Z → list Z → Z → St E Z }.

Section Accounts.
Context {E : Type} `{FileApi E} `{AccountApi E} (UTF16ToString : list Z → list Z).

(** [&b[0]] of a buffer of [n] elements *)
Definition first_of (n : Z) : St E unit := if n =? 0 then panic "index out of range" else mret ().
Definition filled (n : Z) (ws : list Z) : list Z := ztake n (ws ++ replicate (Z.to_nat n) 0).
(** [defer LocalFree(p)] *)
Definition with_local {A} (p : Z) (m : St E A) : St E A := λ e, let '(r, e) := m e in (r, free p e).
(** A lookup is asked for its sizes first, and then to fill the buffers. *)
Definition lookup_call : Type := Z → Z → E → (option error * (Z * Z * list Z)) * E.
Definition fill_buffers (who : list Z) (call : lookup_call) (n d : Z) : St E (list Z) := λ e,
  let '((err, (_, _, b)), e) := call n d e in
  (match err with Some err => Fail (AccountLookupError who err) | None => Ret (filled n b) end, e).
Definition account_lookup (who : list Z) (call : lookup_call) : St E (list Z) := λ e,
  let '((err, (n, d, _)), e) := call 0 0 e in
  if bool_decide (err = None ∨ err = Some ERROR_INSUFFICIENT_BUFFER)
  then (_ ← first_of n; _ ← first_of d; fill_buffers who call n d) e
  else (match err with Some err => Fail (AccountLookupError who err) | None => Ret [] end, e).
Definition LookupSidByName (name : list Z) : St E (list Z) :=
  if bool_decide (name = []) then fail (AccountLookupError name ERROR_NONE_MAPPED)
  else
    sidBuffer ← account_lookup name (lookupAccountName name);
    strBuffer ← map_err (AccountLookupError name) (convertSidToStringSid sidBuffer);
    e ← get;
    _ ← modify (free strBuffer);
    mret (UTF16ToString (ztake 65535 (local_words strBuffer e))).
Definition LookupNameBySid (sid : list Z) : St E (list Z) :=
  if bool_decide (sid = []) then fail (AccountLookupError sid ERROR_NONE_MAPPED)
  else if bool_decide (0 ∈ sid) then fail (AccountLookupError sid EINVAL)
  else
    sidPtr ← map_err (AccountLookupError sid) (convertStringSidToSid sid);
    with_local sidPtr (
      nameBuffer ← account_lookup sid (lookupAccountSid sidPtr);
      mret (UTF16ToString nameBuffer)).

Definition SddlToSecurityDescriptor (sddl : list Z) : St E (list Z) :=
  map_err (SddlConversionError sddl) (SecurityDescriptorFromString sddl).
(** [unsafe.Sizeof(windows.SECURITY_DESCRIPTOR{})], with pointers of eight bytes *)
Definition sizeof_SECURITY_DESCRIPTOR : Z := 40.
Definition SecurityDescriptorToSddl (sd : list Z) : St E (list Z) :=
  if zlen sd <? sizeof_SECURITY_DESCRIPTOR then
    fail (Wrapf "SecurityDescriptor (%d) smaller than expected (%d): %w" [zlen sd; sizeof_SECURITY_DESCRIPTOR] [] ERROR_INCORRECT_SIZE)
  else mret (SecurityDescriptor_String sd).

(** ** [GrantVmGroupAccess] *)
Definition gvmga : list Z := str "GrantVmGroupAccess:".
Definition accessMaskDesiredPermission : Z := Z.shiftl 1 31.
Definition accessModeGrant : Z := 1.
Definition desiredAccessReadControl : Z := 131072.
Definition desiredAccessWriteDac : Z := 262144.
Definition inheritModeNoInheritance : Z := 0.
Definition inheritModeSubContainersAndObjectsInherit : Z := 3.
Definition objectTypeFileObject : Z := 1.
Definition securityInformationDACL : Z := 4.
Definition shareModeRead : Z := 1.
Definition shareModeWrite : Z := 2.
Definition sidVMGroup : list Z := str "S-1-5-83-0".
Definition trusteeFormIsSID : Z := 0.
Definition trusteeTypeWellKnownGroup : Z := 5.
Definition FILE_ATTRIBUTE_NORMAL : Z := 128.

(** [explicitAccess] with its [trustee], whose name is a pointer to the identifier. *)
Record explicitAccess := mkEx { accessPermissions : Z; accessMode : Z; inheritance : Z; trusteeForm : Z; trusteeType : Z; trusteeName : list Z }.
Definition ex_words (x : explicitAccess) : list Z :=
  [accessPermissions x; accessMode x; inheritance x; trusteeForm x; trusteeType x] ++ trusteeName x.

Definition createFile (name : list Z) (isDir : bool) : St E Z :=
  if bool_decide (0 ∈ name) then fail (Wrapf "could not convernt name to UTF-16: %w" [] [] EINVAL)
  else
    let da := Z.lor desiredAccessReadControl desiredAccessWriteDac in
    let sm := Z.lor shareModeRead shareModeWrite in
    let fa := if isDir then Z.lor FILE_ATTRIBUTE_NORMAL FILE_FLAG_BACKUP_SEMANTICS else FILE_ATTRIBUTE_NORMAL in
    map_err (Wrapf "%s windows.CreateFile %s: %w" [] [gvmga; name]) (OpenForSecurity name da sm OPEN_EXISTING fa).
Definition vm_group_access (sid : list Z) (isDir : bool) : explicitAccess :=
  mkEx accessMaskDesiredPermission accessModeGrant
    (if isDir then inheritModeSubContainersAndObjectsInherit else inheritModeNoInheritance)
    trusteeFormIsSID trusteeTypeWellKnownGroup sid.
Definition generateDACLWithAcesAdded (name : list Z) (isDir : bool) (origDACL : Z) : St E Z :=
  sid ← map_err (Wrapf "%s windows.StringToSid %s %s: %w" [] [gvmga; name; sidVMGroup]) (StringToSid sidVMGroup);
  map_err (Wrapf "%s SetEntriesInAcl %s: %w" [] [gvmga; name]) (setEntriesInAcl 1 (ex_words (vm_group_access sid isDir)) origDACL).

Definition GrantVmGroupAccess (name : list Z) : St E unit :=
  isDir ← map_err (Wrapf "%s os.Stat %s: %w" [] [gvmga; name]) (IsDir name);
  fd ← createFile name isDir;
  with_handle fd (
    '((origDACL, sd) : Z * Z) ← map_err (Wrapf "%s GetSecurityInfo %s: %w" [] [gvmga; name])
      (getSecurityInfo fd objectTypeFileObject securityInformationDACL);
    with_local sd (
      newDACL ← generateDACLWithAcesAdded name isDir origDACL;
      with_local newDACL (
        map_err (Wrapf "%s SetSecurityInfo %s: %w" [] [gvmga; name])
          (setSecurityInfo fd objectTypeFileObject securityInformationDACL newDACL)))).
End Accounts.

(** ** What the calls do to handles and local memory *)
Class AccountApiSpec (E : Type) `{FileApiSpec E} `{AccountApi E} : Type := {
  held : E → gset Z;   (** the local memory in use *)
  CloseHandle_held h e : held (CloseHandle h e) = held e;
  free_held p e : held (free p e) = held e ∖ {[p]} ∧ files (free p e) = files e;
  lookupName_held n a b e : let e' := snd (lookupAccountName n a b e) in held e' = held e ∧ files e' = files e;
  lookupSid_held p a b e : let e' := snd (lookupAccountSid p a b e) in held e' = held e ∧ files e' = files e;
  sid_to_string_spec s e :
    match convertSidToStringSid s e with
    | (Ret p, e') => (p ∉ held e) ∧ held e' = {[p]} ∪ held e ∧ files e' = files e
    | (Fail _, e') => held e' = held e ∧ files e' = files e
    | _ => False
    end;
  string_to_sid_spec s e :
    match convertStringSidToSid s e with
    | (Ret p, e') => (p ∉ held e) ∧ held e' = {[p]} ∪ held e ∧ files e' = files e
    | (Fail _, e') => held e' = held e ∧ files e' = files e
    | _ => False
    end;
  IsDir_spec n e : match IsDir n e with (Ret _, e') | (Fail _, e') => held e' = held e ∧ files e' = files e | _ => False end;
  OpenForSecurity_spec n a s d f e :
    match OpenForSecurity n a s d f e with
    | (Ret h, e') => (h ∉ files e) ∧ files e' = {[h]} ∪ files e ∧ held e' = held e
    | (Fail _, e') => held e' = held e ∧ files e' = files e
    | _ => False
    end;
  getSecurityInfo_spec h o i e :
    match getSecurityInfo h o i e with
    | (Ret (_, sd), e') => (sd ∉ held e) ∧ held e' = {[sd]} ∪ held e ∧ files e' = files e
    | (Fail _, e') => held e' = held e ∧ files e' = files e
    | _ => False
    end;
  setSecurityInfo_spec h o i d e :
    match setSecurityInfo h o i d e with (Ret _, e') | (Fail _, e') => held e' = held e ∧ files e' = files e | _ => False end;
  StringToSid_spec s e : match StringToSid s e with (Ret _, e') | (Fail _, e') => held e' = held e ∧ files e' = files e | _ => False end;
  setEntriesInAcl_spec n x d e :
    match setEntriesInAcl n x d e with
    | (Ret p, e') => (p ∉ held e) ∧ held e' = {[p]} ∪ held e ∧ files e' = files e
    | (Fail _, e') => held e' = held e ∧ files e' = files e
    | _ => False
    end }.

Section AccountProofs.
Context {E : Type} `{AccountApiSpec E} (U : list Z → list Z).
Implicit Types e : E.

(** Nothing is taken that is not given back; the one panic is that of an empty buffer. *)
Definition leaves {A} (m : St E A) e (hs ps : gset Z) : Prop :=
  match m e with
  | (Ret _, e') | (Fail _, e') => held e' = ps ∧ files e' = hs
  | (Panic w, e') => w = "index out of range"%string ∧ held e' = ps ∧ files e' = hs
  | (NoFuel, _) => False
  end.
Definition neutral {A} (m : St E A) : Prop := ∀ e, leaves m e (files e) (held e).
(** A call that takes one piece of memory when it succeeds. *)
Definition takes {A} (m : St E A) (p : A → Z) : Prop := ∀ e,
  match m e with
  | (Ret a, e') => (p a ∉ held e) ∧ held e' = {[p a]} ∪ held e ∧ files e' = files e
  | (Fail _, e') => held e' = held e ∧ files e' = files e
  | _ => False
  end.

Lemma neutral_ret {A} (a : A) : neutral (mret a).
Proof. done. Qed.
Lemma neutral_fail {A} err : neutral (fail err : St E A).
Proof. done. Qed.
Lemma neutral_map_err {A} g (m : St E A) : neutral m → neutral (map_err g m).
Proof. intros Hm e. specialize (Hm e). unfold leaves, map_err in *. by destruct (m e) as [[]]. Qed.
Lemma takes_map_err {A} g (m : St E A) p : takes m p → takes (map_err g m) p.
Proof. intros Hm e. specialize (Hm e). unfold map_err. by destruct (m e) as [[]]. Qed.
Lemma neutral_bind {A B} (m : St E A) (k : A → St E B) : neutral m → (∀ a, neutral (k a)) → neutral (m ≫= k).
Proof.
  intros Hm Hk e. specialize (Hm e). unfold leaves in *. rewrite St_bind_eq. destruct (m e) as [[a| | |] e1]; try done.
  destruct Hm as [Hh Hf]. specialize (Hk a e1). unfold leaves in Hk. destruct (k a e1) as [[]]; destruct_and?; split_and?; congruence.
Qed.
Lemma minus_new p (x : gset Z) : p ∉ x → ({[p]} ∪ x) ∖ {[p]} = x.
Proof. intros Hn. apply set_eq. set_unfold. naive_solver. Qed.
(** Memory that is freed when the rest is done. *)
Lemma neutral_with_local {A B} (m : St E A) (p : A → Z) (k : A → St E B) :
  takes m p → (∀ a, neutral (k a)) → neutral (m ≫= λ a, with_local (p a) (k a)).
Proof.
  intros Hm Hk e. specialize (Hm e). unfold leaves. rewrite St_bind_eq. destruct (m e) as [[a| | |] e1]; try done.
  destruct Hm as (Hn & Hh & Hf). specialize (Hk a e1). unfold leaves, with_local in *. destruct (k a e1) as [r e2].
  destruct (free_held (p a) e2) as [Hh' Hf'].
  assert (Hend : held e2 = held e1 ∧ files e2 = files e1 → held (free (p a) e2) = held e ∧ files (free (p a) e2) = files e).
  { intros [E1 E2]. rewrite Hh', Hf', E1, E2, Hh, Hf. by rewrite minus_new. }
  destruct r; try (by apply Hend). { destruct Hk as [-> Hk]. split; [done|]. by apply Hend. } done.
Qed.
Lemma neutral_with_handle {A} (m : St E Z) (k : Z → St E A) :
  (∀ e, match m e with
        | (Ret h, e') => (h ∉ files e) ∧ files e' = {[h]} ∪ files e ∧ held e' = held e
        | (Fail _, e') => held e' = held e ∧ files e' = files e
        | _ => False
        end) →
  (∀ h, neutral (k h)) → neutral (m ≫= λ h, with_handle h (k h)).
Proof.
  intros Hm Hk e. specialize (Hm e). unfold leaves. rewrite St_bind_eq. destruct (m e) as [[h| | |] e1]; try done.
  destruct Hm as (Hn & Hf & Hh). specialize (Hk h e1). unfold leaves, with_handle in *. destruct (k h e1) as [r e2].
  assert (Hend : held e2 = held e1 ∧ files e2 = files e1 → held (CloseHandle h e2) = held e ∧ files (CloseHandle h e2) = files e).
  { intros [E1 E2]. rewrite CloseHandle_held, CloseHandle_files, E1, E2, Hh, Hf. by rewrite minus_new. }
  destruct r; try (by apply Hend). { destruct Hk as [-> Hk]. split; [done|]. by apply Hend. } done.
Qed.
Lemma first_of_neutral n : neutral (first_of n : St E unit).
Proof. unfold first_of. by destruct (n =? 0). Qed.
Lemma account_lookup_neutral who (call : lookup_call (E := E)) :
  (∀ a b e, let e' := snd (call a b e) in held e' = held e ∧ files e' = files e) → neutral (account_lookup who call).
Proof.
  intros Hc e. unfold leaves, account_lookup. pose proof (Hc 0 0 e) as H0'. destruct (call 0 0 e) as [[err [[n d] b]] e1]. cbn [snd] in H0'.
  case_bool_decide as Hd; [|destruct err; [done|]; by exfalso; apply Hd; left].
  assert (Hn : neutral (_ ← first_of n; _ ← first_of d; fill_buffers who call n d)).
  { apply neutral_bind; [apply first_of_neutral|intros _; apply neutral_bind; [apply first_of_neutral|intros _ e2]].
    unfold leaves, fill_buffers. pose proof (Hc n d e2) as H1'. destruct (call n d e2) as [[[?|] [[? ?] ?]] e3]; done. }
  specialize (Hn e1). unfold leaves in Hn. destruct H0' as [<- <-]. exact Hn.
Qed.

Lemma LookupSidByName_neutral name : neutral (LookupSidByName U name : St E (list Z)).
Proof.
  unfold LookupSidByName. case_bool_decide; [apply neutral_fail|].
  apply neutral_bind; [apply account_lookup_neutral; intros; apply lookupName_held|]. intros sid.
  assert (Ht : takes (map_err (AccountLookupError name) (convertSidToStringSid sid) : St E Z) id).
  { apply takes_map_err. intros e. apply sid_to_string_spec. }
  intros e. specialize (Ht e). unfold leaves. rewrite St_bind_eq. destruct (map_err _ _ e) as [[p| | |] e1]; try done.
  destruct Ht as (Hn & Hh & Hf). rewrite St_bind_eq. cbn [get]. rewrite St_bind_eq. unfold modify. cbn [mret St_ret].
  destruct (free_held p e1) as [Hh' Hf']. cbn [id] in *. by rewrite Hh', Hf', Hh, Hf, minus_new.
Qed.
Lemma LookupNameBySid_neutral sid : neutral (LookupNameBySid U sid : St E (list Z)).
Proof.
  unfold LookupNameBySid. case_bool_decide; [apply neutral_fail|]. case_bool_decide; [apply neutral_fail|].
  apply (neutral_with_local _ id).
  - apply takes_map_err. intros e. apply string_to_sid_spec.
  - intros p. apply neutral_bind; [apply account_lookup_neutral; intros; apply lookupSid_held|]. intros b. apply neutral_ret.
Qed.
Lemma GrantVmGroupAccess_neutral name : neutral (GrantVmGroupAccess name : St E unit).
Proof.
  unfold GrantVmGroupAccess. apply neutral_bind.
  { apply neutral_map_err. intros e. pose proof (IsDir_spec name e). unfold leaves. by destruct (IsDir name e) as [[]]. }
  intros d. apply neutral_with_handle.
  { intros e. unfold createFile. case_bool_decide; [done|]. unfold map_err.
    match goal with |- context [OpenForSecurity ?n ?a ?s ?d ?f e] => pose proof (OpenForSecurity_spec n a s d f e) as Ho end.
    by destruct (OpenForSecurity _ _ _ _ _ e) as [[]]. }
  intros fd. assert (Hd : ∀ origDACL, takes (generateDACLWithAcesAdded name d origDACL : St E Z) id).
  { intros dacl e. unfold generateDACLWithAcesAdded. rewrite St_bind_eq. unfold map_err. pose proof (StringToSid_spec sidVMGroup e) as Hs.
    destruct (StringToSid sidVMGroup e) as [[sid| | |] e1]; try done. destruct Hs as [Hh Hf].
    pose proof (setEntriesInAcl_spec 1 (ex_words (vm_group_access sid d)) dacl e1) as Ha.
    destruct (setEntriesInAcl _ _ _ e1) as [[]]; try done; destruct_and?; split_and?; try done; cbn [id] in *; congruence. }
  intros e.
  pose proof (neutral_with_local (map_err (Wrapf "%s GetSecurityInfo %s: %w" [] [gvmga; name])
      (getSecurityInfo fd objectTypeFileObject securityInformationDACL)) snd
    (λ x, newDACL ← generateDACLWithAcesAdded name d (fst x);
          with_local newDACL (map_err (Wrapf "%s SetSecurityInfo %s: %w" [] [gvmga; name])
            (setSecurityInfo fd objectTypeFileObject securityInformationDACL newDACL)))) as Hn.
  assert (Hgoal : neutral (map_err (Wrapf "%s GetSecurityInfo %s: %w" [] [gvmga; name])
      (getSecurityInfo fd objectTypeFileObject securityInformationDACL) ≫= λ x, with_local (snd x) (
    newDACL ← generateDACLWithAcesAdded name d (fst x);
          with_local newDACL (map_err (Wrapf "%s SetSecurityInfo %s: %w" [] [gvmga; name])
            (setSecurityInfo fd objectTypeFileObject securityInformationDACL newDACL))))).
  { apply Hn.
    - apply takes_map_err. intros e1. pose proof (getSecurityInfo_spec fd objectTypeFileObject securityInformationDACL e1) as Hg.
      by destruct (getSecurityInfo _ _ _ e1) as [[[]| | |]].
    - intros [o sd]. apply (neutral_with_local _ id); [apply Hd|]. intros p. apply neutral_map_err. intros e1.
      unfold leaves. pose proof (setSecurityInfo_spec fd objectTypeFileObject securityInformationDACL p e1). by destruct (setSecurityInfo _ _ _ _ e1) as [[]]. }
  specialize (Hgoal e). unfold leaves in *. rewrite St_bind_eq in *. by destruct (map_err _ (getSecurityInfo _ _ _) e) as [[[]| | |]].
Qed.
End AccountProofs.

(** C40: [LookupSidByName], [LookupNameBySid] and [GrantVmGroupAccess] release
    what they take, on every path: the handle of the file is closed, and the local
    memory of the identifier, of the security descriptor and of the new list
    is freed, also when a call fails half way.  They end, and the only panic is
    that of a buffer the system says has no size. *)
Theorem accounts_release {E : Type} `{AccountApiSpec E} (U : list Z → list Z) s :
  neutral (LookupSidByName U s : St E (list Z)) ∧ neutral (LookupNameBySid U s : St E (list Z)) ∧
  neutral (GrantVmGroupAccess s : St E unit).
Proof. split_and!; [apply LookupSidByName_neutral|apply LookupNameBySid_neutral|apply GrantVmGroupAccess_neutral]. Qed.

(** *** Witness: a domain with one account *)
Record domain := mkDom { dm_files : gset Z; dm_held : gset Z }.
Definition dm_alloc (e : domain) : res Z * domain := (Ret (fresh (dm_held e)), mkDom (dm_files e) ({[fresh (dm_held e)]} ∪ dm_held e)).
#[export] Instance domain_FileApi : FileApi domain := {|
  createIoCompletionPort h p e := (Ret 1, e);
  setFileCompletionNotificationModes h m e := (Ret (), e);
  CloseHandle h e := mkDom (dm_files e ∖ {[h]}) (dm_held e) |}.
#[export, program] Instance domain_FileApiSpec : FileApiSpec domain := {| files := dm_files |}.
Next Obligation. done. Qed.
Next Obligation. done. Qed.
Next Obligation. done. Qed.
Definition domain_lookup (b : list Z) (n d : Z) (e : domain) : (option error * (Z * Z * list Z)) * domain :=
  if n <? zlen b then ((Some ERROR_INSUFFICIENT_BUFFER, (zlen b, 4, [])), e) else ((None, (zlen b, 4, b)), e).
#[export] Instance domain_AccountApi : AccountApi domain := {|
  lookupAccountName s := domain_lookup [1; 1; 0; 0];
  lookupAccountSid p := domain_lookup (to_utf16 (str "vm") ++ [0]);
  convertSidToStringSid s := dm_alloc;
  convertStringSidToSid s := dm_alloc;
  local_words p e := to_utf16 (str "S-1-0-0") ++ [0];
  free p e := mkDom (dm_files e) (dm_held e ∖ {[p]});
  SecurityDescriptorFromString s e := (Ret (replicate 28 0), e);
  SecurityDescriptor_String b := str "D:";
  IsDir n e := (Ret true, e);
  OpenForSecurity n a s d f e := (Ret (fresh (dm_files e)), mkDom ({[fresh (dm_files e)]} ∪ dm_files e) (dm_held e));
  getSecurityInfo h o i e := let '(r, e) := dm_alloc e in (match r with Ret p => Ret (0, p) | _ => NoFuel end, e);
  setSecurityInfo h o i d e := (Fail (Errno 5), e);
  StringToSid s e := (Ret [1; 1], e);
  setEntriesInAcl n x d := dm_alloc |}.
Lemma dm_alloc_spec e :
  match dm_alloc e with
  | (Ret p, e') => (p ∉ dm_held e) ∧ dm_held e' = {[p]} ∪ dm_held e ∧ dm_files e' = dm_files e
  | (Fail _, e') => dm_held e' = dm_held e ∧ dm_files e' = dm_files e
  | _ => False
  end.
Proof. cbn. split; [apply is_fresh|done]. Qed.
#[export, program] Instance domain_AccountApiSpec : AccountApiSpec domain := {| held := dm_held |}.
Next Obligation. done. Qed.
Next Obligation. done. Qed.
Next Obligation. intros n a b e. cbn. unfold domain_lookup. by case_match. Qed.
Next Obligation. intros n a b e. cbn. unfold domain_lookup. by case_match. Qed.
Next Obligation. intros s e. exact (dm_alloc_spec e). Qed.
Next Obligation. intros s e. exact (dm_alloc_spec e). Qed.
Next Obligation. done. Qed.
Next Obligation. intros n a s d f e. cbn. split; [apply is_fresh|done]. Qed.
Next Obligation. intros h o i e. exact (dm_alloc_spec e). Qed.
Next Obligation. done. Qed.
Next Obligation. done. Qed.
Next Obligation. intros n x d e. exact (dm_alloc_spec e). Qed.

Lemma accounts_release_witness :
  let e := mkDom {[4]} {[9]} in
  fst (LookupSidByName utf16_cstring (str "vm") e) = Ret (str "S-1-0-0") ∧
  leaves (LookupSidByName utf16_cstring (str "vm")) e {[4]} {[9]} ∧
  fst (GrantVmGroupAccess (str "f") e) = Fail (Wrapf "%s SetSecurityInfo %s: %w" [] [gvmga; str "f"] (Errno 5)) ∧
  leaves (GrantVmGroupAccess (str "f")) e {[4]} {[9]}.
Proof.
  intros e. split; [by vm_compute|]. split; [exact (proj1 (accounts_release (E := domain) utf16_cstring (str "vm")) e)|].
  split; [by vm_compute|]. exact (proj2 (proj2 (accounts_release (E := domain) utf16_cstring (str "f"))) e).
Defined.

(** ** Security descriptors without pointers

    A self-relative descriptor has a header of 20 bytes; with an empty list it has
    28.  [SecurityDescriptorToSddl] compares with the 40 bytes of the absolute
    form and refuses what [SddlToSecurityDescriptor] returned. *)
Example small_descriptor_refused :
  let '(r, e) := SddlToSecurityDescriptor (str "D:") (mkDom ∅ ∅) in
  match r with
  | Ret sd => fst (SecurityDescriptorToSddl sd e) =
      Fail (Wrapf "SecurityDescriptor (%d) smaller than expected (%d): %w" [28; 40] [] ERROR_INCORRECT_SIZE)
  | _ => False
  end.
Proof. by vm_compute. Qed.
