(* ===== verification/Base64.v ===== *)
(** * Standard base64 ([encoding/base64], as [backuptar] uses it)

    [StdEncoding.EncodeToString] and [DecodeString]: padding is required and
    line breaks are skipped; the trailing bits of the last digit are ignored.
    Strings are lists of bytes. *)
From S2P Require Import Prelude GoStrings.

Definition b64_char (v : Z) : Z :=
  if v <? 26 then 65 + v else if v <? 52 then 71 + v else if v <? 62 then v - 4 else if v =? 62 then 43 else 47.
Definition b64_val (c : Z) : option Z :=
  if (65 <=? c) && (c <=? 90) then Some (c - 65)
  else if (97 <=? c) && (c <=? 122) then Some (c - 71)
  else if (48 <=? c) && (c <=? 57) then Some (c + 4)
  else if c =? 43 then Some 62 else if c =? 47 then Some 63 else None.
Definition pad_char : Z := 61.

Fixpoint EncodeToString (b : list Z) : list Z :=
  match b with
  | x :: y :: z :: r =>
      [b64_char (x / 4); b64_char (x mod 4 * 16 + y / 16); b64_char (y mod 16 * 4 + z / 64); b64_char (z mod 64)]
      ++ EncodeToString r
  | [x; y] => [b64_char (x / 4); b64_char (x mod 4 * 16 + y / 16); b64_char (y mod 16 * 4); pad_char]
  | [x] => [b64_char (x / 4); b64_char (x mod 4 * 16); pad_char; pad_char]
  | [] => []
  end.

(** [CorruptInputError]; its offset is left out. *)
Definition CorruptInputError : error := New "illegal base64 data".

Fixpoint decode_quads (s : list Z) : res (list Z) :=
  match s with
  | [] => Ret []
  | a :: b :: c :: d :: r =>
      match b64_val a, b64_val b with
      | Some a, Some b =>
          let x := a * 4 + b / 16 in
          if d =? pad_char then
            if bool_decide (r = []) then
              if c =? pad_char then Ret [x]
              else match b64_val c with Some c => Ret [x; b mod 16 * 16 + c / 4] | None => Fail CorruptInputError end
            else Fail CorruptInputError
          else
            match b64_val c, b64_val d with
            | Some c, Some d =>
                l ← decode_quads r; Ret (x :: (b mod 16 * 16 + c / 4) :: (c mod 4 * 64 + d) :: l)
            | _, _ => Fail CorruptInputError
            end
      | _, _ => Fail CorruptInputError
      end
  | _ => Fail CorruptInputError
  end.
Definition line_break (c : Z) : bool := (c =? 10) || (c =? 13).
Definition DecodeString (s : list Z) : res (list Z) := decode_quads (filter (λ c, line_break c = false) s).

Example base64_examples :
  EncodeToString (str "Man") = str "TWFu" ∧ EncodeToString (str "Ma") = str "TWE=" ∧ EncodeToString (str "M") = str "TQ==" ∧
  DecodeString (str "TW" ++ [10] ++ str "FuTWE=") = Ret (str "ManMa") ∧
  DecodeString (str "TWE") = Fail CorruptInputError ∧ DecodeString (str "TWE=TWE=") = Fail CorruptInputError.
Proof. vm_compute. done. Qed.

Lemma b64_digit v : 0 ≤ v < 64 →
  b64_val (b64_char v) = Some v ∧ b64_char v ≠ pad_char ∧ line_break (b64_char v) = false ∧ 43 ≤ b64_char v ≤ 122.
Proof.
  intros Hv. rewrite <- (Z2Nat.id v) by lia. assert (Hn : (Z.to_nat v < 64)%nat) by lia.
  revert Hn. generalize (Z.to_nat v). clear v Hv. intros n Hn.
  do 64 (destruct n as [|n]; [vm_compute; split_and!; (reflexivity || discriminate)|]). lia.
Qed.

#[local] Ltac Zify.zify_post_hook ::= Z.to_euclidean_division_equations.

(** Three bytes at a time. *)
Lemma bytes_ind3 (P : list Z → Prop) :
  P [] → (∀ x, byte_ok x → P [x]) → (∀ x y, byte_ok x → byte_ok y → P [x; y]) →
  (∀ x y z r, byte_ok x → byte_ok y → byte_ok z → bytes_ok r → P r → P (x :: y :: z :: r)) →
  ∀ b, bytes_ok b → P b.
Proof.
  intros H0 H1 H2 H3. fix IH 1. intros b Hb. destruct b as [|x [|y [|z r]]]; [done|..].
  - apply H1. by inversion Hb.
  - inversion Hb as [|? ? ? Hb1]; inversion Hb1. by apply H2.
  - inversion Hb as [|? ? ? Hb1]; inversion Hb1 as [|? ? ? Hb2]; inversion Hb2. apply H3; try done. by apply IH.
Qed.

Lemma decode_encode_quads b : bytes_ok b →
  decode_quads (EncodeToString b) = Ret b ∧ Forall (λ c, line_break c = false ∧ 43 ≤ c ≤ 122) (EncodeToString b).
Proof.
  intros Hb. revert b Hb. refine (bytes_ind3 _ _ _ _ _); [|intros x Hx|intros x y Hx Hy|intros x y z r Hx Hy Hz Hr [IH1 IH2]];
    unfold byte_ok in *; cbn [EncodeToString app decode_quads].
  - by split; [|constructor].
  - destruct (b64_digit (x / 4)) as (-> & _ & ? & ?); [lia|].
    destruct (b64_digit (x mod 4 * 16)) as (-> & _ & ? & ?); [lia|].
    rewrite Z.eqb_refl. cbn. split; [do 2 f_equal; lia|repeat constructor; (done || lia)].
  - destruct (b64_digit (x / 4)) as (-> & _ & ? & ?); [lia|].
    destruct (b64_digit (x mod 4 * 16 + y / 16)) as (-> & _ & ? & ?); [lia|].
    destruct (b64_digit (y mod 16 * 4)) as (-> & Hp & ? & ?); [lia|].
    rewrite (proj2 (Z.eqb_neq _ _) Hp), Z.eqb_refl. cbn [bool_decide]. rewrite bool_decide_eq_true_2 by done.
    split; [do 2 f_equal; [lia|f_equal; lia]|repeat constructor; (done || lia)].
  - destruct (b64_digit (x / 4)) as (-> & _ & ? & ?); [lia|].
    destruct (b64_digit (x mod 4 * 16 + y / 16)) as (-> & _ & ? & ?); [lia|].
    destruct (b64_digit (y mod 16 * 4 + z / 64)) as (-> & _ & ? & ?); [lia|].
    destruct (b64_digit (z mod 64)) as (-> & Hp & ? & ?); [lia|].
    rewrite (proj2 (Z.eqb_neq _ _) Hp), IH1. cbn [mbind res_bind]. split.
    + do 2 f_equal; [lia|f_equal; [lia|f_equal; lia]].
    + repeat (constructor; [done|]). done.
Qed.

(** Encoding round-trips, to printable characters. *)
Lemma DecodeString_EncodeToString b : bytes_ok b → DecodeString (EncodeToString b) = Ret b.
Proof.
  intros Hb. destruct (decode_encode_quads b Hb) as [E Hl]. unfold DecodeString.
  assert (Hf : filter (λ c, line_break c = false) (EncodeToString b) = EncodeToString b).
  { clear -Hl. induction Hl as [|c l [Hc _] Hl IH]; [done|]. rewrite filter_cons_True by done. by rewrite IH. }
  by rewrite Hf.
Qed.
