(* ===== verification/TarHeader.v ===== *)
(** * Tar headers of Win32 files ([backuptar/tar.go])

    Times, attributes, security descriptors, extended attributes and reparse
    points as PAX records of a [tar.Header], and back. *)
From S2P Require Import Prelude GoStrings Ea Reparse PaxTime Base64.

(** The fields of [tar.Header] the package uses; the format is PAX throughout. *)
Record Header := mkTH {
  th_Name : list Z; th_Size : Z; th_Typeflag : Z; th_Mode : Z; th_Linkname : list Z;
  th_ModTime : Time; th_AccessTime : Time; th_ChangeTime : Time; th_PAXRecords : gmap (list Z) (list Z) }.

Definition TypeReg : Z := 48.
Definition TypeSymlink : Z := 50.
Definition TypeDir : Z := 53.
Definition cISUID : Z := 0x800.
Definition cISGID : Z := 0x400.
Definition cISVTX : Z := 0x200.
Definition cISDIR : Z := 0x4000.
Definition cISFIFO : Z := 0x1000.
Definition cISREG : Z := 0x8000.
Definition cISLNK : Z := 0xA000.
Definition cISBLK : Z := 0x6000.
Definition cISCHR : Z := 0x2000.
Definition cISSOCK : Z := 0xC000.
Definition FILE_ATTRIBUTE_DIRECTORY : Z := 16.

Definition hdrFileAttributes : list Z := str "MSWINDOWS.fileattr".
Definition hdrSecurityDescriptor : list Z := str "MSWINDOWS.sd".
Definition hdrRawSecurityDescriptor : list Z := str "MSWINDOWS.rawsd".
Definition hdrMountPoint : list Z := str "MSWINDOWS.mountpoint".
Definition hdrEaPrefix : list Z := str "MSWINDOWS.xattr.".
Definition hdrCreationTime : list Z := str "LIBARCHIVE.creationtime".

(** [filepath.ToSlash] and [FromSlash] of Windows. *)
Definition ToSlash (s : list Z) : list Z := (λ c, if c =? 92 then 47 else c) <$> s.
Definition FromSlash (s : list Z) : list Z := (λ c, if c =? 47 then 92 else c) <$> s.

(** [Time.UnixNano] *)
Definition UnixNano (t : Time) : Z := i64 (t_sec t * 1000000000 + t_nsec t).

(** A [windows.Filetime] is its count of 100 ns; the conversions are those of
    [x/sys/windows]. *)
Class FiletimeApi : Type := { Nanoseconds : Z → Z; NsecToFiletime : Z → Z }.
Class FiletimeSpec `{FiletimeApi} : Type := {
  ft_ok : Z → Prop;
  Nanoseconds_range t : ft_ok t → -9223372036854775808 ≤ Nanoseconds t < 9223372036854775808;
  NsecToFiletime_Nanoseconds t : ft_ok t → NsecToFiletime (Nanoseconds t) = t }.

Record FileBasicInfo := mkFBI {
  CreationTime : Z; LastAccessTime : Z; LastWriteTime : Z; ChangeTime : Z; FileAttributes : Z }.

Section Headers.
Context `{FiletimeApi}.

Definition is_directory (attrs : Z) : bool := negb (Z.land attrs FILE_ATTRIBUTE_DIRECTORY =? 0).

Definition BasicInfoHeader (name : list Z) (size : Z) (fi : FileBasicInfo) : Header :=
  let dir := is_directory (FileAttributes fi) in
  mkTH (ToSlash name) (if dir then 0 else size) (if dir then TypeDir else TypeReg)
    (if dir then Z.lor 0 cISDIR else 0) []
    (Unix 0 (Nanoseconds (LastWriteTime fi))) (Unix 0 (Nanoseconds (LastAccessTime fi)))
    (Unix 0 (Nanoseconds (ChangeTime fi)))
    (<[hdrCreationTime := formatPAXTime (Unix 0 (Nanoseconds (CreationTime fi)))]>
     (<[hdrFileAttributes := FormatUint (FileAttributes fi) 10]> ∅)).

Definition FileInfoFromHeader (hdr : Header) : res (list Z * Z * FileBasicInfo) :=
  let size := if th_Typeflag hdr =? TypeReg then th_Size hdr else 0 in
  attrs ← match th_PAXRecords hdr !! hdrFileAttributes with
          | Some s => attr ← ParseUint s 10 32; Ret (u32 attr)
          | None => Ret (if th_Typeflag hdr =? TypeDir then Z.lor 0 FILE_ATTRIBUTE_DIRECTORY else 0)
          end;
  creation ← match th_PAXRecords hdr !! hdrCreationTime with
             | Some s => t ← parsePAXTime s; Ret (NsecToFiletime (UnixNano t))
             | None => Ret (NsecToFiletime (UnixNano (th_ModTime hdr)))
             end;
  Ret (th_Name hdr, size,
       mkFBI creation (NsecToFiletime (UnixNano (th_AccessTime hdr))) (NsecToFiletime (UnixNano (th_ModTime hdr)))
         (NsecToFiletime (UnixNano (th_ChangeTime hdr))) attrs).
End Headers.

Section Records.
(** [winio.SddlToSecurityDescriptor], and the order in which a [range] visits a map. *)
Context (SddlToSecurityDescriptor : list Z → res (list Z)).
Context (order : gmap (list Z) (list Z) → list (list Z * list Z)).

Definition SecurityDescriptorFromTarHeader (hdr : Header) : res (list Z) :=
  match th_PAXRecords hdr !! hdrRawSecurityDescriptor with
  | Some sdraw => DecodeString sdraw
  | None =>
      match th_PAXRecords hdr !! hdrSecurityDescriptor with
      | Some sddl => SddlToSecurityDescriptor sddl
      | None => Ret []
      end
  end.

Fixpoint collect_eas (kvs : list (list Z * list Z)) : res (list ExtendedAttribute) :=
  match kvs with
  | [] => Ret []
  | (k, v) :: kvs =>
      if HasPrefix k hdrEaPrefix then
        data ← DecodeString v;
        eas ← collect_eas kvs;
        Ret (mkEA (zdrop (zlen hdrEaPrefix) k) data 0 :: eas)
      else collect_eas kvs
  end.
Definition ExtendedAttributesFromTarHeader (hdr : Header) : res (list Z) :=
  eas ← collect_eas (order (th_PAXRecords hdr));
  if bool_decide (eas = []) then Ret [] else EncodeExtendedAttributes eas.

Definition EncodeReparsePointFromTarHeader (hdr : Header) : list Z :=
  EncodeReparsePoint (mkRP (FromSlash (th_Linkname hdr)) (bool_decide (is_Some (th_PAXRecords hdr !! hdrMountPoint)))).
End Records.

(** ** Basic information *)
Section BasicInfo.
Context `{FiletimeSpec}.

Definition info_ok (fi : FileBasicInfo) : Prop :=
  ft_ok (CreationTime fi) ∧ ft_ok (LastAccessTime fi) ∧ ft_ok (LastWriteTime fi) ∧ ft_ok (ChangeTime fi) ∧
  0 ≤ FileAttributes fi < 4294967296.

Lemma UnixNano_Unix ns : -9223372036854775808 ≤ ns < 9223372036854775808 → UnixNano (Unix 0 ns) = ns ∧ time_ok (Unix 0 ns).
Proof.
  intros Hn. unfold UnixNano, Unix, time_ok. cbn [t_sec t_nsec].
  pose proof (Z.mod_pos_bound ns 1000000000 ltac:(lia)). pose proof (Z.div_mod ns 1000000000 ltac:(lia)).
  assert (-9223372037 ≤ ns / 1000000000 < 9223372037)
    by (split; [apply Z.div_le_lower_bound; lia|apply Z.div_lt_upper_bound; lia]).
  rewrite (i64_small (0 + ns / 1000000000)) by lia. split; [rewrite i64_small; lia|lia].
Qed.
Lemma filetime_back t : ft_ok t → NsecToFiletime (UnixNano (Unix 0 (Nanoseconds t))) = t.
Proof.
  intros Ht. destruct (UnixNano_Unix _ (Nanoseconds_range t Ht)) as [-> _]. by apply NsecToFiletime_Nanoseconds.
Qed.
End BasicInfo.

(** the basic information of a file survives its tar header: the times to
    the last 100 ns, the creation time through its PAX record, the attributes,
    the name with forward slashes, and the size, which is that of no data for
    a directory. *)
Theorem FileInfo_BasicInfoHeader `{FiletimeSpec} name size fi :
  info_ok fi →
  FileInfoFromHeader (BasicInfoHeader name size fi) =
    Ret (ToSlash name, if is_directory (FileAttributes fi) then 0 else size, fi).
Proof.
  intros (Hc & Ha & Hw & Hch & Hattr). unfold FileInfoFromHeader, BasicInfoHeader.
  cbn [th_Name th_Size th_Typeflag th_ModTime th_AccessTime th_ChangeTime th_PAXRecords].
  assert (Hne : hdrCreationTime ≠ hdrFileAttributes) by (intros E; vm_compute in E; discriminate E).
  rewrite (lookup_insert_ne _ _ _ _ Hne), !lookup_insert_eq.  cbv iota beta.
  rewrite ParseUint_FormatUint by (cbn; lia). cbn [mbind res_bind]. rewrite u32_small by lia.
  cbv iota beta. destruct (UnixNano_Unix _ (Nanoseconds_range _ Hc)) as [_ Hok].
  rewrite parse_formatPAXTime_eq by done. cbn [mbind res_bind]. rewrite !filetime_back by done.
  destruct (is_directory (FileAttributes fi)); by destruct fi.
Qed.

(** *** Witness: file times of [x/sys/windows] *)
#[export] Instance windows_FiletimeApi : FiletimeApi := {|
  Nanoseconds t := i64 ((t - 116444736000000000) * 100);
  NsecToFiletime ns := ns ÷ 100 + 116444736000000000 |}.
#[export, program] Instance windows_FiletimeSpec : FiletimeSpec := {| ft_ok t := 24300000000000000 ≤ t ≤ 208000000000000000 |}.
Next Obligation. intros t Ht. cbn in *. rewrite i64_small; lia. Qed.
Next Obligation. intros t Ht. cbn in *. rewrite i64_small by lia. rewrite Z.quot_mul by lia. lia. Qed.

Definition info_example : FileBasicInfo := mkFBI 116444735999999999 132000000000000001 132000000000000002 132000000000000003 48.
Lemma FileInfo_BasicInfoHeader_witness :
  FileInfoFromHeader (BasicInfoHeader (str "a\b") 77 info_example) = Ret (str "a/b", 0, info_example).
Proof.
  apply (FileInfo_BasicInfoHeader (str "a\b") 77 info_example).
  unfold info_ok, info_example. cbn. repeat split; lia.
Defined.
