(* ===== verification/Tar.v ===== *)
(** * Backup streams as tar files ([backuptar/tar.go])

    [WriteTarFileFromBackupStream] and [WriteBackupStreamFromTarFile], on top of
    the backup streams, the codecs of the metadata and [archive/tar], which is
    a sequence of entries here: a header and its data. *)
From S2P Require Import Prelude GoStrings Unicode Streams Ea Reparse PaxTime Base64 TarHeader Backup.

(** ** [archive/tar]

    A writer with the entries written, the last one open; the data of an entry
    that is only a header has no room.  [check_header] is what the package
    refuses to encode. *)
Definition entry : Type := Header * list Z.
Record tar_writer := mkTW { tw_done : list entry; tw_cur : option entry }.
Definition new_tar : tar_writer := mkTW [] None.

Definition capacity (h : Header) : Z := if th_Typeflag h =? TypeReg then th_Size h else 0.
Definition ErrWriteTooLong : error := New "archive/tar: write too long".
Definition tar_entries (t : tar_writer) : list entry := tw_done t ++ match tw_cur t with Some e => [e] | None => [] end.
Definition tar_missing (t : tar_writer) : Z :=
  match tw_cur t with Some (h, d) => capacity h - zlen d | None => 0 end.

Section TarWriter.
Context (check_header : Header → option error).
Definition tar_WriteHeader (h : Header) : St tar_writer unit := λ t,
  if 0 <? tar_missing t then (Fail (Errorf "archive/tar: missed writing %d bytes" [tar_missing t] []), t)
  else match check_header h with
  | Some e => (Fail e, t)
  | None => (Ret (), mkTW (tar_entries t) (Some (h, [])))
  end.
End TarWriter.
#[export] Instance tar_Writer : Writer tar_writer := λ b t,
  match tw_cur t with
  | Some (h, d) =>
      if zlen b <=? tar_missing t then (Ret (zlen b, None), mkTW (tw_done t) (Some (h, d ++ b)))
      else (Ret (tar_missing t, Some ErrWriteTooLong), mkTW (tw_done t) (Some (h, d ++ ztake (tar_missing t) b)))
  | None => (Ret (0, if zlen b =? 0 then None else Some ErrWriteTooLong), t)
  end.

(** A reader: the data left of the current entry and the entries after it. *)
Record tar_reader := mkTR { tr_cur : list Z; tr_next : list entry }.
Definition tar_Next : St tar_reader Header := λ t,
  match tr_next t with
  | [] => (Fail EOF, mkTR [] [])
  | (h, d) :: es => (Ret h, mkTR d es)
  end.
#[export] Instance tar_Reader : Reader tar_reader := λ n t,
  let '(x, d) := bytes_Reader n (tr_cur t) in (x, mkTR d (tr_next t)).

(** ** From a backup stream to tar *)

(** [zeroReader]. *)
Definition zeroReader : Type := unit.
Definition zero_read (n : Z) (z : zeroReader) : res (list Z * option error) * zeroReader :=
  (Ret (replicate (Z.to_nat n) 0, None), z).
#[export] Instance zero_Reader : Reader zeroReader := zero_read.

(** [Seek(pos, io.SeekStart)] *)
Class StartSeeker (R : Type) : Type := sk_start : Z → R → res Z * R.

Section ToTar.
Context {R : Type} `{Reader R} `{!Seeker R} `{!StartSeeker R}.
Context (UTF16ToString : list Z → list Z) (check_header : Header → option error).

Definition tar_state : Type := BackupStreamReader R * tar_writer.
Definition on_br {A} (m : St (BackupStreamReader R) A) : St tar_state A := λ s,
  let '(x, br) := m (fst s) in (x, (br, snd s)).
Definition on_tw {A} (m : St tar_writer A) : St tar_state A := λ s,
  let '(x, t) := m (snd s) in (x, (fst s, t)).

(** [io.ReadAll(br)]: a call for each byte and one for the end are enough. *)
Definition read_all : St (BackupStreamReader R) (list Z * option error) := λ br,
  ReadAll (S (Z.to_nat (bytesLeft br))) br.
Definition read_all_ok : St (BackupStreamReader R) (list Z) :=
  '((b, err) : list Z * option error) ← read_all;
  match err with Some e => fail e | None => mret b end.

(** [br.Next()]; [None] is [io.EOF]. *)
Definition next_or_end : St (BackupStreamReader R) (option BackupHeader) := λ br,
  match Next UTF16ToString br with
  | (Ret h, br) => (Ret (Some h), br)
  | (Fail e, br) => (if bool_decide (e = EOF) then Ret None else Fail e, br)
  | (Panic w, br) => (Panic w, br)
  | (NoFuel, br) => (NoFuel, br)
  end.

(** [io.Copy(t, br)], as above. *)
Definition copy_data : St tar_state Z := λ s,
  match copy_loop (S (S (Z.to_nat (bytesLeft (fst s))))) 0 s with
  | (Ret (n, None), s) => (Ret n, s)
  | (Ret (_, Some e), s) => (Fail e, s)
  | (Fail e, s) => (Fail e, s)
  | (Panic w, s) => (Panic w, s)
  | (NoFuel, s) => (NoFuel, s)
  end.
(** [io.CopyN(t, zeroReader{}, n)] *)
Definition copy_zeroes (n : Z) : St tar_state unit := λ s,
  match copy_loop (S (S (Z.to_nat (n / 32768)))) 0 (mkLimited (() : zeroReader) n, snd s) with
  | (Ret (written, e), (_, t)) =>
      (if written =? n then Ret ()
       else match e with Some e => Fail e | None => if written <? n then Fail EOF else Ret () end, (fst s, t))
  | (Fail e, (_, t)) => (Fail e, (fst s, t))
  | (Panic w, (_, t)) => (Panic w, (fst s, t))
  | (NoFuel, (_, t)) => (NoFuel, (fst s, t))
  end.

Fixpoint copySparse (fuel : nat) (curOffset : Z) : St tar_state unit := λ s,
  match fuel with
  | O => (NoFuel, s)
  | S fuel =>
      (bhdr ← on_br next_or_end;
       match bhdr with
       | None => fail ErrUnexpectedEOF
       | Some bhdr =>
           if negb (Id bhdr =? BackupSparseBlock) then fail (Errorf "unexpected stream %d" [Id bhdr] [])
           else if Offset bhdr <? curOffset then
             fail (Errorf "cannot seek back from %d to %d" [curOffset; Offset bhdr] [])
           else
             _ ← (λ s, match copy_zeroes (Offset bhdr - curOffset) s with
                       | (Fail e, s) => (Fail (Wrapf "seek to offset %d: %w" [Offset bhdr] [] e), s)
                       | x => x
                       end);
             if Size bhdr =? 0 then mret ()
             else
               n ← copy_data;
               if negb (n =? Size bhdr) then
                 fail (Errorf "copied %d bytes instead of %d at offset %d" [n; Size bhdr; Offset bhdr] [])
               else copySparse fuel (i64 (Offset bhdr + n))
       end) s
  end.

Definition set_pax (k v : list Z) (h : Header) : Header :=
  mkTH (th_Name h) (th_Size h) (th_Typeflag h) (th_Mode h) (th_Linkname h) (th_ModTime h) (th_AccessTime h)
    (th_ChangeTime h) (<[k := v]> (th_PAXRecords h)).
Definition set_mode (m : Z) (h : Header) : Header :=
  mkTH (th_Name h) (th_Size h) (th_Typeflag h) (Z.lor (th_Mode h) m) (th_Linkname h) (th_ModTime h) (th_AccessTime h)
    (th_ChangeTime h) (th_PAXRecords h).
Definition set_symlink (target : list Z) (h : Header) : Header :=
  mkTH (th_Name h) (th_Size h) TypeSymlink (th_Mode h) target (th_ModTime h) (th_AccessTime h)
    (th_ChangeTime h) (th_PAXRecords h).
Definition add_eas (eas : list ExtendedAttribute) (h : Header) : Header :=
  foldl (λ h ea, set_pax (hdrEaPrefix ++ Ea.Name ea) (EncodeToString (Ea.Value ea)) h) h eas.
Definition add_reparse (rp : ReparsePoint) (h : Header) : Header :=
  set_symlink (Target rp) (if IsMountPoint rp then set_pax hdrMountPoint (str "1") h else h).

(** The metadata of one stream of the first pass; [None] for the data stream. *)
Definition add_stream (name : list Z) (bhdr : BackupHeader) (hdr : Header) :
    St (BackupStreamReader R) (option Header) :=
  let id := Id bhdr in
  if id =? BackupData then mret None
  else if id =? BackupSecurity then
    sd ← read_all_ok; mret (Some (set_pax hdrRawSecurityDescriptor (EncodeToString sd) hdr))
  else if id =? BackupReparseData then
    '((b, _) : list Z * option error) ← read_all;
    rp ← lift (DecodeReparsePoint b);
    mret (Some (add_reparse rp (set_mode cISLNK hdr)))
  else if id =? BackupEaData then
    eab ← read_all_ok;
    eas ← lift (DecodeExtendedAttributes eab);
    mret (Some (add_eas eas hdr))
  else if bool_decide (id ∈ [BackupAlternateData; BackupLink; BackupPropertyData; BackupObjectId; BackupTxfsData])
  then mret (Some hdr)
  else fail (Errorf "%s: unknown stream ID %d" [id] [name]).

(** The first pass; without seeking it ends at the data stream. *)
Fixpoint collect (fuel : nat) (readTwice : bool) (name : list Z) (hdr : Header) :
    St (BackupStreamReader R) (Header * option BackupHeader) := λ br,
  match fuel with
  | O => (NoFuel, br)
  | S fuel =>
      (bhdr ← next_or_end;
       match bhdr with
       | None => mret (hdr, None)
       | Some bhdr =>
           h ← add_stream name bhdr hdr;
           match h with
           | Some hdr => collect fuel readTwice name hdr
           | None =>
               let hdr := set_mode cISREG hdr in
               if readTwice then collect fuel readTwice name hdr else mret (hdr, Some bhdr)
           end
       end) br
  end.
(** The second pass, back to the data stream. *)
Fixpoint find_data (fuel : nat) : St (BackupStreamReader R) (option BackupHeader) := λ br,
  match fuel with
  | O => (NoFuel, br)
  | S fuel =>
      (bhdr ← next_or_end;
       match bhdr with
       | None => mret None
       | Some bhdr => if Id bhdr =? BackupData then mret (Some bhdr) else find_data fuel
       end) br
  end.

Definition alternate_header (name : list Z) (bhdr : BackupHeader) (hdr : Header) : Header :=
  mkTH (name ++ TrimSuffix (Name bhdr) (str ":$DATA")) (Size bhdr) TypeReg (th_Mode hdr) []
    (th_ModTime hdr) (th_AccessTime hdr) (th_ChangeTime hdr) ∅.
(** The streams after the data. *)
Fixpoint alternates (fuel : nat) (name : list Z) (hdr : Header) : St tar_state unit := λ s,
  match fuel with
  | O => (NoFuel, s)
  | S fuel =>
      (bhdr ← on_br next_or_end;
       match bhdr with
       | None => mret ()
       | Some bhdr =>
           if Id bhdr =? BackupAlternateData then
             if negb (Z.land (Attributes bhdr) StreamSparseAttributes =? 0) then
               fail (Errorf "%s: tar of sparse alternate data streams is unsupported" [] [name])
             else
               let hdr := alternate_header name bhdr hdr in
               _ ← on_tw (tar_WriteHeader check_header hdr);
               _ ← copy_data;
               alternates fuel name hdr
           else if bool_decide (Id bhdr ∈ [BackupEaData; BackupLink; BackupPropertyData; BackupObjectId; BackupTxfsData])
           then alternates fuel name hdr
           else fail (Errorf "%s: unknown stream ID %d after data" [Id bhdr] [name])
       end) s
  end.

(** The contents of the file, from its data stream or the sparse blocks after it. *)
Definition copy_contents (fuel : nat) (name : list Z) (size : Z) (dataHdr : option BackupHeader) : St tar_state unit :=
  match dataHdr with
  | None => mret ()
  | Some d =>
      if (0 <? Size d) || (Z.land (Attributes d) StreamSparseAttributes =? 0) then
        if negb (size =? Size d) then
          fail (Errorf "%s: mismatch between file size %d and header size %d" [size; Size d] [name])
        else λ s, match copy_data s with
                  | (Ret _, s) => (Ret (), s)
                  | (Fail e, s) => (Fail (Wrapf "%s: copying contents from data stream: %w" [] [name] e), s)
                  | (Panic w, s) => (Panic w, s)
                  | (NoFuel, s) => (NoFuel, s)
                  end
      else if 0 <? size then
        λ s, match copySparse fuel 0 s with
             | (Fail e, s) => (Fail (Wrapf "%s: copying contents from sparse block stream: %w" [] [name] e), s)
             | x => x
             end
      else mret ()
  end.

(** The position to come back to, when the reader can seek. *)
Definition tell : St R (option Z) := λ r,
  match sk_seek with
  | None => (Ret None, r)
  | Some seek => match seek 0 r with (Ret p, r) => (Ret (Some p), r) | (_, r) => (Ret None, r) end
  end.

Definition WriteTarFileFromBackupStream (fuel : nat) `{FiletimeApi} (name : list Z) (size : Z) (fi : FileBasicInfo) (r : R) :
    St tar_writer unit := λ t,
  let name := ToSlash name in
  let hdr := BasicInfoHeader name size fi in
  match tell r with
  | (Ret restartPos, r) =>
      let '(x, (_, t)) :=
        ('((hdr, dataHdr) : Header * option BackupHeader) ←
           on_br (collect fuel (bool_decide (is_Some restartPos)) name hdr);
         _ ← on_tw (tar_WriteHeader check_header hdr);
         dataHdr ← (match restartPos with
                    | Some p => _ ← on_br (on_r (sk_start p)); on_br (find_data fuel)
                    | None => mret dataHdr
                    end);
         _ ← copy_contents fuel name size dataHdr;
         alternates fuel name hdr) (NewBackupStreamReader r, t) in
      (x, t)
  | (Fail e, _) => (Fail e, t)
  | (Panic w, _) => (Panic w, t)
  | (NoFuel, _) => (NoFuel, t)
  end.
End ToTar.

(** ** From tar to a backup stream *)
Section FromTar.
Context {W : Type} `{Writer W}.
Context (SddlToSecurityDescriptor : list Z → res (list Z)).
Context (order : gmap (list Z) (list Z) → list (list Z * list Z)).

Definition back_state : Type := tar_reader * BackupStreamWriter W.
Definition on_tr {A} (m : St tar_reader A) : St back_state A := λ s,
  let '(x, t) := m (fst s) in (x, (t, snd s)).
Definition on_bw {A} (m : St (BackupStreamWriter W) A) : St back_state A := λ s,
  let '(x, bw) := m (snd s) in (x, (fst s, bw)).

(** A stream with its data at hand. *)
Definition write_stream (id : Z) (b : list Z) : St back_state unit :=
  _ ← on_bw (WriteHeader (mkHdr id 0 (zlen b) [] 0)); on_bw (WriteBytes b).
(** [io.Copy(bw, t)] *)
Definition copy_back : St back_state unit := λ s,
  match copy_loop (S (S (length (tr_cur (fst s))))) 0 s with
  | (Ret (_, None), s) => (Ret (), s)
  | (Ret (_, Some e), s) => (Fail e, s)
  | (Fail e, s) => (Fail e, s)
  | (Panic w, s) => (Panic w, s)
  | (NoFuel, s) => (NoFuel, s)
  end.

Fixpoint alternates_back (fuel : nat) (hdr : Header) : St back_state Header := λ s,
  match fuel with
  | O => (NoFuel, s)
  | S fuel =>
      (ahdr ← on_tr tar_Next;
       if negb (th_Typeflag ahdr =? TypeReg) || negb (HasPrefix (th_Name ahdr) (th_Name hdr ++ str ":")) then mret ahdr
       else
         _ ← on_bw (WriteHeader (mkHdr BackupAlternateData 0 (th_Size ahdr)
                      (zdrop (zlen (th_Name hdr)) (th_Name ahdr) ++ str ":$DATA") 0));
         _ ← copy_back;
         alternates_back fuel hdr) s
  end.

(** The next header that is not of this file; [io.EOF] is the error when there is none. *)
Definition WriteBackupStreamFromTarFile (hdr : Header) : St back_state Header :=
  sd ← lift (SecurityDescriptorFromTarHeader SddlToSecurityDescriptor hdr);
  _ ← (if negb (zlen sd =? 0) then write_stream BackupSecurity sd else mret ());
  eadata ← lift (ExtendedAttributesFromTarHeader order hdr);
  _ ← (if negb (zlen eadata =? 0) then write_stream BackupEaData eadata else mret ());
  _ ← (if th_Typeflag hdr =? TypeSymlink
       then write_stream BackupReparseData (EncodeReparsePointFromTarHeader hdr) else mret ());
  _ ← (if th_Typeflag hdr =? TypeReg
       then (_ ← on_bw (WriteHeader (mkHdr BackupData 0 (th_Size hdr) [] 0)); copy_back) else mret ());
  s ← get;
  alternates_back (S (length (tr_next (fst s)))) hdr.
End FromTar.
