(* ===== verification/TarSpec.v ===== *)
(** * Backup streams through tar: the round trip

    The streams of a file as [BackupRead] delivers them, the entries
    [WriteTarFileFromBackupStream] makes of them, and the streams
    [WriteBackupStreamFromTarFile] makes of those entries. *)
From S2P Require Import Prelude GoStrings Unicode Streams Ea Reparse PaxTime Base64 TarHeader Backup Tar.

(** ** Files *)
Inductive main_stream := MainData (d : list Z) | MainReparse (rp : ReparsePoint) | MainDir.
Record win_file := mkWF {
  wf_sd : list Z; wf_eas : list ExtendedAttribute; wf_main : main_stream;
  wf_alts : list (list Z * list Z)   (** names without [:] and [:$DATA], and data *) }.

Definition stream : Type := BackupHeader * list Z.
Definition stream_of (id : Z) (name d : list Z) : stream := (mkHdr id 0 (zlen d) name 0, d).
Definition alt_stream (a : list Z * list Z) : stream :=
  stream_of BackupAlternateData (str ":" ++ fst a ++ str ":$DATA") (snd a).
Definition if_some {A} (l : list A) (x : stream) : list stream := if bool_decide (l = []) then [] else [x].
Definition streams (f : win_file) : list stream :=
  if_some (wf_sd f) (stream_of BackupSecurity [] (wf_sd f)) ++
  if_some (wf_eas f) (stream_of BackupEaData [] (encoding (wf_eas f))) ++
  match wf_main f with
  | MainData d => [stream_of BackupData [] d]
  | MainReparse rp => [stream_of BackupReparseData [] (EncodeReparsePoint rp)]
  | MainDir => []
  end ++ (alt_stream <$> wf_alts f).
Definition bytes_of (x : stream) : list Z := header_bytes (fst x) ++ snd x.
Definition file_bytes (f : win_file) : list Z := concat (bytes_of <$> streams f).

Definition good_stream (x : stream) : Prop := hdr_ok (fst x) ∧ Size (fst x) = zlen (snd x).

(** ** A backup stream reader at the boundary of its streams *)
Section Position.
Context {R : Type} `{SeparateReader R} `{!Seeker R} `{!SeekerSpec R}.
Context (U : list Z → list Z) `{!UTF16ToStringSpec U}.

(** [d] is left of the current stream, and then come the streams [l]. *)
Definition at_data (s : BackupStreamReader R) (d : list Z) (l : list stream) : Prop :=
  rd_inv (bsr_r s) ∧ rd_fin (bsr_r s) = EOF ∧ bytesLeft s = zlen d ∧
  rd_rest (bsr_r s) = d ++ concat (bytes_of <$> l).

Lemma next_stream s d x l :
  good_stream x → at_data s d (x :: l) →
  ∃ s', next_or_end U s = (Ret (Some (fst x)), s') ∧ at_data s' (snd x) l.
Proof.
  destruct x as [h dx]. intros [Hok Hsz] (Hi & Hf & Hl & Hr). cbn [fst snd fmap list_fmap concat] in *.
  unfold bytes_of in Hr at 1. cbn [fst snd] in Hr. rewrite <- app_assoc in Hr.
  destruct (Next_header U s d h _ Hi Hok Hr) as (r1 & E1 & Hi1 & Hr1 & Hf1); [done|].
  exists (mkBSR r1 (Size h)). unfold next_or_end. rewrite E1. split; [done|].
  split_and!; cbn [bsr_r bytesLeft]; (done || congruence).
Qed.

Lemma next_end s d :
  at_data s d [] → ∃ s', next_or_end U s = (Ret None, s') ∧ at_data s' [] [].
Proof.
  intros (Hi & Hf & Hl & Hr). cbn in Hr. rewrite app_nil_r in Hr. pose_lens.
  destruct (skip_rest_spec s) as (s1 & E1 & Hi1 & Hr1 & Hf1 & Hl1); [done|rewrite Hr; lia|].
  rewrite Hr, zdrop_all in Hr1 by lia.
  destruct (ReadBytes_short sid_size (bsr_r s1)) as (r' & Er & Hi' & Hr' & Hf'); [done|by rewrite Hr1|].
  exists (mkBSR r' (bytesLeft s1)). unfold next_or_end, Next. rewrite (St_bind_Ret _ _ _ _ _ E1).
  rewrite (St_bind_Fail _ (on_r _) s1 EOF (mkBSR r' (bytesLeft s1))).
  - rewrite bool_decide_eq_true_2 by done. split; [done|]. split_and!; cbn [bsr_r bytesLeft]; try done; congruence.
  - unfold on_r. by rewrite Er, Hr1, Hf1, Hf.
Qed.

Lemma read_all_data s d l :
  at_data s d l → ∃ s', read_all s = (Ret (d, None), s') ∧ at_data s' [] l.
Proof.
  intros (Hi & Hf & Hl & Hr). pose_lens.
  destruct (ReadAll_rest (S (Z.to_nat (bytesLeft s))) s Hi) as (s' & Hi' & Hf' & Hl' & Hr' & E); [lia|lia|].
  exists s'. unfold read_all. rewrite E, Hr.
  assert (Hle : bytesLeft s ≤ zlen (d ++ concat (bytes_of <$> l))) by len.
  rewrite (proj2 (Z.leb_le _ _) Hle). rewrite Hl, ztake_app_eq by done. split; [done|].
  rewrite Hr, Hl, zdrop_app_eq in Hr' by done. rewrite Hr in Hl'.
  split_and!; [done|congruence|by apply Hl'|done].
Qed.
Lemma read_all_ok_data s d l :
  at_data s d l → ∃ s', read_all_ok s = (Ret d, s') ∧ at_data s' [] l.
Proof.
  intros Hs. destruct (read_all_data s d l Hs) as (s' & E & Hs'). exists s'. split; [|done].
  unfold read_all_ok. by rewrite (St_bind_Ret _ _ _ _ _ E).
Qed.

(** Copying a stream into the open entry of a tar writer. *)
Lemma tar_takes es h cap l b :
  capacity h = cap → zlen (l ++ b) ≤ cap →
  wr_write b (mkTW es (Some (h, l))) = (Ret (zlen b, None), mkTW es (Some (h, l ++ b))).
Proof.
  intros Hc Hl. unfold wr_write, tar_Writer, tar_missing. cbn [tw_cur tw_done].
  rewrite zlen_app in Hl. by rewrite (proj2 (Z.leb_le _ _)) by lia.
Qed.
Lemma copy_data_tar s d l es h :
  at_data s d l → zlen d ≤ capacity h →
  ∃ s', copy_data (s, mkTW es (Some (h, []))) = (Ret (zlen d), (s', mkTW es (Some (h, d)))) ∧ at_data s' [] l.
Proof.
  intros (Hi & Hf & Hl & Hr) Hc. pose_lens. pose (V := stream_view (concat (bytes_of <$> l)) EOF).
  assert (Hrest : stream_rest s = d) by (unfold stream_rest; rewrite Hr, Hl; by apply ztake_app_eq).
  assert (Hsf : stream_fin s = EOF) by (unfold stream_fin; rewrite (proj2 (Z.leb_le _ _)); [done|rewrite Hr, Hl; len]).
  destruct (copy_loop_spec (H0 := V) (λ x, mkTW es (Some (h, x))) (capacity h) (S (S (Z.to_nat (bytesLeft s)))) [] s 0)
    as (s' & E & (Hi' & Hl' & Ht & Hf') & Hrest' & Hsf').
  - intros x b. by apply tar_takes.
  - cbn [rd_inv V stream_view]. rewrite Hr, Hl, zdrop_app_eq by done. split_and!; (done || lia).
  - change (zlen ([] ++ stream_rest s) ≤ capacity h). by rewrite Hrest.
  - change (length (stream_rest s) < S (S (Z.to_nat (bytesLeft s))))%nat. rewrite Hrest, Hl. unfold zlen. lia.
  - change (@rd_rest _ _ V s) with (stream_rest s) in E. change (@rd_fin _ _ V s) with (stream_fin s) in E.
    change (stream_rest s' = []) in Hrest'. change (stream_fin s' = stream_fin s) in Hsf'.
    rewrite Hrest, Hsf, bool_decide_eq_true_2 in E by done. exists s'. unfold copy_data. cbn [fst]. rewrite E.
    split; [done|]. assert (Hz : bytesLeft s' = 0) by (apply stream_done; [done|done|congruence]).
    rewrite Hz in Ht. by split_and!.
Qed.
End Position.

(** ** What the entries are *)

(** The streams before the data, with what each adds to the header. *)
Definition metas (f : win_file) : list (stream * (Header → Header)) :=
  (if bool_decide (wf_sd f = []) then []
   else [(stream_of BackupSecurity [] (wf_sd f), set_pax hdrRawSecurityDescriptor (EncodeToString (wf_sd f)))]) ++
  (if bool_decide (wf_eas f = []) then []
   else [(stream_of BackupEaData [] (encoding (wf_eas f)), add_eas (wf_eas f))]) ++
  match wf_main f with
  | MainReparse rp => [(stream_of BackupReparseData [] (EncodeReparsePoint rp), λ h, add_reparse rp (set_mode cISLNK h))]
  | _ => []
  end.
Definition data_stream (f : win_file) : list stream :=
  match wf_main f with MainData d => [stream_of BackupData [] d] | _ => [] end.
Definition main_data (f : win_file) : list Z := match wf_main f with MainData d => d | _ => [] end.
Definition main_header `{FiletimeApi} (name : list Z) (size : Z) (fi : FileBasicInfo) (f : win_file) : Header :=
  let h := foldl (λ h m, snd m h) (BasicInfoHeader name size fi) (metas f) in
  match wf_main f with MainData _ => set_mode cISREG h | _ => h end.
Definition alt_entry (name : list Z) (hdr : Header) (a : list Z * list Z) : entry :=
  (alternate_header name (fst (alt_stream a)) hdr, snd a).
Definition file_entries `{FiletimeApi} (name : list Z) (size : Z) (fi : FileBasicInfo) (f : win_file) : list entry :=
  (main_header name size fi f, main_data f) :: (alt_entry (ToSlash name) (main_header name size fi f) <$> wf_alts f).

Lemma streams_metas f : streams f = (fst <$> metas f) ++ data_stream f ++ (alt_stream <$> wf_alts f).
Proof.
  unfold streams, metas, data_stream, if_some. do 2 case_bool_decide; destruct (wf_main f); done.
Qed.

(** The files the format can hold. *)
Definition attributes_ok (f : win_file) : Prop :=
  bytes_ok (wf_sd f) ∧ Forall ea_ok (wf_eas f) ∧ Forall ea_fits (wf_eas f) ∧
  match wf_main f with MainReparse rp => rp_ok rp | _ => True end.
Definition file_ok (size : Z) (fi : FileBasicInfo) (f : win_file) : Prop :=
  attributes_ok f ∧ Forall good_stream (streams f) ∧
  match wf_main f with
  | MainData d => size = zlen d ∧ is_directory (FileAttributes fi) = false
  | MainReparse _ => True
  | MainDir => is_directory (FileAttributes fi) = true
  end.

Section Forward.
Context {R : Type} `{SeparateReader R} `{!Seeker R} `{!SeekerSpec R} `{!StartSeeker R}.
Context (U : list Z → list Z) `{!UTF16ToStringSpec U} (check_header : Header → option error).

(** A stream of metadata, taken in whole or in part. *)
Definition meta_step (name : list Z) (m : stream * (Header → Header)) : Prop :=
  good_stream (fst m) ∧
  ∀ hdr l (s : BackupStreamReader R), at_data s (snd (fst m)) l →
    ∃ s' d, add_stream name (fst (fst m)) hdr s = (Ret (Some (snd m hdr)), s') ∧ at_data s' d l.

Lemma add_security name sd hdr l (s : BackupStreamReader R) :
  at_data s sd l → ∃ s' d, add_stream name (fst (stream_of BackupSecurity [] sd)) hdr s =
    (Ret (Some (set_pax hdrRawSecurityDescriptor (EncodeToString sd) hdr)), s') ∧ at_data s' d l.
Proof.
  intros Hs. destruct (read_all_ok_data s sd l Hs) as (s' & E & Hs'). exists s', []. split; [|done].
  change (add_stream _ _ hdr s) with
    ((sd ← read_all_ok; mret (Some (set_pax hdrRawSecurityDescriptor (EncodeToString sd) hdr)) : St (BackupStreamReader R) _) s).
  by rewrite (St_bind_Ret _ _ _ _ _ E).
Qed.
Lemma add_ea name eas hdr l (s : BackupStreamReader R) :
  Forall ea_ok eas → Forall ea_fits eas → at_data s (encoding eas) l →
  ∃ s' d, add_stream name (fst (stream_of BackupEaData [] (encoding eas))) hdr s =
    (Ret (Some (add_eas eas hdr)), s') ∧ at_data s' d l.
Proof.
  intros Hok Hfit Hs. destruct (read_all_ok_data s _ l Hs) as (s' & E & Hs'). exists s', []. split; [|done].
  change (add_stream _ _ hdr s) with
    ((eab ← read_all_ok; eas ← lift (DecodeExtendedAttributes eab); mret (Some (add_eas eas hdr)) : St (BackupStreamReader R) _) s).
  rewrite (St_bind_Ret _ _ _ _ _ E). unfold DecodeExtendedAttributes.
  rewrite decode_encoding; [done..|]. by destruct (encoding_length eas Hfit).
Qed.
Lemma add_reparse_point name rp hdr l (s : BackupStreamReader R) :
  rp_ok rp → at_data s (EncodeReparsePoint rp) l →
  ∃ s' d, add_stream name (fst (stream_of BackupReparseData [] (EncodeReparsePoint rp))) hdr s =
    (Ret (Some (add_reparse rp (set_mode cISLNK hdr))), s') ∧ at_data s' d l.
Proof.
  intros Hok Hs. destruct (read_all_data s _ l Hs) as (s' & E & Hs'). exists s', []. split; [|done].
  change (add_stream _ _ hdr s) with
    (('((b, _) : list Z * option error) ← read_all; rp ← lift (DecodeReparsePoint b);
      mret (Some (add_reparse rp (set_mode cISLNK hdr))) : St (BackupStreamReader R) _) s).
  rewrite (St_bind_Ret _ _ _ _ _ E). cbv beta iota. destruct (Decode_Encode_eq rp Hok) as [Hd _]. unfold lift. by rewrite St_bind_eq, Hd.
Qed.

Lemma metas_steps name f : attributes_ok f → Forall good_stream (streams f) → Forall (meta_step name) (metas f).
Proof.
  intros (Hsd & Hok & Hfit & Hrp). rewrite streams_metas, Forall_app, Forall_fmap. intros [Hg _].
  revert Hg. unfold metas. case_bool_decide; case_bool_decide; destruct (wf_main f); cbn [app];
    repeat (rewrite Forall_cons || rewrite Forall_nil); unfold meta_step; cbn [fst snd]; intros Hg; destruct_and?; split_and?; try done;
    intros; first [by apply add_security | by apply add_ea | by apply add_reparse_point].
Qed.

Lemma collect_metas rt name ms fuel hdr (s : BackupStreamReader R) d l :
  Forall (meta_step name) ms → at_data s d ((fst <$> ms) ++ l) →
  ∃ s' d', collect U (length ms + fuel) rt name hdr s = collect U fuel rt name (foldl (λ h m, snd m h) hdr ms) s' ∧ at_data s' d' l.
Proof.
  intros Hms. revert hdr s d. induction Hms as [|[x g] ms [Hx Hg] _ IH]; intros hdr s d Hs; [by exists s, d|].
  cbn [fmap list_fmap app fst snd] in *. destruct (next_stream U s d x _ Hx Hs) as (s1 & E1 & Hs1).
  destruct (Hg hdr _ s1 Hs1) as (s2 & d2 & E2 & Hs2). destruct (IH (g hdr) s2 d2 Hs2) as (s3 & d3 & E3 & Hs3).
  exists s3, d3. split; [|done]. etransitivity; [|exact E3]. change (length ((x, g) :: ms) + fuel)%nat with (S (length ms + fuel)).
  cbn [collect]. rewrite (St_bind_Ret _ _ _ _ _ E1). cbv beta iota. by rewrite (St_bind_Ret _ _ _ _ _ E2).
Qed.

(** The first pass of a file, the reader not seekable. *)
Lemma collect_file `{FiletimeApi} name size fi f fuel (s : BackupStreamReader R) :
  file_ok size fi f → (wf_alts f = [] ∨ data_stream f ≠ []) → at_data s [] (streams f) → (length (streams f) < fuel)%nat →
  ∃ s' d, collect U fuel false (ToSlash name) (BasicInfoHeader name size fi) s =
      (Ret (main_header name size fi f, fst <$> head (data_stream f)), s') ∧
    at_data s' d (alt_stream <$> wf_alts f) ∧ d = main_data f.
Proof.
  intros (Hat & Hg & _) Halt Hs Hf. pose proof (metas_steps (ToSlash name) f Hat Hg) as Hms.
  rewrite streams_metas in Hs, Hf, Hg. rewrite !length_app, length_fmap in Hf.
  replace fuel with (length (metas f) + S (fuel - length (metas f) - 1))%nat by lia.
  destruct (collect_metas false (ToSlash name) (metas f) (S (fuel - length (metas f) - 1)) (BasicInfoHeader name size fi) s [] _ Hms Hs)
    as (s1 & d1 & -> & Hs1). apply Forall_app in Hg as [_ Hg].
  unfold main_header, data_stream, main_data in *. cbn [collect]. destruct (wf_main f) as [d|rp|]; cbn [app head fmap option_fmap option_map] in *.
  - apply Forall_cons in Hg as [Hx _]. destruct (next_stream U s1 d1 _ _ Hx Hs1) as (s2 & E2 & Hs2).
    rewrite (St_bind_Ret _ _ _ _ _ E2). by exists s2, d.
  - destruct Halt as [Halt|]; [|done]. rewrite Halt in *. destruct (next_end U s1 d1 Hs1) as (s2 & E2 & Hs2).
    rewrite (St_bind_Ret _ _ _ _ _ E2). by exists s2, [].
  - destruct Halt as [Halt|]; [|done]. rewrite Halt in *. destruct (next_end U s1 d1 Hs1) as (s2 & E2 & Hs2).
    rewrite (St_bind_Ret _ _ _ _ _ E2). by exists s2, [].
Qed.
End Forward.

(** *** The main header, field by field *)
Definition with_pax (m : gmap (list Z) (list Z)) (h : Header) : Header :=
  mkTH (th_Name h) (th_Size h) (th_Typeflag h) (th_Mode h) (th_Linkname h) (th_ModTime h) (th_AccessTime h)
    (th_ChangeTime h) m.
Definition pax_eas (eas : list ExtendedAttribute) (m : gmap (list Z) (list Z)) : gmap (list Z) (list Z) :=
  foldl (λ m ea, <[hdrEaPrefix ++ Ea.Name ea := EncodeToString (Ea.Value ea)]> m) m eas.
Definition file_pax (f : win_file) (m : gmap (list Z) (list Z)) : gmap (list Z) (list Z) :=
  let m := if bool_decide (wf_sd f = []) then m else <[hdrRawSecurityDescriptor := EncodeToString (wf_sd f)]> m in
  let m := pax_eas (wf_eas f) m in
  match wf_main f with MainReparse rp => if IsMountPoint rp then <[hdrMountPoint := str "1"]> m else m | _ => m end.

Lemma add_eas_pax eas h : add_eas eas h = with_pax (pax_eas eas (th_PAXRecords h)) h.
Proof.
  revert h. induction eas as [|ea eas IH]; intros h; [by destruct h|].
  unfold add_eas in *. cbn [foldl]. rewrite IH. reflexivity.
Qed.
Lemma main_header_fields `{FiletimeApi} name size fi f :
  let h0 := BasicInfoHeader name size fi in
  let h := main_header name size fi f in
  th_Name h = ToSlash name ∧ th_Size h = th_Size h0 ∧
  th_Typeflag h = match wf_main f with MainReparse _ => TypeSymlink | _ => th_Typeflag h0 end ∧
  th_Linkname h = match wf_main f with MainReparse rp => Target rp | _ => [] end ∧
  th_PAXRecords h = file_pax f (th_PAXRecords h0).
Proof.
  cbn zeta. unfold main_header, metas, file_pax.
  assert (Heas : ∀ h : Header, foldl (λ h (m : stream * (Header → Header)), snd m h) h
    (if bool_decide (wf_eas f = []) then []
     else [(stream_of BackupEaData [] (encoding (wf_eas f)), add_eas (wf_eas f))]) = with_pax (pax_eas (wf_eas f) (th_PAXRecords h)) h).
  { intros h. case_bool_decide as E; [rewrite E; by destruct h|]. cbn [foldl snd]. apply add_eas_pax. }
  rewrite !foldl_app, Heas. clear Heas. destruct (bool_decide (wf_sd f = [])), (wf_main f) as [d|rp|]; cbn [foldl snd];
    unfold add_reparse; try destruct (IsMountPoint rp); split_and!; reflexivity.
Qed.
Lemma main_capacity `{FiletimeApi} name size fi f :
  file_ok size fi f → capacity (main_header name size fi f) = zlen (main_data f).
Proof.
  intros (_ & _ & Hm). destruct (main_header_fields name size fi f) as (_ & Hs & Ht & _).
  unfold capacity, main_data. rewrite Ht, Hs. unfold BasicInfoHeader. cbn [th_Typeflag th_Size].
  destruct (wf_main f); [destruct Hm as [-> ->]|..]; cbn; try done. by rewrite Hm.
Qed.

Section ForwardEnd.
Context {R : Type} `{SeparateReader R} `{!Seeker R} `{!SeekerSpec R} `{!StartSeeker R}.
Context (U : list Z → list Z) `{!UTF16ToStringSpec U} (check_header : Header → option error).

Lemma alternate_header_idem name x y h :
  alternate_header name x (alternate_header name y h) = alternate_header name x h.
Proof. done. Qed.
Lemma tar_WriteHeader_ok h t :
  tar_missing t = 0 → check_header h = None →
  tar_WriteHeader check_header h t = (Ret (), mkTW (tar_entries t) (Some (h, []))).
Proof. intros Hm Hc. unfold tar_WriteHeader. by rewrite Hm, Hc. Qed.

Lemma alternates_file name hdr alts fuel (s : BackupStreamReader R) d t :
  Forall good_stream (alt_stream <$> alts) → Forall (λ a, check_header (fst (alt_entry name hdr a)) = None) alts →
  at_data s d (alt_stream <$> alts) → tar_missing t = 0 → (length alts < fuel)%nat →
  ∃ s' t', alternates U check_header fuel name hdr (s, t) = (Ret (), (s', t')) ∧
    tar_entries t' = tar_entries t ++ (alt_entry name hdr <$> alts).
Proof.
  revert hdr fuel s d t. induction alts as [|a alts IH]; intros hdr fuel s d t Hg Hc Hs Hm Hf;
    (destruct fuel as [|fuel]; [cbn in Hf; lia|]); cbn [alternates].
  - destruct (next_end U s d Hs) as (s' & E & _). exists s', t. unfold on_br. rewrite St_bind_eq. cbn [fst snd].
    rewrite E. cbn [fmap list_fmap]. by rewrite app_nil_r.
  - cbn [fmap list_fmap] in *. apply Forall_cons in Hg as [Hx Hg]. apply Forall_cons in Hc as [Hc0 Hc].
    destruct (next_stream U s d _ _ Hx Hs) as (s1 & E1 & Hs1). cbn [fst] in *.
    set (h := fst (alt_entry name hdr a)) in *.
    destruct (copy_data_tar s1 _ _ (tar_entries t) h Hs1) as (s2 & E2 & Hs2); [by cbn|].
    set (t2 := mkTW (tar_entries t) (Some (h, snd a))).
    destruct (IH h fuel s2 [] t2 Hg) as (s3 & t3 & E3 & He); [done|done| |cbn in Hf; lia|].
    { unfold t2, tar_missing. cbn [tw_cur]. unfold capacity. cbn. lia. }
    exists s3, t3. split.
    + unfold on_br at 1. rewrite St_bind_eq. cbn [fst snd]. rewrite E1. cbv beta iota.
      change (Id (fst (alt_stream a)) =? BackupAlternateData) with true. cbv iota.
      change (Z.land (Attributes (fst (alt_stream a))) StreamSparseAttributes =? 0) with true. cbn [negb].
      rewrite St_bind_eq. unfold on_tw. cbn [fst snd]. change (alternate_header name (fst (alt_stream a)) hdr) with h.
      rewrite tar_WriteHeader_ok by done. rewrite St_bind_eq. rewrite E2. exact E3.
    + rewrite He. unfold t2, tar_entries at 1. cbn [tw_done tw_cur]. rewrite <- app_assoc. done.
Qed.

Lemma contents_file `{FiletimeApi} fuel name size fi f (s : BackupStreamReader R) es l h :
  file_ok size fi f → at_data s (main_data f) l → capacity h = zlen (main_data f) →
  ∃ s', copy_contents U fuel name size (fst <$> head (data_stream f)) (s, mkTW es (Some (h, []))) =
      (Ret (), (s', mkTW es (Some (h, main_data f)))) ∧ ∃ d, at_data s' d l.
Proof.
  intros (_ & _ & Hm) Hs Hc. unfold copy_contents, main_data, data_stream in *.
  destruct (wf_main f) as [d|rp|]; cbn [head fmap option_fmap option_map fst stream_of Size Attributes] in *; [|by eauto..].
  change (Z.land 0 StreamSparseAttributes =? 0) with true. rewrite orb_true_r. destruct Hm as [-> _]. rewrite Z.eqb_refl. cbn [negb].
  destruct (copy_data_tar s d l es h Hs) as (s' & E & Hs'); [lia|]. rewrite E. eauto.
Qed.
End ForwardEnd.

Lemma ToSlash_idem s : ToSlash (ToSlash s) = ToSlash s.
Proof.
  unfold ToSlash. rewrite <- list_fmap_compose. apply list_fmap_ext. intros _ c _. cbn.
  destruct (Z.eqb_spec c 92) as [->|Hc]; [done|]. by rewrite (proj2 (Z.eqb_neq _ _) Hc).
Qed.
Lemma BasicInfoHeader_ToSlash `{FiletimeApi} name size fi :
  BasicInfoHeader (ToSlash name) size fi = BasicInfoHeader name size fi.
Proof. unfold BasicInfoHeader. by rewrite ToSlash_idem. Qed.

(** Writing the tar of a file from its backup stream. *)
Lemma WriteTar_entries {R : Type} `{SeparateReader R} `{!Seeker R} `{!SeekerSpec R} `{!StartSeeker R}
    (U : list Z → list Z) `{!UTF16ToStringSpec U} (check_header : Header → option error) `{FiletimeApi}
    fuel name size fi f (r : R) :
  file_ok size fi f → (wf_alts f = [] ∨ data_stream f ≠ []) →
  Forall (λ e, check_header (fst e) = None) (file_entries name size fi f) →
  rd_inv r → rd_fin r = EOF → rd_rest r = file_bytes f → (sk_seek = None ∨ sk_can r = false) →
  (length (streams f) < fuel)%nat →
  ∃ t, WriteTarFileFromBackupStream U check_header fuel name size fi r new_tar = (Ret (), t) ∧
    tar_entries t = file_entries name size fi f.
Proof.
  intros Hok Halt Hchk Hi Hf Hr Hsk Hfuel. unfold WriteTarFileFromBackupStream.
  assert (Ht : tell r = (Ret None, r)).
  { unfold tell. destruct sk_seek as [seek|] eqn:Es; [|done]. destruct Hsk as [|Hsk]; [done|].
    pose proof (sk_seek_spec seek 0 r Es Hi) as Hss. rewrite Hsk in Hss. pose_lens. destruct Hss as (e & ->); [lia|done]. }
  rewrite Ht. cbv beta iota zeta. rewrite (bool_decide_eq_false_2 (is_Some (@None Z))) by (by intros [? ?]).
  rewrite BasicInfoHeader_ToSlash.
  assert (Hs : at_data (NewBackupStreamReader r) [] (streams f)) by (by split_and!).
  destruct (collect_file U name size fi f fuel _ Hok Halt Hs Hfuel) as (s1 & d1 & E1 & Hs1 & ->).
  rewrite St_bind_eq. unfold on_br at 1. cbn [fst snd]. rewrite E1. cbv beta iota.
  unfold file_entries in Hchk. apply Forall_cons in Hchk as [Hc0 Hc]. cbn [fst] in Hc0.
  set (h := main_header name size fi f) in *.
  rewrite St_bind_eq. unfold on_tw at 1. cbn [fst snd]. rewrite tar_WriteHeader_ok by done. cbv beta iota.
  rewrite St_bind_eq. cbn [mret St_ret]. change (tar_entries new_tar) with (@nil entry).
  destruct (contents_file U fuel (ToSlash name) size fi f s1 [] _ h Hok Hs1 (main_capacity name size fi f Hok)) as (s2 & E2 & d2 & Hs2).
  rewrite St_bind_eq. rewrite E2. cbv beta iota.
  destruct (alternates_file U check_header (ToSlash name) h (wf_alts f) fuel s2 d2 (mkTW [] (Some (h, main_data f)))) as (s3 & t3 & E3 & He).
  - destruct Hok as (_ & Hg & _). rewrite streams_metas in Hg. apply Forall_app in Hg as [_ Hg]. by apply Forall_app in Hg as [_ Hg].
  - by rewrite Forall_fmap in Hc.
  - done.
  - unfold tar_missing. cbn [tw_cur]. unfold h. rewrite (main_capacity name size fi f Hok). lia.
  - rewrite streams_metas, !length_app, !length_fmap in Hfuel. lia.
  - exists t3. rewrite E3. done.
Qed.
