(* ===== verification/TarRoundtrip.v ===== *)
(** * Backup streams through tar and back

    What [WriteBackupStreamFromTarFile] makes of the entries of a file, and
    the round trip with [WriteTarFileFromBackupStream]. *)
From S2P Require Import Prelude GoStrings Unicode Streams Ea Reparse PaxTime Base64 TarHeader Backup Tar TarSpec.

(** ** The PAX records of a file, as a list *)
Definition clear_flags (ea : ExtendedAttribute) : ExtendedAttribute := mkEA (Ea.Name ea) (Ea.Value ea) 0.
Definition ea_record (ea : ExtendedAttribute) : list Z * list Z :=
  (hdrEaPrefix ++ Ea.Name ea, EncodeToString (Ea.Value ea)).
Definition pax_list (f : win_file) (base : list (list Z * list Z)) : list (list Z * list Z) :=
  match wf_main f with MainReparse rp => if IsMountPoint rp then [(hdrMountPoint, str "1")] else [] | _ => [] end ++
  rev (ea_record <$> wf_eas f) ++
  (if bool_decide (wf_sd f = []) then [] else [(hdrRawSecurityDescriptor, EncodeToString (wf_sd f))]) ++ base.
Definition info_records `{FiletimeApi} (fi : FileBasicInfo) : list (list Z * list Z) :=
  [(hdrCreationTime, formatPAXTime (Unix 0 (Nanoseconds (CreationTime fi))));
   (hdrFileAttributes, FormatUint (FileAttributes fi) 10)].

Lemma pax_eas_list eas l : pax_eas eas (list_to_map l) = list_to_map (rev (ea_record <$> eas) ++ l).
Proof.
  revert l. induction eas as [|ea eas IH]; intros l; [done|].
  unfold pax_eas in *. cbn [foldl fmap list_fmap rev].
  etransitivity; [exact (IH (ea_record ea :: l))|]. by rewrite <- app_assoc.
Qed.
Lemma file_pax_list f base : file_pax f (list_to_map base) = list_to_map (pax_list f base).
Proof.
  unfold file_pax, pax_list. pose proof (pax_eas_list (wf_eas f) base) as E1.
  pose proof (pax_eas_list (wf_eas f) ((hdrRawSecurityDescriptor, EncodeToString (wf_sd f)) :: base)) as E2.
  rewrite list_to_map_cons in E2. case_bool_decide; [rewrite E1|rewrite E2];
    destruct (wf_main f) as [|rp|]; try destruct (IsMountPoint rp); done.
Qed.

(** The record an extended attribute comes from. *)
Definition ea_of (kv : list Z * list Z) : option ExtendedAttribute :=
  if HasPrefix kv.1 hdrEaPrefix then
    match DecodeString kv.2 with Ret d => Some (mkEA (zdrop (zlen hdrEaPrefix) kv.1) d 0) | _ => None end
  else None.
Definition decodes (kv : list Z * list Z) : Prop :=
  HasPrefix kv.1 hdrEaPrefix = true → ∃ d, DecodeString kv.2 = Ret d.

Lemma collect_eas_omap l : Forall decodes l → collect_eas l = Ret (omap ea_of l).
Proof.
  induction 1 as [|[k v] l Hkv _ IH]; [done|]. cbn [collect_eas omap list_omap]. unfold ea_of at 1. unfold decodes in Hkv. cbn [fst snd] in *.
  destruct (HasPrefix k hdrEaPrefix); [|done]. destruct (Hkv eq_refl) as [d ->]. cbn [mbind res_bind]. by rewrite IH.
Qed.
Lemma ea_of_record ea : ea_ok ea → ea_of (ea_record ea) = Some (clear_flags ea).
Proof.
  intros (_ & Hv & _). unfold ea_of, ea_record. cbn [fst snd].
  rewrite HasPrefix_app, DecodeString_EncodeToString by done. by rewrite zdrop_app_eq.
Qed.

Lemma fmap_rev {A B} (g : A → B) l : g <$> rev l = rev (g <$> l).
Proof. induction l as [|x l IH]; [done|]. cbn [rev fmap list_fmap]. by rewrite fmap_app, IH. Qed.

Section Pax.
Context (f : win_file) (base : list (list Z * list Z)).
Hypothesis Hok : Forall ea_ok (wf_eas f).
Hypothesis Hnames : NoDup (Ea.Name <$> wf_eas f).
Hypothesis Hbase : NoDup base.*1.
Hypothesis Hother : Forall (λ k, HasPrefix k hdrEaPrefix = false ∧ k ≠ hdrMountPoint ∧ k ≠ hdrRawSecurityDescriptor) base.*1.

Lemma ea_keys : (rev (ea_record <$> wf_eas f)).*1 = rev ((app hdrEaPrefix) <$> (Ea.Name <$> wf_eas f)).
Proof. rewrite fmap_rev, <- !list_fmap_compose. done. Qed.
Lemma ea_keys_prefix k : k ∈ (rev (ea_record <$> wf_eas f)).*1 → HasPrefix k hdrEaPrefix = true.
Proof.
  rewrite ea_keys. rewrite list_elem_of_In, <- in_rev, <- list_elem_of_In.
  intros (x & -> & _)%list_elem_of_fmap. apply HasPrefix_app.
Qed.
Lemma pax_NoDup : NoDup (pax_list f base).*1.
Proof.
  assert (Hrest : NoDup ((rev (ea_record <$> wf_eas f)).*1 ++
    ((if bool_decide (wf_sd f = []) then [] else [(hdrRawSecurityDescriptor, EncodeToString (wf_sd f))]) ++ base).*1)).
  { apply NoDup_app. split_and!.
    - rewrite ea_keys. rewrite <- Permutation_rev. apply NoDup_fmap_2; [apply _|done].
    - intros k Hk%ea_keys_prefix. rewrite fmap_app, elem_of_app. rewrite Forall_forall in Hother. intros [Hin|Hin%Hother].
      + case_bool_decide; [by apply elem_of_nil in Hin|]. apply list_elem_of_singleton in Hin. cbn [fst] in Hin. by subst k.
      + destruct Hin as [? _]. congruence.
    - case_bool_decide; [done|]. cbn. apply NoDup_cons. split; [|done]. rewrite Forall_forall in Hother. by intros (_ & _ & ?)%Hother. }
  unfold pax_list. rewrite fmap_app. destruct (wf_main f) as [|rp|]; [| |]; [by rewrite !fmap_app in * | |by rewrite !fmap_app in *].
  destruct (IsMountPoint rp); [|by rewrite !fmap_app in *].
  cbn [app fmap list_fmap fst]. apply NoDup_cons. split; [|by rewrite !fmap_app in *].
  rewrite fmap_app, elem_of_app. intros [H%ea_keys_prefix|H]; [by vm_compute in H|].
  rewrite fmap_app, elem_of_app in H. destruct H as [H|H].
  - case_bool_decide; [by apply elem_of_nil in H|]. apply list_elem_of_singleton in H. cbn [fst] in H. vm_compute in H. discriminate H.
  - rewrite Forall_forall in Hother. by apply Hother in H as (_ & ? & _).
Qed.

Lemma pax_keys k :
  k ∈ (pax_list f base).*1 →
  (k = hdrMountPoint ∧ ∃ rp, wf_main f = MainReparse rp ∧ IsMountPoint rp = true) ∨ HasPrefix k hdrEaPrefix = true ∨
  (k = hdrRawSecurityDescriptor ∧ wf_sd f ≠ []) ∨ k ∈ base.*1.
Proof.
  unfold pax_list. rewrite !fmap_app, !elem_of_app. intros [Hk|[Hk|[Hk|Hk]]]; [|right; left; by apply ea_keys_prefix| |by auto].
  - left. destruct (wf_main f) as [|rp|]; [by apply elem_of_nil in Hk| |by apply elem_of_nil in Hk].
    destruct (IsMountPoint rp) eqn:Em; [|by apply elem_of_nil in Hk]. apply list_elem_of_singleton in Hk. eauto.
  - right. right. left. case_bool_decide; [by apply elem_of_nil in Hk|]. by apply list_elem_of_singleton in Hk.
Qed.
Lemma pax_decodes : Forall decodes (pax_list f base).
Proof.
  assert (Hno : ∀ k v, HasPrefix k hdrEaPrefix = false → decodes (k, v)) by (unfold decodes; cbn; congruence).
  unfold pax_list. rewrite !Forall_app. split_and!.
  - destruct (wf_main f) as [|rp|]; [done| |done]. destruct (IsMountPoint rp); [|done]. apply Forall_singleton. by apply Hno.
  - apply Forall_rev, Forall_fmap. eapply Forall_impl; [exact Hok|]. intros ea (_ & Hv & _) _. cbn [compose snd ea_record].
    exists (Ea.Value ea). by apply DecodeString_EncodeToString.
  - case_bool_decide; [done|]. apply Forall_singleton. by apply Hno.
  - rewrite Forall_fmap in Hother. eapply Forall_impl; [exact Hother|]. intros [k v] (Hk & _). by apply Hno.
Qed.
Lemma pax_eas_back : omap ea_of (pax_list f base) ≡ₚ clear_flags <$> wf_eas f.
Proof.
  assert (Hno : ∀ k v, HasPrefix k hdrEaPrefix = false → ea_of (k, v) = None).
  { intros k v E. unfold ea_of. cbn [fst]. by rewrite E. }
  unfold pax_list. rewrite !omap_app.
  assert (Hb : omap ea_of base = []).
  { clear Hbase. induction base as [|[k v] b IH]; [done|]. cbn in Hother. apply Forall_cons in Hother as [[Hk _] Hb].
    cbn [omap list_omap]. rewrite Hno by done. by apply IH. }
  rewrite Hb. assert (Hm : omap ea_of (match wf_main f with MainReparse rp =>
    if IsMountPoint rp then [(hdrMountPoint, str "1")] else [] | _ => [] end) = []).
  { destruct (wf_main f) as [|rp|]; [done| |done]. destruct (IsMountPoint rp); [|done]. cbn [omap list_omap]. by rewrite Hno. }
  rewrite Hm. assert (Hs : omap ea_of (if bool_decide (wf_sd f = []) then []
    else [(hdrRawSecurityDescriptor, EncodeToString (wf_sd f))]) = []).
  { destruct (bool_decide _); [done|]. cbn [omap list_omap]. by rewrite Hno. }
  rewrite Hs, !app_nil_r. cbn [app]. rewrite <- Permutation_rev.
  clear -Hok. induction Hok as [|ea eas Hea _ IH]; [done|]. cbn [fmap list_fmap omap list_omap].
  rewrite ea_of_record by done. apply Permutation_skip, IH. by apply Forall_cons in Hok as [_ ?].
Qed.
End Pax.

(** The sizes of attributes do not depend on their order or their flags. *)
Lemma encoding_zlen eas : Forall ea_fits eas → zlen (encoding eas) = foldr (λ ea n, padded_size ea + n) 0 eas.
Proof.
  induction 1 as [|ea eas Hea _ IH]; [done|]. cbn [encoding foldr]. by rewrite zlen_app, zlen_entry, IH.
Qed.
Lemma encoding_zlen_back eas eas' :
  Forall ea_fits eas → eas' ≡ₚ clear_flags <$> eas → Forall ea_fits eas' ∧ zlen (encoding eas') = zlen (encoding eas).
Proof.
  intros Hf Hp. assert (Hf' : Forall ea_fits (clear_flags <$> eas)) by (by apply Forall_fmap).
  split; [by rewrite Hp|]. rewrite !encoding_zlen by (done || by rewrite Hp). clear Hf Hf'.
  trans (foldr (λ ea n, padded_size ea + n) 0 (clear_flags <$> eas)).
  - induction Hp; cbn; lia.
  - clear Hp. induction eas as [|ea eas IH]; [done|]. cbn [foldr fmap list_fmap]. by rewrite IH.
Qed.

(** ** Writing the streams *)
Section Backward.
Context (SddlToSecurityDescriptor : list Z → res (list Z)).
Context (order : gmap (list Z) (list Z) → list (list Z * list Z)).
Let state : Type := back_state (W := Buffer).

(** The reader of the current entry. *)
#[local, program] Instance tar_view (es : list entry) : ReaderSpec tar_reader := {|
  rd_inv t := tr_next t = es; rd_rest := tr_cur; rd_fin _ := EOF |}.
Next Obligation.
  intros es n [d l] Hl Hn. cbn in Hl. subst l.
  destruct (@rd_read_spec (list Z) _ bytes_ReaderSpec n d I Hn) as (bs & e & d' & E & _ & Hr & Hz & _ & He).
  exists bs, e, (mkTR d' es). unfold rd_read, tar_Reader in *. cbn [tr_cur tr_next]. rewrite E. done.
Qed.

(** [m] writes [b] and leaves the tar reader alone. *)
Definition puts {A} (m : St state A) (x : A) (b : list Z) : Prop :=
  ∀ (t : tar_reader) (out : Buffer), m (t, mkBSW out 0) = (Ret x, (t, mkBSW (W := Buffer) (out ++ b) 0)).
Lemma puts_ret {A} (x : A) : puts (mret x) x [].
Proof. intros t out. by rewrite app_nil_r. Qed.

Lemma header_put h t (out : Buffer) :
  hdr_ok h → on_bw (WriteHeader h) (t, mkBSW out 0) = (Ret (), (t, mkBSW (W := Buffer) (out ++ header_bytes h) (Size h))).
Proof.
  intros Hok. unfold on_bw. cbn [fst snd].
  destruct (WriteHeader_bytes h out Hok) as [(w & -> & Ho)|(e & w & p & l & E & _)].
  - change (w = out ++ header_bytes h) in Ho. by subst w.
  - exfalso. revert E. unfold WriteHeader. cbn. repeat case_match; by intros [=].
Qed.
Lemma bytes_put d (out : Buffer) left :
  zlen d ≤ left → wr_write d (mkBSW out left) = (Ret (zlen d, None), mkBSW (W := Buffer) (out ++ d) (left - zlen d)).
Proof.
  intros Hl. unfold wr_write, BackupStreamWriter_Writer, Write. cbn [bsw_left bsw_w].
  by replace (left <? zlen d) with false by lia.
Qed.
Lemma write_stream_puts id b :
  good_stream (stream_of id [] b) → puts (write_stream id b) () (bytes_of (stream_of id [] b)).
Proof.
  intros [Hok _] t out. unfold write_stream. rewrite St_bind_eq, header_put by done.
  unfold on_bw. cbn [fst snd Size]. unfold WriteBytes. rewrite bytes_put by done.
  unfold bytes_of. cbn [fst snd]. by rewrite app_assoc, Z.sub_diag.
Qed.
Lemma copy_back_puts d es (out : Buffer) :
  copy_back (mkTR d es, mkBSW out (zlen d)) = (Ret (), (mkTR [] es, mkBSW (W := Buffer) (out ++ d) 0)).
Proof.
  unfold copy_back. cbn [fst tr_cur].
  destruct (copy_loop_spec (H0 := tar_view es) (λ x, mkBSW (W := Buffer) (out ++ x) (zlen d - zlen x)) (zlen d) (S (S (length d))) []
    (mkTR d es) 0) as (r' & E & Hi & Hr & _).
  - intros l b Hl. rewrite zlen_app in Hl. pose_lens. rewrite bytes_put by lia. by rewrite <- app_assoc, zlen_app, Z.sub_add_distr.
  - done.
  - done.
  - cbn. lia.
  - cbn [rd_rest tar_view rd_fin tr_cur app] in *. rewrite (zlen_nil (A := Z)), Z.sub_0_r, Z.sub_diag in E.
    change (out ++ [] : Buffer) with (out ++ @nil Z) in E. rewrite app_nil_r in E.
    rewrite E, bool_decide_eq_true_2 by done. destruct r' as [d' es']. cbn in Hi, Hr. by subst.
Qed.
Lemma puts_step {A B} (m : St state A) (k : A → St state B) x b t (out : Buffer) :
  puts m x b → (m ≫= k) (t, mkBSW out 0) = k x (t, mkBSW (W := Buffer) (out ++ b) 0).
Proof. intros Hm. by rewrite St_bind_eq, Hm. Qed.
Lemma lift_puts {A} (r : res A) x : r = Ret x → puts (lift r) x [].
Proof. intros -> t out. by rewrite app_nil_r. Qed.

(** What comes after a file: nothing, or an entry of another one. *)
Definition other_file (h : Header) (rest : list entry) : Prop :=
  match rest with
  | [] => True
  | (h2, _) :: _ => th_Typeflag h2 ≠ TypeReg ∨ HasPrefix (th_Name h2) (th_Name h ++ str ":") = false
  end.
Definition after (rest : list entry) : res Header := match rest with [] => Fail EOF | (h2, _) :: _ => Ret h2 end.

Lemma alt_header_name name h a :
  let ah := fst (alt_entry name h a) in
  HasPrefix (th_Name ah) (name ++ str ":") = true ∧
  mkHdr BackupAlternateData 0 (th_Size ah) (zdrop (zlen name) (th_Name ah) ++ str ":$DATA") 0 = fst (alt_stream a).
Proof.
  cbn zeta. unfold alt_entry, alternate_header. cbn [fst th_Name th_Size].
  replace (Backup.Name (fst (alt_stream a))) with ((str ":" ++ fst a) ++ str ":$DATA") by (cbn; done).
  rewrite TrimSuffix_app. split; [by rewrite app_assoc, HasPrefix_app|]. by rewrite zdrop_app_eq.
Qed.
Lemma alternates_back_puts h alts rest fuel cur (out : Buffer) :
  Forall good_stream (alt_stream <$> alts) → other_file h rest → (length alts < fuel)%nat →
  ∃ t', alternates_back fuel h (mkTR cur ((alt_entry (th_Name h) h <$> alts) ++ rest), mkBSW out 0) =
    (after rest, (t', mkBSW (W := Buffer) (out ++ concat (bytes_of <$> (alt_stream <$> alts))) 0)).
Proof.
  intros Hg Hrest. revert fuel cur out. induction alts as [|a alts IH]; intros fuel cur out Hf;
    (destruct fuel as [|fuel]; [cbn in Hf; lia|]); cbn [alternates_back].
  - cbn [fmap list_fmap app concat]. rewrite app_nil_r, St_bind_eq. unfold on_tr. cbn [fst snd tar_Next tr_next].
    destruct rest as [|[h2 d2] rest]; cbn [tar_Next tr_next]; [by eexists|].
    assert ((negb (th_Typeflag h2 =? TypeReg) || negb (HasPrefix (th_Name h2) (th_Name h ++ str ":")))%bool = true) as ->.
    { unfold other_file in Hrest. destruct Hrest as [Ht| ->]; [|by rewrite orb_true_r]. by rewrite (proj2 (Z.eqb_neq _ _) Ht). }
    by eexists.
  - cbn [fmap list_fmap] in *. apply Forall_cons in Hg as [Hx Hg]. destruct (alt_header_name (th_Name h) h a) as [Hp Hh].
    destruct (IH Hg fuel [] (out ++ bytes_of (alt_stream a))) as (t' & E); [cbn in Hf; lia|].
    exists t'. cbn [concat fmap list_fmap]. etransitivity; [|etransitivity; [exact E|by rewrite <- app_assoc]]. clear E IH.
    rewrite St_bind_eq. unfold on_tr. cbn [fst snd app tar_Next tr_next]. unfold tar_Next. cbn [tr_next alt_entry].
    fold (alt_entry (th_Name h) h a). change (alternate_header (th_Name h) (fst (alt_stream a)) h) with (fst (alt_entry (th_Name h) h a)).
    change (th_Typeflag (fst (alt_entry (th_Name h) h a)) =? TypeReg) with true. rewrite Hp. cbn [negb orb].
    rewrite Hh, St_bind_eq, header_put by apply Hx. destruct Hx as [_ Hs]. rewrite Hs, St_bind_eq, copy_back_puts.
    unfold bytes_of. by rewrite app_assoc.
Qed.

(** *** The metadata of the main header *)
Section Metadata.
Context `{FiletimeApi} (name : list Z) (size : Z) (fi : FileBasicInfo) (f : win_file).
Hypothesis Hok : file_ok size fi f.
Hypothesis Hnames : NoDup (Ea.Name <$> wf_eas f).
Hypothesis Horder : ∀ m, order m ≡ₚ map_to_list m.
Abbreviation hdr := (main_header name size fi f).

Lemma info_keys : NoDup (info_records fi).*1 ∧
  Forall (λ k, HasPrefix k hdrEaPrefix = false ∧ k ≠ hdrMountPoint ∧ k ≠ hdrRawSecurityDescriptor) (info_records fi).*1.
Proof.
  cbn [info_records fmap list_fmap fst]. split.
  - by apply (bool_decide_unpack _); vm_compute.
  - repeat apply Forall_cons_2; [..|done]; (split; [done|]); split; by intros E; vm_compute in E.
Qed.
Lemma hdr_records : th_PAXRecords hdr = list_to_map (pax_list f (info_records fi)).
Proof.
  destruct (main_header_fields name size fi f) as (_ & _ & _ & _ & ->). rewrite <- file_pax_list. done.
Qed.
Lemma hdr_NoDup : NoDup (pax_list f (info_records fi)).*1.
Proof. destruct info_keys. by apply pax_NoDup. Qed.

Lemma hdr_sd : SecurityDescriptorFromTarHeader SddlToSecurityDescriptor hdr = Ret (wf_sd f).
Proof.
  unfold SecurityDescriptorFromTarHeader. rewrite hdr_records. destruct (decide (wf_sd f = [])) as [Hsd|Hsd].
  - rewrite !(not_elem_of_list_to_map_1 (M := gmap (list Z))); [by rewrite Hsd|..].
    + intros [[E _]|[E|[[E _]|E]]]%pax_keys; [by vm_compute in E..|].
      revert E. apply (bool_decide_unpack _). by vm_compute.
    + intros [[E _]|[E|[[_ E]|E]]]%pax_keys; [by vm_compute in E| by vm_compute in E|done|].
      revert E. apply (bool_decide_unpack _). by vm_compute.
  - rewrite (elem_of_list_to_map_1 (M := gmap (list Z)) _ hdrRawSecurityDescriptor (EncodeToString (wf_sd f)));
      [|apply hdr_NoDup|].
    + apply DecodeString_EncodeToString. by destruct Hok as ((Hb & _) & _).
    + unfold pax_list. rewrite bool_decide_eq_false_2 by done. rewrite !elem_of_app. right. right. left. by apply list_elem_of_singleton.
Qed.
Lemma hdr_mount : bool_decide (is_Some (th_PAXRecords hdr !! hdrMountPoint)) =
  match wf_main f with MainReparse rp => IsMountPoint rp | _ => false end.
Proof.
  rewrite hdr_records. destruct (match wf_main f with MainReparse rp => IsMountPoint rp | _ => false end) eqn:Em.
  - rewrite (elem_of_list_to_map_1 (M := gmap (list Z)) _ hdrMountPoint (str "1")); [done|apply hdr_NoDup|].
    unfold pax_list. destruct (wf_main f) as [|rp|]; [done| |done]. rewrite Em. by apply elem_of_cons; left.
  - rewrite (not_elem_of_list_to_map_1 (M := gmap (list Z))); [done|].
    intros [[_ (rp & Ew & E)]|[E|[[E _]|E]]]%pax_keys; [|by vm_compute in E..|].
    + rewrite Ew in Em. congruence.
    + revert E. apply (bool_decide_unpack _). by vm_compute.
Qed.
Lemma hdr_eas : ∃ eas, eas ≡ₚ clear_flags <$> wf_eas f ∧
  ExtendedAttributesFromTarHeader order hdr = Ret (encoding eas).
Proof.
  destruct Hok as ((_ & He & Hfit & _) & _ & _). destruct info_keys as [Hn Ho].
  assert (Hp : order (th_PAXRecords hdr) ≡ₚ pax_list f (info_records fi)).
  { rewrite Horder, hdr_records. apply map_to_list_to_map, hdr_NoDup. }
  exists (omap ea_of (order (th_PAXRecords hdr))). split; [rewrite Hp; by apply pax_eas_back|].
  unfold ExtendedAttributesFromTarHeader. rewrite collect_eas_omap by (rewrite Hp; by apply pax_decodes).
  cbn [mbind res_bind]. case_bool_decide as E; [by rewrite E|]. unfold EncodeExtendedAttributes.
  rewrite encode_loop_fits; [done|]. rewrite Hp, pax_eas_back by done. by apply Forall_fmap.
Qed.

(** The streams written back, before the alternates. *)
Definition restored (eas : list ExtendedAttribute) : win_file := mkWF (wf_sd f) eas (wf_main f) (wf_alts f).
Lemma restored_streams eas :
  eas ≡ₚ clear_flags <$> wf_eas f → Forall good_stream (streams (restored eas)).
Proof.
  intros Hp. destruct Hok as ((_ & _ & Hfit & _) & Hg & _). destruct (encoding_zlen_back _ _ Hfit Hp) as [_ Hz].
  unfold streams, if_some, restored in *. cbn [wf_sd wf_eas wf_main wf_alts]. rewrite !Forall_app in *.
  destruct Hg as (Hs & He & Hm & Ha). split_and!; try done.
  destruct (decide (eas = [])) as [E|E]; [by rewrite bool_decide_eq_true_2|rewrite bool_decide_eq_false_2 by done].
  assert (wf_eas f ≠ []) by (intros E'; rewrite E' in Hp; by apply Permutation_nil_r in Hp).
  rewrite bool_decide_eq_false_2 in He by done. apply Forall_cons in He as [He _]. apply Forall_singleton.
  unfold good_stream, stream_of in *. cbn [fst snd] in *. by rewrite Hz.
Qed.

Lemma optional_puts (x : list Z) id :
  Forall good_stream (if_some x (stream_of id [] x)) →
  puts (if negb (zlen x =? 0) then write_stream id x else mret ()) () (concat (bytes_of <$> if_some x (stream_of id [] x))).
Proof.
  unfold if_some. destruct (decide (x = [])) as [E|E]; [by subst x; intros _; apply puts_ret|].
  rewrite bool_decide_eq_false_2 by done. intros [Hg _]%Forall_cons.
  assert (zlen x ≠ 0) by (destruct x; [done|]; rewrite zlen_cons; pose_lens; lia).
  rewrite (proj2 (Z.eqb_neq _ _)) by done. cbn [negb fmap list_fmap concat]. rewrite app_nil_r. by apply write_stream_puts.
Qed.

Lemma if_some_encoding eas x : if_some eas x = if_some (encoding eas) x.
Proof. by destruct eas. Qed.
Definition main_streams : list stream :=
  match wf_main f with
  | MainData d => [stream_of BackupData [] d]
  | MainReparse rp => [stream_of BackupReparseData [] (EncodeReparsePoint rp)]
  | MainDir => []
  end.
Lemma FromSlash_id s : 47 ∉ s → FromSlash s = s.
Proof.
  intros Hs. unfold FromSlash. rewrite <- list_fmap_id. apply list_fmap_ext. intros i c Hc.
  apply list_elem_of_lookup_2 in Hc. destruct (Z.eqb_spec c 47) as [->|]; done.
Qed.
(** The contents: the reparse point or the data of the entry. *)
Lemma main_back es (out : Buffer) (k : () → St state Header) :
  (match wf_main f with MainReparse rp => 47 ∉ Target rp | _ => True end) → Forall good_stream main_streams →
  ∃ cur, ((if th_Typeflag hdr =? TypeSymlink then write_stream BackupReparseData (EncodeReparsePointFromTarHeader hdr) else mret ()) ≫= λ _,
      (if th_Typeflag hdr =? TypeReg
       then (_ ← on_bw (WriteHeader (mkHdr BackupData 0 (th_Size hdr) [] 0)); copy_back) else mret ()) ≫= k)
      (mkTR (main_data f) es, mkBSW out 0) =
    k () (mkTR cur es, mkBSW (W := Buffer) (out ++ concat (bytes_of <$> main_streams)) 0).
Proof.
  intros Hslash Hg. destruct (main_header_fields name size fi f) as (_ & Hsize & Htype & Hlink & _).
  rewrite Htype, Hsize. unfold BasicInfoHeader. cbn [th_Typeflag th_Size]. unfold EncodeReparsePointFromTarHeader.
  rewrite hdr_mount, Hlink. destruct Hok as (_ & _ & Hm). unfold main_streams, main_data in *.
  destruct (wf_main f) as [d|rp|]; cbn [fmap list_fmap concat].
  - destruct Hm as [-> ->]. cbv iota. cbn [Z.eqb]. change (TypeReg =? TypeSymlink) with false. rewrite Z.eqb_refl. cbv iota.
    apply Forall_cons in Hg as [[Hx _] _]. exists []. rewrite St_bind_eq. cbn [mret St_ret].
    rewrite St_bind_eq, St_bind_eq, header_put by done. cbn [Size]. rewrite copy_back_puts.
    unfold bytes_of. cbn [fst snd]. by rewrite app_nil_r, app_assoc.
  - apply Forall_cons in Hg as [Hx _]. exists []. rewrite Z.eqb_refl, FromSlash_id by done.
    replace (mkRP (Target rp) (IsMountPoint rp)) with rp by (by destruct rp).
    rewrite (puts_step _ _ _ _ _ _ (write_stream_puts _ _ Hx)). change (TypeSymlink =? TypeReg) with false.
    rewrite St_bind_eq. cbn [mret St_ret]. by rewrite app_nil_r.
  - exists []. rewrite Hm. change (TypeDir =? TypeSymlink) with false. change (TypeDir =? TypeReg) with false.
    rewrite !St_bind_eq. cbn [mret St_ret]. rewrite St_bind_eq. cbn [mret St_ret]. by rewrite app_nil_r.
Qed.

Lemma WriteBackup_entries rest :
  (match wf_main f with MainReparse rp => 47 ∉ Target rp | _ => True end) → other_file hdr rest →
  ∃ eas tr, eas ≡ₚ clear_flags <$> wf_eas f ∧
    WriteBackupStreamFromTarFile SddlToSecurityDescriptor order hdr
      (mkTR (main_data f) ((alt_entry (ToSlash name) hdr <$> wf_alts f) ++ rest), mkBSW (W := Buffer) [] 0) =
    (after rest, (tr, mkBSW (W := Buffer) (file_bytes (restored eas)) 0)).
Proof.
  intros Hslash Hrest. destruct hdr_eas as (eas & Hp & He). pose proof (restored_streams eas Hp) as Hg.
  destruct (main_header_fields name size fi f) as (Hname & _ & Htype & Hlink & _).
  exists eas. unfold file_bytes, streams in *. cbn [restored wf_sd wf_eas wf_main wf_alts] in *. rewrite !Forall_app in Hg.
  destruct Hg as (Hgs & Hge & Hgm & Hga). rewrite !fmap_app, !concat_app.
  rewrite if_some_encoding in Hge |- *. unfold WriteBackupStreamFromTarFile.
  rewrite (puts_step _ _ _ _ _ _ (lift_puts _ _ hdr_sd)), (puts_step _ _ _ _ _ _ (optional_puts _ _ Hgs)),
    (puts_step _ _ _ _ _ _ (lift_puts _ _ He)), (puts_step _ _ _ _ _ _ (optional_puts _ _ Hge)).
  set (out := (_ ++ _ : Buffer)).
  assert (Hout : out = concat (bytes_of <$> if_some (wf_sd f) (stream_of BackupSecurity [] (wf_sd f))) ++
    concat (bytes_of <$> if_some (encoding eas) (stream_of BackupEaData [] (encoding eas)))) by (subst out; by rewrite !app_nil_r).
  clearbody out. fold main_streams in *. rewrite <- Hname. set (es := alt_entry _ hdr <$> _).
  match goal with |- ∃ tr, _ ∧ ((?A ≫= λ x, (?B ≫= ?k)) _ = _) =>
    destruct (main_back (es ++ rest) out k Hslash Hgm) as [cur E] end.
  destruct (alternates_back_puts hdr (wf_alts f) rest (S (length (es ++ rest))) cur
    (out ++ concat (bytes_of <$> main_streams)) Hga Hrest) as [tr E2].
  { subst es. rewrite length_app, length_fmap. lia. }
  exists tr. split; [done|]. etransitivity; [exact E|]. etransitivity; [exact E2|]. by rewrite Hout, <- !app_assoc.
Qed.
End Metadata.
End Backward.

(** C5: the backup stream of a file whose streams come in the order security descriptor,
    extended attributes, data or reparse point, alternate data streams, none of them sparse,
    read through a reader that cannot seek and reports its end after its last bytes, is turned into
    tar entries, and these entries, followed by those of any other file, are
    turned back into the same backup stream; only the extended attributes may
    come in another order and lose their flags.  A file with alternate streams must have a data stream
    before them, the names of the attributes must differ, the target of a reparse point must
    have no slash, and the headers must be acceptable to [archive/tar]. *)
Theorem tar_roundtrip {R : Type} `{SeparateReader R} `{!Seeker R} `{!SeekerSpec R} `{!StartSeeker R}
    (U : list Z → list Z) `{!UTF16ToStringSpec U} (check_header : Header → option error) `{FiletimeApi}
    SddlToSecurityDescriptor order fuel name size fi f (r : R) :
  file_ok size fi f → (wf_alts f = [] ∨ data_stream f ≠ []) →
  NoDup (Ea.Name <$> wf_eas f) → match wf_main f with MainReparse rp => 47 ∉ Target rp | _ => True end →
  Forall (λ e, check_header (fst e) = None) (file_entries name size fi f) → (∀ m, order m ≡ₚ map_to_list m) →
  rd_inv r → rd_fin r = EOF → rd_rest r = file_bytes f → (sk_seek = None ∨ sk_can r = false) →
  (length (streams f) < fuel)%nat →
  ∃ t hdr data alts,
    WriteTarFileFromBackupStream U check_header fuel name size fi r new_tar = (Ret (), t) ∧
    tar_entries t = (hdr, data) :: alts ∧
    ∀ rest, other_file hdr rest → ∃ eas tr, eas ≡ₚ clear_flags <$> wf_eas f ∧
      WriteBackupStreamFromTarFile SddlToSecurityDescriptor order hdr
        (mkTR data (alts ++ rest), NewBackupStreamWriter (W := Buffer) []) =
      (after rest, (tr, mkBSW (file_bytes (mkWF (wf_sd f) eas (wf_main f) (wf_alts f))) 0)).
Proof.
  intros Hok Halt Hn Hslash Hc Ho Hi Hf Hr Hsk Hfuel.
  destruct (WriteTar_entries U check_header fuel name size fi f r) as (t & E & Ht); [done..|].
  eexists t, _, _, _. split; [exact E|]. split; [exact Ht|].
  intros rest Hrest. by apply WriteBackup_entries.
Qed.

(** *** Witness *)
#[export] Instance chunked_StartSeeker : StartSeeker chunked := λ _ r, (Fail ErrUnexpectedEOF, r).
Definition tar_example : win_file :=
  mkWF [1; 0; 4; 128] [mkEA (str "A") [7] 0; mkEA (str "B") [] 0] (MainData [104; 105]) [(str "s", [5]); (str "t", [])].
Definition tar_example_info : FileBasicInfo :=
  mkFBI 132000000000000000 132000000000000001 132000000000000002 132000000000000003 32.
Definition tar_example_reader : chunked := mkChunked ((λ b, [b]) <$> file_bytes tar_example) EOF.

Lemma tar_example_ok : file_ok 2 tar_example_info tar_example.
Proof.
  split; [|split; [|done]].
  - split_and!; [decide_now..|done].
  - unfold good_stream, hdr_ok.
    repeat constructor; cbn; try lia; first [apply ascii_valid_utf8; decide_now | decide_now | set_solver].
Qed.
Lemma tar_roundtrip_witness :
  ∃ t hdr data alts,
    WriteTarFileFromBackupStream utf16_cstring (λ _, None) 10 (str "d\f") 2 tar_example_info tar_example_reader new_tar = (Ret (), t) ∧
    tar_entries t = (hdr, data) :: alts ∧
    ∀ rest, other_file hdr rest → ∃ eas tr, eas ≡ₚ [mkEA (str "A") [7] 0; mkEA (str "B") [] 0] ∧
      WriteBackupStreamFromTarFile (λ _, Ret []) map_to_list hdr
        (mkTR data (alts ++ rest), NewBackupStreamWriter (W := Buffer) []) =
      (after rest, (tr, mkBSW (file_bytes (mkWF [1; 0; 4; 128] eas (MainData [104; 105]) [(str "s", [5]); (str "t", [])])) 0)).
Proof.
  apply (tar_roundtrip utf16_cstring (λ _, None) (λ _, Ret []) map_to_list 10 (str "d\f") 2 tar_example_info tar_example tar_example_reader).
  - apply tar_example_ok.
  - by right.
  - decide_now.
  - done.
  - by repeat constructor.
  - done.
  - decide_now.
  - done.
  - by vm_compute.
  - by left.
  - cbn. lia.
Defined.

(** ** Files outside the contract

    A [bytes.Reader], which can seek. *)
Record mem_reader := mkMem { mem_pos : Z; mem_data : list Z }.
#[export] Instance mem_Reader : Reader mem_reader := λ n r,
  let '(x, rest) := bytes_Reader n (zdrop (mem_pos r) (mem_data r)) in (x, mkMem (zlen (mem_data r) - zlen rest) (mem_data r)).
#[export] Instance mem_Seeker : Seeker mem_reader := Some (λ n r, (Ret (mem_pos r + n), mkMem (mem_pos r + n) (mem_data r))).
#[export] Instance mem_StartSeeker : StartSeeker mem_reader := λ n r, (Ret n, mkMem n (mem_data r)).

(** The alternate streams of a directory or a symlink are lost without an
    error: there is no data stream to stop at, so the first pass (or the search
    for the data, when the reader seeks) consumes them. *)
Definition dir_example : win_file := mkWF [] [] MainDir [(str "s", [5])].
Definition dir_info : FileBasicInfo := mkFBI 132000000000000000 132000000000000001 132000000000000002 132000000000000003 16.
Definition write_tar {R} `{Reader R} `{!Seeker R} `{!StartSeeker R} (fi : FileBasicInfo) (size : Z) (r : R) : res unit * list (list Z * list Z) :=
  let '(x, t) := WriteTarFileFromBackupStream utf16_cstring (λ _, None) 10 (str "d") size fi r new_tar in
  (x, (λ e, (th_Name (fst e), snd e)) <$> tar_entries t).
Example dir_alternates_lost :
  write_tar dir_info 0 (mkMem 0 (file_bytes dir_example)) = (Ret (), [(str "d", [])]) ∧
  write_tar dir_info 0 (mkChunked [file_bytes dir_example] EOF) = (Ret (), [(str "d", [])]).
Proof. by vm_compute. Qed.

(** A sparse file with two allocated ranges: from a reader that cannot seek its
    contents come out whole, from one that can the first pass fails. *)
Definition sparse_example : list Z := concat (bytes_of <$> [
  (mkHdr BackupData StreamSparseAttributes 0 [] 0, []);
  (mkHdr BackupSparseBlock 0 2 [] 0, [1; 2]); (mkHdr BackupSparseBlock 0 1 [] 4, [3]); (mkHdr BackupSparseBlock 0 0 [] 6, [])]).
Example sparse_seekable :
  write_tar tar_example_info 6 (mkChunked [sparse_example] EOF) = (Ret (), [(str "d", [1; 2; 0; 0; 3; 0])]) ∧
  write_tar tar_example_info 6 (mkMem 0 sparse_example) = (Fail (Errorf "%s: unknown stream ID %d" [BackupSparseBlock] [str "d"]), []).
Proof. by vm_compute. Qed.
