(* ===== verification/GoText.v ===== *)
(** * Text processing: splitting, joining and formatting

    What the generator of system calls uses of [strings], [fmt] and
    [sort]: [Trim] of blanks, [Split], [SplitN], [LastIndex], [Replace], [Join],
    the order of strings, and [Sprintf] with [%s] and [%[n]s] verbs. *)
From S2P Require Import Prelude GoStrings.

(** A literal in which a backquote stands for a double quote. *)
Definition strq (s : string) : list Z := (λ b, if b =? 96 then 34 else b) <$> str s.

(** ** Blanks: [strings.Trim(s, blanks)] for a space and a tab *)
Definition blank (b : Z) : bool := (b =? 32) || (b =? 9).
Definition blanks (s : list Z) : Prop := Forall (λ b, blank b = true) s.

Fixpoint trim_left (s : list Z) : list Z :=
  match s with
  | [] => []
  | b :: t => if blank b then trim_left t else s
  end.
Definition trim (s : list Z) : list Z := rev (trim_left (rev (trim_left s))).

(** ** Splitting at a byte *)
Fixpoint Split (s : list Z) (c : Z) : list (list Z) :=
  match s with
  | [] => [[]]
  | b :: t =>
      if b =? c then [] :: Split t c
      else match Split t c with
           | [] => [[b]]
           | h :: r => (b :: h) :: r
           end
  end.

(** The text before and after the first [c]. *)
Fixpoint Cut (s : list Z) (c : Z) : option (list Z * list Z) :=
  match s with
  | [] => None
  | b :: t =>
      if b =? c then Some ([], t)
      else '(p, r) ← Cut t c; Some (b :: p, r)
  end.
(** [strings.SplitN(s, string(c), 2)] *)
Definition SplitN2 (s : list Z) (c : Z) : list (list Z) :=
  match Cut s c with Some (p, r) => [p; r] | None => [s] end.

(** The text before and after the last [c] ([strings.LastIndex] and the two
    slices around it). *)
Fixpoint CutLast (s : list Z) (c : Z) : option (list Z * list Z) :=
  match s with
  | [] => None
  | b :: t =>
      match CutLast t c with
      | Some (p, r) => Some (b :: p, r)
      | None => if b =? c then Some ([], t) else None
      end
  end.

(** [strings.Replace(s, old, new, 1)] for a non-empty [old]. *)
Fixpoint Replace1 (s old new : list Z) : list Z :=
  if HasPrefix s old then new ++ drop (length old) s
  else match s with [] => [] | b :: t => b :: Replace1 t old new end.

Definition endsIn (s : list Z) (c : Z) : bool :=
  match last s with Some b => b =? c | None => false end.

(** [strings.Join] *)
Fixpoint Join (a : list (list Z)) (sep : list Z) : list Z :=
  match a with
  | [] => []
  | [s] => s
  | s :: a => s ++ sep ++ Join a sep
  end.

(** The order of Go strings: bytewise, a prefix first. *)
Fixpoint str_lt (s t : list Z) : bool :=
  match s, t with
  | _, [] => false
  | [], _ :: _ => true
  | a :: s, b :: t => (a <? b) || ((a =? b) && str_lt s t)
  end.

(** ** [fmt.Sprintf] with [%s] and [%[n]s] (one digit) verbs *)
Definition arg (args : list (list Z)) (i : Z) : list Z :=
  match args !! Z.to_nat i with Some a => a | None => str "%!s(BADINDEX)" end.
Fixpoint sprintf (f : list Z) (args : list (list Z)) (i : Z) : list Z :=
  match f with
  | 37 :: 115 :: f => arg args i ++ sprintf f args (i + 1)
  | 37 :: 91 :: d :: 93 :: 115 :: f => arg args (d - 49) ++ sprintf f args (d - 48)
  | b :: f => b :: sprintf f args i
  | [] => []
  end.
Definition Sprintf (f : list Z) (args : list (list Z)) : list Z := sprintf f args 0.

(** ** Lemmas on blanks *)
Definition tight (s : list Z) : Prop :=
  (∃ b t, s = b :: t ∧ blank b = false) ∧ (∃ b t, s = t ++ [b] ∧ blank b = false).

Lemma trim_left_blanks w s : blanks w → trim_left (w ++ s) = trim_left s.
Proof. induction 1 as [|b w Hb Hw IH]; [done|]. simpl. by rewrite Hb. Qed.
Lemma trim_left_tight b t : blank b = false → trim_left (b :: t) = b :: t.
Proof. intros H. simpl. by rewrite H. Qed.
Lemma blanks_rev w : blanks w → blanks (rev w).
Proof. apply Forall_rev. Qed.
Lemma blanks_app w v : blanks w → blanks v → blanks (w ++ v).
Proof. intros. by apply Forall_app. Qed.
Lemma blanks_nil : blanks [].
Proof. constructor. Qed.
Lemma blanks_space : blanks [32].
Proof. by repeat constructor. Qed.
#[export] Hint Resolve blanks_app blanks_nil blanks_space : golist.

Lemma trim_blanks w : blanks w → trim w = [].
Proof.
  intros H. unfold trim. rewrite <- (app_nil_r w), trim_left_blanks by done. done.
Qed.
(** Blanks around a text that neither begins nor ends with one are removed. *)
Lemma trim_around w s v : blanks w → tight s → blanks v → trim (w ++ s ++ v) = s.
Proof.
  intros Hw ((b & t & -> & Hb) & (c & u & Hs & Hc)) Hv. unfold trim.
  rewrite trim_left_blanks by done. cbn [app]. rewrite trim_left_tight by done.
  change (b :: t ++ v) with ((b :: t) ++ v). rewrite Hs, !rev_app_distr.
  rewrite trim_left_blanks by by apply blanks_rev. cbn [rev app].
  rewrite trim_left_tight by done. simpl. rewrite rev_involutive. done.
Qed.
Lemma trim_tight s : tight s → trim s = s.
Proof. intros H. rewrite <- (trim_around [] s []) at 2; auto with golist. by rewrite app_nil_r. Qed.

Lemma trim_left_shape s : ∃ w, blanks w ∧ s = w ++ trim_left s ∧
  (trim_left s = [] ∨ ∃ b t, trim_left s = b :: t ∧ blank b = false).
Proof.
  induction s as [|b s IH]; [exists []; split_and!; auto with golist|].
  simpl. destruct (blank b) eqn:E; [|exists []; split_and!; eauto with golist].
  destruct IH as (w & Hw & Hs & H). exists (b :: w). split_and!; [by constructor| |done].
  simpl. by rewrite <- Hs.
Qed.
(** [Trim] leaves nothing, or a text without blanks at its ends. *)
Lemma trim_shape s : trim s = [] ∨ tight (trim s).
Proof.
  unfold trim. destruct (trim_left_shape s) as (w & _ & _ & [E|(b & t & E & Hb)]).
  { rewrite E. by left. }
  rewrite E. destruct (trim_left_shape (rev (b :: t))) as (v & Hv & Hr & [E'|(c & u & E' & Hc)]).
  { rewrite E'. by left. }
  rewrite E' in *. right. apply (f_equal (@rev Z)) in Hr. rewrite rev_involutive, rev_app_distr in Hr.
  split.
  - cbn [rev] in *. destruct (rev u ++ [c]) as [|d l] eqn:El; [by destruct (rev u)|].
    exists d, l. split; [done|]. simpl in Hr. by injection Hr as -> _.
  - exists c, (rev u). split; [done|done].
Qed.

(** ** Lemmas on splitting *)
Definition lacks (c : Z) (s : list Z) : Prop := Forall (λ b, b ≠ c) s.

Lemma Cut_app p c r : lacks c p → Cut (p ++ c :: r) c = Some (p, r).
Proof.
  induction 1 as [|b p Hb Hp IH]; simpl; [by rewrite Z.eqb_refl|].
  destruct (Z.eqb_spec b c); [done|]. by rewrite IH.
Qed.
Lemma Cut_None s c : lacks c s → Cut s c = None.
Proof.
  induction 1 as [|b s Hb Hs IH]; simpl; [done|].
  destruct (Z.eqb_spec b c); [done|]. by rewrite IH.
Qed.
Lemma Split_app p c r : lacks c p → Split (p ++ c :: r) c = p :: Split r c.
Proof.
  induction 1 as [|b p Hb Hp IH]; simpl; [by rewrite Z.eqb_refl|].
  destruct (Z.eqb_spec b c); [done|]. by rewrite IH.
Qed.
Lemma Split_lacks p c : lacks c p → Split p c = [p].
Proof.
  induction 1 as [|b p Hb Hp IH]; simpl; [done|].
  destruct (Z.eqb_spec b c); [done|]. by rewrite IH.
Qed.
Lemma Split_Join a c :
  a ≠ [] → Forall (lacks c) a → Split (Join a [c]) c = a.
Proof.
  intros Ha H. induction H as [|s a Hs H IH]; [done|].
  destruct a as [|t a]; [by apply Split_lacks|].
  cbn [Join]. cbn [app]. rewrite Split_app by done. f_equal. by apply IH.
Qed.
(** The pieces joined again are the text. *)
Lemma Join_Split s c : Split s c ≠ [] ∧ Join (Split s c) [c] = s.
Proof.
  induction s as [|b s [Hn IH]]; [done|]. simpl. destruct (Z.eqb_spec b c) as [->|].
  - split; [done|]. destruct (Split s c) as [|h r]; [done|].
    cbn [Join]. cbn [app]. f_equal. exact IH.
  - destruct (Split s c) as [|h r]; [done|]. split; [done|].
    destruct r as [|h' r]; simpl in *; by rewrite IH.
Qed.
Lemma CutLast_app p c r : lacks c r → CutLast (p ++ c :: r) c = Some (p, r).
Proof.
  intros Hr. assert (Hn : CutLast r c = None).
  { induction Hr as [|b r Hb Hr IH]; simpl; [done|]. rewrite IH.
    by destruct (Z.eqb_spec b c). }
  induction p as [|b p IH]; simpl; [by rewrite Hn, Z.eqb_refl|]. by rewrite IH.
Qed.
Lemma CutLast_None s c : lacks c s → CutLast s c = None.
Proof.
  induction 1 as [|b s Hb Hs IH]; simpl; [done|]. rewrite IH.
  by destruct (Z.eqb_spec b c).
Qed.
Lemma lacks_app c p r : lacks c p → lacks c r → lacks c (p ++ r).
Proof. intros. by apply Forall_app. Qed.
#[export] Hint Resolve lacks_app : golist.
