(* ===== verification/Mkwinsyscall.v ===== *)
(** * Declarations of system calls (tools/mkwinsyscall)

    The generator reads lines such as
    [//sys name(p t, q u) (h v, err error) [failretval==-1] = dll.Func?] and prints
    Go functions that make the call.  This file models the declarations: the
    types [Param], [Rets] and [Fn], the parser [newFn], and the methods that
    print the pieces of a function.  [MkwinsyscallGen] puts the pieces together.

    A [Param] of the code points to its function, whose counter names temporary
    variables, and keeps the number of its own variable: here a method of a
    parameter is a computation over the function's state that takes the
    parameter's index.  A backquote in a literal read by [strq], and in an error
    format, stands for a double quote. *)
From S2P Require Import Prelude GoStrings Unicode GoText.

Definition tBool : list Z := str "bool".
Definition tBoolPtr : list Z := str "*bool".
Definition tError : list Z := str "error".
Definition tString : list Z := str "string".
Definition varErr : list Z := str "err".
Definition varErrNTStatus : list Z := str "ntStatus".
Definition varErrHR : list Z := str "hr".

(** The command line, and the letters and digits of the tables of [unicode]
    above ASCII. *)
Class Flags := mkFlags {
  printTraceFlag : bool;
  systemDLL : bool;
  winio : bool;
  utf16 : bool;
  sortdecls : bool;
  letter_hi : Z → bool;
  digit_hi : Z → bool;
}.

Record Param := mkParam { Param_Name : list Z; Param_Type : list Z; tmpVarIdx : Z }.

Record Rets := mkRets {
  Rets_Name : list Z;
  Rets_Type : list Z;
  ReturnsError : bool;
  FailCond : list Z;
  fnMaybeAbsent : bool;
}.

Record Fn := mkFn {
  Fn_Name : list Z;
  Params : list Param;
  Fn_Rets : Rets;
  PrintTrace : bool;
  dllname : list Z;
  dllfuncname : list Z;
  src : list Z;
  curTmpVarIdx : Z;
}.

Definition no_rets : Rets := mkRets [] [] false [] false.

(** ** The parser *)

(** One [name type] of a parameter list. *)
Definition extractParam (a : list Z) : res Param :=
  let s2 := trim a in
  let mk b0 b1 := Ret (mkParam (trim b0) (trim b1) (-1)) in
  match Split s2 32 with
  | [b0; b1] => mk b0 b1
  | _ =>
      match Split s2 9 with
      | [b0; b1] => mk b0 b1
      | _ => Fail (Errorf "Could not extract function parameter from `%s`" [] [s2])
      end
  end.
Fixpoint extract_each (a : list (list Z)) : res (list Param) :=
  match a with
  | [] => Ret []
  | s :: a => p ← extractParam s; ps ← extract_each a; Ret (p :: ps)
  end.
Definition extractParams (s : list Z) : res (list Param) :=
  let s := trim s in
  if bool_decide (s = []) then Ret [] else extract_each (Split s 44).

(** Prefix, body, suffix, and whether the section was found. *)
Definition extractSection (s : list Z) (start end_ : Z) : list Z * list Z * list Z * bool :=
  let s := trim s in
  let to_end prefix body :=
    match SplitN2 body end_ with
    | [a0; a1] => (prefix, a0, a1, true)
    | _ => ([], [], [], false)
    end in
  if HasPrefix s [start] then to_end [] (drop 1 s)
  else match SplitN2 s start with
       | [a0; a1] => to_end a0 a1
       | _ => ([], [], s, false)
       end.

Definition IsError (p : Param) : bool :=
  bool_decide (Param_Name p = varErr) && bool_decide (Param_Type p = tError).

(** The switch of [newFn] on the parsed results. *)
Definition set_rets (src : list Z) (r : list Param) : res Rets :=
  match r with
  | [] => Ret no_rets
  | [r0] =>
      if IsError r0 then Ret (mkRets [] [] true [] false)
      else Ret (mkRets (Param_Name r0) (Param_Type r0) false [] false)
  | [r0; r1] =>
      if negb (IsError r1) then
        Fail (Errorf "Only last windows error is allowed as second return value in `%s`" [] [src])
      else Ret (mkRets (Param_Name r0) (Param_Type r0) true [] false)
  | _ => Fail (Errorf "Too many return values in `%s`" [] [src])
  end.

(** The names of the DLL and of its function, after the [=]; the last result says
    whether the function may be absent. *)
Definition dll_names (src s : list Z) : res (list Z * list Z * bool) :=
  let s := trim s in
  if bool_decide (s = []) then Ret ([], [], false)
  else if negb (HasPrefix s (str "=")) then
    Fail (Errorf "Could not extract dll name from `%s`" [] [src])
  else
    let s := trim (drop 1 s) in
    let '(dll, n) := match CutLast s 46 with Some (p, r) => (p, r) | None => ([], s) end in
    if bool_decide (n = []) then Fail (Errorf "function name is not specified in %q" [] [s])
    else if endsIn n 63 then Ret (dll, ztake (zlen n - 1) n, true)
    else Ret (dll, n, false).

Definition newFn `{Flags} (s : list Z) : res Fn :=
  let s := trim s in
  let src := s in
  let '(prefix, body, s, found) := extractSection s 40 41 in
  if negb found || bool_decide (prefix = []) then
    Fail (Errorf "Could not extract function name and parameters from `%s`" [] [src])
  else
    ps ← extractParams body;
    let '(_, body, s, found) := extractSection s 40 41 in
    rets ← (if found then r ← extractParams body; set_rets src r else Ret no_rets);
    let '(_, body, s, found) := extractSection s 91 93 in
    let failcond := if found then body else [] in
    '(dll, fn, absent) ← dll_names src s;
    Ret (mkFn prefix ps
           (mkRets (Rets_Name rets) (Rets_Type rets) (ReturnsError rets) failcond absent)
           printTraceFlag dll fn src 0).

(** ** The pieces of a function that do not depend on its state *)
Section Pieces.
Context `{Flags} (packageName : list Z).

Definition windowsdot : list Z := if bool_decide (packageName = str "windows") then [] else str "windows.".
Definition syscalldot : list Z := if bool_decide (packageName = str "syscall") then [] else str "syscall.".

Definition ErrorVarName (r : Rets) : list Z :=
  if ReturnsError r then varErr
  else if bool_decide (Rets_Type r = tError) then Rets_Name r
  else [].

(** [join]: [strings.Join] returns the empty text for no parameters as well. *)
Definition join (ps : list Param) (fn : Param → list Z) (sep : list Z) : list Z :=
  Join (fn <$> ps) sep.

Definition ToParams (r : Rets) : list Param :=
  (if 0 <? zlen (Rets_Name r) then [mkParam (Rets_Name r) (Rets_Type r) 0] else []) ++
  (if ReturnsError r then [mkParam varErr tError 0] else []).

Definition name_type (p : Param) : list Z := Param_Name p ++ str " " ++ Param_Type p.
Definition print_param (p : Param) : list Z :=
  Sprintf (strq "`%s=`, %s, ") [Param_Name p; Param_Name p].

Definition Rets_List (r : Rets) : list Z :=
  let s := join (ToParams r) name_type (str ", ") in
  if 0 <? zlen s then str "(" ++ s ++ str ")"
  else if fnMaybeAbsent r then str "(err error)"
  else s.

Definition PrintList (r : Rets) : list Z := join (ToParams r) print_param (strq "`, `").

Definition SetReturnValuesCode (r : Rets) : list Z :=
  if bool_decide (Rets_Name r = []) && negb (ReturnsError r) then []
  else
    let retvar := if bool_decide (Rets_Name r = []) then str "r1" else str "r0" in
    let errvar := if ReturnsError r then str "e1" else str "_" in
    Sprintf (str "%s, _, %s := ") [retvar; errvar].

Definition useLongHandleErrorCode (r : Rets) (retvar : list Z) : list Z :=
  let cond :=
    if bool_decide (FailCond r = []) then retvar ++ str " == 0"
    else Replace1 (FailCond r) (str "failretval") retvar in
  Sprintf (str "if %s {
		err = errnoErr(e1)
	}") [cond].

Definition SetErrorCode (r : Rets) : res (list Z) :=
  let code := str "if r0 != 0 {
		%s = %sErrno(r0)
	}" in
  let ntStatus := str "if r0 != 0 {
		%s = %sNTStatus(r0)
	}" in
  let hrCode := str "if int32(r0) < 0 {
		if r0&0x1fff0000 == 0x00070000 {
			r0 &= 0xffff
		}
		%s = %sErrno(r0)
	}" in
  let name := Rets_Name r in
  if bool_decide (name = []) && negb (ReturnsError r) then Ret []
  else if bool_decide (name = []) then Ret (useLongHandleErrorCode r (str "r1"))
  else if bool_decide (Rets_Type r = tError) then
    if bool_decide (name = varErrNTStatus) || bool_decide (name = str "ntstatus")
    then Ret (Sprintf ntStatus [name; windowsdot])
    else if bool_decide (name = varErrHR) then Ret (Sprintf hrCode [name; syscalldot])
    else Ret (Sprintf code [name; syscalldot])
  else
    c ← index (Rets_Type r) 0;
    let s :=
      if c =? 42 then Sprintf (str "%s = (%s)(unsafe.Pointer(r0))") [name; Rets_Type r]
      else if bool_decide (Rets_Type r = tBool) then Sprintf (str "%s = r0 != 0") [name]
      else Sprintf (str "%s = %s(r0)") [name; Rets_Type r] in
    if negb (ReturnsError r) then Ret s
    else Ret (s ++ [10; 9] ++ useLongHandleErrorCode r name).

(** *** Names *)
Definition DLLName (f : Fn) : list Z :=
  if bool_decide (dllname f = []) then str "kernel32" else dllname f.

Definition keywords : list (list Z) := str <$>
  ["break"; "case"; "chan"; "const"; "continue"; "default"; "defer"; "else";
   "fallthrough"; "for"; "func"; "go"; "goto"; "if"; "import"; "interface"; "map";
   "package"; "range"; "return"; "select"; "struct"; "switch"; "type"; "var"]%string.
Definition IsLetter (c : Z) : bool :=
  if c <? 128 then between 65 c 90 || between 97 c 122 else letter_hi c.
Definition IsDigit (c : Z) : bool := if c <? 128 then between 48 c 57 else digit_hi c.
(** [token.IsIdentifier] *)
Definition IsIdentifier (name : list Z) : bool :=
  match runes_of_string name with
  | [] => false
  | c :: cs =>
      negb (existsb (λ k, bool_decide (k = name)) keywords) &&
      (IsLetter c || (c =? 95)) &&
      forallb (λ c, IsLetter c || (c =? 95) || IsDigit c) cs
  end.

Definition DLLVar (f : Fn) : res (list Z) :=
  let id := string_of_runes
    ((λ r, if (r =? 46) || (r =? 45) then 95 else r) <$> runes_of_string (DLLName f)) in
  if negb (IsIdentifier id) then Panic "could not create Go identifier for DLLName"
  else Ret id.

Definition DLLFuncName (f : Fn) : list Z :=
  if bool_decide (dllfuncname f = []) then Fn_Name f else dllfuncname f.

Definition IsUTF16 (f : Fn) : bool :=
  let s := DLLFuncName f in
  endsIn s 87 || (utf16 && negb (endsIn s 65)).
Definition StrconvFunc (f : Fn) : list Z :=
  if IsUTF16 f then syscalldot ++ str "UTF16PtrFromString" else syscalldot ++ str "BytePtrFromString".
Definition StrconvType (f : Fn) : list Z := if IsUTF16 f then str "*uint16" else str "*byte".

Definition HasStringParam (f : Fn) : bool :=
  existsb (λ p, bool_decide (Param_Type p = tString)) (Params f).
Definition HelperName (f : Fn) : list Z :=
  if negb (HasStringParam f) then Fn_Name f else str "_" ++ Fn_Name f.

Definition HelperType (f : Fn) (p : Param) : list Z :=
  if bool_decide (Param_Type p = tString) then StrconvType f else Param_Type p.

Definition ParamList (f : Fn) : list Z := join (Params f) name_type (str ", ").
Definition HelperParamList (f : Fn) : list Z :=
  join (Params f) (λ p, Param_Name p ++ str " " ++ HelperType f p) (str ", ").
Definition ParamPrintList (f : Fn) : list Z := join (Params f) print_param (strq "`, `").

Definition MaybeAbsent (f : Fn) : list Z :=
  if negb (fnMaybeAbsent (Fn_Rets f)) then []
  else
    let v := ErrorVarName (Fn_Rets f) in
    let errorVar := if bool_decide (v = []) then varErr else v in
    Sprintf (str "%[1]s = proc%[2]s.Find()
	if %[1]s != nil {
		return
	}") [errorVar; DLLFuncName f].

(** ** Methods that name temporary variables *)
Definition param (i : nat) : St Fn Param := λ f,
  match Params f !! i with
  | Some p => (Ret p, f)
  | None => (Panic "index out of range", f)
  end.

Definition set_Params (ps : list Param) (cur : Z) (f : Fn) : Fn :=
  mkFn (Fn_Name f) ps (Fn_Rets f) (PrintTrace f) (dllname f) (dllfuncname f) (src f) cur.

Definition var_name (k : Z) : list Z := str "_p" ++ FormatInt k 10.

Definition tmpVar (i : nat) : St Fn (list Z) :=
  p ← param i;
  if tmpVarIdx p <? 0 then
    f ← get;
    let k := curTmpVarIdx f in
    _ ← modify (set_Params (<[i := mkParam (Param_Name p) (Param_Type p) k]> (Params f)) (k + 1));
    mret (var_name k)
  else mret (var_name (tmpVarIdx p)).

(** The texts of the four kinds of variables; [t] is the type of the elements
    of a slice, and [errvar] the variable the conversion's error goes to. *)
Definition bool_text (tmp name : list Z) : list Z :=
  Sprintf (str "var %[1]s uint32
	if %[2]s {
		%[1]s = 1
	}") [tmp; name].
Definition bool_pointer_text (tmp name : list Z) : list Z :=
  Sprintf (str "var %[1]s uint32
	if *%[2]s {
		%[1]s = 1
	}") [tmp; name].
Definition slice_text (tmp t name : list Z) : list Z :=
  Sprintf (str "var %s *%s
	if len(%s) > 0 {
		%s = &%s[0]
	}") [tmp; t; name; tmp; name].
Definition string_text (f : Fn) (tmp name : list Z) : list Z :=
  let v := ErrorVarName (Fn_Rets f) in
  let errvar := if bool_decide (v = []) then str "_" else v in
  let s := Sprintf (str "var %s %s
	%s, %s = %s(%s)") [tmp; StrconvType f; tmp; errvar; StrconvFunc f; name] in
  if bool_decide (errvar = str "-") then s
  else s ++ Sprintf (str "
	if %s != nil {
		return
	}") [errvar].

Definition BoolTmpVarCode (i : nat) : St Fn (list Z) :=
  p ← param i; tmp ← tmpVar i; mret (bool_text tmp (Param_Name p)).
Definition BoolPointerTmpVarCode (i : nat) : St Fn (list Z) :=
  p ← param i; tmp ← tmpVar i; mret (bool_pointer_text tmp (Param_Name p)).
Definition SliceTmpVarCode (i : nat) : St Fn (list Z) :=
  p ← param i;
  tmp ← tmpVar i;
  t ← lift (slice_from (Param_Type p) 2);
  mret (slice_text tmp t (Param_Name p)).
Definition StringTmpVarCode (i : nat) : St Fn (list Z) :=
  p ← param i; f ← get; tmp ← tmpVar i; mret (string_text f tmp (Param_Name p)).

Definition TmpVarCode (i : nat) : St Fn (list Z) :=
  p ← param i;
  if bool_decide (Param_Type p = tBool) then BoolTmpVarCode i
  else if bool_decide (Param_Type p = tBoolPtr) then BoolPointerTmpVarCode i
  else if HasPrefix (Param_Type p) (str "[]") then SliceTmpVarCode i
  else mret [].

Definition TmpVarReadbackCode (i : nat) : St Fn (list Z) :=
  p ← param i;
  if bool_decide (Param_Type p = tBoolPtr) then
    tmp ← tmpVar i; mret (Sprintf (str "*%s = %s != 0") [Param_Name p; tmp])
  else mret [].

Definition TmpVarHelperCode (i : nat) : St Fn (list Z) :=
  p ← param i;
  if negb (bool_decide (Param_Type p = tString)) then mret [] else StringTmpVarCode i.

Definition uintptr (s : list Z) : list Z := Sprintf (str "uintptr(%s)") [s].
Definition SyscallArgList (i : nat) : St Fn (list (list Z)) :=
  p ← param i;
  f ← get;
  let t := HelperType f p in
  if bool_decide (t = tBoolPtr) then
    tmp ← tmpVar i; mret [uintptr (Sprintf (str "unsafe.Pointer(&%s)") [tmp])]
  else
    c ← lift (index t 0);
    if c =? 42 then mret [uintptr (Sprintf (str "unsafe.Pointer(%s)") [Param_Name p])]
    else if bool_decide (t = tBool) then tmp ← tmpVar i; mret [uintptr tmp]
    else if HasPrefix t (str "[]") then
      tmp ← tmpVar i;
      mret [Sprintf (str "uintptr(unsafe.Pointer(%s))") [tmp];
            Sprintf (str "uintptr(len(%s))") [Param_Name p]]
    else mret [uintptr (Param_Name p)].

(** [for _, p := range f.Params] with a method of [p], its results appended. *)
Fixpoint collect {A} (g : nat → St Fn (list A)) (l : list nat) : St Fn (list A) :=
  match l with
  | [] => mret []
  | i :: l => a ← g i; r ← collect g l; mret (a ++ r)
  end.
Definition range_params {A} (g : nat → St Fn (list A)) : St Fn (list A) :=
  f ← get; collect g (seq 0 (length (Params f))).

Definition ParamCount : St Fn Z := a ← range_params SyscallArgList; mret (zlen a).

Definition SyscallParamCount : St Fn Z :=
  n ← ParamCount;
  if n <=? 3 then mret 3
  else if n <=? 6 then mret 6
  else if n <=? 9 then mret 9
  else if n <=? 12 then mret 12
  else if n <=? 15 then mret 15
  else panic "too many arguments to system call".

Definition Syscall : St Fn (list Z) :=
  c ← SyscallParamCount;
  if c =? 3 then mret (syscalldot ++ str "Syscall")
  else mret (syscalldot ++ str "Syscall" ++ FormatInt c 10).

(** The loop that appends zeros; it runs at most 15 times. *)
Fixpoint pad_args (fuel : nat) (a : list (list Z)) : St Fn (list (list Z)) :=
  n ← SyscallParamCount;
  if zlen a <? n then
    match fuel with
    | O => nofuel
    | S fuel => pad_args fuel (a ++ [str "0"])
    end
  else mret a.
Definition syscall_args : St Fn (list (list Z)) :=
  a ← range_params SyscallArgList; pad_args 15 a.
Definition SyscallParamList : St Fn (list Z) := a ← syscall_args; mret (Join a (str ", ")).

Definition helper_arg (i : nat) : St Fn (list (list Z)) :=
  p ← param i;
  if bool_decide (Param_Type p = tString) then tmp ← tmpVar i; mret [tmp]
  else mret [Param_Name p].
Definition HelperCallParamList : St Fn (list Z) :=
  a ← range_params helper_arg; mret (Join a (str ", ")).
End Pieces.
