(* ===== verification/MkwinsyscallGen.v ===== *)
(** * Generating the calls (tools/mkwinsyscall)

    The collection of declarations ([Source], [ParseFiles]), and the text that
    [Generate] prints: the templates of the code are the functions below, which
    call the methods of [Mkwinsyscall] as often and in the order in which the
    templates do.  The files, [go/parser] and the unstable [sort.Slice] are a
    class. *)
From stdpp Require Import sorting.
From S2P Require Import Prelude GoStrings Unicode GoText Mkwinsyscall.

(** What the system and [go/parser] answer for an open file: its bytes, and the
    errors of reading and seeking. *)
Record File := mkFile {
  File_Name : list Z;
  content : list Z;
  read_err : option error;
  seek_err : option error;
  package_clause : res (list Z);
}.

Class Env := mkEnv {
  os_Open : list Z → res File;
  Glob : list Z → res (list (list Z));
  Abs : list Z → res (list Z);
  GOROOT : list Z;
  GOOS : list Z;
  PathSeparator : list Z;
  lower_hi : Z → Z;
  sort_Slice : ∀ {A : Type}, (A → A → bool) → list A → list A;
}.

Record DLL := mkDLL { DLL_Name : list Z; DLL_Var : list Z }.

(** The collection; the last field is the variable [packageName]. *)
Record Source := mkSource {
  Funcs : list Fn;
  DLLFuncNames : list Fn;
  Files : list (list Z);
  StdLibImports : list (list Z);
  ExternalImports : list (list Z);
  packageName : list Z;
}.

(** [sort.Strings]: the result does not depend on the algorithm. *)
Definition str_le (s t : list Z) : Prop := str_lt t s = false.
#[export] Instance str_le_dec : RelDecision str_le.
Proof. intros s t. unfold str_le. apply _. Defined.
Definition sort_Strings (l : list (list Z)) : list (list Z) := merge_sort str_le l.

Definition Import (pkg : list Z) (src : Source) : Source :=
  mkSource (Funcs src) (DLLFuncNames src) (Files src)
    (sort_Strings (StdLibImports src ++ [pkg])) (ExternalImports src) (packageName src).
Definition ExternalImport (pkg : list Z) (src : Source) : Source :=
  mkSource (Funcs src) (DLLFuncNames src) (Files src)
    (StdLibImports src) (sort_Strings (ExternalImports src ++ [pkg])) (packageName src).

(** ** Reading the declarations *)

(** The lines of [bufio.Scanner] with the carriage returns still on them. *)
Definition raw_lines (s : list Z) : list (list Z) :=
  match rev (Split s 10) with
  | [] :: r => rev r
  | r => rev r
  end.
Definition drop_cr (s : list Z) : list Z := if endsIn s 13 then ztake (zlen s - 1) s else s.
Definition ErrTooLong : error := New "bufio.Scanner: token too long".
Definition MaxScanTokenSize : Z := 65536.

Section Parse.
Context `{Flags, Env}.

(** One turn of the scanning loop. *)
Definition sys_line (line : list Z) : res (list Fn) :=
  let t := trim line in
  if zlen t <? 7 then Ret []
  else if negb (HasPrefix t (str "//sys")) then Ret []
  else
    let t := zdrop 5 t in
    c ← index t 0;
    if negb ((c =? 32) || (c =? 9)) then Ret []
    else f ← newFn (zdrop 1 t); Ret [f].
Fixpoint parse_lines (ls : list (list Z)) : res (list Fn) :=
  match ls with
  | [] => Ret []
  | l :: ls =>
      if MaxScanTokenSize <=? zlen l then Fail ErrTooLong
      else fs ← sys_line (drop_cr l); gs ← parse_lines ls; Ret (fs ++ gs)
  end.

Definition fn_less (fi fj : Fn) : bool :=
  if bool_decide (DLLName fi = DLLName fj) then str_lt (DLLFuncName fi) (DLLFuncName fj)
  else str_lt (DLLName fi) (DLLName fj).

Definition parseFile (src : Source) (file : File) : res Source :=
  fs ← parse_lines (raw_lines (content file));
  match read_err file with
  | Some e => Fail e
  | None =>
      let funcs := Funcs src ++ fs in
      let funcs := if sortdecls then sort_Slice fn_less funcs else funcs in
      let files := Files src ++ [File_Name file] in
      match seek_err file with
      | Some e => Fail e
      | None =>
          pkg ← package_clause file;
          Ret (mkSource funcs (DLLFuncNames src) files (StdLibImports src) (ExternalImports src) pkg)
      end
  end.

(** [errors.Is(err, os.ErrNotExist)] is true of the errors 2, 3 and 53 of the
    system; [ERROR_INVALID_NAME] is 123. *)
Definition may_be_glob (e : error) : bool :=
  errors_is e (Errno 2) || errors_is e (Errno 3) || errors_is e (Errno 53) ||
  errors_is e (Errno 123).
Fixpoint parse_paths (src : Source) (paths : list (list Z)) : res Source :=
  match paths with
  | [] => Ret src
  | path :: paths => file ← os_Open path; src ← parseFile src file; parse_paths src paths
  end.
Definition ParseFile (src : Source) (path : list Z) : res Source :=
  match os_Open path with
  | Ret file => parseFile src file
  | Fail err =>
      if negb (may_be_glob err) then Fail err
      else paths ← Glob path; parse_paths src paths
  | Panic w => Panic w
  | NoFuel => NoFuel
  end.
Fixpoint parse_each (src : Source) (fs : list (list Z)) : res Source :=
  match fs with
  | [] => Ret src
  | file :: fs => src ← ParseFile src file; parse_each src fs
  end.

(** The functions whose name in the DLL is not one of an earlier function. *)
Fixpoint uniq_names (uniq : gset (list Z)) (fs : list Fn) : list Fn :=
  match fs with
  | [] => []
  | fn :: fs =>
      let name := DLLFuncName fn in
      if bool_decide (name ∈ uniq) then uniq_names uniq fs
      else fn :: uniq_names ({[name]} ∪ uniq) fs
  end.
Definition ParseFiles (pkg : list Z) (fs : list (list Z)) : res Source :=
  src ← parse_each (mkSource [] [] [] [str "unsafe"] [] pkg) fs;
  Ret (mkSource (Funcs src) (uniq_names ∅ (Funcs src)) (Files src)
         (StdLibImports src) (ExternalImports src) (packageName src)).

Fixpoint uniq_dlls (uniq : gset (list Z)) (fs : list Fn) : res (list DLL) :=
  match fs with
  | [] => Ret []
  | f :: fs =>
      id ← DLLVar f;
      if bool_decide (id ∈ uniq) then uniq_dlls uniq fs
      else r ← uniq_dlls ({[id]} ∪ uniq) fs; Ret (mkDLL (DLLName f) id :: r)
  end.
Definition DLLs (src : Source) : res (list DLL) :=
  r ← uniq_dlls ∅ (Funcs src);
  Ret (if sortdecls then sort_Slice (λ a b, str_lt (DLL_Var a) (DLL_Var b)) r else r).
End Parse.

(** ** The templates *)
Section Templates.
Context `{Flags, Env} (pkg : list Z).

(** [{{range .Params}}{{if m}}pre{{m}}post{{end}}{{end}}]: the method is called
    again when its first result is not empty. *)
Definition if_text (m : nat → St Fn (list Z)) (pre post : list Z) (i : nat) : St Fn (list Z) :=
  c ← m i;
  if bool_decide (c = []) then mret []
  else c ← m i; mret (pre ++ c ++ post).
Definition if_nonempty (c pre post : list Z) : list Z :=
  if bool_decide (c = []) then [] else pre ++ c ++ post.

Definition t_results (f : Fn) : list Z := if_nonempty (Rets_List (Fn_Rets f)) [] (str " ").
Definition t_helpertmpvars : St Fn (list Z) :=
  range_params (if_text (TmpVarHelperCode pkg) [9] [10]).
Definition t_tmpvars : St Fn (list Z) := range_params (if_text TmpVarCode [9] [10]).
Definition t_tmpvarsreadback : St Fn (list Z) := range_params (if_text TmpVarReadbackCode [10] []).
Definition t_maybeabsent (f : Fn) : list Z := if_nonempty (MaybeAbsent f) [] [10].

Definition t_syscall : St Fn (list Z) :=
  f ← get;
  call ← Syscall pkg;
  n ← ParamCount;
  args ← SyscallParamList;
  mret (SetReturnValuesCode (Fn_Rets f) ++ call ++ str "(proc" ++ DLLFuncName f ++
        str ".Addr(), " ++ FormatInt n 10 ++ str ", " ++ args ++ str ")").

Definition t_seterror : St Fn (list Z) :=
  f ← get;
  c ← lift (SetErrorCode pkg (Fn_Rets f));
  mret (if_nonempty c [9] [10]).

Definition t_printtrace (f : Fn) : list Z :=
  if PrintTrace f then
    strq "	print(`SYSCALL: " ++ Fn_Name f ++ strq "(`, " ++ ParamPrintList f ++ strq "`) (`, " ++
    PrintList (Fn_Rets f) ++ strq "`)\n`)
"
  else [].

Definition t_helperbody : St Fn (list Z) :=
  f ← get;
  vars ← t_helpertmpvars;
  call ← HelperCallParamList;
  mret (str "
func " ++ Fn_Name f ++ str "(" ++ ParamList f ++ str ") " ++ t_results f ++ str "{
" ++ vars ++ str "	return " ++ HelperName f ++ str "(" ++ call ++ str ")
}
").

Definition t_funcbody : St Fn (list Z) :=
  f ← get;
  vars ← t_tmpvars;
  call ← t_syscall;
  back ← t_tmpvarsreadback;
  seterror ← t_seterror;
  mret (str "
func " ++ HelperName f ++ str "(" ++ HelperParamList f ++ str ") " ++ t_results f ++ str "{
" ++ t_maybeabsent f ++ str "	" ++ vars ++ str "	" ++ call ++ str "	" ++ back ++ str "
" ++ seterror ++ t_printtrace f ++ str "	return
}
").

(** The text of one function, inside [{{range .Funcs}}]. *)
Definition t_func : St Fn (list Z) :=
  f ← get;
  h ← (if HasStringParam f then t_helperbody else mret []);
  b ← t_funcbody;
  mret (h ++ b).

Fixpoint t_funcs (fs : list Fn) : res (list Z) :=
  match fs with
  | [] => Ret []
  | f :: fs => t ← (t_func f).1; r ← t_funcs fs; Ret (t ++ r)
  end.

(** ** The file *)
Inductive pkgtype := pkgStd | pkgXSysWindows | pkgOther.

(** [strings.Replace(s, "_", "-", -1)] *)
Definition dashes (s : list Z) : list Z := (λ b, if b =? 95 then 45 else b) <$> s.

Definition newlazydll (ty : pkgtype) (dll : list Z) : list Z :=
  let arg := strq "`" ++ dll ++ strq ".dll`" in
  if negb systemDLL then syscalldot pkg ++ str "NewLazyDLL(" ++ arg ++ str ")"
  else
    let arg := if HasPrefix dll (str "api_") || HasPrefix dll (str "ext_") then dashes arg else arg in
    match ty with
    | pkgStd => syscalldot pkg ++ str "NewLazyDLL(sysdll.Add(" ++ arg ++ str "))"
    | pkgXSysWindows => str "NewLazySystemDLL(" ++ arg ++ str ")"
    | pkgOther => str "windows.NewLazySystemDLL(" ++ arg ++ str ")"
    end.

Definition t_dlls (ty : pkgtype) (l : list DLL) : list Z :=
  concat ((λ d, str "	mod" ++ DLL_Var d ++ str " = " ++ newlazydll ty (DLL_Name d) ++ [10]) <$> l).
Fixpoint t_funcnames (fs : list Fn) : res (list Z) :=
  match fs with
  | [] => Ret []
  | f :: fs =>
      v ← DLLVar f;
      r ← t_funcnames fs;
      Ret (str "	proc" ++ DLLFuncName f ++ str " = mod" ++ v ++ strq ".NewProc(`" ++
           DLLFuncName f ++ strq "`)
" ++ r)
  end.

Definition t_imports (l : list (list Z)) : list Z :=
  concat ((λ p, strq "`" ++ p ++ strq "`
") <$> l).

Definition t_main (ty : pkgtype) (src : Source) : res (list Z) :=
  dlls ← DLLs src;
  names ← t_funcnames (DLLFuncNames src);
  funcs ← t_funcs (Funcs src);
  Ret (strq " //go:build windows

// Code generated by 'go generate' using `github.com/Microsoft/go-winio/tools/mkwinsyscall`; DO NOT EDIT.

package " ++ pkg ++ str "

import (
" ++ t_imports (StdLibImports src) ++ str "

" ++ t_imports (ExternalImports src) ++ str "
)

var _ unsafe.Pointer

// Do the interface allocations only once for common
// Errno values.
const (
	errnoERROR_IO_PENDING = 997
)

var (
	errERROR_IO_PENDING error = " ++ syscalldot pkg ++ str "Errno(errnoERROR_IO_PENDING)
	errERROR_EINVAL error     = " ++ syscalldot pkg ++ str "EINVAL
)

// errnoErr returns common boxed Errno values, to prevent
// allocations at runtime.
func errnoErr(e " ++ syscalldot pkg ++ str "Errno) error {
	switch e {
	case 0:
		return errERROR_EINVAL
	case errnoERROR_IO_PENDING:
		return errERROR_IO_PENDING
	}
	// TODO: add more here, after collecting data on the common
	// error values see on Windows. (perhaps when running
	// all.bat?)
	return e
}

var (
" ++ t_dlls ty dlls ++ str "
" ++ names ++ str ")
" ++ funcs ++ str "
").
End Templates.

Section Generate.
Context `{Flags, Env}.

(** [strings.ToLower] *)
Definition lower_rune (r : Z) : Z :=
  if r <? 128 then (if between 65 r 90 then r + 32 else r) else lower_hi r.
Definition ToLower (s : list Z) : list Z := string_of_runes (lower_rune <$> runes_of_string s).

Definition IsStdRepo (src : Source) : res bool :=
  match Files src with
  | [] => Fail (New "no input files provided")
  | file :: _ =>
      abspath ← Abs file;
      let '(abspath, goroot) :=
        if bool_decide (GOOS = str "windows") then (ToLower abspath, ToLower GOROOT)
        else (abspath, GOROOT) in
      let goroot := if negb (HasSuffix goroot PathSeparator) then goroot ++ PathSeparator else goroot in
      Ret (HasPrefix abspath goroot)
  end.

(** A panic of a method is an error of the template. *)
Definition Execute (t : res (list Z)) : res (list Z) :=
  match t with
  | Panic w => Fail (Errorf "Failed to execute template: %s" [] [str w])
  | t => t
  end.

(** What is written, and the collection with its imports. *)
Definition Generate (src : Source) : res (list Z * Source) :=
  isStdRepo ← IsStdRepo src;
  let pkg := packageName src in
  let ty := if (isStdRepo : bool) then pkgStd
            else if bool_decide (pkg = str "windows") then pkgXSysWindows else pkgOther in
  let src :=
    if systemDLL then
      match ty with
      | pkgStd => Import (str "internal/syscall/windows/sysdll") src
      | pkgXSysWindows => src
      | pkgOther => ExternalImport (str "golang.org/x/sys/windows") src
      end
    else src in
  let src := if winio then ExternalImport (str "github.com/Microsoft/go-winio") src else src in
  let src := if negb (bool_decide (pkg = str "syscall")) then Import (str "syscall") src else src in
  t ← Execute (t_main pkg ty src);
  Ret (t, src).
End Generate.
