(* ===== verification/MkwinsyscallSpec.v ===== *)
(** * The declarations of system calls, printed and parsed

    A grammar of the lines that [Mkwinsyscall.newFn] reads, with the proof that
    it reads back what the grammar prints, and what a parsed function satisfies. *)
From S2P Require Import Prelude GoStrings Unicode GoText Mkwinsyscall.

(** ** Sections of a line *)
Definition ends_ok (s : list Z) : Prop := s = [] ∨ ∃ b t, s = t ++ [b] ∧ blank b = false.

Lemma ends_ok_nil : ends_ok [].
Proof. by left. Qed.
Lemma ends_ok_app x c s : blank c = false → ends_ok s → ends_ok (x ++ c :: s).
Proof.
  intros Hc [->|(b & t & -> & Hb)]; right; [by exists c, x|].
  exists b, (x ++ c :: t). split; [by rewrite <- app_assoc|done].
Qed.
Lemma ends_ok_cons c s : blank c = false → ends_ok s → ends_ok (c :: s).
Proof. apply (ends_ok_app []). Qed.
#[local] Hint Resolve ends_ok_nil ends_ok_app ends_ok_cons : golist.

Lemma tight_open c s : blank c = false → ends_ok s → tight (c :: s).
Proof.
  intros Hc Hs. split; [by exists c, s|].
  destruct Hs as [->|(b & t & -> & Hb)]; [by exists c, []|by exists b, (c :: t)].
Qed.
Lemma trim_open g c s : blanks g → blank c = false → ends_ok s → trim (g ++ c :: s) = c :: s.
Proof.
  intros Hg Hc Hs. rewrite <- (app_nil_r (c :: s)) at 1.
  apply trim_around; auto using tight_open with golist.
Qed.
Lemma trim_trim s : trim (trim s) = trim s.
Proof. destruct (trim_shape s) as [E|H]; [by rewrite E|by apply trim_tight]. Qed.
Lemma extractSection_trim s a b : extractSection (trim s) a b = extractSection s a b.
Proof. unfold extractSection. by rewrite trim_trim. Qed.

Lemma HasPrefix_nil s : HasPrefix s [] = true.
Proof. by destruct s. Qed.

(** A section that opens the text. *)
Lemma extractSection_hit g a e body suf :
  blanks g → blank a = false → blank e = false → lacks e body → ends_ok suf →
  extractSection (g ++ a :: body ++ e :: suf) a e = ([], body, suf, true).
Proof.
  intros Hg Ha He Hb Hs. unfold extractSection.
  rewrite trim_open by auto with golist. cbn [HasPrefix]. rewrite Z.eqb_refl. cbn [andb].
  unfold SplitN2. rewrite HasPrefix_nil. cbn [skipn].
  by rewrite drop_0, Cut_app.
Qed.
(** A section after a prefix. *)
Lemma extractSection_prefix n name a e body suf :
  blank n = false → blank a = false → blank e = false →
  lacks a (n :: name) → lacks e body → ends_ok suf →
  extractSection ((n :: name) ++ a :: body ++ e :: suf) a e = (n :: name, body, suf, true).
Proof.
  intros Hn Ha He Hl Hb Hs. unfold extractSection.
  assert (He' : ends_ok (name ++ a :: body ++ e :: suf)) by auto with golist.
  change ((n :: name) ++ a :: body ++ e :: suf) with ([] ++ n :: (name ++ a :: body ++ e :: suf)).
  rewrite trim_open by auto with golist.
  pose proof Hl as [Hna _]%Forall_cons. cbn [HasPrefix app].
  replace (a =? n) with false by (symmetry; apply Z.eqb_neq; congruence). cbn [andb].
  pose proof (Cut_app (n :: name) a (body ++ e :: suf) Hl) as Hcut. cbn [app] in Hcut.
  unfold SplitN2. rewrite Hcut. by rewrite Cut_app.
Qed.
Lemma lacks_trim c s : lacks c s → lacks c (trim s).
Proof.
  intros H. unfold trim, lacks. apply Forall_rev.
  destruct (trim_left_shape (rev (trim_left s))) as (v & _ & Hv & _).
  assert (Hl : lacks c (rev (trim_left s))).
  { apply Forall_rev. destruct (trim_left_shape s) as (w & _ & Hw & _). rewrite Hw in H.
    by apply Forall_app in H as [_ H]. }
  rewrite Hv in Hl. by apply Forall_app in Hl as [_ ?].
Qed.
Lemma extractSection_miss s a e :
  lacks a s → extractSection s a e = ([], [], trim s, false).
Proof.
  intros H%lacks_trim. unfold extractSection.
  replace (HasPrefix (trim s) [a]) with false.
  - unfold SplitN2. by rewrite Cut_None.
  - destruct (trim s) as [|b t]; [done|]. cbn. apply Forall_cons in H as [H _].
    destruct (Z.eqb_spec a b); [congruence|done].
Qed.

(** ** Declarations *)

(** Text that the parser takes as one word: no blank, comma or closing
    parenthesis. *)
Definition word (s : list Z) : Prop :=
  s ≠ [] ∧ Forall (λ b, blank b = false ∧ b ≠ 44 ∧ b ≠ 41) s.

Record Proto := mkProto {
  p_name : list Z;
  p_params : list (list Z * list Z);
  p_rets : list (list Z * list Z);
  p_cond : option (list Z);
  p_target : option (list Z * list Z * bool);
}.

Definition print_args (ps : list (list Z * list Z)) : list Z :=
  Join ((λ '(n, t), n ++ 32 :: t) <$> ps) [44].
Definition print_target (t : list Z * list Z * bool) : list Z :=
  let '(dll, fn, absent) := t in
  (if bool_decide (dll = []) then fn else dll ++ 46 :: fn) ++ (if absent : bool then [63] else []).

Section Print.
Context (g : list Z).
Definition print_tail3 (p : Proto) : list Z :=
  match p_target p with Some t => g ++ 61 :: g ++ print_target t | None => [] end.
Definition print_tail2 (p : Proto) : list Z :=
  match p_cond p with Some c => g ++ 91 :: c ++ 93 :: print_tail3 p | None => print_tail3 p end.
Definition print_tail1 (p : Proto) : list Z :=
  match p_rets p with
  | [] => print_tail2 p
  | rs => g ++ 40 :: print_args rs ++ 41 :: print_tail2 p
  end.
(** A declaration, with the blanks [g] before each section and around the
    equality sign. *)
Definition print_proto (p : Proto) : list Z :=
  p_name p ++ 40 :: print_args (p_params p) ++ 41 :: print_tail1 p.
End Print.

Definition err_result : list Z * list Z := (varErr, tError).
Definition proto_rets (p : Proto) : Rets :=
  let '(name, ty, e) :=
    match p_rets p with
    | [] => ([], [], false)
    | [r] => if decide (r = err_result) then ([], [], true) else (r.1, r.2, false)
    | r :: _ => (r.1, r.2, true)
    end in
  mkRets name ty e (default [] (p_cond p)) (match p_target p with Some (_, _, a) => a | None => false end).

Definition proto_fn `{Flags} (p : Proto) (src : list Z) : Fn :=
  mkFn (p_name p) ((λ '(n, t), mkParam n t (-1)) <$> p_params p) (proto_rets p) printTraceFlag
    (match p_target p with Some (d, _, _) => d | None => [] end)
    (match p_target p with Some (_, f, _) => f | None => [] end) src 0.

Definition target_ok (t : list Z * list Z * bool) : Prop :=
  let '(dll, fn, absent) := t in
  tight fn ∧ lacks 46 fn ∧ (absent = false → ¬ endsIn fn 63) ∧
  (dll = [] ∨ tight dll) ∧
  lacks 40 dll ∧ lacks 40 fn ∧ lacks 91 dll ∧ lacks 91 fn.
Definition args_ok (ps : list (list Z * list Z)) : Prop :=
  Forall (λ '(n, t), word n ∧ word t) ps.
(** One result of any kind, or one and the error. *)
Definition rets_form (rs : list (list Z * list Z)) : Prop :=
  match rs with [] | [_] => True | [_; e] => e = err_result | _ => False end.

Record proto_ok (p : Proto) : Prop := {
  ok_name : ∃ n t, p_name p = n :: t ∧ blank n = false;
  ok_name_lacks : lacks 40 (p_name p);
  ok_params : args_ok (p_params p);
  ok_rets : args_ok (p_rets p);
  ok_rets_form : rets_form (p_rets p);
  ok_cond : ∀ c, p_cond p = Some c → lacks 93 c ∧ lacks 40 c;
  ok_target : ∀ t, p_target p = Some t → target_ok t;
}.

Lemma word_tight s : word s → tight s.
Proof.
  intros [Hn H]. split.
  - destruct s as [|b t]; [done|]. apply Forall_cons in H as [[Hb _] _]. eauto.
  - destruct (exists_last Hn) as (t & b & ->).
    apply Forall_app in H as [_ [[Hb _] _]%Forall_cons]. eauto.
Qed.
Lemma word_lacks s c : word s → blank c = true ∨ c = 44 ∨ c = 41 → lacks c s.
Proof.
  intros [_ H] Hc. eapply Forall_impl; [exact H|]. cbn. intros b (Hb & ? & ?) ->.
  destruct Hc as [Hc|[|]]; congruence.
Qed.

Lemma tight_app_cons s c t : tight s → tight t → tight (s ++ c :: t).
Proof.
  intros [(b & u & -> & Hb) _] [_ (d & v & -> & Hd)]. split; [eexists b, _; by split|].
  exists d, ((b :: u) ++ c :: v). split; [by rewrite <- app_assoc|done].
Qed.

Lemma tight_nonempty s : tight s → s ≠ [].
Proof. by intros [(b & t & -> & _) _]. Qed.

(** *** Parameters *)
Lemma extractParam_print n t : word n → word t → extractParam (n ++ 32 :: t) = Ret (mkParam n t (-1)).
Proof.
  intros Hn Ht. unfold extractParam.
  assert (Htt : tight (n ++ 32 :: t)) by (apply tight_app_cons; by apply word_tight).
  rewrite trim_tight by done.
  rewrite Split_app, Split_lacks by (apply word_lacks; auto).
  rewrite !trim_tight by by apply word_tight. done.
Qed.
Lemma extract_each_print ps :
  args_ok ps → extract_each ((λ '(n, t), n ++ 32 :: t) <$> ps) = Ret ((λ '(n, t), mkParam n t (-1)) <$> ps).
Proof.
  induction 1 as [|[n t] ps [Hn Ht] Hps IH]; [done|].
  cbn [fmap list_fmap extract_each]. rewrite extractParam_print by done. cbn [mbind res_bind].
  rewrite IH. done.
Qed.

Lemma args_lacks ps c : args_ok ps → c = 44 ∨ c = 41 → Forall (lacks c) ((λ '(n, t), n ++ 32 :: t) <$> ps).
Proof.
  intros H Hc. induction H as [|[n t] ps [Hn Ht] Hps IH]; cbn; constructor; [|done].
  apply lacks_app; [apply word_lacks; tauto|]. constructor; [lia|apply word_lacks; tauto].
Qed.
Lemma Join_lacks c a sep : lacks c sep → Forall (lacks c) a → lacks c (Join a sep).
Proof.
  intros Hs. induction 1 as [|s a H Ha IH]; [constructor|]. cbn.
  destruct a as [|t a]; [done|]. auto with golist.
Qed.
Lemma print_args_lacks ps : args_ok ps → lacks 41 (print_args ps).
Proof.
  intros. apply Join_lacks; [by repeat constructor|]. apply args_lacks; auto.
Qed.
Lemma Join_tight a c : a ≠ [] → Forall tight a → tight (Join a [c]).
Proof.
  intros Hn H. induction H as [|s a Hs Ha IH]; [done|]. destruct a as [|t a]; [done|].
  cbn [Join]. apply (tight_app_cons s c); [done|]. by apply IH.
Qed.
Lemma print_args_tight ps : args_ok ps → ps ≠ [] → tight (print_args ps).
Proof.
  intros H Hn. apply Join_tight; [by destruct ps|]. apply Forall_fmap.
  eapply Forall_impl; [exact H|]. intros [n t] [Hnn Ht].
  apply tight_app_cons; by apply word_tight.
Qed.
Lemma extractParams_print ps :
  args_ok ps → extractParams (print_args ps) = Ret ((λ '(n, t), mkParam n t (-1)) <$> ps).
Proof.
  intros H. unfold extractParams. destruct ps as [|p ps]; [done|].
  assert (Ht := print_args_tight _ H ltac:(done)). rewrite trim_tight by done.
  rewrite bool_decide_eq_false_2 by by apply tight_nonempty.
  unfold print_args. rewrite Split_Join; [by apply extract_each_print|by destruct p|].
  by apply args_lacks; auto.
Qed.

(** *** Results and the target *)
Lemma set_rets_print src rs :
  rets_form rs →
  ∃ r, set_rets src ((λ '(n, t), mkParam n t (-1)) <$> rs) = Ret r ∧
       ∀ p, p_rets p = rs → Rets_Name r = Rets_Name (proto_rets p) ∧
         Rets_Type r = Rets_Type (proto_rets p) ∧ ReturnsError r = ReturnsError (proto_rets p).
Proof.
  intros H. destruct rs as [|[n t] [|[n' t'] [|]]]; cbn [fmap list_fmap set_rets].
  - eexists; split; [reflexivity|]. intros p Hp. unfold proto_rets. by rewrite Hp.
  - assert (HE : IsError (mkParam n t (-1)) = bool_decide ((n, t) = err_result)).
    { unfold IsError, err_result. cbn. repeat case_bool_decide; simplify_eq; naive_solver. }
    rewrite HE. unfold proto_rets. destruct (decide ((n, t) = err_result)) as [E|E].
    + rewrite bool_decide_eq_true_2 by done. eexists; split; [reflexivity|]. intros p Hp.
      rewrite Hp. by rewrite decide_True.
    + rewrite bool_decide_eq_false_2 by done. eexists; split; [reflexivity|]. intros p Hp.
      rewrite Hp. by rewrite decide_False.
  - injection H as -> ->. eexists; split; [reflexivity|]. intros p Hp. unfold proto_rets. by rewrite Hp.
  - done.
Qed.

Lemma tight_ends s : tight s → ends_ok s.
Proof. intros [_ H]. by right. Qed.
Lemma tight_snoc s c : tight s → blank c = false → tight (s ++ [c]).
Proof. intros [(b & u & -> & Hb) _] Hc. split; [eexists b, _; by split|by exists c, (b :: u)]. Qed.
Lemma print_target_tight t : target_ok t → tight (print_target t).
Proof.
  destruct t as [[dll fn] absent]. intros (Hf & _ & _ & Hd & _). cbn.
  assert (tight (if bool_decide (dll = []) then fn else dll ++ 46 :: fn)).
  { case_bool_decide; [done|]. destruct Hd; [done|]. by apply tight_app_cons. }
  destruct absent; [by apply tight_snoc|by rewrite app_nil_r].
Qed.
Lemma endsIn_snoc s b c : endsIn (s ++ [b]) c = (b =? c).
Proof. unfold endsIn. by rewrite last_snoc. Qed.

Lemma dll_names_print src g t :
  blanks g → target_ok t → dll_names src (g ++ 61 :: g ++ print_target t) = Ret t.
Proof.
  intros Hg Ht. pose proof (print_target_tight _ Ht) as Htt. unfold dll_names.
  assert (He : ends_ok (g ++ print_target t)).
  { destruct Htt as [_ (b & u & -> & Hb)]. right. exists b, (g ++ u). by rewrite app_assoc. }
  rewrite trim_open by done. rewrite bool_decide_eq_false_2 by done.
  change (str "=") with [61]. cbn [HasPrefix]. rewrite HasPrefix_nil. cbn [negb andb skipn Z.eqb Pos.eqb].
  rewrite drop_0. replace (trim (g ++ print_target t)) with (print_target t)
    by (rewrite <- (app_nil_r (g ++ _)), <- app_assoc; symmetry; auto using trim_around with golist).
  destruct t as [[dll fn] absent]. destruct Ht as (Hf & H46 & Hq & Hd & _). cbn [print_target].
  set (n := fn ++ if absent then [63] else []).
  assert (Hn : lacks 46 n).
  { unfold n. destruct absent; [|by rewrite app_nil_r]. apply lacks_app; [done|by repeat constructor]. }
  assert (Hcut : match CutLast ((if bool_decide (dll = []) then fn else dll ++ 46 :: fn) ++
                     (if absent then [63] else [])) 46 with
                 | Some (p, r) => (p, r)
                 | None => ([], (if bool_decide (dll = []) then fn else dll ++ 46 :: fn) ++
                     (if absent then [63] else []))
                 end = (dll, n)).
  { case_bool_decide as E.
    - subst dll. fold n. by rewrite CutLast_None.
    - rewrite <- app_assoc. cbn [app]. fold n. by rewrite CutLast_app. }
  rewrite Hcut. destruct Hf as [(b & u & Hfn & _) _].
  rewrite bool_decide_eq_false_2 by (unfold n; rewrite Hfn; by destruct absent).
  unfold n. destruct absent.
  - rewrite endsIn_snoc, Z.eqb_refl. rewrite ztake_app_eq by len. done.
  - rewrite app_nil_r. specialize (Hq eq_refl). by destruct (endsIn fn 63).
Qed.

(** *** The whole declaration *)
Section Roundtrip.
Context `{Flags} (g : list Z) (Hg : blanks g) (p : Proto) (Hp : proto_ok p).

Lemma ends_ok_gap s : tight s → ends_ok (g ++ s).
Proof. intros [_ (b & u & -> & Hb)]. right. exists b, (g ++ u). by rewrite app_assoc. Qed.
Lemma ends_tail3 : ends_ok (print_tail3 g p).
Proof.
  unfold print_tail3. destruct (p_target p) as [t|] eqn:E; [|auto with golist].
  apply ends_ok_app; [done|]. apply ends_ok_gap, print_target_tight. by apply (ok_target p Hp).
Qed.
Lemma ends_tail2 : ends_ok (print_tail2 g p).
Proof.
  unfold print_tail2. destruct (p_cond p); [|apply ends_tail3].
  apply ends_ok_app, ends_ok_app; [done|done|apply ends_tail3].
Qed.
Lemma ends_tail1 : ends_ok (print_tail1 g p).
Proof.
  unfold print_tail1. destruct (p_rets p); [apply ends_tail2|].
  apply ends_ok_app, ends_ok_app; [done|done|apply ends_tail2].
Qed.

Lemma blanks_lacks c : blank c = false → lacks c g.
Proof. intros Hc. eapply Forall_impl; [exact Hg|]. cbn. congruence. Qed.
Lemma tail3_lacks c : c = 40 ∨ c = 91 → lacks c (print_tail3 g p).
Proof.
  intros Hc. unfold print_tail3. destruct (p_target p) as [[[dll fn] absent]|] eqn:E; [|constructor].
  apply (ok_target p Hp) in E as (_ & _ & _ & _ & H1 & H2 & H3 & H4).
  assert (lacks c g) by (apply blanks_lacks; by destruct Hc as [-> | ->]).
  assert (lacks c dll ∧ lacks c fn) as [? ?] by (by destruct Hc as [-> | ->]).
  apply lacks_app; [done|]. constructor; [lia|]. apply lacks_app; [done|]. cbn.
  apply lacks_app; [|destruct absent; repeat constructor; lia].
  case_bool_decide; [done|]. apply lacks_app; [done|]. constructor; [lia|done].
Qed.
Lemma tail2_lacks : lacks 40 (print_tail2 g p).
Proof.
  unfold print_tail2. destruct (p_cond p) as [c|] eqn:E; [|apply tail3_lacks; auto].
  apply (ok_cond p Hp) in E as [_ E]. repeat first [apply lacks_app | constructor; [lia|]];
    [by apply blanks_lacks|done|apply tail3_lacks; auto].
Qed.

Lemma proto_rets_absent :
  fnMaybeAbsent (proto_rets p) = match p_target p with Some (_, _, a) => a | None => false end.
Proof. unfold proto_rets. destruct (p_rets p) as [|r [|]]; [done|by case_decide|done]. Qed.
Lemma proto_rets_cond : FailCond (proto_rets p) = default [] (p_cond p).
Proof. unfold proto_rets. destruct (p_rets p) as [|r [|]]; [done|by case_decide|done]. Qed.

(** The condition and the target, from what is left after the results. *)
Lemma parse_tail2 src s :
  s = print_tail2 g p ∨ s = trim (print_tail2 g p) →
  (let '(_, body, s, found) := extractSection s 91 93 in
   let failcond := if found then body else [] in
   '(dll, fn, absent) ← dll_names src s; Ret (failcond, dll, fn, absent)) =
  Ret (default [] (p_cond p), dllname (proto_fn p src), dllfuncname (proto_fn p src),
       fnMaybeAbsent (proto_rets p)).
Proof.
  intros Hs. replace (extractSection s 91 93) with (extractSection (print_tail2 g p) 91 93)
    by (by destruct Hs as [-> | ->]; rewrite ?extractSection_trim).
  assert (Ht : dll_names src (print_tail3 g p) =
    Ret (dllname (proto_fn p src), dllfuncname (proto_fn p src), fnMaybeAbsent (proto_rets p))).
  { rewrite proto_rets_absent. unfold print_tail3, proto_fn.
    destruct (p_target p) as [[[dll fn] absent]|] eqn:E; [|done].
    by rewrite dll_names_print by (first [done | by apply (ok_target p Hp)]). }
  unfold print_tail2. destruct (p_cond p) as [c|] eqn:E.
  - rewrite extractSection_hit; auto using ends_tail3; [by rewrite Ht|].
    by apply (ok_cond p Hp) in E as [? _].
  - rewrite extractSection_miss by (apply tail3_lacks; auto).
    replace (dll_names src (trim (print_tail3 g p))) with (dll_names src (print_tail3 g p))
      by (unfold dll_names; by rewrite trim_trim).
    by rewrite Ht.
Qed.

(** C22: Printing a declaration and parsing it gives the function it declares,
    whatever the blanks before its sections and around it: the name, the parameters in order,
    the result and whether the function returns an error, the condition of failure, the DLL,
    the name in the DLL and whether it may be absent. *)
Theorem newFn_print (l : list Z) :
  blanks l → newFn (l ++ print_proto g p ++ l) = Ret (proto_fn p (print_proto g p)).
Proof.
  intros Hl. destruct (ok_name p Hp) as (n & t & Hn & Hbn).
  assert (Ht : tight (print_proto g p)).
  { unfold print_proto. rewrite Hn. apply tight_open; [done|].
    apply ends_ok_app, ends_ok_app; [done|done|apply ends_tail1]. }
  unfold newFn. rewrite trim_around by done.
  pose proof (ok_name_lacks p Hp) as Hnl. rewrite Hn in Hnl.
  assert (H1 : extractSection (print_proto g p) 40 41 =
               (p_name p, print_args (p_params p), print_tail1 g p, true)).
  { unfold print_proto. rewrite Hn. apply extractSection_prefix; try done; [|apply ends_tail1].
    apply print_args_lacks, ok_params, Hp. }
  rewrite H1. rewrite bool_decide_eq_false_2 by by rewrite Hn. cbn [negb orb].
  rewrite extractParams_print by apply ok_params, Hp. cbn [mbind res_bind].
  destruct (set_rets_print (print_proto g p) (p_rets p) (ok_rets_form p Hp)) as (r & Hr & Hrp).
  specialize (Hrp p eq_refl) as (Hr1 & Hr2 & Hr3).
  assert (H2 : ∃ s body found, extractSection (print_tail1 g p) 40 41 = ([], body, s, found) ∧
    (s = print_tail2 g p ∨ s = trim (print_tail2 g p)) ∧
    (if found then r ← extractParams body; set_rets (print_proto g p) r else Ret no_rets) = Ret r).
  { unfold print_tail1. destruct (p_rets p) as [|r0 rs] eqn:E.
    - rewrite extractSection_miss by apply tail2_lacks. do 3 eexists. split; [done|]. eauto.
    - rewrite extractSection_hit; [|done..| |apply ends_tail2].
      + do 3 eexists. split; [done|]. split; [by left|].
        rewrite extractParams_print by (rewrite <- E; apply ok_rets, Hp). exact Hr.
      + rewrite <- E. apply print_args_lacks, ok_rets, Hp. }
  destruct H2 as (s & body & found & -> & Hs & ->). cbn [mbind res_bind].
  pose proof (parse_tail2 (print_proto g p) s Hs) as H3.
  destruct (extractSection s 91 93) as [[[pre body'] s'] found'].
  destruct (dll_names (print_proto g p) s') as [[[dll fn] absent]| | |]; try done.
  cbn [mbind res_bind] in H3 |- *. injection H3 as Hc Hd Hf Ha.
  f_equal. unfold proto_fn in *. cbn in Hd, Hf. f_equal; [|done|done].
  rewrite Hr1, Hr2, Hr3, Hc, Ha, <- proto_rets_cond. by destruct (proto_rets p).
Qed.
End Roundtrip.

(** ** What every parsed function satisfies *)
Lemma trim_nil s : trim s = [] → blanks s.
Proof.
  unfold trim. intros E. destruct (trim_left_shape s) as (w & Hw & Hs & _).
  destruct (trim_left_shape (rev (trim_left s))) as (v & Hv & Hr & _).
  apply (f_equal (@rev Z)) in E. rewrite rev_involutive in E. cbn in E. rewrite E, app_nil_r in Hr.
  rewrite Hs. apply blanks_app; [done|]. rewrite <- (rev_involutive (trim_left s)), Hr.
  by apply blanks_rev.
Qed.
Lemma trim_half s p c r : tight s → s = p ++ c :: r → blank c = true → trim r ≠ [].
Proof.
  intros [_ (b & u & E & Hb)] Hs Hc Ht. apply trim_nil in Ht.
  assert (H : blanks (c :: r)) by (constructor; done).
  rewrite Hs in E. destruct (exists_last (l := c :: r) ltac:(done)) as (v & e & Ev).
  rewrite Ev, app_assoc in E. apply app_inj_tail in E as [_ ->].
  rewrite Ev in H. apply Forall_app in H as [_ [H _]%Forall_cons]. congruence.
Qed.

Definition fresh_param (p : Param) : Prop := Param_Type p ≠ [] ∧ tmpVarIdx p = -1.
Lemma extractParam_fresh a p : extractParam a = Ret p → fresh_param p.
Proof.
  unfold extractParam. intros Hp.
  destruct (trim_shape a) as [E|Ht]; [by rewrite E in Hp|].
  assert (Hs : ∀ c b0 b1, blank c = true → Split (trim a) c = [b0; b1] → trim b1 ≠ []).
  { intros c b0 b1 Hc E. destruct (Join_Split (trim a) c) as [_ HJ]. rewrite E in HJ.
    by eapply trim_half. }
  destruct (Split (trim a) 32) as [|b0 [|b1 [|]]] eqn:E1;
    try (injection Hp as <-; split; [by eapply (Hs 32)|done]);
    destruct (Split (trim a) 9) as [|b2 [|b3 [|]]] eqn:E2; try done;
    (injection Hp as <-; split; [by eapply (Hs 9)|done]).
Qed.
Lemma extractParams_fresh s ps : extractParams s = Ret ps → Forall fresh_param ps.
Proof.
  unfold extractParams. case_bool_decide; [intros [= <-]; constructor|].
  generalize (Split (trim s) 44). intros a. revert ps.
  induction a as [|x a IH]; intros ps; cbn; [intros [= <-]; constructor|].
  destruct (extractParam x) eqn:E; try done. cbn. destruct (extract_each a); try done. cbn.
  intros [= <-]. constructor; [by eapply extractParam_fresh|auto].
Qed.
Lemma set_rets_fresh src rs r :
  set_rets src rs = Ret r → Forall fresh_param rs → Rets_Type r = [] → Rets_Name r = [].
Proof.
  intros Hr Hf. destruct rs as [|r0 [|r1 [|]]]; cbn [set_rets] in Hr; [by injection Hr as <-| | |done];
    apply Forall_cons in Hf as [[H _] _].
  - destruct (IsError r0); injection Hr as <-; by cbn.
  - destruct (IsError r1); [|done]. injection Hr as <-. by cbn.
Qed.

(** Types are not empty, a named result has a type, no variable has a number. *)
Record parsed (d : Fn) : Prop := {
  parsed_params : Forall fresh_param (Params d);
  parsed_rets : Rets_Type (Fn_Rets d) = [] → Rets_Name (Fn_Rets d) = [];
  parsed_cur : curTmpVarIdx d = 0;
}.
Lemma newFn_parsed `{Flags} s d : newFn s = Ret d → parsed d.
Proof.
  unfold newFn. destruct (extractSection _ 40 41) as [[[prefix body] s1] found].
  destruct (negb found || _); [done|].
  destruct (extractParams body) as [ps| | |] eqn:Eps; try done. cbn [mbind res_bind].
  destruct (extractSection s1 40 41) as [[[? body2] s2] found2].
  destruct (if found2 then _ else _) as [r| | |] eqn:Er; try done. cbn [mbind res_bind].
  destruct (extractSection s2 91 93) as [[[? body3] s3] found3].
  destruct (dll_names _ s3) as [[[dll fn] absent]| | |]; try done. cbn [mbind res_bind].
  intros [= <-]. constructor; [by eapply extractParams_fresh| |done]. cbn.
  destruct found2; [|by injection Er as <-].
  destruct (extractParams body2) as [rs| | |] eqn:Ers; try done. cbn [mbind res_bind] in Er.
  eapply set_rets_fresh; [done|]. by eapply extractParams_fresh.
Qed.
