(* ===== verification/MkwinsyscallText.v ===== *)
(** * The text of a system call is the text of one numbering of variables

    The templates print a function while its methods number temporary variables,
    each when it is first mentioned.  Here the printed text is proved to be the
    text of one fixed numbering, and the declarations of a file are proved unique. *)
From stdpp Require Import sorting.
From S2P Require Import Prelude GoStrings Unicode GoText Mkwinsyscall MkwinsyscallGen MkwinsyscallSpec.

(** ** The numbering of temporary variables

    The declared part of a function never changes; the numbers of its variables
    are given once.  [gives m r] says that [m] succeeds and returns [r] of the state it
    leaves, and of every later state: a text that mentions a variable is a
    function of the final numbering. *)
Definition forget_param (p : Param) : Param := mkParam (Param_Name p) (Param_Type p) (-1).
Definition forget (f : Fn) : Fn := set_Params (forget_param <$> Params f) 0 f.

Definition vars (f : Fn) (i : nat) : list Z :=
  match Params f !! i with Some p => var_name (tmpVarIdx p) | None => [] end.

(** Numbers in use are below the counter, and no two parameters have the same. *)
Definition vars_ok (f : Fn) : Prop :=
  0 ≤ curTmpVarIdx f ∧
  ∀ i p, Params f !! i = Some p → tmpVarIdx p < curTmpVarIdx f ∧
    ∀ j q, Params f !! j = Some q → 0 ≤ tmpVarIdx p → tmpVarIdx p = tmpVarIdx q → i = j.

Definition ext (f f' : Fn) : Prop :=
  ∀ i p, Params f !! i = Some p → 0 ≤ tmpVarIdx p →
    ∃ p', Params f' !! i = Some p' ∧ tmpVarIdx p' = tmpVarIdx p.
#[export] Instance ext_preorder : PreOrder ext.
Proof.
  split; [by intros f i p; eauto|].
  intros f g h H1 H2 i p Hp Hi. destruct (H1 i p Hp Hi) as (q & Hq & E).
  destruct (H2 i q Hq ltac:(lia)) as (r & Hr & E'). exists r. split; [done|congruence].
Qed.

Lemma vars_ext f f' i p :
  ext f f' → Params f !! i = Some p → 0 ≤ tmpVarIdx p → vars f' i = vars f i.
Proof. intros H Hp Hi. destruct (H i p Hp Hi) as (q & Hq & E). unfold vars. by rewrite Hp, Hq, E. Qed.

Section Gives.
Context (d : Fn).
Definition same (f : Fn) : Prop := forget f = forget d.
Definition st (f : Fn) : Prop := same f ∧ vars_ok f.

Definition gives {A} (m : St Fn A) (r : Fn → A) : Prop := ∀ f, st f →
  ∃ f', m f = (Ret (r f'), f') ∧ st f' ∧ ext f f' ∧ ∀ f'', st f'' → ext f' f'' → r f'' = r f'.

(** A function of the declared part. *)
Lemma same_eq {A} (P : Fn → A) f : (∀ f, P (forget f) = P f) → same f → P f = P d.
Proof. intros HP Hf. by rewrite <- (HP f), Hf, HP. Qed.
Lemma same_length f : same f → length (Params f) = length (Params d).
Proof. apply (same_eq (λ f, length (Params f))). intros. apply length_fmap. Qed.
Lemma same_lookup f i : same f → forget_param <$> Params f !! i = forget_param <$> Params d !! i.
Proof. intros H. rewrite <- !list_lookup_fmap. by apply (f_equal (λ f, Params f !! i)) in H. Qed.

Lemma gives_ext {A} (m : St Fn A) r r' : gives m r → (∀ f, r f = r' f) → gives m r'.
Proof.
  intros Hm Hr f Hf. destruct (Hm f Hf) as (f' & E & H1 & H2 & H3). exists f'.
  rewrite <- Hr. split_and!; [done..|]. intros. rewrite <- !Hr. auto.
Qed.
Lemma gives_ret {A} (a : A) : gives (mret a) (λ _, a).
Proof. intros f Hf. exists f. split_and!; [done|done|done|done]. Qed.
Lemma gives_lift {A} (x : res A) (a : A) : x = Ret a → gives (lift x) (λ _, a).
Proof. intros -> f Hf. exists f. by split_and!. Qed.
Lemma gives_bind {A B} (m : St Fn A) r (k : A → St Fn B) s :
  gives m r → (∀ a, gives (k a) (s a)) → gives (m ≫= k) (λ f, s (r f) f).
Proof.
  intros Hm Hk f Hf. destruct (Hm f Hf) as (f1 & E1 & H1 & X1 & S1).
  destruct (Hk (r f1) f1 H1) as (f2 & E2 & H2 & X2 & S2). exists f2.
  rewrite (St_bind_Ret _ _ _ _ _ E1), E2. rewrite (S1 f2) by done.
  split_and!; [done|done|by etrans|].
  intros f3 H3 X3. rewrite (S1 f3) by (done || by etrans). by apply S2.
Qed.
Lemma gives_get {A} (k : Fn → St Fn A) r :
  (∀ f, same f → gives (k f) r) → gives (get ≫= k) r.
Proof. intros Hk f Hf. rewrite (St_bind_Ret _ _ _ f f) by done. apply Hk; [apply Hf|done]. Qed.
Lemma gives_param {A} i p (k : Param → St Fn A) r :
  Params d !! i = Some p →
  (∀ q, Param_Name q = Param_Name p → Param_Type q = Param_Type p → gives (k q) r) →
  gives (param i ≫= k) r.
Proof.
  intros Hp Hk f Hf. pose proof (same_lookup f i (proj1 Hf)) as E. rewrite Hp in E.
  destruct (Params f !! i) as [q|] eqn:Hq; [|done]. injection E as E1 E2.
  rewrite (St_bind_Ret _ _ _ q f) by (unfold param; by rewrite Hq). by apply Hk.
Qed.

Lemma gives_tmpVar i p : Params d !! i = Some p → gives (tmpVar i) (λ f, vars f i).
Proof.
  intros Hp f Hf. pose proof (same_lookup f i (proj1 Hf)) as E. rewrite Hp in E.
  destruct (Params f !! i) as [q|] eqn:Hq; [|done]. clear E.
  unfold tmpVar. rewrite (St_bind_Ret _ _ _ q f) by (unfold param; by rewrite Hq).
  destruct (Z.ltb_spec (tmpVarIdx q) 0) as [Hi|Hi].
  - set (k := curTmpVarIdx f). set (q' := mkParam (Param_Name q) (Param_Type q) k).
    set (f' := set_Params (<[i:=q']> (Params f)) (k + 1) f).
    destruct Hf as [Hs [Hc Hv]]. pose proof (lookup_lt_Some _ _ _ Hq) as Hlt.
    assert (Hl : Params f' !! i = Some q') by by apply list_lookup_insert_eq.
    assert (Hvf : vars f' i = var_name k) by (unfold vars; by rewrite Hl).
    exists f'. split_and!.
    + rewrite Hvf. reflexivity.
    + split.
      * unfold same, forget in *. rewrite <- Hs. unfold f', set_Params. cbn. f_equal.
        rewrite list_fmap_insert. apply list_insert_id. rewrite list_lookup_fmap, Hq. done.
      * assert (H : ∀ j p', Params f' !! j = Some p' →
          (j = i ∧ p' = q') ∨ (j ≠ i ∧ Params f !! j = Some p')).
        { intros j p' Hj. destruct (decide (j = i)) as [->|].
          - left. split; [done|congruence].
          - right. split; [done|]. cbn in Hj. by rewrite list_lookup_insert_ne in Hj. }
        split; [cbn; lia|]. intros j p' [[-> ->]|[Hj Hp']]%H.
        -- split; [cbn; lia|]. intros j2 p2 [[-> ->]|[Hj2 Hp2]]%H; [done|].
           destruct (Hv _ _ Hp2). unfold k, q' in *. cbn. lia.
        -- destruct (Hv _ _ Hp') as [Hb Hd']. split; [cbn; lia|].
           intros j2 p2 [[-> ->]|[Hj2 Hp2]]%H; [unfold q', k; cbn; lia|by apply Hd'].
    + intros j p' Hj Hp'. destruct (decide (j = i)) as [->|]; [simplify_eq; lia|].
      exists p'. cbn. by rewrite list_lookup_insert_ne.
    + intros f'' _ Hx. eapply vars_ext; [done..|]. cbn. lia.
  - exists f. unfold vars at 1. rewrite Hq. split_and!; [done|done|done|].
    intros f'' _ Hx. by eapply vars_ext.
Qed.

(** A text for each parameter, given its variable. *)
Definition each {A} (ν : nat → list Z) (ref : Param → list Z → list A) : list A :=
  concat (imap (λ i p, ref p (ν i)) (Params d)).

Lemma gives_collect {A} (g : nat → St Fn (list A)) (ref : Param → list Z → list A) ps k :
  (∀ i p, ps !! i = Some p → gives (g (k + i)%nat) (λ f, ref p (vars f (k + i)))) →
  gives (collect g (seq k (length ps)))
        (λ f, concat (imap (λ i p, ref p (vars f (k + i))) ps)).
Proof.
  revert k. induction ps as [|p ps IH]; intros k H; [apply gives_ret|].
  cbn [length seq collect]. pose proof (H O p eq_refl) as H0. rewrite Nat.add_0_r in H0.
  set (r := λ f, concat (imap (λ i p, ref p (vars f (S k + i))) ps)).
  apply (gives_ext _ (λ f, ref p (vars f k) ++ r f)).
  - apply (gives_bind _ _ _ (λ a f, a ++ r f)); [done|]. intros a.
    apply (gives_bind _ r _ (λ b _, a ++ b)); [|intros b; apply gives_ret].
    apply (IH (S k)). intros i q Hq. specialize (H (S i) q Hq). by rewrite Nat.add_succ_r in H.
  - intros f. cbn. rewrite Nat.add_0_r. f_equal. unfold r. f_equal. apply imap_ext. intros i q _. cbn.
    by rewrite Nat.add_succ_r.
Qed.
Lemma gives_range {A} (g : nat → St Fn (list A)) (ref : Param → list Z → list A) :
  (∀ i p, Params d !! i = Some p → gives (g i) (λ f, ref p (vars f i))) →
  gives (range_params g) (λ f, each (vars f) ref).
Proof.
  intros H. unfold range_params. apply gives_get. intros f Hf. rewrite same_length by done.
  by apply (gives_collect g ref (Params d) 0).
Qed.
End Gives.

(** ** The text of a function under a numbering

    The same text as the templates print, with the variable of each parameter
    fixed beforehand: every mention of a parameter's variable is [ν] of the parameter. *)
Section Reference.
Context `{Flags} (pkg : list Z) (d : Fn).

Definition tmp_text (p : Param) (tmp : list Z) : list Z :=
  if bool_decide (Param_Type p = tBool) then bool_text tmp (Param_Name p)
  else if bool_decide (Param_Type p = tBoolPtr) then bool_pointer_text tmp (Param_Name p)
  else if HasPrefix (Param_Type p) (str "[]") then slice_text tmp (zdrop 2 (Param_Type p)) (Param_Name p)
  else [].
Definition readback_text (p : Param) (tmp : list Z) : list Z :=
  if bool_decide (Param_Type p = tBoolPtr) then Sprintf (str "*%s = %s != 0") [Param_Name p; tmp] else [].
Definition helper_text (p : Param) (tmp : list Z) : list Z :=
  if bool_decide (Param_Type p = tString) then string_text pkg d tmp (Param_Name p) else [].
Definition helper_args (p : Param) (tmp : list Z) : list (list Z) :=
  if bool_decide (Param_Type p = tString) then [tmp] else [Param_Name p].
(** The words of a system call that carry a parameter. *)
Definition arg_words (p : Param) (tmp : list Z) : list (list Z) :=
  let t := HelperType d p in
  if bool_decide (t = tBoolPtr) then [uintptr (Sprintf (str "unsafe.Pointer(&%s)") [tmp])]
  else if HasPrefix t (str "*") then [uintptr (Sprintf (str "unsafe.Pointer(%s)") [Param_Name p])]
  else if bool_decide (t = tBool) then [uintptr tmp]
  else if HasPrefix t (str "[]") then
    [Sprintf (str "uintptr(unsafe.Pointer(%s))") [tmp]; Sprintf (str "uintptr(len(%s))") [Param_Name p]]
  else [uintptr (Param_Name p)].

(** A slice takes two words, every other parameter one. *)
Definition slots (p : Param) : Z := if HasPrefix (Param_Type p) (str "[]") then 2 else 1.
Definition nargs : Z := foldr (λ p n, slots p + n) 0 (Params d).
(** The call with room for [n] words. *)
Definition call_width (n : Z) : Z :=
  if n <=? 3 then 3 else if n <=? 6 then 6 else if n <=? 9 then 9 else if n <=? 12 then 12 else 15.

Definition call_words (ν : nat → list Z) : list (list Z) :=
  each d ν arg_words ++ replicate (Z.to_nat (call_width nargs - nargs)) (str "0").
Definition call_name : list Z :=
  syscalldot pkg ++ str "Syscall" ++
  (if call_width nargs =? 3 then [] else FormatInt (call_width nargs) 10).
Definition syscall_text (ν : nat → list Z) : list Z :=
  SetReturnValuesCode (Fn_Rets d) ++ call_name ++ str "(proc" ++ DLLFuncName d ++ str ".Addr(), " ++
  FormatInt nargs 10 ++ str ", " ++ Join (call_words ν) (str ", ") ++ str ")".

Definition helper_body_text (ν : nat → list Z) : list Z :=
  str "
func " ++ Fn_Name d ++ str "(" ++ ParamList d ++ str ") " ++ t_results d ++ str "{
" ++ each d ν (λ p tmp, if_nonempty (helper_text p tmp) [9] [10]) ++ str "	return " ++
  HelperName d ++ str "(" ++ Join (each d ν helper_args) (str ", ") ++ str ")
}
".

Definition func_body_text (ν : nat → list Z) (seterror : list Z) : list Z :=
  str "
func " ++ HelperName d ++ str "(" ++ HelperParamList d ++ str ") " ++ t_results d ++ str "{
" ++ t_maybeabsent d ++ str "	" ++ each d ν (λ p tmp, if_nonempty (tmp_text p tmp) [9] [10]) ++
  str "	" ++ syscall_text ν ++ str "	" ++
  each d ν (λ p tmp, if_nonempty (readback_text p tmp) [10] []) ++ str "
" ++ if_nonempty seterror [9] [10] ++ t_printtrace d ++ str "	return
}
".

Definition func_text (ν : nat → list Z) (seterror : list Z) : list Z :=
  (if HasStringParam d then helper_body_text ν else []) ++ func_body_text ν seterror.
End Reference.

(** ** The methods give the reference texts *)
Section Methods.
Context `{Flags} (pkg : list Z) (d : Fn).
Context (Htypes : ∀ i p, Params d !! i = Some p → Param_Type p ≠ []).

Lemma gives_fmap {A B} (m : St Fn A) r (h : A → B) :
  gives d m r → gives d (a ← m; mret (h a)) (λ f, h (r f)).
Proof. intros Hm. apply (gives_bind _ _ r _ (λ a _, h a)); [done|]. intros a. apply gives_ret. Qed.
Lemma gives_tmp {B} i p (h : list Z → B) :
  Params d !! i = Some p → gives d (tmp ← tmpVar i; mret (h tmp)) (λ f, h (vars f i)).
Proof. intros Hp. apply gives_fmap. by eapply gives_tmpVar. Qed.

Lemma gives_lift_bind {A B} (x : res A) a (k : A → St Fn B) r :
  x = Ret a → gives d (k a) r → gives d (lift x ≫= k) r.
Proof. intros -> Hk f Hf. rewrite (St_bind_Ret _ _ _ a f) by done. by apply Hk. Qed.
Lemma slice_type (t : list Z) : HasPrefix t (str "[]") = true → slice_from t 2 = Ret (zdrop 2 t).
Proof.
  intros [u ->]%HasPrefix_spec. change (str "[]") with [91; 93]. unfold slice_from.
  rewrite slice_ok by len. f_equal. apply ztake_all. len.
Qed.

(** What the methods read of the function does not depend on the numbering. *)
Lemma join_forget (ps : list Param) h sep :
  (∀ p, h (forget_param p) = h p) → join (forget_param <$> ps) h sep = join ps h sep.
Proof. intros Hh. unfold join. rewrite <- list_fmap_compose. f_equal. by apply list_fmap_ext; intros; cbn. Qed.
Lemma HasStringParam_forget f : HasStringParam (forget f) = HasStringParam f.
Proof. unfold HasStringParam. cbn. induction (Params f); cbn; [done|]. by f_equal. Qed.
Lemma HelperName_forget f : HelperName (forget f) = HelperName f.
Proof. unfold HelperName. by rewrite HasStringParam_forget. Qed.
Lemma ParamList_forget f : ParamList (forget f) = ParamList f.
Proof. apply join_forget. reflexivity. Qed.
Lemma ParamPrintList_forget f : ParamPrintList (forget f) = ParamPrintList f.
Proof. unfold ParamPrintList. apply join_forget. intros p. unfold print_param. reflexivity. Qed.
Lemma HelperParamList_forget f : HelperParamList (forget f) = HelperParamList f.
Proof. unfold HelperParamList. apply (join_forget (Params f)). reflexivity. Qed.
Lemma t_printtrace_forget f : t_printtrace (forget f) = t_printtrace f.
Proof. unfold t_printtrace. by rewrite ParamPrintList_forget. Qed.

Lemma gives_TmpVarCode i p :
  Params d !! i = Some p → gives d (TmpVarCode i) (λ f, tmp_text p (vars f i)).
Proof.
  intros Hp. unfold TmpVarCode, tmp_text. eapply gives_param; [done|]. intros q Hn Ht. rewrite Ht.
  case_bool_decide; [|case_bool_decide; [|destruct (HasPrefix _ _) eqn:E; [|apply gives_ret]]];
    (eapply gives_param; [done|]; intros q' Hn' Ht').
  - rewrite Hn'. by eapply gives_tmp.
  - rewrite Hn'. by eapply gives_tmp.
  - apply (gives_bind _ _ (λ f, vars f i) _ (λ tmp _, slice_text tmp (zdrop 2 (Param_Type p)) (Param_Name p)));
      [by eapply gives_tmpVar|]. intros tmp.
    eapply gives_lift_bind; [rewrite Ht'; by apply slice_type|]. rewrite Hn'. apply gives_ret.
Qed.
Lemma gives_TmpVarReadbackCode i p :
  Params d !! i = Some p → gives d (TmpVarReadbackCode i) (λ f, readback_text p (vars f i)).
Proof.
  intros Hp. unfold TmpVarReadbackCode, readback_text. eapply gives_param; [done|].
  intros q Hn Ht. rewrite Ht, Hn. case_bool_decide; [by eapply gives_tmp|apply gives_ret].
Qed.
Lemma gives_TmpVarHelperCode i p :
  Params d !! i = Some p → gives d (TmpVarHelperCode pkg i) (λ f, helper_text pkg d p (vars f i)).
Proof.
  intros Hp. unfold TmpVarHelperCode, helper_text. eapply gives_param; [done|].
  intros q Hn Ht. rewrite Ht. case_bool_decide; [|apply gives_ret]. cbn [negb].
  eapply gives_param; [done|]. intros q' Hn' Ht'. apply gives_get. intros f Hf.
  rewrite (same_eq d (string_text pkg) f) by done. rewrite Hn'. by eapply gives_tmp.
Qed.
Lemma gives_helper_arg i p :
  Params d !! i = Some p → gives d (helper_arg i) (λ f, helper_args p (vars f i)).
Proof.
  intros Hp. unfold helper_arg, helper_args. eapply gives_param; [done|].
  intros q Hn Ht. rewrite Ht, Hn. case_bool_decide; [by eapply gives_tmp|apply gives_ret].
Qed.
Lemma HelperType_nonempty i p : Params d !! i = Some p → HelperType d p ≠ [].
Proof.
  intros Hp. unfold HelperType, StrconvType. case_bool_decide; [by destruct (IsUTF16 d)|eauto].
Qed.
Lemma gives_SyscallArgList i p :
  Params d !! i = Some p → gives d (SyscallArgList i) (λ f, arg_words d p (vars f i)).
Proof.
  intros Hp. unfold SyscallArgList. eapply gives_param; [done|]. intros q Hn Ht.
  apply gives_get. intros f Hf.
  assert (Hty : HelperType f q = HelperType d p).
  { unfold HelperType. rewrite Ht. by rewrite (same_eq d StrconvType f). }
  rewrite Hty, Hn. unfold arg_words. case_bool_decide; [by eapply gives_tmp|].
  pose proof (HelperType_nonempty i p Hp) as Hne. destruct (HelperType d p) as [|c t]; [done|].
  assert (Hc : HasPrefix (c :: t) (str "*") = (c =? 42)).
  { change (str "*") with [42]. cbn [HasPrefix]. rewrite HasPrefix_nil, andb_true_r. apply Z.eqb_sym. }
  rewrite Hc.
  eapply gives_lift_bind; [reflexivity|].
  destruct (c =? 42); [apply gives_ret|].
  case_bool_decide; [by eapply gives_tmp|].
  destruct (HasPrefix (c :: t) (str "[]")); [by eapply gives_tmp|apply gives_ret].
Qed.

Lemma gives_bind_const {A B} (m : St Fn A) a (k : A → St Fn B) r :
  gives d m (λ _, a) → gives d (k a) r → gives d (m ≫= k) r.
Proof.
  intros Hm Hk f Hf. destruct (Hm f Hf) as (f1 & E1 & H1 & X1 & _).
  destruct (Hk f1 H1) as (f2 & E2 & H2 & X2 & S2). exists f2.
  rewrite (St_bind_Ret _ _ _ _ _ E1). split_and!; [done|done|by etrans|done].
Qed.

(** *** Counting the words of a call *)
Lemma zlen_arg_words p tmp : zlen (arg_words d p tmp) = slots p.
Proof.
  unfold arg_words, slots, HelperType. destruct (decide (Param_Type p = tString)) as [E|E].
  { rewrite (bool_decide_eq_true_2 (Param_Type p = tString)) by done. rewrite E. unfold StrconvType. by destruct (IsUTF16 d). }
  rewrite (bool_decide_eq_false_2 (Param_Type p = tString)) by done.
  case_bool_decide as E1; [rewrite E1; reflexivity|].
  destruct (HasPrefix (Param_Type p) (str "*")) eqn:E2.
  { apply HasPrefix_spec in E2 as [t ->]. reflexivity. }
  case_bool_decide as E3; [rewrite E3; reflexivity|]. by destruct (HasPrefix (Param_Type p) (str "[]")).
Qed.
Lemma zlen_each_args ν : zlen (each d ν (arg_words d)) = nargs d.
Proof.
  unfold each, nargs. generalize (Params d) as ps. intros ps. revert ν.
  induction ps as [|p ps IH]; intros ν; [done|]. cbn.
  rewrite zlen_app, zlen_arg_words. f_equal. apply (IH (λ i, ν (S i))).
Qed.
Lemma nargs_nonneg : 0 ≤ nargs d.
Proof. rewrite <- (zlen_each_args (λ _, [])). apply zlen_nonneg. Qed.

Lemma gives_args : gives d (range_params SyscallArgList) (λ f, each d (vars f) (arg_words d)).
Proof. apply gives_range. intros i p Hp. by apply gives_SyscallArgList. Qed.
Lemma gives_ParamCount : gives d ParamCount (λ _, nargs d).
Proof.
  apply (gives_ext _ _ (λ f, zlen (each d (vars f) (arg_words d)))).
  - apply gives_fmap, gives_args.
  - intros f. apply zlen_each_args.
Qed.

Context (Hn : nargs d ≤ 15).

Lemma call_width_bounds : nargs d ≤ call_width (nargs d) ≤ 15.
Proof. unfold call_width. repeat case_match; lia. Qed.
Lemma gives_SyscallParamCount : gives d SyscallParamCount (λ _, call_width (nargs d)).
Proof.
  eapply gives_bind_const; [apply gives_ParamCount|]. unfold call_width.
  repeat (case_match; [apply gives_ret|]). lia.
Qed.
Lemma gives_Syscall : gives d (Syscall pkg) (λ _, call_name pkg d).
Proof.
  eapply gives_bind_const; [apply gives_SyscallParamCount|]. unfold call_name.
  destruct (_ =? 3); [rewrite app_nil_r|]; apply gives_ret.
Qed.
Lemma gives_pad_args fuel a :
  zlen a ≤ call_width (nargs d) ≤ zlen a + Z.of_nat fuel →
  gives d (pad_args fuel a) (λ _, a ++ replicate (Z.to_nat (call_width (nargs d) - zlen a)) (str "0")).
Proof.
  revert a. induction fuel as [|fuel IH]; intros a Ha;
    (eapply gives_bind_const; [apply gives_SyscallParamCount|]);
    destruct (Z.ltb_spec (zlen a) (call_width (nargs d))) as [Hlt|Hge]; try lia.
  - replace (Z.to_nat _) with O by lia. rewrite app_nil_r. apply gives_ret.
  - assert (Hz : zlen (a ++ [str "0"]) = zlen a + 1) by by rewrite zlen_app.
    eapply gives_ext; [apply IH; rewrite Hz; lia|]. intros f. cbv beta. rewrite <- app_assoc. f_equal.
    replace (Z.to_nat (call_width (nargs d) - zlen a))
      with (S (Z.to_nat (call_width (nargs d) - zlen (a ++ [str "0"])))) by (rewrite Hz; lia). done.
  - replace (Z.to_nat _) with O by lia. rewrite app_nil_r. apply gives_ret.
Qed.
Lemma gives_syscall_args : gives d syscall_args (λ f, call_words d (vars f)).
Proof.
  intros f Hf. destruct (gives_args f Hf) as (f1 & E1 & H1 & X1 & S1).
  set (a := each d (vars f1) (arg_words d)) in *.
  assert (Ha : zlen a = nargs d) by apply zlen_each_args.
  pose proof call_width_bounds as Hcw. pose proof nargs_nonneg as Hng.
  destruct (gives_pad_args 15 a ltac:(lia) f1 H1) as (f2 & E2 & H2 & X2 & S2).
  exists f2. unfold syscall_args, call_words. rewrite (St_bind_Ret _ _ _ _ _ E1), E2, Ha.
  split_and!; [by rewrite (S1 f2)|done|by etrans|].
  intros f3 H3 X3. f_equal. rewrite (S1 f3) by (done || by etrans). by rewrite (S1 f2).
Qed.

Lemma gives_SyscallParamList :
  gives d SyscallParamList (λ f, Join (call_words d (vars f)) (str ", ")).
Proof.
  unfold SyscallParamList.
  apply (gives_fmap syscall_args (λ f, call_words d (vars f)) (λ a, Join a (str ", "))).
  apply gives_syscall_args.
Qed.

(** *** The templates *)
#[local] Opaque str strq Sprintf FormatInt Join.
Lemma gives_if_text i r pre post (m : nat → St Fn (list Z)) :
  gives d (m i) r → gives d (if_text m pre post i) (λ f, if_nonempty (r f) pre post).
Proof.
  intros Hm. unfold if_text, if_nonempty.
  pose (s := λ (c : list Z) (f : Fn), if bool_decide (c = []) then [] else pre ++ r f ++ post).
  apply (gives_bind _ _ r _ s); [done|]. intros c. unfold s. case_bool_decide; [apply gives_ret|].
  by apply (gives_fmap _ r (λ c, pre ++ c ++ post)).
Qed.
Lemma gives_t_syscall : gives d (t_syscall pkg) (λ f, syscall_text pkg d (vars f)).
Proof.
  unfold t_syscall. apply gives_get. intros f Hf.
  eapply gives_bind_const; [apply gives_Syscall|].
  eapply gives_bind_const; [apply gives_ParamCount|].
  unfold syscall_text. rewrite (same_eq d DLLFuncName f), (same_eq d Fn_Rets f) by done.
  apply (gives_fmap _ (λ f, Join (call_words d (vars f)) (str ", ")) (λ args,
    SetReturnValuesCode (Fn_Rets d) ++ call_name pkg d ++ str "(proc" ++ DLLFuncName d ++
    str ".Addr(), " ++ FormatInt (nargs d) 10 ++ str ", " ++ args ++ str ")")).
  apply gives_SyscallParamList.
Qed.

Lemma t_results_forget f : t_results (forget f) = t_results f.
Proof. reflexivity. Qed.
Lemma gives_t_helperbody : gives d (t_helperbody pkg) (λ f, helper_body_text pkg d (vars f)).
Proof.
  unfold t_helperbody. apply gives_get. intros f Hf. unfold helper_body_text.
  rewrite (same_eq d Fn_Name f), (same_eq d ParamList f), (same_eq d t_results f),
    (same_eq d HelperName f) by (done || auto using ParamList_forget, HelperName_forget).
  pose (fin := λ vars call : list Z, str "
func " ++ Fn_Name d ++ str "(" ++ ParamList d ++ str ") " ++ t_results d ++ str "{
" ++ vars ++ str "	return " ++ HelperName d ++ str "(" ++ call ++ str ")
}
").
  pose (r1 := λ f, each d (vars f) (λ p tmp, if_nonempty (helper_text pkg d p tmp) [9] [10])).
  pose (r2 := λ f, Join (each d (vars f) helper_args) (str ", ")).
  apply (gives_bind _ _ r1 _ (λ v f, fin v (r2 f))).
  - apply gives_range. intros i p Hp. apply gives_if_text. by apply gives_TmpVarHelperCode.
  - intros v. apply (gives_fmap _ r2 (fin v)).
    apply (gives_fmap _ (λ f, each d (vars f) helper_args) (λ a, Join a (str ", "))), gives_range.
    intros i p Hp. by apply gives_helper_arg.
Qed.

Context (seterror : list Z) (Hse : SetErrorCode pkg (Fn_Rets d) = Ret seterror).

Lemma gives_t_seterror : gives d (t_seterror pkg) (λ _, if_nonempty seterror [9] [10]).
Proof.
  unfold t_seterror. apply gives_get. intros f Hf. rewrite (same_eq d Fn_Rets f) by done.
  eapply gives_lift_bind; [done|]. apply gives_ret.
Qed.
Lemma gives_t_funcbody : gives d (t_funcbody pkg) (λ f, func_body_text pkg d (vars f) seterror).
Proof.
  unfold t_funcbody. apply gives_get. intros f Hf. unfold func_body_text.
  rewrite (same_eq d HelperName f), (same_eq d HelperParamList f), (same_eq d t_results f),
    (same_eq d t_maybeabsent f), (same_eq d t_printtrace f)
    by (done || auto using HelperName_forget, HelperParamList_forget, t_printtrace_forget).
  pose (fin := λ vars call back seterror : list Z, str "
func " ++ HelperName d ++ str "(" ++ HelperParamList d ++ str ") " ++ t_results d ++ str "{
" ++ t_maybeabsent d ++ str "	" ++ vars ++ str "	" ++ call ++ str "	" ++ back ++ str "
" ++ seterror ++ t_printtrace d ++ str "	return
}
").
  pose (r1 := λ f, each d (vars f) (λ p tmp, if_nonempty (tmp_text p tmp) [9] [10])).
  pose (r2 := λ f, syscall_text pkg d (vars f)).
  pose (r3 := λ f, each d (vars f) (λ p tmp, if_nonempty (readback_text p tmp) [10] [])).
  pose (se := if_nonempty seterror [9] [10]).
  apply (gives_bind _ _ r1 _ (λ v f, fin v (r2 f) (r3 f) se)).
  { apply gives_range. intros i p Hp. apply gives_if_text. by apply gives_TmpVarCode. }
  intros v. apply (gives_bind _ _ r2 _ (λ c f, fin v c (r3 f) se)); [apply gives_t_syscall|].
  intros c. apply (gives_bind _ _ r3 _ (λ b f, fin v c b se)).
  { apply gives_range. intros i p Hp. apply gives_if_text. by apply gives_TmpVarReadbackCode. }
  intros b. apply (gives_fmap _ (λ _, se) (fin v c b)), gives_t_seterror.
Qed.
Lemma gives_t_func : gives d (t_func pkg) (λ f, func_text pkg d (vars f) seterror).
Proof.
  unfold t_func. apply gives_get. intros f Hf. unfold func_text.
  rewrite (same_eq d HasStringParam f) by auto using HasStringParam_forget.
  pose (r := λ f, func_body_text pkg d (vars f) seterror).
  apply (gives_bind _ _ (λ f, if HasStringParam d then helper_body_text pkg d (vars f) else []) _
    (λ h f, h ++ r f)).
  - destruct (HasStringParam d); [apply gives_t_helperbody|apply gives_ret].
  - intros h. apply (gives_fmap _ r (λ b, h ++ b)), gives_t_funcbody.
Qed.
End Methods.

(** ** Too many words *)
Section Panics.
Context `{Flags} (pkg : list Z) (d : Fn).
Context (Htypes : ∀ i p, Params d !! i = Some p → Param_Type p ≠ []) (Hn : 15 < nargs d).

Definition too_many : string := "too many arguments to system call".
Definition panics {A} (m : St Fn A) : Prop := ∀ f, st d f → ∃ f', m f = (Panic too_many, f').

Lemma panics_bind {A B} (m : St Fn A) r (k : A → St Fn B) :
  gives d m r → (∀ a, panics (k a)) → panics (m ≫= k).
Proof.
  intros Hm Hk f Hf. destruct (Hm f Hf) as (f1 & E1 & H1 & _).
  destruct (Hk (r f1) f1 H1) as (f2 & E2). exists f2. by rewrite (St_bind_Ret _ _ _ _ _ E1).
Qed.
Lemma panics_bind_l {A B} (m : St Fn A) (k : A → St Fn B) : panics m → panics (m ≫= k).
Proof. intros Hm f Hf. destruct (Hm f Hf) as (f1 & E1). exists f1. by rewrite St_bind_eq, E1. Qed.
Lemma panics_get {B} (k : Fn → St Fn B) : (∀ f, same d f → panics (k f)) → panics (get ≫= k).
Proof. intros Hk f Hf. rewrite (St_bind_Ret _ _ _ f f) by done. apply Hk; [apply Hf|done]. Qed.

Lemma panics_SyscallParamCount : panics SyscallParamCount.
Proof.
  intros f Hf. destruct (gives_ParamCount d Htypes f Hf) as (f1 & E1 & _). exists f1.
  unfold SyscallParamCount. rewrite (St_bind_Ret _ _ _ _ _ E1).
  rewrite !(proj2 (Z.leb_gt _ _)) by lia. reflexivity.
Qed.
Lemma panics_t_func : panics (t_func pkg).
Proof.
  apply panics_get. intros f Hf.
  apply (panics_bind _ (λ f', if HasStringParam f then helper_body_text pkg d (vars f') else [])).
  { destruct (HasStringParam f); [by apply gives_t_helperbody|apply gives_ret]. }
  intros h. apply panics_bind_l, panics_get. intros f1 Hf1.
  apply (panics_bind _ (λ f, each d (vars f) (λ p tmp, if_nonempty (tmp_text p tmp) [9] [10]))).
  { apply gives_range. intros i p Hp. apply gives_if_text. by apply gives_TmpVarCode. }
  intros v. apply panics_bind_l, panics_get. intros f2 Hf2.
  do 2 apply panics_bind_l. apply panics_SyscallParamCount.
Qed.
End Panics.

(** ** Every parsed declaration is printed *)
Lemma parsed_st d : parsed d → st d d.
Proof.
  intros [Hp _ Hc]. split; [done|]. split; [lia|]. intros i p Hi.
  rewrite Forall_lookup in Hp. destruct (Hp i p Hi) as [_ ->]. split; [lia|].
  intros j q Hj Hneg. lia.
Qed.
Lemma parsed_SetErrorCode `{Flags} pkg d : parsed d → ∃ c, SetErrorCode pkg (Fn_Rets d) = Ret c.
Proof.
  intros [_ Hr _]. unfold SetErrorCode.
  destruct (bool_decide (Rets_Name (Fn_Rets d) = [])) eqn:E; [destruct (ReturnsError (Fn_Rets d)); by eexists|].
  apply bool_decide_eq_false in E. cbn [andb].
  case_bool_decide; [repeat case_match; by eexists|].
  destruct (Rets_Type (Fn_Rets d)) as [|c t] eqn:Et; [by destruct E; auto|].
  cbn [index mbind res_bind]. case_match; by eexists.
Qed.
Lemma parsed_types d i p : parsed d → Params d !! i = Some p → Param_Type p ≠ [].
Proof. intros [Hp _ _] Hi. rewrite Forall_lookup in Hp. apply (Hp i p Hi). Qed.

(** Different numbers are different names. *)
Lemma var_name_inj k l : 0 ≤ k → 0 ≤ l → var_name k = var_name l → k = l.
Proof.
  intros Hk Hl E. unfold var_name in E. apply app_inj_1 in E as [_ E]; [|done].
  unfold FormatInt in E. destruct (Z.ltb_spec k 0), (Z.ltb_spec l 0); try lia.
  set (b := Z.log2 (Z.max k l) + 1).
  assert (Hb : Z.max k l < 2 ^ b).
  { destruct (Z.eq_dec (Z.max k l) 0) as [E0|]; [unfold b; by rewrite E0|]. unfold b. rewrite Z.add_1_r.
    apply Z.log2_spec. lia. }
  pose proof (ParseUint_FormatUint 10 k b ltac:(lia) ltac:(lia)) as H1.
  rewrite E, ParseUint_FormatUint in H1 by lia. by injection H1.
Qed.

(** Every function that parses is printed, and by a single numbering of
    variables: the text that the templates build, calling methods that number variables as
    they go (several of them twice), is the reference text where each parameter has one
    variable, and no two numbered parameters share a name.  Only a function of
    more than 15 words is refused, with the panic of the code. *)
Theorem newFn_generates `{Flags} (pkg s : list Z) (d : Fn) :
  newFn s = Ret d →
  (nargs d ≤ 15 → ∃ f' c,
    t_func pkg d = (Ret (func_text pkg d (vars f') c), f') ∧
    SetErrorCode pkg (Fn_Rets d) = Ret c ∧
    ∀ i j p q, Params f' !! i = Some p → Params f' !! j = Some q →
      0 ≤ tmpVarIdx p → 0 ≤ tmpVarIdx q → vars f' i = vars f' j → i = j) ∧
  (15 < nargs d → ∃ f', t_func pkg d = (Panic "too many arguments to system call", f')).
Proof.
  intros Hp%newFn_parsed. pose proof (parsed_st d Hp) as Hst.
  split; intros Hn.
  - destruct (parsed_SetErrorCode pkg d Hp) as [c Hc].
    destruct (gives_t_func pkg d (λ i p, parsed_types d i p Hp) Hn c Hc d Hst)
      as (f' & E & [_ [_ Hv]] & _). exists f', c. split_and!; [done|done|].
    intros i j p q Hi Hj Hpi Hqj E'. unfold vars in E'. rewrite Hi, Hj in E'.
    apply var_name_inj in E'; [|done|done]. by eapply (proj2 (Hv i p Hi)).
  - by apply (panics_t_func pkg d (λ i p, parsed_types d i p Hp) Hn).
Qed.

(** A system call is made with as many words as its parameters need, in order,
    followed by zeros up to the width of the call, which is the least of 3, 6, 9, 12 and 15
    that holds them; the count that is passed is the number of words of the parameters. *)
Theorem SyscallParamList_spec `{Flags} (pkg s : list Z) (d : Fn) :
  newFn s = Ret d → nargs d ≤ 15 → ∃ f',
    SyscallParamList d = (Ret (Join (each d (vars f') (arg_words d) ++
      replicate (Z.to_nat (call_width (nargs d) - nargs d)) (str "0")) (str ", ")), f') ∧
    zlen (each d (vars f') (arg_words d)) = nargs d ∧
    (∃ f1, ParamCount d = (Ret (nargs d), f1)) ∧
    (∃ f1, SyscallParamCount d = (Ret (call_width (nargs d)), f1)) ∧
    nargs d ≤ call_width (nargs d) ∧ call_width (nargs d) ∈ [3; 6; 9; 12; 15] ∧
    ∀ w, w ∈ [3; 6; 9; 12; 15] → nargs d ≤ w → call_width (nargs d) ≤ w.
Proof.
  intros Hp%newFn_parsed Hn. pose proof (parsed_st d Hp) as Hst.
  pose proof (λ i p, parsed_types d i p Hp) as Ht.
  destruct (gives_SyscallParamList d Ht Hn d Hst) as (f' & E & _).
  destruct (gives_ParamCount d Ht d Hst) as (f1 & E1 & _).
  destruct (gives_SyscallParamCount d Ht Hn d Hst) as (f2 & E2 & _).
  exists f'. split_and!; [done|apply zlen_each_args|by exists f1|by exists f2|..].
  - by apply call_width_bounds.
  - unfold call_width. repeat case_match; set_solver.
  - intros w Hw. unfold call_width. set_unfold. repeat case_match; lia.
Qed.

(** ** The declarations of a file *)
Lemma uniq_names_spec `{Flags} fs uniq :
  NoDup (DLLFuncName <$> uniq_names uniq fs) ∧
  (∀ f, f ∈ uniq_names uniq fs → (DLLFuncName f ∉ uniq) ∧ f ∈ fs) ∧
  (∀ f, f ∈ fs → DLLFuncName f ∈ uniq ∨ DLLFuncName f ∈ (DLLFuncName <$> uniq_names uniq fs)).
Proof.
  revert uniq. induction fs as [|f fs IH]; intros uniq; cbn [uniq_names].
  { split_and!; [constructor|set_solver|set_solver]. }
  case_bool_decide as E.
  - destruct (IH uniq) as (H1 & H2 & H3). split_and!; [done|set_solver|]. set_solver.
  - destruct (IH ({[DLLFuncName f]} ∪ uniq)) as (H1 & H2 & H3). cbn. split_and!.
    + constructor; [|done]. intros (g & Hg & Hin)%list_elem_of_fmap.
      destruct (H2 g Hin). set_solver.
    + intros g [->|Hg]%elem_of_cons; [set_solver|]. destruct (H2 g Hg). set_solver.
    + intros g [->|Hg]%elem_of_cons; [set_solver|]. destruct (H3 g Hg); set_solver.
Qed.

Lemma uniq_dlls_spec `{Flags} fs uniq r :
  uniq_dlls uniq fs = Ret r →
  NoDup (DLL_Var <$> r) ∧ (∀ d, d ∈ r → DLL_Var d ∉ uniq) ∧
  (∀ f, f ∈ fs → ∃ v, DLLVar f = Ret v ∧ (v ∈ uniq ∨ v ∈ (DLL_Var <$> r))).
Proof.
  revert uniq r. induction fs as [|f fs IH]; intros uniq r; cbn [uniq_dlls].
  { intros [= <-]. split_and!; [constructor|set_solver|set_solver]. }
  destruct (DLLVar f) as [id| | |] eqn:Ev; try done. cbn [mbind res_bind]. case_bool_decide as E.
  - intros Hr. destruct (IH _ _ Hr) as (H1 & H2 & H3). split_and!; [done|done|].
    intros g [->|Hg]%elem_of_cons; eauto.
  - destruct (uniq_dlls ({[id]} ∪ uniq) fs) as [r'| | |] eqn:Er; try done. cbn [mbind res_bind].
    intros [= <-]. destruct (IH _ _ Er) as (H1 & H2 & H3). cbn. split_and!.
    + constructor; [|done]. intros (g & Hg & Hin)%list_elem_of_fmap. specialize (H2 g Hin). set_solver.
    + intros g [->|Hg]%elem_of_cons; [done|]. specialize (H2 g Hg). set_solver.
    + intros g [->|Hg]%elem_of_cons; [exists id; set_solver|].
      destruct (H3 g Hg) as (v & Hv & Hin). exists v. set_solver.
Qed.

(** [sort.Slice] rearranges. *)
Class SortSpec `{Env} : Prop := {
  sort_perm : ∀ A (less : A → A → bool) (l : list A), sort_Slice less l ≡ₚ l;
}.

(** In the printed file every procedure and every module variable is declared exactly
    once, and each function finds those it mentions: the names of procedures do not repeat and
    include that of every function, and the names of modules do not repeat and include that of
    every function's DLL. *)
Theorem ParseFiles_declares `{Flags, SortSpec} (pkg : list Z) (fs : list (list Z))
    (src : Source) (dlls : list DLL) :
  ParseFiles pkg fs = Ret src → DLLs src = Ret dlls →
  NoDup (DLLFuncName <$> DLLFuncNames src) ∧
  (∀ f, f ∈ Funcs src → DLLFuncName f ∈ (DLLFuncName <$> DLLFuncNames src)) ∧
  (∀ f, f ∈ DLLFuncNames src → f ∈ Funcs src) ∧
  NoDup (DLL_Var <$> dlls) ∧
  (∀ f, f ∈ Funcs src → ∃ v, DLLVar f = Ret v ∧ v ∈ (DLL_Var <$> dlls)).
Proof.
  unfold ParseFiles, DLLs. destruct (parse_each _ fs) as [s| | |]; try done. cbn [mbind res_bind].
  intros [= <-]. cbn [Funcs DLLFuncNames].
  destruct (uniq_dlls ∅ (Funcs s)) as [r| | |] eqn:Er; try done. cbn [mbind res_bind].
  intros [= <-]. destruct (uniq_names_spec (Funcs s) ∅) as (Hu1 & Hu2 & Hu3).
  destruct (uniq_dlls_spec _ _ _ Er) as (Hd1 & _ & Hd2).
  assert (Hperm : (if sortdecls then sort_Slice (λ a b, str_lt (DLL_Var a) (DLL_Var b)) r else r) ≡ₚ r).
  { destruct sortdecls; [apply sort_perm|done]. }
  split_and!; [done|..].
  - intros f Hf. destruct (Hu3 f Hf); [set_solver|done].
  - intros f Hf. by destruct (Hu2 f Hf).
  - by rewrite Hperm.
  - intros f Hf. destruct (Hd2 f Hf) as (v & Hv & [Hin|Hin]); [set_solver|]. exists v.
    by rewrite Hperm.
Qed.

(** ** Witnesses and examples *)
Definition default_flags : Flags :=
  mkFlags false true false true true (λ _, false) (λ _, false).
(** A text as a string, a double quote as a backquote. *)
Definition show (s : list Z) : string :=
  String.string_of_list_ascii ((λ z, Ascii.ascii_of_N (Z.to_N (if z =? 34 then 96 else z))) <$> s).
(** The lines of a text without the blanks around them, and without the empty
    ones: all that [gofmt] changes in the functions below, but for the blanks around
    the [==] of a condition. *)
Definition code_lines (t : list Z) : list string :=
  show <$> filter (λ l, l ≠ []) (trim <$> Split t 10).
Definition generated (pkg line : string) : res (list string) :=
  f ← newFn (H := default_flags) (str line);
  t ← (t_func (H := default_flags) (str pkg) f).1;
  Ret (code_lines t).

(** The declaration in internal/fs and two of the package winio, with the functions
    that are in the repository. *)
Definition CreateFile_line : string :=
  " CreateFile(name string, access AccessMask, mode FileShareMode, sa *windows.SecurityAttributes, createmode FileCreationDisposition, attrs FileFlagOrAttribute, templatefile windows.Handle) (handle windows.Handle, err error) [failretval==windows.InvalidHandle] = CreateFileW".

Definition sample_proto : Proto :=
  mkProto (str "f") [(str "a", str "string"); (str "b", str "[]byte")]
    [(str "n", str "uint32"); err_result] (Some (str "failretval==-1"))
    (Some (str "x.y", str "GetF", true)).

Theorem newFn_print_witness :
  proto_ok sample_proto ∧ blanks [32] ∧
  newFn (H := default_flags) ([32] ++ print_proto [32] sample_proto ++ [32]) =
    Ret (proto_fn (H := default_flags) sample_proto (print_proto [32] sample_proto)).
Proof.
  assert (Hb : blanks [32]) by (repeat constructor).
  assert (Ht : ∀ b s c t, blank b = false → blank c = false → b :: s = t ++ [c] → tight (b :: s)).
  { intros b s c t Hx Hy E. split; [by exists b, s|by exists c, t]. }
  assert (Hp : proto_ok sample_proto).
  { constructor.
    - by exists 102, [].
    - repeat constructor; done.
    - repeat constructor; done.
    - repeat constructor; done.
    - done.
    - intros c [= <-]. split; repeat constructor; done.
    - intros t [= <-]. split_and!.
      + by apply (Ht 71 (str "etF") 70 (str "Get")).
      + repeat constructor; done.
      + done.
      + right. by apply (Ht 120 (str ".y") 121 (str "x.")).
      + repeat constructor; done.
      + repeat constructor; done.
      + repeat constructor; done.
      + repeat constructor; done. }
  split; [exact Hp|]. split; [exact Hb|].
  exact (newFn_print (H := default_flags) [32] Hb sample_proto Hp [32] Hb).
Defined.

Definition CreateFile_fn : Fn :=
  match newFn (H := default_flags) (str CreateFile_line) with
  | Ret f => f
  | _ => mkFn [] [] no_rets false [] [] [] 0
  end.
Lemma CreateFile_parses : newFn (H := default_flags) (str CreateFile_line) = Ret CreateFile_fn.
Proof. vm_compute. reflexivity. Qed.

Theorem newFn_generates_witness :
  nargs CreateFile_fn = 7 ∧
  ∃ f' c, t_func (H := default_flags) (str "fs") CreateFile_fn =
    (Ret (func_text (H := default_flags) (str "fs") CreateFile_fn (vars f') c), f').
Proof.
  assert (Hn : nargs CreateFile_fn = 7) by (vm_compute; reflexivity).
  split; [exact Hn|].
  destruct (newFn_generates (H := default_flags) (str "fs") _ _ CreateFile_parses) as [Hg _].
  destruct (Hg ltac:(rewrite Hn; lia)) as (f' & c & E & _). exists f', c. exact E.
Defined.
Theorem SyscallParamList_spec_witness :
  nargs CreateFile_fn = 7 ∧ call_width 7 = 9 ∧
  ∃ f', SyscallParamList (H := default_flags) CreateFile_fn =
    (Ret (Join (each CreateFile_fn (vars f') (arg_words (H := default_flags) CreateFile_fn) ++
      [str "0"; str "0"]) (str ", ")), f').
Proof.
  assert (Hn : nargs CreateFile_fn = 7) by (vm_compute; reflexivity).
  split; [exact Hn|]. split; [reflexivity|].
  destruct (SyscallParamList_spec (H := default_flags) (str "fs") _ _ CreateFile_parses
    ltac:(rewrite Hn; lia)) as (f' & E & _).
  exists f'. rewrite Hn in E. exact E.
Defined.

Example CreateFile_generated : generated "fs" CreateFile_line = Ret [
  "func CreateFile(name string, access AccessMask, mode FileShareMode, sa *windows.SecurityAttributes, createmode FileCreationDisposition, attrs FileFlagOrAttribute, templatefile windows.Handle) (handle windows.Handle, err error) {";
  "var _p0 *uint16";
  "_p0, err = syscall.UTF16PtrFromString(name)";
  "if err != nil {";
  "return";
  "}";
  "return _CreateFile(_p0, access, mode, sa, createmode, attrs, templatefile)";
  "}";
  "func _CreateFile(name *uint16, access AccessMask, mode FileShareMode, sa *windows.SecurityAttributes, createmode FileCreationDisposition, attrs FileFlagOrAttribute, templatefile windows.Handle) (handle windows.Handle, err error) {";
  "r0, _, e1 := syscall.Syscall9(procCreateFileW.Addr(), 7, uintptr(unsafe.Pointer(name)), uintptr(access), uintptr(mode), uintptr(unsafe.Pointer(sa)), uintptr(createmode), uintptr(attrs), uintptr(templatefile), 0, 0)";
  "handle = windows.Handle(r0)";
  "if handle==windows.InvalidHandle {";
  "err = errnoErr(e1)";
  "}";
  "return";
  "}"]%string.
Proof. vm_compute. reflexivity. Qed.

Example backupRead_generated : generated "winio"
    " backupRead(h windows.Handle, b []byte, bytesRead *uint32, abort bool, processSecurity bool, context *uintptr) (err error) = BackupRead" = Ret [
  "func backupRead(h windows.Handle, b []byte, bytesRead *uint32, abort bool, processSecurity bool, context *uintptr) (err error) {";
  "var _p0 *byte";
  "if len(b) > 0 {";
  "_p0 = &b[0]";
  "}";
  "var _p1 uint32";
  "if abort {";
  "_p1 = 1";
  "}";
  "var _p2 uint32";
  "if processSecurity {";
  "_p2 = 1";
  "}";
  "r1, _, e1 := syscall.Syscall9(procBackupRead.Addr(), 7, uintptr(h), uintptr(unsafe.Pointer(_p0)), uintptr(len(b)), uintptr(unsafe.Pointer(bytesRead)), uintptr(_p1), uintptr(_p2), uintptr(unsafe.Pointer(context)), 0, 0)";
  "if r1 == 0 {";
  "err = errnoErr(e1)";
  "}";
  "return";
  "}"]%string.
Proof. vm_compute. reflexivity. Qed.

(** A declaration with a string parameter and no error variable: the comparison with the dash
    never holds, and the printed [if _ != nil] is not Go. *)
Example string_without_error : generated "winio" " f(s string) = x.F" = Ret [
  "func f(s string) {";
  "var _p0 *uint16";
  "_p0, _ = syscall.UTF16PtrFromString(s)";
  "if _ != nil {";
  "return";
  "}";
  "return _f(_p0)";
  "}";
  "func _f(s *uint16) {";
  "syscall.Syscall(procF.Addr(), 1, uintptr(unsafe.Pointer(s)), 0, 0)";
  "return";
  "}"]%string.
Proof. vm_compute. reflexivity. Qed.

(** A function that may be absent and has a result but no error: the variable [err] that is
    assigned is not declared. *)
Example absent_without_error : generated "winio" " f() (n uint32) = x.F?" = Ret [
  "func f() (n uint32) {";
  "err = procF.Find()";
  "if err != nil {";
  "return";
  "}";
  "r0, _, _ := syscall.Syscall(procF.Addr(), 0, 0, 0, 0)";
  "n = uint32(r0)";
  "return";
  "}"]%string.
Proof. vm_compute. reflexivity. Qed.

(** By default a result is compared with 0, whatever its type: a boolean and a pointer cannot be. *)
Example default_condition_of_bool : generated "winio" " f() (ok bool, err error) = x.F" = Ret [
  "func f() (ok bool, err error) {";
  "r0, _, e1 := syscall.Syscall(procF.Addr(), 0, 0, 0, 0)";
  "ok = r0 != 0";
  "if ok == 0 {";
  "err = errnoErr(e1)";
  "}";
  "return";
  "}"]%string.
Proof. vm_compute. reflexivity. Qed.

(** Without its closing bracket the condition is dropped, and the name of the DLL with it. *)
Example unclosed_condition :
  (λ f, (show (FailCond (Fn_Rets f)), show (DLLName f), show (DLLFuncName f))) <$>
    newFn (H := default_flags) (str "f() (err error) [failretval==-1 = advapi32.GetF") =
  Ret ("", "kernel32", "f")%string.
Proof. vm_compute. reflexivity. Qed.

(** *** A system with two files *)
Fixpoint insert_by {A} (less : A → A → bool) (x : A) (l : list A) : list A :=
  match l with
  | [] => [x]
  | y :: l' => if less y x then y :: insert_by less x l' else x :: l
  end.
Definition insertion_sort {A} (less : A → A → bool) (l : list A) : list A :=
  foldr (insert_by less) [] l.
Lemma insert_by_perm {A} (less : A → A → bool) x l : insert_by less x l ≡ₚ x :: l.
Proof.
  induction l as [|y l IH]; [done|]. simpl. destruct (less y x); [|done].
  rewrite IH. apply Permutation_swap.
Qed.
Lemma insertion_sort_perm {A} (less : A → A → bool) l : insertion_sort less l ≡ₚ l.
Proof. induction l as [|x l IH]; [done|]. simpl. by rewrite insert_by_perm, IH. Qed.

Definition two_files_content : list Z := str "package p
//sys Open() (err error) = b.Open
  //sys	Close() (err error) = a.Close
//sysfoo
//sys Open2() (err error) = a-b.Open
".
Definition test_env : Env := mkEnv
  (λ p, if bool_decide (p = str "x.go") then Ret (mkFile p two_files_content None None (Ret (str "p")))
        else Fail (Errno 2))
  (λ _, Ret [str "x.go"]) Ret (str "/go") (str "linux") (str "/") (λ r, r) (@insertion_sort).
Definition test_sort : @SortSpec test_env := Build_SortSpec test_env (@insertion_sort_perm).

Definition test_source : Source :=
  match ParseFiles (H := default_flags) (H0 := test_env) [] [str "*.go"] with
  | Ret s => s
  | _ => mkSource [] [] [] [] [] []
  end.
Theorem ParseFiles_declares_witness :
  ParseFiles (H := default_flags) (H0 := test_env) [] [str "*.go"] = Ret test_source ∧
  (show <$> (DLLFuncName <$> Funcs test_source)) = ["Close"; "Open"; "Open"]%string ∧
  NoDup (DLLFuncName <$> DLLFuncNames test_source).
Proof.
  assert (Hp : ParseFiles (H := default_flags) (H0 := test_env) [] [str "*.go"] = Ret test_source)
    by (vm_compute; reflexivity).
  assert (Hd : ∃ dlls, DLLs (H := default_flags) (H0 := test_env) test_source = Ret dlls).
  { destruct (DLLs (H := default_flags) (H0 := test_env) test_source) eqn:E; [by eexists|..];
      vm_compute in E; discriminate E. }
  split; [exact Hp|]. split; [vm_compute; reflexivity|]. destruct Hd as [dlls Hd].
  destruct (ParseFiles_declares (H := default_flags) (H0 := test_env) (H1 := test_sort)
    [] [str "*.go"] test_source dlls Hp Hd) as [Hn _]. exact Hn.
Defined.

(** Two functions of one name in different DLLs: only the first procedure is declared, and the
    second function calls it in the wrong DLL. *)
Example wrong_dll :
  (match t_funcnames (H := default_flags) (DLLFuncNames test_source) with
   | Ret t => code_lines t | _ => [] end,
   (λ f, (show (Fn_Name f), show (DLLName f), show (DLLFuncName f))) <$> Funcs test_source) =
  (["procClose = moda.NewProc(`Close`)"; "procOpen = moda_b.NewProc(`Open`)"],
   [("Close", "a", "Close"); ("Open2", "a-b", "Open"); ("Open", "b", "Open")])%string.
Proof. vm_compute. reflexivity. Qed.
