(* ===== verification/MkwinsyscallTotal.v ===== *)
(** * The generator always answers (tools/mkwinsyscall)

    [ParseFiles] never panics, whatever the files hold, and [Generate] never runs
    out of fuel: the panics of the methods that the templates call are errors of the
    template ([Execute]).  So both return a result or an error, provided that the
    file system and [go/parser] do. *)
From S2P Require Import Prelude GoStrings GoText Mkwinsyscall MkwinsyscallGen.

(** A result or an error: neither a panic nor the end of the fuel. *)
Definition answers {A} (r : res A) : Prop :=
  match r with Ret _ | Fail _ => True | Panic _ | NoFuel => False end.
(** The fuel was enough; a panic is allowed. *)
Definition fueled {A} (r : res A) : Prop := match r with NoFuel => False | _ => True end.
Definition fueled_St {S A} (m : St S A) : Prop := ∀ s, fueled (m s).1.

Create HintDb answers.

Lemma answers_bind {A B} (r : res A) (k : A → res B) :
  answers r → (∀ a, answers (k a)) → answers (r ≫= k).
Proof. destruct r; cbn; auto. Qed.
Lemma fueled_bind {A B} (r : res A) (k : A → res B) : fueled r → (∀ a, fueled (k a)) → fueled (r ≫= k).
Proof. destruct r; cbn; auto. Qed.
Lemma fueled_St_bind {S A B} (m : St S A) (k : A → St S B) :
  fueled_St m → (∀ a, fueled_St (k a)) → fueled_St (m ≫= k).
Proof.
  intros Hm Hk s. rewrite St_bind_eq. specialize (Hm s). destruct (m s) as [[] s']; try done.
  apply Hk.
Qed.
Lemma fueled_St_ret {S A} (a : A) : fueled_St (mret a : St S A).
Proof. done. Qed.
Lemma fueled_St_get {S} : fueled_St (get : St S S).
Proof. done. Qed.
Lemma fueled_St_modify {S} (f : S → S) : fueled_St (modify f).
Proof. done. Qed.
Lemma fueled_St_panic {S A} w : fueled_St (panic w : St S A).
Proof. done. Qed.
Lemma fueled_St_lift {S A} (r : res A) : fueled r → fueled_St (lift r : St S A).
Proof. intros Hr s. exact Hr. Qed.
Lemma fueled_index {A} (l : list A) i : fueled (index l i).
Proof. unfold index. destruct (decide _); [|exact I]. by destruct (l !! Z.to_nat i). Qed.
Lemma fueled_slice_from {A} (l : list A) i : fueled (slice_from l i).
Proof. unfold slice_from, slice. destruct (decide _); exact I. Qed.
#[export] Hint Resolve answers_bind fueled_bind fueled_St_bind fueled_St_ret fueled_St_get fueled_St_modify
  fueled_St_panic fueled_St_lift fueled_index fueled_slice_from : answers.
#[export] Hint Extern 0 (answers (Ret _)) => exact I : answers.
#[export] Hint Extern 0 (answers (Fail _)) => exact I : answers.
#[export] Hint Extern 0 (fueled (Ret _)) => exact I : answers.
#[export] Hint Extern 0 (fueled (Panic _)) => exact I : answers.

(** One step of a computation: a bind, a test, or a leaf of the database. *)
Ltac answer :=
  repeat first
    [ solve [auto with answers]
    | match goal with |- forall _, _ => intros end
    | apply answers_bind | apply fueled_bind | apply fueled_St_bind
    | match goal with
      | |- context [match ?x with _ => _ end] => destruct x
      end ].

(** ** Reading the declarations *)
Section Parse.
Context `{Flags, Env}.

Lemma extractParam_answers a : answers (extractParam a).
Proof. unfold extractParam. answer. Qed.
#[local] Hint Resolve extractParam_answers : answers.
Lemma extract_each_answers a : answers (extract_each a).
Proof. induction a; cbn [extract_each]; answer. Qed.
#[local] Hint Resolve extract_each_answers : answers.
Lemma extractParams_answers s : answers (extractParams s).
Proof. unfold extractParams. answer. Qed.
Lemma set_rets_answers src r : answers (set_rets src r).
Proof. unfold set_rets. answer. Qed.
Lemma dll_names_answers src s : answers (dll_names src s).
Proof. unfold dll_names. answer. Qed.
#[local] Hint Resolve extractParams_answers set_rets_answers dll_names_answers : answers.
Lemma newFn_answers s : answers (newFn s).
Proof. unfold newFn. answer. Qed.
#[local] Hint Resolve newFn_answers : answers.

(** The test of the length makes the byte after [//sys] one of the line. *)
Lemma sys_line_answers line : answers (sys_line line).
Proof.
  unfold sys_line. destruct (Z.ltb_spec (zlen (trim line)) 7) as [|Hl]; [done|].
  destruct (HasPrefix _ _); [|done]. cbn [negb]. apply answers_bind; [|answer].
  destruct (zdrop 5 (trim line)) as [|c t] eqn:E; [|by rewrite index_hd].
  assert (Hz : zlen (zdrop 5 (trim line)) = 0) by by rewrite E. rewrite zlen_zdrop in Hz. lia.
Qed.
#[local] Hint Resolve sys_line_answers : answers.
Lemma parse_lines_answers ls : answers (parse_lines ls).
Proof. induction ls; cbn [parse_lines]; answer. Qed.
#[local] Hint Resolve parse_lines_answers : answers.

(** The file system and [go/parser] return a result or an error. *)
Class EnvSpec : Prop := {
  os_Open_answers : ∀ path, answers (os_Open path);
  package_clause_answers : ∀ path file, os_Open path = Ret file → answers (package_clause file);
  Glob_answers : ∀ path, answers (Glob path);
  Abs_answers : ∀ path, answers (Abs path);
}.
Context `{EnvSpec}.

Lemma parseFile_answers src path file : os_Open path = Ret file → answers (parseFile src file).
Proof.
  intros Ho. pose proof (package_clause_answers _ _ Ho) as Hp. unfold parseFile.
  apply answers_bind; [auto with answers|intros fs].
  destruct (read_err file); [done|]. destruct (seek_err file); [done|]. answer.
Qed.
Lemma parse_paths_answers src paths : answers (parse_paths src paths).
Proof.
  revert src. induction paths as [|path paths IH]; intros src; [done|]. cbn [parse_paths].
  pose proof (os_Open_answers path) as Ha. destruct (os_Open path) as [file| | |] eqn:Ho; try done.
  apply (answers_bind (parseFile src file)); [by eapply parseFile_answers|exact IH].
Qed.
Lemma ParseFile_answers src path : answers (ParseFile src path).
Proof.
  unfold ParseFile. pose proof (os_Open_answers path) as Ha.
  destruct (os_Open path) as [file|e| |] eqn:Ho; try done; [by eapply parseFile_answers|].
  destruct (negb _); [done|]. apply answers_bind; [apply Glob_answers|apply parse_paths_answers].
Qed.
(** Whatever the files hold, they are parsed or there is an error. *)
Lemma ParseFiles_answers pkg fs : answers (ParseFiles pkg fs).
Proof.
  unfold ParseFiles. apply answers_bind; [|done]. generalize (mkSource [] [] [] [str "unsafe"] [] pkg).
  induction fs as [|f fs IH]; intros src; [done|]. cbn [parse_each].
  apply answers_bind; [apply ParseFile_answers|exact IH].
Qed.
End Parse.

(** ** The templates *)
Section Templates.
Context `{Flags, Env} (pkg : list Z).

Lemma param_fueled i : fueled_St (param i).
Proof. intros f. unfold param. by destruct (Params f !! i). Qed.
#[local] Hint Resolve param_fueled : answers.
Lemma tmpVar_fueled i : fueled_St (tmpVar i).
Proof. unfold tmpVar. answer. Qed.
#[local] Hint Resolve tmpVar_fueled : answers.
Lemma TmpVarCode_fueled i : fueled_St (TmpVarCode i).
Proof. unfold TmpVarCode, BoolTmpVarCode, BoolPointerTmpVarCode, SliceTmpVarCode. answer. Qed.
Lemma TmpVarReadbackCode_fueled i : fueled_St (TmpVarReadbackCode i).
Proof. unfold TmpVarReadbackCode. answer. Qed.
Lemma TmpVarHelperCode_fueled i : fueled_St (TmpVarHelperCode pkg i).
Proof. unfold TmpVarHelperCode, StringTmpVarCode. answer. Qed.
Lemma SyscallArgList_fueled i : fueled_St (SyscallArgList i).
Proof. unfold SyscallArgList. answer. Qed.
Lemma helper_arg_fueled i : fueled_St (helper_arg i).
Proof. unfold helper_arg. answer. Qed.
Lemma collect_fueled {A} (g : nat → St Fn (list A)) l : (∀ i, fueled_St (g i)) → fueled_St (collect g l).
Proof. intros Hg. induction l; cbn [collect]; answer. Qed.
Lemma range_params_fueled {A} (g : nat → St Fn (list A)) : (∀ i, fueled_St (g i)) → fueled_St (range_params g).
Proof. intros Hg. unfold range_params. apply fueled_St_bind; [done|]. intros f. by apply collect_fueled. Qed.
Lemma if_text_fueled m pre post i : (∀ i, fueled_St (m i)) → fueled_St (if_text m pre post i).
Proof. intros Hm. unfold if_text. answer. Qed.
#[local] Hint Resolve TmpVarCode_fueled TmpVarReadbackCode_fueled TmpVarHelperCode_fueled SyscallArgList_fueled
  helper_arg_fueled range_params_fueled if_text_fueled : answers.

Lemma ParamCount_fueled : fueled_St ParamCount.
Proof. unfold ParamCount. answer. Qed.
#[local] Hint Resolve ParamCount_fueled : answers.
Lemma SyscallParamCount_fueled : fueled_St SyscallParamCount.
Proof. unfold SyscallParamCount. answer. Qed.
#[local] Hint Resolve SyscallParamCount_fueled : answers.
(** At most 15 arguments are asked for, so 15 turns of the loop are enough. *)
Lemma SyscallParamCount_bound f n f' : SyscallParamCount f = (Ret n, f') → n ≤ 15.
Proof.
  unfold SyscallParamCount. rewrite St_bind_eq. destruct (ParamCount f) as [[m| | |] f1]; try done.
  repeat case_match; intros [= <- _]; lia.
Qed.
Lemma pad_args_fueled fuel a : 15 ≤ zlen a + Z.of_nat fuel → fueled_St (pad_args fuel a).
Proof.
  revert a. induction fuel as [|fuel IH]; intros a Hf s; cbn [pad_args]; rewrite St_bind_eq;
    pose proof (SyscallParamCount_fueled s) as He; destruct (SyscallParamCount s) as [[n| | |] s'] eqn:E;
    try done; apply SyscallParamCount_bound in E; destruct (Z.ltb_spec (zlen a) n); try done; [lia|].
  apply IH. rewrite zlen_app, zlen_cons, zlen_nil. lia.
Qed.
Lemma syscall_args_fueled : fueled_St syscall_args.
Proof.
  unfold syscall_args. apply fueled_St_bind; [auto with answers|]. intros a. apply pad_args_fueled.
  pose proof (zlen_nonneg a). lia.
Qed.
#[local] Hint Resolve syscall_args_fueled : answers.
Lemma SetErrorCode_fueled r : fueled (SetErrorCode pkg r).
Proof. unfold SetErrorCode. answer. Qed.
#[local] Hint Resolve SetErrorCode_fueled : answers.
Lemma t_func_fueled : fueled_St (t_func pkg).
Proof.
  unfold t_func, t_helperbody, t_funcbody, t_helpertmpvars, t_tmpvars, t_syscall, Syscall, SyscallParamList,
    t_tmpvarsreadback, t_seterror, HelperCallParamList. answer.
Qed.
#[local] Hint Resolve t_func_fueled : answers.
Lemma t_funcs_fueled fs : fueled (t_funcs pkg fs).
Proof. induction fs as [|f fs IH]; [done|]. cbn [t_funcs]. apply fueled_bind; [apply t_func_fueled|answer]. Qed.
Lemma DLLVar_fueled f : fueled (DLLVar f).
Proof. unfold DLLVar. answer. Qed.
#[local] Hint Resolve DLLVar_fueled t_funcs_fueled : answers.
Lemma t_funcnames_fueled fs : fueled (t_funcnames fs).
Proof. induction fs; cbn [t_funcnames]; answer. Qed.
Lemma DLLs_fueled src : fueled (DLLs src).
Proof.
  unfold DLLs. apply fueled_bind; [|done]. generalize (∅ : gset (list Z)).
  induction (Funcs src) as [|f fs IH]; intros uniq; [done|]. cbn [uniq_dlls]. answer.
Qed.
#[local] Hint Resolve t_funcnames_fueled DLLs_fueled : answers.
Lemma t_main_fueled ty src : fueled (t_main pkg ty src).
Proof. unfold t_main. answer. Qed.
End Templates.

Section Generate.
Context `{Flags, EnvSpec}.

Lemma Execute_answers t : fueled t → answers (Execute t).
Proof. by destruct t. Qed.
Lemma IsStdRepo_answers src : answers (IsStdRepo src).
Proof.
  unfold IsStdRepo. destruct (Files src) as [|file fs]; [done|].
  apply answers_bind; [apply Abs_answers|]. answer.
Qed.
(** Whatever was parsed, the text is printed or there is an error. *)
Lemma Generate_answers src : answers (Generate src).
Proof.
  unfold Generate. apply answers_bind; [apply IsStdRepo_answers|]. intros std.
  apply answers_bind; [|done]. apply Execute_answers, t_main_fueled.
Qed.
End Generate.
