(* ===== verification/MkwinsyscallMain.v ===== *)
(** * The command (tools/mkwinsyscall, [main])

    Parsing the files, printing the calls, formatting them, and writing the
    result, with the files of the system as the state.  [go/format] and the
    failures of the system are a class; the flags are already parsed, and what
    [log] prints around a message is not modelled. *)
From S2P Require Import Prelude Program GoStrings GoText Mkwinsyscall MkwinsyscallGen MkwinsyscallText MkwinsyscallTotal.

(** What the command prints on the standard error stream. *)
Inductive message : Type :=
| NoFiles
| Usage
| LogFatal (e : error)
| FailedToFormat (e : error)
| FailedToWrite (e : error)
| WroteUnformatted (name : list Z).

Record world := mkWorld {
  disk : gmap (list Z) (list Z);
  Stdout : list Z;
  Stderr : list message }.

(** The failures of the system: a call that fails has no effect, except that a
    failing write leaves the bytes written before the error.  [temp_name] is the
    name [os.CreateTemp] chooses. *)
Class OS := mkOS {
  format_Source : list Z → res (list Z);
  temp_name : gmap (list Z) (list Z) → list Z + error;
  open_error : list Z → option error;
  write_error : list Z → list Z → option (Z * error);
  close_error : list Z → option error;
  remove_error : list Z → option error;
  Stdout_error : list Z → option (Z * error) }.

(** [os.CreateTemp] chooses a name that is not in use, and [format.Source] returns a
    text or an error. *)
Class OSSpec `{OS} : Prop := {
  temp_fresh d name : temp_name d = inl name → d !! name = None;
  format_answers text : answers (format_Source text);
}.

Definition log (msg : message) : prog world unit := λ w, (Done (), mkWorld (disk w) (Stdout w) (Stderr w ++ [msg])).
Definition fatal {A} (msg : message) : prog world A := _ ← log msg; os_Exit 1.
Definition on_disk (f : gmap (list Z) (list Z) → gmap (list Z) (list Z)) : prog world unit := λ w,
  (Done (), mkWorld (f (disk w)) (Stdout w) (Stderr w)).

(** A result, and the end of the program when it is an error. *)
Definition or_fatal {A} (r : res A) : prog world A :=
  match r with
  | Ret a => mret a
  | Fail e => fatal (LogFatal e)
  | Panic _ => λ w, (Crash, w)
  | NoFuel => λ w, (Crash, w)
  end.

Section Main.
Context `{Flags, Env, OS}.

(** The contents of a file after a write of [data] to it, which was empty. *)
Definition written (name data : list Z) : list Z :=
  match write_error name data with Some (n, _) => ztake n data | None => data end.
Definition os_write (name data : list Z) : prog world (option error) :=
  _ ← on_disk <[name := written name data]>; mret (snd <$> write_error name data).

Definition os_Remove (name : list Z) : prog world unit :=
  match remove_error name with Some _ => mret () | None => on_disk (delete name) end.

(** [os.WriteFile]: the file is made or emptied, written and closed; the error
    of the write comes before that of closing. *)
Definition os_WriteFile (name data : list Z) : prog world (option error) :=
  match open_error name with
  | Some e => mret (Some e)
  | None =>
      err ← os_write name data;
      mret (match err with Some e => Some e | None => close_error name end)
  end.
Definition Stdout_Write (data : list Z) : prog world (option error) := λ w,
  let n := match Stdout_error data with Some (n, _) => ztake n data | None => data end in
  (Done (snd <$> Stdout_error data), mkWorld (disk w) (Stdout w ++ n) (Stderr w)).

Definition writeTempSourceFile (data : list Z) : prog world (list Z + error) := λ w,
  match temp_name (disk w) with
  | inr e => (Done (inr e), w)
  | inl name =>
      (err ← os_write name data;
       match (match err with Some e => Some e | None => close_error name end) with
       | Some e => _ ← os_Remove name; mret (inr e)
       | None => mret (inl name)
       end) w
  end.

Definition usage {A} : prog world A := _ ← log Usage; os_Exit 1.

Definition main (filename : list Z) (args : list (list Z)) : prog world unit :=
  _ ← (if zlen args <=? 0 then _ ← log NoFiles; usage else mret ());
  src ← or_fatal (ParseFiles [] args);
  '(buf, _) ← or_fatal (Generate src);
  data ← (match format_Source buf with
          | Fail e =>
              _ ← log (FailedToFormat e);
              f ← writeTempSourceFile buf;
              match f with
              | inr e => fatal (FailedToWrite e)
              | inl name => fatal (WroteUnformatted name)
              end
          | r => or_fatal r
          end);
  err ← (if bool_decide (filename = []) then Stdout_Write data else os_WriteFile filename data);
  match err with
  | Some e => fatal (LogFatal e)
  | None => mret ()
  end.
End Main.

(** ** What the command does to the files *)
Section Spec.
Context `{Flags, EnvSpec, OSSpec}.

(** The files of [d] are those of [d'], except perhaps [name]. *)
Definition same_files (name : list Z) (d d' : gmap (list Z) (list Z)) : Prop :=
  ∀ n, is_Some (d !! n) → n ≠ name → d' !! n = d !! n.

Lemma fatal_eq {A} m w : (fatal m : prog world A) w = (Exit 1, mkWorld (disk w) (Stdout w) (Stderr w ++ [m])).
Proof. reflexivity. Qed.
Lemma or_fatal_eq {A} (r : res A) w :
  or_fatal r w = match r with
                 | Ret a => (Done a, w)
                 | Fail e => (Exit 1, mkWorld (disk w) (Stdout w) (Stderr w ++ [LogFatal e]))
                 | _ => (Crash, w)
                 end.
Proof. by destruct r. Qed.

(** A temporary file is made for the unformatted text or there is none, and no
    other file changes. *)
Lemma writeTempSourceFile_spec data w :
  ∃ r d, writeTempSourceFile data w = (Done r, mkWorld d (Stdout w) (Stderr w)) ∧
    (∀ n, is_Some (disk w !! n) → d !! n = disk w !! n) ∧
    match r with
    | inl name => disk w !! name = None ∧ d = <[name := data]> (disk w)
    | inr _ => d = disk w ∨ ∃ name e, remove_error name = Some e
    end.
Proof.
  unfold writeTempSourceFile. destruct (temp_name (disk w)) as [name|e] eqn:Et.
  - assert (Hf : disk w !! name = None) by by apply (temp_fresh _ _ Et).
    assert (Hkeep : ∀ n x, is_Some (disk w !! n) → <[name := x]> (disk w) !! n = disk w !! n).
    { intros n x [? Hn]. apply lookup_insert_ne. congruence. }
    unfold os_write, written. destruct (write_error name data) as [[n err]|] eqn:Ew;
      [|destruct (close_error name) as [err|] eqn:Ec]; cbn; rewrite ?Ew, ?Ec; cbn;
      [unfold os_Remove; destruct (remove_error name) as [err'|] eqn:Er..|]; cbn;
      eexists _, _; (split; [reflexivity|]); cbn [disk]; rewrite ?delete_insert_id by done; eauto 6.
  - exists (inr e), (disk w). split; [by destruct w|]. eauto.
Qed.

(** The system refuses to write the output. *)
Definition cannot_write (filename data : list Z) : Prop :=
  if decide (filename = []) then is_Some (Stdout_error data)
  else is_Some (open_error filename) ∨ is_Some (write_error filename data) ∨ is_Some (close_error filename).

(** Writing the text: all of it, or an error. *)
Definition output (filename data : list Z) : prog world (option error) :=
  if bool_decide (filename = []) then Stdout_Write data else os_WriteFile filename data.
Lemma output_spec filename data w :
  ∃ err w', output filename data w = (Done err, w') ∧ same_files filename (disk w) (disk w') ∧
    Stderr w' = Stderr w ∧
    match err with
    | None => if decide (filename = []) then Stdout w' = Stdout w ++ data ∧ disk w' = disk w
              else Stdout w' = Stdout w ∧ disk w' = <[filename := data]> (disk w)
    | Some _ => cannot_write filename data
    end.
Proof.
  unfold output, cannot_write. case_bool_decide as Hf.
  - eexists _, _. split; [reflexivity|]. split; [done|]. split; [done|].
    rewrite !decide_True by done. cbn. destruct (Stdout_error data) as [[]|]; cbn; eauto.
  - unfold os_WriteFile.
    destruct (open_error filename) as [e|] eqn:Eo; [eexists _, w; rewrite decide_False by done; split_and!; [done..|left; eauto]|].
    eexists _, _. split; [reflexivity|]. split; [|split; [done|]].
    + intros n _ Hn. cbn. by apply lookup_insert_ne.
    + rewrite !decide_False by done. unfold written.
      destruct (write_error filename data) as [[]|]; cbn; [by eauto|].
      destruct (close_error filename); cbn; eauto.
Qed.

(** The end of the command, from the printed text on. *)
Lemma main_eq filename a args w :
  main filename (a :: args) w =
  (src ← or_fatal (ParseFiles [] (a :: args));
   '(buf, _) ← or_fatal (Generate src);
   data ← (match format_Source buf with
           | Fail e =>
               _ ← log (FailedToFormat e);
               f ← writeTempSourceFile buf;
               match f with
               | inr e => fatal (FailedToWrite e)
               | inl name => fatal (WroteUnformatted name)
               end
           | r => or_fatal r
           end);
   err ← output filename data;
   match err with Some e => fatal (LogFatal e) | None => mret () end) w.
Proof.
  unfold main. replace (zlen (a :: args) <=? 0) with false; [done|].
  symmetry. apply Z.leb_gt. rewrite zlen_cons. pose proof (zlen_nonneg args). lia.
Qed.

Lemma said (l msgs : list message) m : ∃ ms, ms ≠ [] ∧ l ++ m :: msgs = l ++ ms.
Proof. by exists (m :: msgs). Qed.

(** Without files there is no text: [main] asks for them first. *)
Lemma no_files_no_text src : ParseFiles [] [] = Ret src → ∃ e, Generate src = Fail e.
Proof. intros [= <-]. by eexists. Qed.

(** C29: the command ends, and it changes no existing file but its output (unformatted text may
    go to a new file).  When the files are
    parsed, the text is printed and formatted, and the system lets the output be written,
    it succeeds and the output (the file, or the standard output) holds exactly the
    formatted text.  In every other case it says why and its exit code is 1, never a
    panic, whatever the files hold; and unless it was writing the formatted text that
    failed, the output was not touched. *)
Theorem main_spec filename args w :
  let formatted data := ∃ src src' text, ParseFiles [] args = Ret src ∧ Generate src = Ret (text, src') ∧
    format_Source text = Ret data in
  let '(r, w') := main filename args w in
  same_files filename (disk w) (disk w') ∧
  match r with
  | Done _ => args ≠ [] ∧ Stderr w' = Stderr w ∧ ∃ data, formatted data ∧
      if decide (filename = []) then Stdout w' = Stdout w ++ data ∧ disk w' = disk w
      else Stdout w' = Stdout w ∧ disk w' = <[filename := data]> (disk w)
  | Exit c => c = 1 ∧ (∃ msgs, msgs ≠ [] ∧ Stderr w' = Stderr w ++ msgs) ∧
      ((∃ data, formatted data ∧ cannot_write filename data) ∨
       (∀ data, ¬ formatted data) ∧
       Stdout w' = Stdout w ∧ ∀ n, is_Some (disk w !! n) → disk w' !! n = disk w !! n)
  | Crash => False
  end.
Proof.
  intros formatted. assert (Hsame : same_files filename (disk w) (disk w)) by done.
  destruct args as [|a args].
  { cbn. split; [done|]. split; [done|]. split; [cbn; rewrite <- app_assoc; apply said|].
    right. split; [|done]. intros data (src & src' & text & Hp & Hg & _).
    apply no_files_no_text in Hp as [e He]. congruence. }
  rewrite main_eq, prog_bind_eq, or_fatal_eq. pose proof (ParseFiles_answers [] (a :: args)) as Ha.
  destruct (ParseFiles [] (a :: args)) as [src|e| |] eqn:Ep; try done;
    [|split_and!; [done|done|apply said|right; split; [by intros ? (?&?&?&?&_)|done]]].
  rewrite prog_bind_eq, or_fatal_eq. pose proof (Generate_answers src) as Hg.
  destruct (Generate src) as [[buf src']|e| |] eqn:Eg; try done;
    [|split_and!; [done|done|apply said|right; split; [|done]]; intros ? (?&?&?&[= <-]&?&_); congruence].
  pose proof (format_answers buf) as Hf. destruct (format_Source buf) as [data|e| |] eqn:Ef; try done.
  - assert (Hd : formatted data) by by exists src, src', buf.
    rewrite prog_bind_eq, or_fatal_eq, prog_bind_eq.
    destruct (output_spec filename data w) as (err & w' & -> & Hs & He & Ho). destruct err as [e|].
    + rewrite fatal_eq. split; [done|]. split; [done|]. cbn [Stderr]. rewrite He. split; [apply said|eauto].
    + split; [done|]. split; [done|]. split; [done|]. by exists data.
  - rewrite !prog_bind_eq. cbn [log]. set (w1 := mkWorld _ _ _). rewrite prog_bind_eq.
    destruct (writeTempSourceFile_spec buf w1) as (r & d & -> & Hd & _). cbn [disk] in Hd.
    assert (Hn : ∀ data, ¬ formatted data) by (intros ? (?&?&?&[= <-]&?&?); congruence).
    destruct r as [name|e']; rewrite fatal_eq; subst w1; cbn [Stderr Stdout disk]; rewrite <- ?app_assoc;
      (split; [by intros n Hin _; apply Hd|split; [done|split; [apply said|by right]]]).
Qed.
End Spec.

(** ** Witness: a run that writes the output, and one whose text is not formatted *)
Definition test_os (format : list Z → res (list Z)) : OS := mkOS format
  (λ d, if decide (d !! str "/tmp/t.go" = None) then inl (str "/tmp/t.go") else inr (New "exists"))
  (λ _, None) (λ _ _, None) (λ _, None) (λ _, None) (λ _, None).
Definition no_format (_ : list Z) : res (list Z) := Fail (New "expected operand").
#[export] Instance test_os_spec : @OSSpec (test_os Ret).
Proof. split; [|done]. intros d name. cbn. case_decide; [by intros [= <-]|done]. Qed.
#[export] Instance test_os_refuses : @OSSpec (test_os no_format).
Proof. split; [|done]. intros d name. cbn. case_decide; [by intros [= <-]|done]. Qed.
#[export] Instance test_env_spec : @EnvSpec test_env.
Proof.
  split; try done; cbn; intros path; [by case_bool_decide|].
  intros file. by case_bool_decide; intros [= <-].
Qed.

Definition test_world : world := mkWorld {[ str "z.go" := str "old" ]} [] [].
Definition test_main (format : list Z → res (list Z)) : outcome unit * world :=
  main (H := default_flags) (H0 := test_env) (H1 := test_os format) (str "z.go") [str "x.go"] test_world.

Lemma main_spec_witness :
  (test_main Ret).1 = Done () ∧ same_files (str "z.go") (disk test_world) (disk (test_main Ret).2) ∧
  (test_main no_format).1 = Exit 1 ∧ (test_main no_format).2.(disk) !! str "z.go" = Some (str "old").
Proof.
  pose proof (main_spec (H := default_flags) (H0 := test_env) (H2 := test_os Ret) (str "z.go") [str "x.go"] test_world) as P.
  pose proof (main_spec (H := default_flags) (H0 := test_env) (H2 := test_os no_format) (str "z.go") [str "x.go"] test_world) as Q.
  unfold test_main. destruct (main _ _ _) as [r w] eqn:E in P |- *.
  split; [|split; [apply P|]].
  - transitivity (fst (r, w)); [done|]. rewrite <- E. vm_compute. reflexivity.
  - split; vm_compute; reflexivity.
Defined.
