(* ===== verification/GoCode.v ===== *)
(** * The Go code of system calls

    A fragment of Go large enough for the functions that the generator of
    system calls prints: its syntax, its text up to indentation, and an
    interpreter.  A variable that is not declared, or used at a wrong type, is
    [does_not_compile]: an execution that returns shows that the code it runs is
    well scoped and well typed. *)
From S2P Require Import Prelude GoStrings Unicode GoText.

Abbreviation text := (list Z).

(** ** The system *)

(** Procedures of DLLs: [Find] looks one up, [Syscall] calls it with its words
    and returns the result word and the last error; [alloc] puts a string where
    a pointer can reach it. *)
Class Windows (E : Type) := {
  w_Find : text → text → E → option error * E;
  w_Syscall : text → text → list Z → E → (Z * Z) * E;
  w_alloc : list Z → E → Z * E;
}.

(** [LazyProc.Find] and [LazyProc.Addr], which panics if the procedure is not
    found. *)
Section Windows.
Context `{Windows E}.
Definition Proc_Find (dll name : text) : St E (option error) := λ e,
  let '(err, e) := w_Find dll name e in (Ret err, e).
Definition Proc_Call (dll name : text) (words : list Z) : St E (Z * Z) :=
  err ← Proc_Find dll name;
  match err with
  | Some _ => panic "LazyProc.Addr"
  | None => λ e, let '(r, e) := w_Syscall dll name words e in (Ret r, e)
  end.

(** [syscall.UTF16PtrFromString] and [syscall.BytePtrFromString]: a pointer or an
    error. *)
Definition PtrFromString (wide : bool) (s : text) : St E (Z + error) :=
  if bool_decide (0 ∈ s) then mret (inr EINVAL)
  else λ e, let '(a, e) := w_alloc ((if wide then to_utf16 s else s) ++ [0]) e in (Ret (inl a), e).
End Windows.

(** The printed function [errnoErr]. *)
Definition errERROR_IO_PENDING : error := Errno 997.
Definition errERROR_EINVAL : error := EINVAL.
Definition errnoErr (e : Z) : error :=
  if e =? 0 then errERROR_EINVAL else if e =? 997 then errERROR_IO_PENDING else Errno e.

(** ** Syntax *)
Inductive val :=
| VInt (z : Z)
| VBool (b : bool)
| VPtr (a : Z)
| VSlice (a n : Z)
| VStr (s : text)
| VErr (e : option error).

Inductive binop := Neq | Equal | Less | Greater | And.

Inductive exp :=
| Id (x : text)
| Num (t : text) (z : Z)
| Nil
| Deref (x : text)
| Addr (x : text)
| Elem0 (x : text)
| Len (x : text)
| ToUintptr (e : exp)
| ToPointer (e : exp)
| ToInt32 (e : exp)
| ToErrno (dot : text) (e : exp)
| ToNTStatus (dot : text) (e : exp)
| ToType (ty : text) (e : exp)
| ToPtrType (ty : text) (e : exp)
| ErrnoErr (e : exp)
| Bin (op : binop) (e1 e2 : exp).

(** [IfFail c x] is the condition of a declaration, where [x] takes the place of
    [failretval]; [Call (Some (r, e)) f p n args] is
    [r, _, e := f(p.Addr(), n, args...)]. *)
#[warnings="-register-all"]
Inductive stmt :=
| VarDecl (x ty : text)
| Assign (x : text) (e : exp)
| AssignDeref (x : text) (e : exp)
| AndAssign (x : text) (e : exp)
| If (c : exp) (body : list stmt)
| IfFail (c x : text) (body : list stmt)
| Find (x proc : text)
| ConvStr (x err dot : text) (wide : bool) (arg : text)
| Call (rets : option (text * text)) (fn proc : text) (n : Z) (args : list exp)
| Trace (t : text)
| Return
| ReturnCall (f : text) (args : list exp).

Record gofunc := mkFunc {
  g_name : text;
  g_params : list (text * text);
  g_results : list (text * text);
  g_body : list stmt;
}.

(** ** Text *)
Definition print_op (op : binop) : text :=
  match op with Neq => str " != " | Equal => str " == " | Less => str " < " | Greater => str " > " | And => str "&" end.
Fixpoint print_exp (e : exp) : text :=
  match e with
  | Id x => x
  | Num t _ => t
  | Nil => str "nil"
  | Deref x => str "*" ++ x
  | Addr x => str "&" ++ x
  | Elem0 x => str "&" ++ x ++ str "[0]"
  | Len x => str "len(" ++ x ++ str ")"
  | ToUintptr e => str "uintptr(" ++ print_exp e ++ str ")"
  | ToPointer e => str "unsafe.Pointer(" ++ print_exp e ++ str ")"
  | ToInt32 e => str "int32(" ++ print_exp e ++ str ")"
  | ToErrno dot e => dot ++ str "Errno(" ++ print_exp e ++ str ")"
  | ToNTStatus dot e => dot ++ str "NTStatus(" ++ print_exp e ++ str ")"
  | ToType ty e => ty ++ str "(" ++ print_exp e ++ str ")"
  | ToPtrType ty e => str "(" ++ ty ++ str ")(" ++ print_exp e ++ str ")"
  | ErrnoErr e => str "errnoErr(" ++ print_exp e ++ str ")"
  | Bin op a b => print_exp a ++ print_op op ++ print_exp b
  end.
Definition print_exps (l : list exp) : text := Join (print_exp <$> l) (str ", ").
(** A statement on lines of its own; the text of [Trace] is a whole line. *)
Fixpoint print_stmt (s : stmt) : text :=
  match s with
  | VarDecl x ty => str "var " ++ x ++ str " " ++ ty ++ [10]
  | Assign x e => x ++ str " = " ++ print_exp e ++ [10]
  | AssignDeref x e => str "*" ++ x ++ str " = " ++ print_exp e ++ [10]
  | AndAssign x e => x ++ str " &= " ++ print_exp e ++ [10]
  | If c body => str "if " ++ print_exp c ++ str " {
" ++ concat (print_stmt <$> body) ++ str "}
"
  | IfFail c x body => str "if " ++ Replace1 c (str "failretval") x ++ str " {
" ++ concat (print_stmt <$> body) ++ str "}
"
  | Find x proc => x ++ str " = proc" ++ proc ++ str ".Find()
"
  | ConvStr x err dot wide arg =>
      x ++ str ", " ++ err ++ str " = " ++ dot ++
      (if wide then str "UTF16PtrFromString" else str "BytePtrFromString") ++ str "(" ++ arg ++ str ")
"
  | Call rets fn proc n args =>
      match rets with Some (r, e) => r ++ str ", _, " ++ e ++ str " := " | None => [] end ++
      fn ++ str "(proc" ++ proc ++ str ".Addr(), " ++ FormatInt n 10 ++ str ", " ++ print_exps args ++ str ")
"
  | Trace t => t
  | Return => str "return
"
  | ReturnCall f args => str "return " ++ f ++ str "(" ++ print_exps args ++ str ")
"
  end.
Definition print_decls (l : list (text * text)) : text :=
  Join ((λ '(x, t), x ++ str " " ++ t) <$> l) (str ", ").
Definition print_func (g : gofunc) : text :=
  str "
func " ++ g_name g ++ str "(" ++ print_decls (g_params g) ++ str ") " ++
  (if bool_decide (g_results g = []) then [] else str "(" ++ print_decls (g_results g) ++ str ") ") ++
  str "{
" ++ concat (print_stmt <$> g_body g) ++ str "}
".

(** A text without its tabs: the templates only indent with them. *)
Definition unindent (t : text) : text := List.filter (λ b, negb (b =? 9)) t.

(** ** Execution *)
Definition does_not_compile {A} : res A := Panic "does not compile".

Abbreviation env := (gmap text val).

Section Exec.
Context `{Windows E}.
(** The conversion to a named integer type, the condition of a declaration, and the
    declared procedures: the DLL and the name of each. *)
Context (conv : text → Z → Z) (cond : text → val → bool).
Context (procs : text → option (text * text)).

Definition lookup_var (ρ : env) (x : text) : res val :=
  match ρ !! x with Some v => Ret v | None => does_not_compile end.

Definition to_word (v : val) : res Z :=
  match v with VInt z => Ret (u64 z) | VPtr a => Ret (u64 a) | _ => does_not_compile end.

Definition eval_bin (op : binop) (v w : val) : res val :=
  match op, v, w with
  | Neq, VInt a, VInt b => Ret (VBool (negb (a =? b)))
  | Equal, VInt a, VInt b => Ret (VBool (a =? b))
  | Less, VInt a, VInt b => Ret (VBool (a <? b))
  | Greater, VInt a, VInt b => Ret (VBool (b <? a))
  | And, VInt a, VInt b => Ret (VInt (Z.land a b))
  | Neq, VErr a, VErr None => Ret (VBool (bool_decide (a ≠ None)))
  | _, _, _ => does_not_compile
  end.

(** A local variable whose address is taken is not executed. *)
Fixpoint eval (ρ : env) (e : exp) : res val :=
  match e with
  | Id x => lookup_var ρ x
  | Num _ z => Ret (VInt z)
  | Nil => Ret (VErr None)
  | Deref _ | Addr _ => does_not_compile
  | Elem0 x =>
      v ← lookup_var ρ x;
      match v with
      | VSlice a n => if 0 <? n then Ret (VPtr a) else Panic "index out of range"
      | _ => does_not_compile
      end
  | Len x =>
      v ← lookup_var ρ x;
      match v with VSlice _ n => Ret (VInt n) | _ => does_not_compile end
  | ToUintptr e => v ← eval ρ e; z ← to_word v; Ret (VInt z)
  | ToPointer e => v ← eval ρ e; z ← to_word v; Ret (VPtr z)
  | ToInt32 e => v ← eval ρ e; match v with VInt z => Ret (VInt (i32 z)) | _ => does_not_compile end
  | ToErrno _ e =>
      v ← eval ρ e; match v with VInt z => Ret (VErr (Some (Errno z))) | _ => does_not_compile end
  | ToNTStatus _ e =>
      v ← eval ρ e;
      match v with
      | VInt z => Ret (VErr (Some (Errorf "NTStatus" [u32 z] [])))
      | _ => does_not_compile
      end
  | ToType ty e => v ← eval ρ e; match v with VInt z => Ret (VInt (conv ty z)) | _ => does_not_compile end
  | ToPtrType _ e => v ← eval ρ e; match v with VPtr a => Ret (VPtr a) | _ => does_not_compile end
  | ErrnoErr e =>
      v ← eval ρ e; match v with VInt z => Ret (VErr (Some (errnoErr z))) | _ => does_not_compile end
  | Bin op a b => v ← eval ρ a; w ← eval ρ b; eval_bin op v w
  end.

(** The words of a call: all its arguments are of type [uintptr]. *)
Definition eval_word (ρ : env) (e : exp) : res Z :=
  v ← eval ρ e; match v with VInt z => Ret z | _ => does_not_compile end.
Fixpoint eval_words (ρ : env) (l : list exp) : res (list Z) :=
  match l with [] => Ret [] | e :: l => w ← eval_word ρ e; ws ← eval_words ρ l; Ret (w :: ws) end.
Fixpoint eval_args (ρ : env) (l : list exp) : res (list val) :=
  match l with [] => Ret [] | e :: l => w ← eval ρ e; ws ← eval_args ρ l; Ret (w :: ws) end.

(** Assignment to a declared variable; the blank identifier takes any value. *)
Definition assign (x : text) (v : val) (ρ : env) : res env :=
  if bool_decide (x = str "_") then Ret ρ
  else if bool_decide (is_Some (ρ !! x)) then Ret (<[x := v]> ρ)
  else does_not_compile.

Definition declare (x : text) (v : val) (ρ : env) : env :=
  if bool_decide (x = str "_") then ρ else <[x := v]> ρ.

Definition zero (ty : text) : val :=
  if bool_decide (ty = str "error") then VErr None
  else if bool_decide (ty = str "bool") then VBool false
  else if HasPrefix ty (str "*") then VPtr 0
  else VInt 0.

(** What a statement leads to: the next one, a return of the named results, or a
    return of the results of a call. *)
Inductive outcome :=
| Next (ρ : env)
| Returned (ρ : env)
| Tail (f : text) (args : list val).

Definition the_proc (p : text) : res (text * text) :=
  match procs p with Some q => Ret q | None => does_not_compile end.

Fixpoint exec (s : stmt) (ρ : env) {struct s} : St E outcome :=
  let fix execs (l : list stmt) (ρ : env) {struct l} : St E outcome :=
    match l with
    | [] => mret (Next ρ)
    | s :: l => o ← exec s ρ; match o with Next ρ => execs l ρ | _ => mret o end
    end in
  match s with
  | VarDecl x ty => mret (Next (<[x := zero ty]> ρ))
  | Assign x e => v ← lift (eval ρ e); ρ ← lift (assign x v ρ); mret (Next ρ)
  | AssignDeref _ _ => lift does_not_compile
  | AndAssign x e =>
      v ← lift (eval ρ (Bin And (Id x) e)); ρ ← lift (assign x v ρ); mret (Next ρ)
  | If c body =>
      v ← lift (eval ρ c);
      match v with
      | VBool true => execs body ρ
      | VBool false => mret (Next ρ)
      | _ => lift does_not_compile
      end
  | IfFail c x body =>
      v ← lift (lookup_var ρ x);
      if cond c v then execs body ρ else mret (Next ρ)
  | Find x proc =>
      '(dll, name) ← lift (the_proc proc);
      err ← Proc_Find dll name;
      ρ ← lift (assign x (VErr err) ρ); mret (Next ρ)
  | ConvStr x err _ wide arg =>
      v ← lift (lookup_var ρ arg);
      match v with
      | VStr s =>
          r ← PtrFromString wide s;
          let '(a, e) := match r with inl a => (a, None) | inr e => (0, Some e) end in
          ρ ← lift (assign x (VPtr a) ρ); ρ ← lift (assign err (VErr e) ρ); mret (Next ρ)
      | _ => lift does_not_compile
      end
  | Call rets _ proc n args =>
      '(dll, name) ← lift (the_proc proc);
      ws ← lift (eval_words ρ args);
      '(r, e) ← Proc_Call dll name (ztake n ws);
      let ρ := match rets with
               | Some (x, y) => declare y (VInt e) (declare x (VInt r) ρ)
               | None => ρ
               end in
      mret (Next ρ)
  | Trace _ => mret (Next ρ)
  | Return => mret (Returned ρ)
  | ReturnCall f args => vs ← lift (eval_args ρ args); mret (Tail f vs)
  end.
Fixpoint execs (l : list stmt) (ρ : env) : St E outcome :=
  match l with
  | [] => mret (Next ρ)
  | s :: l => o ← exec s ρ; match o with Next ρ => execs l ρ | _ => mret o end
  end.

(** Parameters and zeroed results. *)
Definition bind_all (l : list (text * text)) (vs : list val) : env :=
  list_to_map (zip l.*1 vs).
Definition frame (g : gofunc) (vs : list val) : env :=
  bind_all (g_results g) (zero <$> (g_results g).*2) ∪ bind_all (g_params g) vs.

Fixpoint results (l : list (text * text)) (ρ : env) : res (list val) :=
  match l with
  | [] => Ret []
  | (x, _) :: l => v ← lookup_var ρ x; vs ← results l ρ; Ret (v :: vs)
  end.

(** A call of a function of the file [fs]; a function calls at most its helper. *)
Fixpoint call (depth : nat) (fs : list gofunc) (g : gofunc) (vs : list val) : St E (list val) :=
  if negb (length vs =? length (g_params g))%nat then lift does_not_compile
  else
    o ← execs (g_body g) (frame g vs);
    match o with
    | Next _ => lift does_not_compile
    | Returned ρ => lift (results (g_results g) ρ)
    | Tail f args =>
        match depth, List.find (λ h, bool_decide (g_name h = f)) fs with
        | S depth, Some h => call depth fs h args
        | O, _ => nofuel
        | _, None => lift does_not_compile
        end
    end.
End Exec.

(** ** Lemmas *)
Lemma unindent_app s t : unindent (s ++ t) = unindent s ++ unindent t.
Proof. apply List.filter_app. Qed.
