(* ===== verification/SyscallCode.v ===== *)
(** * System calls as programs, and what they mean

    The code of a declared function, as a program of [GoCode]; its text is the
    text that the generator prints.  The meaning of a declaration, stated on its
    own: convert the strings, look the procedure up if it may be absent, make the
    call with the words of the parameters, and read the results. *)
From S2P Require Import Prelude GoStrings Unicode GoText Mkwinsyscall MkwinsyscallGen MkwinsyscallSpec MkwinsyscallText GoCode.

(** ** The code of a declaration *)
Section Code.
Context `{Flags} (pkg : list Z) (d : Fn) (ν : nat → list Z).

Definition tmp_stmts (p : Param) (tmp : text) : list stmt :=
  if bool_decide (Param_Type p = tBool) then
    [VarDecl tmp (str "uint32"); If (Id (Param_Name p)) [Assign tmp (Num (str "1") 1)]]
  else if bool_decide (Param_Type p = tBoolPtr) then
    [VarDecl tmp (str "uint32"); If (Deref (Param_Name p)) [Assign tmp (Num (str "1") 1)]]
  else if HasPrefix (Param_Type p) (str "[]") then
    [VarDecl tmp (str "*" ++ zdrop 2 (Param_Type p));
     If (Bin Greater (Len (Param_Name p)) (Num (str "0") 0)) [Assign tmp (Elem0 (Param_Name p))]]
  else [].
Definition readback_stmts (p : Param) (tmp : text) : list stmt :=
  if bool_decide (Param_Type p = tBoolPtr)
  then [AssignDeref (Param_Name p) (Bin Neq (Id tmp) (Num (str "0") 0))] else [].
Definition error_var : text := ErrorVarName (Fn_Rets d).
Definition if_error (x : text) : stmt := If (Bin Neq (Id x) Nil) [Return].
Definition helper_stmts (p : Param) (tmp : text) : list stmt :=
  if bool_decide (Param_Type p = tString) then
    let errvar := if bool_decide (error_var = []) then str "_" else error_var in
    VarDecl tmp (StrconvType d) ::
    ConvStr tmp errvar (syscalldot pkg) (IsUTF16 d) (Param_Name p) ::
    (if bool_decide (errvar = str "-") then [] else [if_error errvar])
  else [].
Definition helper_exps (p : Param) (tmp : text) : list exp :=
  if bool_decide (Param_Type p = tString) then [Id tmp] else [Id (Param_Name p)].
Definition arg_exps (p : Param) (tmp : text) : list exp :=
  let t := HelperType d p in
  if bool_decide (t = tBoolPtr) then [ToUintptr (ToPointer (Addr tmp))]
  else if HasPrefix t (str "*") then [ToUintptr (ToPointer (Id (Param_Name p)))]
  else if bool_decide (t = tBool) then [ToUintptr (Id tmp)]
  else if HasPrefix t (str "[]") then
    [ToUintptr (ToPointer (Id tmp)); ToUintptr (Len (Param_Name p))]
  else [ToUintptr (Id (Param_Name p))].

Definition absent_stmts : list stmt :=
  if fnMaybeAbsent (Fn_Rets d) then
    let v := if bool_decide (error_var = []) then varErr else error_var in
    [Find v (DLLFuncName d); if_error v]
  else [].
Definition rets_stmt : option (text * text) :=
  let r := Fn_Rets d in
  if bool_decide (Rets_Name r = []) && negb (ReturnsError r) then None
  else Some (if bool_decide (Rets_Name r = []) then str "r1" else str "r0",
             if ReturnsError r then str "e1" else str "_").
Definition call_stmt : stmt :=
  Call rets_stmt (call_name pkg d) (DLLFuncName d) (nargs d)
    (each d ν arg_exps ++
     replicate (Z.to_nat (call_width (nargs d) - nargs d)) (Num (str "0") 0)).

Definition fail_stmt (x : text) : stmt :=
  let body := [Assign varErr (ErrnoErr (Id (str "e1")))] in
  if bool_decide (FailCond (Fn_Rets d) = []) then If (Bin Equal (Id x) (Num (str "0") 0)) body
  else IfFail (FailCond (Fn_Rets d)) x body.
Definition r0 : text := str "r0".
Definition error_stmts : list stmt :=
  let r := Fn_Rets d in
  let name := Rets_Name r in
  if bool_decide (name = []) && negb (ReturnsError r) then []
  else if bool_decide (name = []) then [fail_stmt (str "r1")]
  else if bool_decide (Rets_Type r = tError) then
    if bool_decide (name = varErrNTStatus) || bool_decide (name = str "ntstatus") then
      [If (Bin Neq (Id r0) (Num (str "0") 0)) [Assign name (ToNTStatus (windowsdot pkg) (Id r0))]]
    else if bool_decide (name = varErrHR) then
      [If (Bin Less (ToInt32 (Id r0)) (Num (str "0") 0))
         [If (Bin Equal (Bin And (Id r0) (Num (str "0x1fff0000") 0x1fff0000))
                        (Num (str "0x00070000") 0x00070000))
             [AndAssign r0 (Num (str "0xffff") 0xffff)];
          Assign name (ToErrno (syscalldot pkg) (Id r0))]]
    else
      [If (Bin Neq (Id r0) (Num (str "0") 0)) [Assign name (ToErrno (syscalldot pkg) (Id r0))]]
  else
    Assign name
      (if HasPrefix (Rets_Type r) (str "*") then ToPtrType (Rets_Type r) (ToPointer (Id r0))
       else if bool_decide (Rets_Type r = tBool) then Bin Neq (Id r0) (Num (str "0") 0)
       else ToType (Rets_Type r) (Id r0)) ::
    (if negb (ReturnsError r) then [] else [fail_stmt name]).

Definition trace_stmts : list stmt := if PrintTrace d then [Trace (t_printtrace d)] else [].

Definition result_decls : list (text * text) :=
  match (λ p, (Param_Name p, Param_Type p)) <$> ToParams (Fn_Rets d) with
  | [] => if fnMaybeAbsent (Fn_Rets d) then [(varErr, tError)] else []
  | l => l
  end.

Definition helper_func : gofunc :=
  mkFunc (Fn_Name d) ((λ p, (Param_Name p, Param_Type p)) <$> Params d) result_decls
    (each d ν helper_stmts ++ [ReturnCall (HelperName d) (each d ν helper_exps)]).
Definition body_func : gofunc :=
  mkFunc (HelperName d) ((λ p, (Param_Name p, HelperType d p)) <$> Params d) result_decls
    (absent_stmts ++ each d ν tmp_stmts ++ [call_stmt] ++ each d ν readback_stmts ++
     error_stmts ++ trace_stmts ++ [Return]).
Definition go_funcs : list gofunc :=
  if HasStringParam d then [helper_func; body_func] else [body_func].
End Code.

(** ** The text of the code is the text that is printed *)
Section Text.
Context `{Flags} (pkg : list Z) (d : Fn) (ν : nat → list Z).

Abbreviation sq := unindent.
Definition print_stmts (l : list stmt) : text := concat (print_stmt <$> l).

Lemma print_stmts_app l k : print_stmts (l ++ k) = print_stmts l ++ print_stmts k.
Proof. unfold print_stmts. by rewrite fmap_app, concat_app. Qed.

(** Texts per parameter agree if they agree for each parameter. *)
Lemma each_text (f : Param → list Z → list stmt) (g : Param → list Z → text) :
  (∀ p tmp, sq (print_stmts (f p tmp)) = sq (g p tmp)) →
  sq (print_stmts (each d ν f)) = sq (each d ν g).
Proof.
  intros Hfg. unfold each. generalize (Params d) as ps. intros ps. revert ν.
  induction ps as [|p ps IH]; intros μ; [done|]. rewrite !imap_cons. cbn [concat].
  rewrite print_stmts_app, !unindent_app, Hfg. f_equal. apply (IH (λ i, μ (S i))).
Qed.
(** A text that is not empty is printed on a line of its own. *)
Lemma sq_line t pre : t ≠ [] → sq pre = [] → sq (if_nonempty t pre [10]) = sq t ++ [10].
Proof.
  intros Ht Hpre. unfold if_nonempty. rewrite bool_decide_eq_false_2 by done.
  by rewrite !unindent_app, Hpre.
Qed.
Lemma str_not_nil a s : str (String a s) ≠ [].
Proof. done. Qed.
Lemma app_not_nil_l {A} (s t : list A) : s ≠ [] → s ++ t ≠ [].
Proof. by destruct s. Qed.
Lemma app_not_nil_r {A} (s t : list A) : t ≠ [] → s ++ t ≠ [].
Proof. intros Ht [_ E]%app_eq_nil. by apply Ht. Qed.

(** The texts as concatenations. *)
Lemma bool_text_eq tmp name : bool_text tmp name =
  str "var " ++ tmp ++ str " uint32
	if " ++ name ++ str " {
		" ++ tmp ++ str " = 1
	}".
Proof. reflexivity. Qed.
Lemma bool_pointer_text_eq tmp name : bool_pointer_text tmp name =
  str "var " ++ tmp ++ str " uint32
	if *" ++ name ++ str " {
		" ++ tmp ++ str " = 1
	}".
Proof. reflexivity. Qed.
Lemma slice_text_eq tmp t name : slice_text tmp t name =
  str "var " ++ tmp ++ str " *" ++ t ++ str "
	if len(" ++ name ++ str ") > 0 {
		" ++ tmp ++ str " = &" ++ name ++ str "[0]
	}".
Proof. reflexivity. Qed.
Lemma readback_text_eq name tmp :
  Sprintf (str "*%s = %s != 0") [name; tmp] = str "*" ++ name ++ str " = " ++ tmp ++ str " != 0".
Proof. reflexivity. Qed.

Lemma uintptr_eq s : uintptr s = str "uintptr(" ++ s ++ str ")".
Proof. reflexivity. Qed.
Lemma pointer_eq s : Sprintf (str "unsafe.Pointer(%s)") [s] = str "unsafe.Pointer(" ++ s ++ str ")".
Proof. reflexivity. Qed.
Lemma address_eq s : Sprintf (str "unsafe.Pointer(&%s)") [s] = str "unsafe.Pointer(&" ++ s ++ str ")".
Proof. reflexivity. Qed.
Lemma slice_word_eq s :
  Sprintf (str "uintptr(unsafe.Pointer(%s))") [s] = str "uintptr(unsafe.Pointer(" ++ s ++ str "))".
Proof. reflexivity. Qed.
Lemma len_word_eq s : Sprintf (str "uintptr(len(%s))") [s] = str "uintptr(len(" ++ s ++ str "))".
Proof. reflexivity. Qed.
(** Constant texts as bytes, one list on each side. *)
Ltac same_bytes :=
  repeat match goal with
  | |- context [str ?s] => let v := eval vm_compute in (str s) in change (str s) with v
  end;
  cbn [fmap list_fmap print_exp]; rewrite <- ?app_assoc; cbn [app]; rewrite <- ?app_assoc; reflexivity.
Lemma arg_exps_text p tmp : print_exp <$> arg_exps d p tmp = arg_words d p tmp.
Proof.
  unfold arg_exps, arg_words.
  rewrite !uintptr_eq, pointer_eq, address_eq, slice_word_eq, len_word_eq. cbv zeta.
  repeat match goal with |- context [if ?b then _ else _] => destruct b end;
    cbn [fmap list_fmap print_exp]; same_bytes.
Qed.
Lemma helper_exps_text p tmp : print_exp <$> helper_exps p tmp = helper_args p tmp.
Proof. unfold helper_exps, helper_args. by destruct (bool_decide _). Qed.
#[local] Opaque str Sprintf unindent.
Ltac close_sq :=
  repeat match goal with
  | |- context [unindent (str ?s)] =>
      let v := eval vm_compute in (unindent (str s)) in
      change (unindent (str s)) with v
  | |- context [unindent [?b]] =>
      let v := eval vm_compute in (unindent [b]) in
      change (unindent [b]) with v
  end.
(** Both sides as one list of bytes and unknown texts. *)
Ltac same_text :=
  unfold print_stmts; cbn [fmap list_fmap concat print_stmt print_exp print_exps print_op];
  rewrite ?app_nil_r, ?unindent_app; close_sq; rewrite <- ?app_assoc; cbn [app]; reflexivity.
Ltac not_nil :=
  first [apply str_not_nil | apply app_not_nil_l, str_not_nil | apply app_not_nil_r; not_nil].
(** A line of a template, whose text is the given one. *)
Ltac same_line t :=
  transitivity (sq t ++ [10]);
  [|symmetry; apply (sq_line t); [not_nil|reflexivity]].

Lemma sq_tmp p tmp :
  sq (print_stmts (tmp_stmts p tmp)) = sq (if_nonempty (tmp_text p tmp) [9] [10]).
Proof.
  unfold tmp_stmts, tmp_text.
  destruct (bool_decide (Param_Type p = tBool));
    [rewrite bool_text_eq, sq_line by (not_nil || done); same_text|].
  destruct (bool_decide (Param_Type p = tBoolPtr));
    [rewrite bool_pointer_text_eq, sq_line by (not_nil || done); same_text|].
  destruct (HasPrefix _ _); [rewrite slice_text_eq, sq_line by (not_nil || done); same_text|reflexivity].
Qed.
(** The lines of the variables that are read back follow the newline of the call. *)
Lemma sq_readback p tmp :
  [10] ++ sq (print_stmts (readback_stmts p tmp)) =
  sq (if_nonempty (readback_text p tmp) [10] []) ++ [10].
Proof.
  unfold readback_stmts, readback_text. destruct (bool_decide _); [|reflexivity].
  rewrite readback_text_eq. unfold if_nonempty. rewrite bool_decide_eq_false_2 by not_nil.
  rewrite !unindent_app. same_text.
Qed.
Lemma sq_readbacks :
  [10] ++ sq (print_stmts (each d ν readback_stmts)) =
  sq (each d ν (λ p tmp, if_nonempty (readback_text p tmp) [10] [])) ++ [10].
Proof.
  unfold each. generalize (Params d) as ps. intros ps. revert ν.
  induction ps as [|p ps IH]; intros μ; [reflexivity|]. rewrite !imap_cons. cbn [concat].
  rewrite print_stmts_app, !unindent_app, app_assoc, sq_readback, <- !app_assoc.
  f_equal. apply (IH (λ i, μ (S i))).
Qed.
Lemma sq_readbacks_then t :
  sq (each d ν (λ p tmp, if_nonempty (readback_text p tmp) [10] [])) ++ 10 :: t =
  10 :: sq (print_stmts (each d ν readback_stmts)) ++ t.
Proof.
  pose proof (f_equal (λ l, l ++ t) sq_readbacks) as Hr. cbn [app] in Hr.
  by rewrite Hr, <- app_assoc.
Qed.

Lemma string_text_eq tmp name :
  string_text pkg d tmp name =
  let errvar := if bool_decide (error_var d = []) then str "_" else error_var d in
  str "var " ++ tmp ++ str " " ++ StrconvType d ++ str "
	" ++ tmp ++ str ", " ++ errvar ++ str " = " ++ StrconvFunc pkg d ++ str "(" ++ name ++ str ")" ++
  (if bool_decide (errvar = str "-") then [] else str "
	if " ++ errvar ++ str " != nil {
		return
	}").
Proof.
  unfold string_text. fold (error_var d). cbv zeta.
  set (errvar := if bool_decide (error_var d = []) then str "_" else error_var d).
  transitivity (if bool_decide (errvar = str "-") then
    str "var " ++ tmp ++ str " " ++ StrconvType d ++ str "
	" ++ tmp ++ str ", " ++ errvar ++ str " = " ++ StrconvFunc pkg d ++ str "(" ++ name ++ str ")"
    else (str "var " ++ tmp ++ str " " ++ StrconvType d ++ str "
	" ++ tmp ++ str ", " ++ errvar ++ str " = " ++ StrconvFunc pkg d ++ str "(" ++ name ++ str ")") ++
    str "
	if " ++ errvar ++ str " != nil {
		return
	}").
  - destruct (bool_decide (errvar = str "-")); reflexivity.
  - destruct (bool_decide (errvar = str "-")); [by rewrite app_nil_r|by rewrite <- !app_assoc].
Qed.
Lemma sq_helper p tmp :
  sq (print_stmts (helper_stmts pkg d p tmp)) = sq (if_nonempty (helper_text pkg d p tmp) [9] [10]).
Proof.
  unfold helper_stmts, helper_text. destruct (bool_decide (Param_Type p = tString)); [|reflexivity].
  rewrite string_text_eq. cbv zeta. rewrite sq_line by (not_nil || done). unfold StrconvFunc, if_error.
  destruct (bool_decide (_ = str "-")), (IsUTF16 d); same_text.
Qed.

Lemma each_words (f : Param → list Z → list exp) g :
  (∀ p tmp, print_exp <$> f p tmp = g p tmp) → print_exp <$> each d ν f = each d ν g.
Proof.
  intros Hfg. unfold each. generalize (Params d) as ps. intros ps. revert ν.
  induction ps as [|p ps IH]; intros μ; [done|]. rewrite !imap_cons. cbn [concat].
  rewrite fmap_app, Hfg. f_equal. apply (IH (λ i, μ (S i))).
Qed.
Lemma call_exps_text :
  print_exps (each d ν (arg_exps d) ++
    replicate (Z.to_nat (call_width (nargs d) - nargs d)) (Num (str "0") 0)) =
  Join (call_words d ν) (str ", ").
Proof.
  unfold print_exps, call_words. f_equal. rewrite fmap_app, fmap_replicate. f_equal.
  apply each_words, arg_exps_text.
Qed.

Lemma sq_absent : sq (print_stmts (absent_stmts d)) = sq (t_maybeabsent d).
Proof.
  unfold t_maybeabsent, absent_stmts, MaybeAbsent, if_error. destruct (fnMaybeAbsent _); [|reflexivity].
  cbn [negb]. fold (error_var d). set (x := if bool_decide (error_var d = []) then varErr else error_var d).
  same_line (x ++ str " = proc" ++ DLLFuncName d ++ str ".Find()
	if " ++ x ++ str " != nil {
		return
	}"). same_text.
Qed.
Lemma SetReturnValuesCode_eq : SetReturnValuesCode (Fn_Rets d) =
  match rets_stmt d with Some (r, e) => r ++ str ", _, " ++ e ++ str " := " | None => [] end.
Proof. unfold SetReturnValuesCode, rets_stmt. by destruct (_ && _). Qed.
Lemma sq_call : sq (print_stmts [call_stmt pkg d ν]) = sq (syscall_text pkg d ν) ++ [10].
Proof.
  unfold call_stmt, syscall_text. rewrite SetReturnValuesCode_eq, <- call_exps_text.
  destruct (rets_stmt d) as [[r e]|]; same_text.
Qed.

(** The text of a failed call: the condition, and the error of the call. *)
Definition fail_text (x : text) : text :=
  str "if " ++ (if bool_decide (FailCond (Fn_Rets d) = []) then x ++ str " == 0"
     else Replace1 (FailCond (Fn_Rets d)) (str "failretval") x) ++ str " {
		err = errnoErr(e1)
	}".
Lemma fail_text_eq x : useLongHandleErrorCode (Fn_Rets d) x = fail_text x.
Proof. reflexivity. Qed.
Lemma sq_fail x : sq (print_stmt (fail_stmt d x)) = sq (fail_text x) ++ [10].
Proof. unfold fail_stmt, fail_text, varErr. destruct (bool_decide _); same_text. Qed.

(** The text that reads the result of an error type, and of another type. *)
Definition error_text (x : text) : text :=
  if bool_decide (x = varErrNTStatus) || bool_decide (x = str "ntstatus") then
    str "if r0 != 0 {
		" ++ x ++ str " = " ++ windowsdot pkg ++ str "NTStatus(r0)
	}"
  else if bool_decide (x = varErrHR) then
    str "if int32(r0) < 0 {
		if r0&0x1fff0000 == 0x00070000 {
			r0 &= 0xffff
		}
		" ++ x ++ str " = " ++ syscalldot pkg ++ str "Errno(r0)
	}"
  else str "if r0 != 0 {
		" ++ x ++ str " = " ++ syscalldot pkg ++ str "Errno(r0)
	}".
Definition value_text (x ty : text) : text :=
  x ++ str " = " ++
  (if HasPrefix ty (str "*") then str "(" ++ ty ++ str ")(unsafe.Pointer(r0))"
   else if bool_decide (ty = tBool) then str "r0 != 0" else ty ++ str "(r0)").
Lemma SetErrorCode_eq c : SetErrorCode pkg (Fn_Rets d) = Ret c →
  let r := Fn_Rets d in
  let x := Rets_Name r in
  c = if bool_decide (x = []) && negb (ReturnsError r) then []
      else if bool_decide (x = []) then fail_text (str "r1")
      else if bool_decide (Rets_Type r = tError) then error_text x
      else value_text x (Rets_Type r) ++ if ReturnsError r then [10; 9] ++ fail_text x else [].
Proof.
  unfold SetErrorCode. cbv zeta. set (x := Rets_Name (Fn_Rets d)). set (ty := Rets_Type (Fn_Rets d)).
  destruct (bool_decide (x = []) && _); [by intros [= <-]|].
  destruct (bool_decide (x = [])); [by intros [= <-]|].
  destruct (bool_decide (ty = tError)).
  { unfold error_text. destruct (bool_decide (x = varErrNTStatus) || _); [by intros [= <-]|].
    destruct (bool_decide (x = varErrHR)); by intros [= <-]. }
  destruct ty as [|b ty']; [done|]. change (index (b :: ty') 0) with (Ret b). cbn [mbind res_bind].
  assert (Hb : HasPrefix (b :: ty') (str "*") = (b =? 42)).
  { change (str "*") with [42]. cbn [HasPrefix]. rewrite HasPrefix_nil, andb_true_r. apply Z.eqb_sym. }
  unfold value_text. rewrite Hb, fail_text_eq.
  destruct (ReturnsError (Fn_Rets d)); cbn [negb]; intros [= <-];
    [f_equal|rewrite app_nil_r]; by destruct (b =? 42), (bool_decide (b :: ty' = tBool)).
Qed.
Lemma sq_error c :
  SetErrorCode pkg (Fn_Rets d) = Ret c →
  sq (print_stmts (error_stmts pkg d)) = sq (if_nonempty c [9] [10]).
Proof.
  intros ->%SetErrorCode_eq. unfold error_stmts. cbv zeta.
  set (x := Rets_Name (Fn_Rets d)). set (ty := Rets_Type (Fn_Rets d)).
  destruct (bool_decide (x = []) && _); [reflexivity|].
  destruct (bool_decide (x = [])).
  { rewrite sq_line by (done || unfold fail_text; not_nil).
    unfold print_stmts. cbn [fmap list_fmap concat]. by rewrite app_nil_r, sq_fail. }
  destruct (bool_decide (ty = tError)).
  { unfold error_text, r0. destruct (bool_decide (x = varErrNTStatus) || _);
      [|destruct (bool_decide (x = varErrHR))]; rewrite sq_line by (not_nil || done); same_text. }
  rewrite sq_line by (done || unfold value_text; rewrite <- !app_assoc; not_nil).
  unfold print_stmts. cbn [fmap list_fmap concat].
  assert (Hv : ∀ e, print_exp e = (if HasPrefix ty (str "*") then str "(" ++ ty ++ str ")(unsafe.Pointer(r0))"
      else if bool_decide (ty = tBool) then str "r0 != 0" else ty ++ str "(r0)") →
    sq (print_stmt (Assign x e)) = sq (value_text x ty) ++ [10]).
  { intros e He. cbn [print_stmt]. rewrite He. unfold value_text. rewrite !unindent_app, <- !app_assoc. same_text. }
  rewrite unindent_app, Hv by (unfold r0; destruct (HasPrefix ty _); [done|]; by destruct (bool_decide _)).
  destruct (ReturnsError (Fn_Rets d)); cbn [negb fmap list_fmap concat].
  - rewrite app_nil_r, sq_fail, !unindent_app. same_text.
  - by rewrite !app_nil_r.
Qed.

(** *** Whole functions *)
Lemma param_decls_text ty : 
  print_decls ((λ p, (Param_Name p, ty p)) <$> Params d) =
  join (Params d) (λ p, Param_Name p ++ str " " ++ ty p) (str ", ").
Proof. unfold print_decls, join. by rewrite <- list_fmap_compose. Qed.
Lemma print_decls_pos x t l : (0 <? zlen (print_decls ((x, t) :: l))) = true.
Proof.
  apply Z.ltb_lt. unfold print_decls. cbn [fmap list_fmap].
  assert (Hs : 0 < zlen (x ++ str " " ++ t)).
  { rewrite !zlen_app. change (zlen (str " ")) with 1. pose_lens. lia. }
  destruct l as [|[y u] l]; cbn [fmap list_fmap Join]; [done|]. rewrite zlen_app. pose_lens. lia.
Qed.
Lemma results_text : t_results d =
  if bool_decide (result_decls d = []) then [] else str "(" ++ print_decls (result_decls d) ++ str ") ".
Proof.
  unfold t_results, Rets_List, result_decls. cbv zeta.
  assert (Hj : join (ToParams (Fn_Rets d)) name_type (str ", ") =
    print_decls ((λ p, (Param_Name p, Param_Type p)) <$> ToParams (Fn_Rets d))).
  { unfold print_decls, join. by rewrite <- list_fmap_compose. }
  destruct (ToParams (Fn_Rets d)) as [|p ps] eqn:E.
  - change (join [] name_type (str ", ")) with (@nil Z). cbn [zlen length Z.of_nat Z.ltb Z.compare fmap list_fmap].
    destruct (fnMaybeAbsent _); [|reflexivity]. rewrite bool_decide_eq_false_2 by done. reflexivity.
  - rewrite Hj. cbn [fmap list_fmap]. rewrite print_decls_pos. unfold if_nonempty.
    rewrite !bool_decide_eq_false_2 by (done || not_nil). cbn [app]. by rewrite <- !app_assoc.
Qed.

Lemma sq_helper_func :
  sq (helper_body_text pkg d ν) = sq (print_func (helper_func pkg d ν)).
Proof.
  unfold helper_body_text, print_func, helper_func. cbn [g_name g_params g_results g_body].
  unfold ParamList. rewrite (param_decls_text Param_Type).
  change (λ p, Param_Name p ++ str " " ++ Param_Type p) with name_type.
  fold (print_stmts (each d ν (helper_stmts pkg d) ++ [ReturnCall (HelperName d) (each d ν helper_exps)])).
  rewrite print_stmts_app, !unindent_app, results_text.
  rewrite (each_text (helper_stmts pkg d) (λ p tmp, if_nonempty (helper_text pkg d p tmp) [9] [10]))
    by apply sq_helper.
  unfold print_exps. rewrite <- (each_words helper_exps helper_args) by apply helper_exps_text.
  unfold print_stmts, print_exps. cbn [fmap list_fmap concat print_stmt].
  rewrite app_nil_r, !unindent_app. close_sq. rewrite <- !app_assoc. reflexivity.
Qed.

Lemma sq_body_func c :
  SetErrorCode pkg (Fn_Rets d) = Ret c →
  sq (func_body_text pkg d ν c) = sq (print_func (body_func pkg d ν)).
Proof.
  intros Hc. unfold func_body_text, print_func, body_func. cbn [g_name g_params g_results g_body].
  unfold HelperParamList. rewrite (param_decls_text (HelperType d)).
  match goal with |- context [concat (print_stmt <$> ?l)] => change (concat (print_stmt <$> l)) with (print_stmts l) end.
  rewrite !print_stmts_app, !unindent_app, results_text, sq_absent, sq_call, (sq_error c) by done.
  rewrite (each_text tmp_stmts (λ p tmp, if_nonempty (tmp_text p tmp) [9] [10])) by apply sq_tmp.
  assert (Ht : sq (print_stmts (trace_stmts d)) = sq (t_printtrace d)).
  { unfold trace_stmts, t_printtrace, print_stmts. destruct (PrintTrace d); [|reflexivity].
    cbn [fmap list_fmap concat print_stmt]. by rewrite app_nil_r. }
  rewrite Ht. change (print_stmts [Return]) with (str "return
" ++ []). cbn [fmap list_fmap concat print_stmt].
  rewrite app_nil_r. close_sq. cbn [app]. rewrite <- ?app_assoc. cbn [app].
  by rewrite sq_readbacks_then.
Qed.

(** Up to indentation, the text of the code is the reference text. *)
Lemma go_funcs_text c :
  SetErrorCode pkg (Fn_Rets d) = Ret c →
  sq (func_text pkg d ν c) = sq (concat (print_func <$> go_funcs pkg d ν)).
Proof.
  intros Hc. unfold func_text, go_funcs. rewrite unindent_app, (sq_body_func c) by done.
  destruct (HasStringParam d); cbn [fmap list_fmap concat]; rewrite ?app_nil_r, ?unindent_app;
    [|reflexivity]. by rewrite sq_helper_func.
Qed.
End Text.
