(* ===== verification/SyscallMeaning.v ===== *)
(** * What a declared system call means

    A declaration says: convert the strings, look the procedure up if it may be absent,
    call it with the words of the parameters, and read the results off the
    result word and the last error.  The printed code of a declaration does
    this, whatever the system answers. *)
From S2P Require Import Prelude GoStrings Unicode GoText Mkwinsyscall MkwinsyscallGen MkwinsyscallSpec MkwinsyscallText GoCode SyscallCode.

(** ** The meaning *)
Section Meaning.
Context `{Windows E, Flags} (conv : text → Z → Z) (cond : text → val → bool) (dll : text) (d : Fn).

(** The words that carry a value: an empty slice has no first element. *)
Definition words_of (v : val) : list Z :=
  match v with
  | VInt z => [u64 z]
  | VPtr a => [u64 a]
  | VBool b => [if b then 1 else 0]
  | VSlice a n => [u64 (if 0 <? n then a else 0); u64 n]
  | VStr _ | VErr _ => []
  end.

(** Strings become pointers, in order, up to the first that cannot. *)
Fixpoint convert (vs : list val) : St E (list val + error) :=
  match vs with
  | [] => mret (inl [])
  | VStr s :: vs =>
      r ← PtrFromString (IsUTF16 d) s;
      match r with
      | inr e => mret (inr e)
      | inl a =>
          r ← convert vs;
          mret (match r with inl vs => inl (VPtr a :: vs) | inr e => inr e end)
      end
  | v :: vs =>
      r ← convert vs;
      mret (match r with inl vs => inl (v :: vs) | inr e => inr e end)
  end.

Definition the_error_var : text := if bool_decide (error_var d = []) then varErr else error_var d.
(** The results of a call that is not made: all zero but the error. *)
Definition error_results (e : error) : list val :=
  (λ '(x, ty), if bool_decide (x = the_error_var) then VErr (Some e) else zero ty) <$> result_decls d.

Definition failed (v : val) (e : Z) : option error :=
  let c := FailCond (Fn_Rets d) in
  let b := if bool_decide (c = []) then match v with VInt z => z =? 0 | _ => false end
           else cond c v in
  if b then Some (errnoErr e) else None.
(** A result of type [error]: an NTSTATUS, an HRESULT, or an error number. *)
Definition status_error (name : text) (r : Z) : option error :=
  if bool_decide (name = varErrNTStatus) || bool_decide (name = str "ntstatus") then
    if r =? 0 then None else Some (Errorf "NTStatus" [u32 r] [])
  else if bool_decide (name = varErrHR) then
    if i32 r <? 0 then
      Some (Errno (if Z.land r 0x1fff0000 =? 0x00070000 then Z.land r 0xffff else r))
    else None
  else if r =? 0 then None else Some (Errno r).
Definition read_value (ty : text) (r : Z) : val :=
  if HasPrefix ty (str "*") then VPtr (u64 r)
  else if bool_decide (ty = tBool) then VBool (negb (r =? 0))
  else VInt (conv ty r).
Definition read_results (r e : Z) : list val :=
  let t := Fn_Rets d in
  if bool_decide (Rets_Name t = []) then
    if ReturnsError t then [VErr (failed (VInt r) e)]
    else if fnMaybeAbsent t then [VErr None] else []
  else if bool_decide (Rets_Type t = tError) then [VErr (status_error (Rets_Name t) r)]
  else
    let v := read_value (Rets_Type t) r in
    v :: (if ReturnsError t then [VErr (failed v e)] else []).

Definition call_meaning (vs : list val) : St E (list val) :=
  err ← (if fnMaybeAbsent (Fn_Rets d) then Proc_Find dll (DLLFuncName d) else mret None);
  match err with
  | Some e => mret (error_results e)
  | None =>
      '(r, e) ← Proc_Call dll (DLLFuncName d) (concat (words_of <$> vs));
      mret (read_results r e)
  end.
Definition meaning (vs : list val) : St E (list val) :=
  c ← convert vs;
  match c with
  | inr e => mret (error_results e)
  | inl vs => call_meaning vs
  end.
End Meaning.

(** ** Values of a type, and declarations whose code compiles *)
Definition has_type (ty : text) (v : val) : Prop :=
  if bool_decide (ty = tBool) then ∃ b, v = VBool b
  else if bool_decide (ty = tString) then ∃ s, v = VStr s
  else if HasPrefix ty (str "*") then ∃ a, v = VPtr a
  else if HasPrefix ty (str "[]") then ∃ a n, v = VSlice a n ∧ 0 ≤ n
  else if bool_decide (ty = str "unsafe.Pointer") then ∃ a, v = VPtr a
  else ∃ z, v = VInt z.

Definition needs_var (p : Param) : bool :=
  bool_decide (Param_Type p = tBool) || bool_decide (Param_Type p = tString) ||
  HasPrefix (Param_Type p) (str "[]").

(** The names of a function: its parameters, its results and the variables of the call. *)
Definition declared_names (d : Fn) : list text :=
  (Param_Name <$> Params d) ++ (result_decls d).*1 ++ [str "r0"; str "r1"; str "e1"; str "_"].

Record decl_ok (d : Fn) : Prop := {
  ok_no_bool_ptr : Forall (λ p, Param_Type p ≠ tBoolPtr) (Params d);
  ok_strings : HasStringParam d = true → error_var d ≠ [] ∧ error_var d ≠ str "-";
  ok_absent : fnMaybeAbsent (Fn_Rets d) = true → error_var d ≠ [] ∨ ToParams (Fn_Rets d) = [];
  ok_default : Rets_Name (Fn_Rets d) ≠ [] → ReturnsError (Fn_Rets d) = true →
    FailCond (Fn_Rets d) = [] →
    HasPrefix (Rets_Type (Fn_Rets d)) (str "*") = false ∧ Rets_Type (Fn_Rets d) ≠ tBool;
  ok_one_error : ReturnsError (Fn_Rets d) = true → Rets_Type (Fn_Rets d) ≠ tError;
  ok_names : NoDup (declared_names d);
}.

(** A numbering of variables that collides with nothing. *)
Record vars_fresh (d : Fn) (ν : nat → text) : Prop := {
  fresh_inj : ∀ i j p q, Params d !! i = Some p → Params d !! j = Some q →
    needs_var p = true → needs_var q = true → ν i = ν j → i = j;
  fresh_names : ∀ i p, Params d !! i = Some p → needs_var p = true → ν i ∉ declared_names d;
}.

Lemma zero_ptr t : zero (str "*" ++ t) = VPtr 0.
Proof. unfold zero. by rewrite !bool_decide_eq_false_2, HasPrefix_app. Qed.

(** ** Running code *)
Section Runs.
Context `{Windows E} (conv : text → Z → Z) (cond : text → val → bool).
Context (procs : text → option (text * text)).
Abbreviation run := (execs conv cond procs).

Lemma execs_app l k ρ :
  ∀ e, run (l ++ k) ρ e = (o ← run l ρ; match o with Next ρ => run k ρ | _ => mret o end) e.
Proof.
  revert ρ. induction l as [|s l IH]; intros ρ e; [done|]. cbn [app execs].
  rewrite !St_bind_eq. 
  by destruct (exec conv cond procs s ρ e) as [[[ρ'|ρ'|f vs]| | |] e'].
Qed.
Lemma exec_If c body ρ e :
  exec conv cond procs (If c body) ρ e =
  (v ← lift (eval conv ρ c);
   match v with
   | VBool true => run body ρ
   | VBool false => mret (Next ρ)
   | _ => lift does_not_compile
   end) e.
Proof. reflexivity. Qed.
Lemma exec_IfFail c x body ρ e :
  exec conv cond procs (IfFail c x body) ρ e =
  (v ← lift (lookup_var ρ x); if cond c v then run body ρ else mret (Next ρ)) e.
Proof. reflexivity. Qed.

(** Code that only computes. *)
Definition steps (l : list stmt) (ρ ρ' : env) : Prop := ∀ e, run l ρ e = (Ret (Next ρ'), e).
Lemma steps_app l k ρ ρ' e : steps l ρ ρ' → run (l ++ k) ρ e = run k ρ' e.
Proof. intros Hl. rewrite execs_app, St_bind_eq, Hl. done. Qed.
Lemma steps_trans l k ρ ρ' ρ'' : steps l ρ ρ' → steps k ρ' ρ'' → steps (l ++ k) ρ ρ''.
Proof. intros Hl Hk e. by rewrite (steps_app _ _ _ _ _ Hl). Qed.

Lemma lookup_var_Some ρ x v : ρ !! x = Some v → lookup_var ρ x = Ret v.
Proof. intros Hx. unfold lookup_var. by rewrite Hx. Qed.
Lemma assign_Some ρ x v w : x ≠ str "_" → ρ !! x = Some w → assign x v ρ = Ret (<[x := v]> ρ).
Proof.
  intros Hx Hw. unfold assign. rewrite bool_decide_eq_false_2 by done.
  by rewrite bool_decide_eq_true_2 by (rewrite Hw; eauto).
Qed.

Lemma steps_nil ρ : steps [] ρ ρ.
Proof. done. Qed.
Lemma steps_cons s l ρ ρ' ρ'' : steps [s] ρ ρ' → steps l ρ' ρ'' → steps (s :: l) ρ ρ''.
Proof. apply (steps_trans [s]). Qed.
Lemma steps_exec s ρ ρ' :
  (∀ e, exec conv cond procs s ρ e = (Ret (Next ρ'), e)) → steps [s] ρ ρ'.
Proof. intros Hs e. cbn [execs]. by rewrite St_bind_eq, Hs. Qed.
Lemma steps_VarDecl x ty ρ : steps [VarDecl x ty] ρ (<[x := zero ty]> ρ).
Proof. by apply steps_exec. Qed.
Lemma steps_Assign x ex v w ρ :
  eval conv ρ ex = Ret v → x ≠ str "_" → ρ !! x = Some w →
  steps [Assign x ex] ρ (<[x := v]> ρ).
Proof.
  intros Hv Hx Hw. apply steps_exec. intros e. cbn [exec]. rewrite Hv, St_bind_eq. cbn [lift].
  by rewrite (assign_Some _ _ _ w), St_bind_eq.
Qed.
Lemma steps_If (b : bool) c body ρ ρ' :
  eval conv ρ c = Ret (VBool b) → (if b then steps body ρ ρ' else ρ' = ρ) →
  steps [If c body] ρ ρ'.
Proof.
  intros Hc Hb. apply steps_exec. intros e. rewrite exec_If, Hc, St_bind_eq. cbn [lift].
  destruct b; [apply Hb|by subst].
Qed.
Lemma steps_IfFail c x v body ρ ρ' :
  ρ !! x = Some v → (if cond c v then steps body ρ ρ' else ρ' = ρ) →
  steps [IfFail c x body] ρ ρ'.
Proof.
  intros Hx Hb. apply steps_exec. intros e.
  rewrite exec_IfFail, (lookup_var_Some _ _ _ Hx), St_bind_eq. cbn [lift].
  destruct (cond c v); [apply Hb|by subst].
Qed.
End Runs.

(** ** The variables of a body *)
Section Body.
Context `{Windows E, Flags} (conv : text → Z → Z) (cond : text → val → bool).
Context (procs : text → option (text * text)) (pkg dll : text) (d : Fn) (ν : nat → text).
Context (Hd : decl_ok d) (Hν : vars_fresh d ν).
Context (Hproc : procs (DLLFuncName d) = Some (dll, DLLFuncName d)).
Abbreviation run := (execs conv cond procs).
Abbreviation step := (steps conv cond procs).

(** The value of the variable of a parameter. *)
Definition tmp_val (v : val) : val :=
  match v with
  | VBool b => VInt (if b then 1 else 0)
  | VSlice a n => VPtr (if 0 <? n then a else 0)
  | v => v
  end.
(** The types in the body: strings are pointers there. *)
Definition body_var (p : Param) : bool :=
  bool_decide (Param_Type p = tBool) || HasPrefix (Param_Type p) (str "[]").
Lemma body_var_needs p : body_var p = true → needs_var p = true.
Proof. unfold body_var, needs_var. intros [-> | ->]%orb_true_iff; [done|]. by rewrite orb_true_r. Qed.

Lemma tmp_stmts_var p tmp :
  Param_Type p ≠ tBoolPtr → body_var p = false → tmp_stmts p tmp = [].
Proof.
  unfold body_var, tmp_stmts. intros Hp [-> ->]%orb_false_iff. by rewrite bool_decide_eq_false_2.
Qed.

(** One parameter. *)
Lemma steps_tmp p tmp v ρ :
  Param_Type p ≠ tBoolPtr → has_type (HelperType d p) v → body_var p = true →
  tmp ≠ str "_" → tmp ≠ Param_Name p → ρ !! Param_Name p = Some v →
  ∃ ρ', step (tmp_stmts p tmp) ρ ρ' ∧ ρ' !! tmp = Some (tmp_val v) ∧
        ∀ x, x ≠ tmp → ρ' !! x = ρ !! x.
Proof.
  intros Hp Ht Hb H_ Hne Hv. unfold tmp_stmts.
  assert (Hstr : Param_Type p ≠ tString).
  { intros E1. unfold body_var in Hb. by rewrite E1 in Hb. }
  unfold HelperType in Ht. rewrite bool_decide_eq_false_2 in Ht by done.
  assert (Hgen : ∀ ty c (b : bool) w ex, (∀ ρ1, ρ1 !! Param_Name p = Some v → eval conv ρ1 c = Ret (VBool b)) →
    (∀ ρ1, b = true → ρ1 !! Param_Name p = Some v → eval conv ρ1 ex = Ret w) →
    ∃ ρ', step [VarDecl tmp ty; If c [Assign tmp ex]] ρ ρ' ∧
      ρ' !! tmp = Some (if b then w else zero ty) ∧ ∀ x, x ≠ tmp → ρ' !! x = ρ !! x).
  { intros ty c b w ex Hc Hex. set (ρ1 := <[tmp := zero ty]> ρ).
    assert (Hv1 : ρ1 !! Param_Name p = Some v) by (unfold ρ1; by rewrite lookup_insert_ne).
    exists (if b then <[tmp := w]> ρ1 else ρ1). split_and!.
    - eapply steps_cons; [apply steps_VarDecl|]. apply (steps_If _ _ _ b); [by apply Hc|].
      destruct b; [|done]. eapply steps_Assign; [by apply Hex|done|apply lookup_insert_eq].
    - destruct b; apply lookup_insert_eq.
    - intros x Hx. destruct b; unfold ρ1; rewrite ?lookup_insert_ne by done; done. }
  unfold has_type in Ht. destruct (bool_decide (Param_Type p = tBool)) eqn:E1.
  - destruct Ht as [b ->].
    destruct (Hgen (str "uint32") (Id (Param_Name p)) b (VInt 1) (Num (str "1") 1))
      as (ρ' & H1 & H2 & H3).
    + intros ρ1 Hρ1. by apply lookup_var_Some.
    + done.
    + exists ρ'. split_and!; [done| |done]. rewrite H2. by destruct b.
  - unfold body_var in Hb. rewrite E1 in Hb. cbn [orb] in Hb.
    rewrite bool_decide_eq_false_2 by done. rewrite Hb.
    rewrite bool_decide_eq_false_2 in Ht by done.
    destruct (HasPrefix (Param_Type p) (str "*")) eqn:E2.
    { apply HasPrefix_spec in E2 as [t E2]. rewrite E2 in Hb. done. }
    rewrite Hb in Ht. destruct Ht as (a & n & -> & Hn).
    destruct (Hgen (str "*" ++ zdrop 2 (Param_Type p)) (Bin Greater (Len (Param_Name p)) (Num (str "0") 0))
      (0 <? n) (VPtr a) (Elem0 (Param_Name p))) as (ρ' & H1 & H2 & H3).
    + intros ρ1 Hρ1. cbn [eval]. by rewrite (lookup_var_Some _ _ _ Hρ1).
    + intros ρ1 Hb1 Hρ1. cbn [eval]. rewrite (lookup_var_Some _ _ _ Hρ1). cbn [mbind res_bind].
      by rewrite Hb1.
    + exists ρ'. split_and!; [done| |done]. rewrite H2. cbn [tmp_val].
      destruct (0 <? n); [done|]. by rewrite zero_ptr.
Qed.

(** The statements of the parameters from [k] on. *)
Lemma imap_step {A} (f : Param → text → list A) p ps k :
  concat (imap (λ i p, f p (ν (k + i))) (p :: ps)) = f p (ν k) ++ concat (imap (λ i p, f p (ν (S k + i))) ps).
Proof.
  rewrite imap_cons. cbn [concat]. rewrite Nat.add_0_r. f_equal. f_equal.
  apply imap_ext. intros i q _. cbn. by rewrite Nat.add_succ_r.
Qed.
(** The variable of one parameter. *)
Lemma step_param p k v ρ :
  Params d !! k = Some p → has_type (HelperType d p) v → ρ !! Param_Name p = Some v →
  (∀ i q, Params d !! i = Some q → Param_Name q ∈ declared_names d) →
  ∃ ρ1, step (tmp_stmts p (ν k)) ρ ρ1 ∧ (body_var p = true → ρ1 !! ν k = Some (tmp_val v)) ∧
    ∀ x, (body_var p = true → x ≠ ν k) → ρ1 !! x = ρ !! x.
Proof.
  intros Hpk Ht Hv Hin.
  assert (Hnp : Param_Type p ≠ tBoolPtr).
  { pose proof (ok_no_bool_ptr d Hd) as Hf. rewrite Forall_lookup in Hf. by apply (Hf k). }
  destruct (body_var p) eqn:Eb.
  - pose proof (fresh_names d ν Hν k p Hpk (body_var_needs p Eb)) as Hf.
    destruct (steps_tmp p (ν k) v ρ) as (ρ1 & S1 & V1 & O1); try done.
    + intros E1. apply Hf. rewrite E1. unfold declared_names. set_solver.
    + intros E1. apply Hf. rewrite E1. by apply (Hin k).
    + exists ρ1. split_and!; [done|done|]. intros x Hx. apply O1. auto.
  - exists ρ. rewrite tmp_stmts_var by done. split_and!; [apply steps_nil|done|done].
Qed.
(** All parameters, from the [k]th on. *)
Lemma steps_tmps ps vs k ρ :
  (∀ i p, ps !! i = Some p → Params d !! (k + i)%nat = Some p) →
  Forall2 (λ p v, has_type (HelperType d p) v ∧ ρ !! Param_Name p = Some v) ps vs →
  ∃ ρ', step (concat (imap (λ i p, tmp_stmts p (ν (k + i))) ps)) ρ ρ' ∧
    (∀ x, x ∈ declared_names d → ρ' !! x = ρ !! x) ∧
    (∀ j q, (j < k)%nat → Params d !! j = Some q → needs_var q = true → ρ' !! ν j = ρ !! ν j) ∧
    ∀ i p v, ps !! i = Some p → vs !! i = Some v → body_var p = true →
      ρ' !! ν (k + i)%nat = Some (tmp_val v).
Proof.
  revert vs k ρ. induction ps as [|p ps IH]; intros vs k ρ Hps Hvs.
  { inversion Hvs; subst. exists ρ. split_and!; [apply steps_nil|done|done|done]. }
  inversion Hvs as [|? v ? vs' [Ht Hv] Hvs']; subst. clear Hvs.
  assert (Hpk : Params d !! k = Some p) by (rewrite <- (Nat.add_0_r k); by apply Hps).
  assert (Hin : ∀ i q, Params d !! i = Some q → Param_Name q ∈ declared_names d).
  { intros i q Hq. apply elem_of_app. left. apply list_elem_of_fmap. exists q.
    split; [done|]. by eapply list_elem_of_lookup_2. }
  destruct (step_param p k v ρ Hpk Ht Hv Hin) as (ρ1 & S1 & V1 & O1).
  destruct (IH vs' (S k) ρ1) as (ρ' & S2 & O2 & P2 & V2).
  { intros i q Hq. rewrite Nat.add_succ_l, <- Nat.add_succ_r. by apply Hps. }
  { apply Forall2_same_length_lookup_2; [by eapply Forall2_length|]. intros i q w Hq Hw.
    destruct (Forall2_lookup_lr _ _ _ _ _ _ Hvs' Hq Hw) as [Htq Hwq]. split; [done|].
    rewrite O1; [done|]. intros Eb E1.
    apply (fresh_names d ν Hν k p Hpk (body_var_needs p Eb)). rewrite <- E1.
    apply (Hin (k + S i)%nat). by apply (Hps (S i)). }
  exists ρ'. split_and!.
  - rewrite imap_step. eapply steps_trans; [exact S1|exact S2].
  - intros x Hx. rewrite O2 by done. apply O1. intros Eb ->.
    by apply (fresh_names d ν Hν k p Hpk (body_var_needs p Eb)).
  - intros j q Hj Hq Hn. rewrite (P2 j q) by (done || lia). apply O1. intros Eb E1.
    enough (j = k) by lia. by eapply (fresh_inj d ν Hν j k q p); eauto using body_var_needs.
  - intros i q w Hq Hw Eb. destruct i as [|i]; cbn in Hq, Hw.
    + injection Hq as <-. injection Hw as <-. rewrite Nat.add_0_r.
      rewrite (P2 k p) by (done || lia || by apply body_var_needs). by apply V1.
    + rewrite Nat.add_succ_r. by apply (V2 i q w).
Qed.

(** *** The words *)
Lemma u64_u64 z : u64 (u64 z) = u64 z.
Proof. unfold u64. by rewrite Zmod_mod. Qed.
Lemma eval_words_app ρ l k ws us :
  eval_words conv ρ l = Ret ws → eval_words conv ρ k = Ret us →
  eval_words conv ρ (l ++ k) = Ret (ws ++ us).
Proof.
  revert ws. induction l as [|x l IH]; intros ws; cbn; [by intros [= <-]|].
  destruct (eval_word conv ρ x); try done. cbn. destruct (eval_words conv ρ l); try done. cbn.
  intros [= <-] Hk. by rewrite (IH _ eq_refl Hk).
Qed.
Lemma eval_words_zeros ρ n :
  eval_words conv ρ (replicate n (Num (str "0") 0)) = Ret (replicate n 0).
Proof.
  induction n as [|n IH]; [done|]. cbn [replicate eval_words]. unfold eval_word.
  cbn [eval mbind res_bind]. by rewrite IH.
Qed.

Lemma HelperType_string p : HelperType d p ≠ tString.
Proof.
  unfold HelperType, StrconvType. case_bool_decide; [by destruct (IsUTF16 d)|done].
Qed.
Lemma HelperType_no_bool_ptr p : Param_Type p ≠ tBoolPtr → HelperType d p ≠ tBoolPtr.
Proof. unfold HelperType, StrconvType. case_bool_decide; [by destruct (IsUTF16 d)|done]. Qed.
Lemma HelperType_body_var p :
  HelperType d p = tBool ∨ HasPrefix (HelperType d p) (str "[]") = true → body_var p = true.
Proof.
  unfold HelperType, StrconvType, body_var. case_bool_decide as E1.
  - destruct (IsUTF16 d); by intros [|].
  - intros [-> | ->]; [done|]. apply orb_true_r.
Qed.
Lemma eval_args_one p tmp v ρ :
  Param_Type p ≠ tBoolPtr → has_type (HelperType d p) v → ρ !! Param_Name p = Some v →
  (body_var p = true → ρ !! tmp = Some (tmp_val v)) →
  eval_words conv ρ (arg_exps d p tmp) = Ret (words_of v) ∧ zlen (words_of v) = slots p.
Proof.
  intros Hp Ht Hv Htmp. pose proof (HelperType_string p) as Hs.
  pose proof (HelperType_no_bool_ptr p Hp) as Hbp. pose proof (HelperType_body_var p) as Hbv.
  assert (Hsl : slots p = if HasPrefix (HelperType d p) (str "[]") then 2 else 1).
  { unfold slots, HelperType, StrconvType. case_bool_decide as E1; [|done].
    rewrite E1. by destruct (IsUTF16 d). }
  rewrite Hsl. clear Hsl. unfold arg_exps. cbv zeta. revert Ht Hs Hbp Hbv.
  generalize (HelperType d p). intros t Ht Hs Hbp Hbv. unfold has_type in Ht.
  rewrite (bool_decide_eq_false_2 (t = tBoolPtr)) by done.
  rewrite (bool_decide_eq_false_2 (t = tString)) in Ht by done.
  destruct (bool_decide (t = tBool)) eqn:Eb.
  { apply bool_decide_eq_true in Eb. subst t. destruct Ht as [b ->]. change (HasPrefix tBool (str "*")) with false.
    cbn [eval_words]. unfold eval_word. cbn [eval].
    rewrite (lookup_var_Some _ _ _ (Htmp (Hbv (or_introl eq_refl)))). by destruct b. }
  destruct (HasPrefix t (str "*")) eqn:E2.
  { destruct Ht as [a ->]. apply HasPrefix_spec in E2 as [u ->].
    change (HasPrefix (str "*" ++ u) (str "[]")) with false.
    cbn [eval_words]. unfold eval_word. cbn [eval].
    rewrite (lookup_var_Some _ _ _ Hv). cbn. by rewrite u64_u64. }
  destruct (HasPrefix t (str "[]")) eqn:E3.
  { destruct Ht as (a & n & -> & Hn). cbn [eval_words]. unfold eval_word. cbn [eval].
    rewrite (lookup_var_Some _ _ _ Hv), (lookup_var_Some _ _ _ (Htmp (Hbv (or_intror eq_refl)))).
    cbn. by rewrite u64_u64. }
  case_bool_decide as E4; destruct Ht as [z ->]; cbn [eval_words]; unfold eval_word; cbn [eval];
    by rewrite (lookup_var_Some _ _ _ Hv).
Qed.
Lemma eval_args_all ps vs k ρ :
  Forall2 (λ p v, Param_Type p ≠ tBoolPtr ∧ has_type (HelperType d p) v ∧
    ρ !! Param_Name p = Some v) ps vs →
  (∀ i p v, ps !! i = Some p → vs !! i = Some v → body_var p = true →
    ρ !! ν (k + i)%nat = Some (tmp_val v)) →
  eval_words conv ρ (concat (imap (λ i p, arg_exps d p (ν (k + i))) ps)) =
    Ret (concat (words_of <$> vs)) ∧
  zlen (concat (words_of <$> vs)) = foldr (λ p n, slots p + n) 0 ps.
Proof.
  intros Hps. revert k. induction Hps as [|p v ps vs (Hb & Ht & Hv) Hps IH]; intros k Hk; [done|].
  rewrite imap_cons. cbn [concat fmap list_fmap foldr].
  destruct (eval_args_one p (ν (k + 0)) v ρ Hb Ht Hv) as [E1 Z1].
  { intros Hbv. by apply (Hk O p v). }
  destruct (IH (S k)) as [E2 Z2].
  { intros i q w Hq Hw Hbv. rewrite Nat.add_succ_l, <- Nat.add_succ_r. by apply (Hk (S i) q w). }
  split; [|rewrite zlen_app; lia]. apply eval_words_app; [done|].
  erewrite imap_ext; [exact E2|]. intros i q _. cbn. by rewrite Nat.add_succ_r.
Qed.

(** *** The results *)
Definition zeroed (ρ : env) : Prop := ∀ x ty, (x, ty) ∈ result_decls d → ρ !! x = Some (zero ty).

Lemma results_assigned l ρ x w :
  (∀ y ty, (y, ty) ∈ l → ρ !! y = Some (zero ty)) →
  results l (<[x := w]> ρ) = Ret ((λ '(y, ty), if bool_decide (y = x) then w else zero ty) <$> l).
Proof.
  induction l as [|[y ty] l IH]; intros Hl; [done|]. cbn [results fmap list_fmap].
  rewrite IH by (intros; apply Hl; by right). unfold lookup_var. case_bool_decide as Ey.
  - subst. by rewrite lookup_insert_eq.
  - rewrite lookup_insert_ne by done. by rewrite (Hl y ty) by left.
Qed.
Lemma results_zero l ρ :
  (∀ y ty, (y, ty) ∈ l → ρ !! y = Some (zero ty)) → results l ρ = Ret (zero <$> l.*2).
Proof.
  induction l as [|[y ty] l IH]; intros Hl; [done|]. cbn [results fmap list_fmap].
  rewrite IH by (intros; apply Hl; by right). unfold lookup_var. by rewrite (Hl y ty) by left.
Qed.

Lemma declared_result x ty : (x, ty) ∈ result_decls d →
  x ∈ declared_names d ∧ x ≠ str "r0" ∧ x ≠ str "r1" ∧ x ≠ str "e1" ∧ x ≠ str "_".
Proof.
  intros Hx. assert (Hin : x ∈ (result_decls d).*1) by (apply list_elem_of_fmap; by exists (x, ty)).
  pose proof (ok_names d Hd) as Hn. unfold declared_names in *.
  apply NoDup_app in Hn as (_ & _ & Hn). apply NoDup_app in Hn as (_ & Hn & _).
  specialize (Hn x Hin). split; [set_solver|]. set_solver.
Qed.
Lemma declared_param p : p ∈ Params d →
  Param_Name p ∈ declared_names d ∧ Param_Name p ≠ str "r0" ∧ Param_Name p ≠ str "r1" ∧
  Param_Name p ≠ str "e1" ∧ Param_Name p ≠ str "_" ∧
  ∀ ty, (Param_Name p, ty) ∉ result_decls d.
Proof.
  intros Hp. assert (Hin : Param_Name p ∈ (Param_Name <$> Params d)) by (apply list_elem_of_fmap; eauto).
  pose proof (ok_names d Hd) as Hn. unfold declared_names in *.
  apply NoDup_app in Hn as (_ & Hn & _). specialize (Hn _ Hin).
  assert (Hr : ∀ ty, (Param_Name p, ty) ∉ result_decls d).
  { intros ty Ht. apply Hn. apply elem_of_app. left. apply list_elem_of_fmap. by exists (Param_Name p, ty). }
  split_and!; [set_solver..|done].
Qed.

Lemma result_decls_eq : result_decls d =
  let r := Fn_Rets d in
  (if bool_decide (Rets_Name r = []) then [] else [(Rets_Name r, Rets_Type r)]) ++
  (if ReturnsError r then [(varErr, tError)]
   else if bool_decide (Rets_Name r = []) && fnMaybeAbsent r then [(varErr, tError)] else []).
Proof.
  unfold result_decls, ToParams. cbv zeta.
  destruct (Rets_Name (Fn_Rets d)) as [|c t] eqn:En; cbn [zlen length].
  - cbn. by destruct (ReturnsError _), (fnMaybeAbsent _).
  - replace (0 <? Z.of_nat (S (length t))) with true by (symmetry; apply Z.ltb_lt; lia).
    rewrite bool_decide_eq_false_2 by done. by destruct (ReturnsError _).
Qed.
Lemma error_var_declared : error_var d ≠ [] → (error_var d, tError) ∈ result_decls d.
Proof.
  rewrite result_decls_eq. unfold error_var, ErrorVarName. cbv zeta.
  destruct (ReturnsError _); [set_solver|]. case_bool_decide as E1; [|done]. intros Hn.
  rewrite (bool_decide_eq_false_2 (Rets_Name _ = [])) by done. rewrite E1. set_solver.
Qed.
Lemma the_error_var_declared :
  fnMaybeAbsent (Fn_Rets d) = true → (the_error_var d, tError) ∈ result_decls d.
Proof.
  intros Ha. unfold the_error_var. case_bool_decide as E1; [|by apply error_var_declared].
  destruct (ok_absent d Hd Ha) as [Hn|Hn]; [done|]. unfold result_decls. rewrite Hn. cbn. rewrite Ha.
  set_solver.
Qed.

(** The test of the result, after the call. *)
Lemma steps_fail x v e ρ w :
  ρ !! x = Some v → ρ !! str "e1" = Some (VInt e) → ρ !! varErr = Some w →
  (FailCond (Fn_Rets d) = [] → ∃ z, v = VInt z) →
  step [fail_stmt d x] ρ
    (match failed cond d v e with Some er => <[varErr := VErr (Some er)]> ρ | None => ρ end).
Proof.
  intros Hx He Herr Hz. unfold fail_stmt, failed. cbv zeta.
  assert (Hbody : step [Assign varErr (ErrnoErr (Id (str "e1")))] ρ (<[varErr := VErr (Some (errnoErr e))]> ρ)).
  { eapply steps_Assign; [|done|exact Herr]. cbn [eval]. by rewrite (lookup_var_Some _ _ _ He). }
  destruct (bool_decide_reflect (FailCond (Fn_Rets d) = [])) as [E1|E1].
  - destruct (Hz E1) as [z ->]. apply (steps_If _ _ _ (z =? 0)).
    + cbn [eval]. by rewrite (lookup_var_Some _ _ _ Hx).
    + by destruct (z =? 0).
  - eapply steps_IfFail; [exact Hx|]. by destruct (cond _ v).
Qed.

(** The variables of the call. *)
Definition call_vars (ρ : env) (r e : Z) : Prop :=
  ∀ x y, rets_stmt d = Some (x, y) →
    ρ !! x = Some (VInt r) ∧ (y ≠ str "_" → ρ !! y = Some (VInt e)).

Lemma results_one x ty ρ v :
  result_decls d = [(x, ty)] → ρ !! x = Some v → results (result_decls d) ρ = Ret [v].
Proof. intros -> Hx. cbn. by rewrite (lookup_var_Some _ _ _ Hx). Qed.
Lemma results_two x ty y uy ρ v w :
  result_decls d = [(x, ty); (y, uy)] → ρ !! x = Some v → ρ !! y = Some w →
  results (result_decls d) ρ = Ret [v; w].
Proof. intros -> Hx Hy. cbn. by rewrite (lookup_var_Some _ _ _ Hx), (lookup_var_Some _ _ _ Hy). Qed.

(** A status becomes an error. *)
Lemma steps_status name r ρ :
  name ≠ str "_" → name ≠ r0 → ρ !! r0 = Some (VInt r) → ρ !! name = Some (VErr None) →
  Rets_Name (Fn_Rets d) = name → Rets_Type (Fn_Rets d) = tError → name ≠ [] →
  ∃ ρ', step (error_stmts pkg d) ρ ρ' ∧ ρ' !! name = Some (VErr (status_error name r)).
Proof.
  intros H_ Hne Hr Hn En Et Hnil. unfold error_stmts, status_error. cbv zeta. rewrite En, Et.
  rewrite bool_decide_eq_false_2, bool_decide_eq_true_2 by done. cbn [andb].
  assert (Hgen : ∀ (b : bool) c ex v, eval conv ρ c = Ret (VBool b) → eval conv ρ ex = Ret v →
    ∃ ρ', step [If c [Assign name ex]] ρ ρ' ∧ ρ' !! name = Some (if b then v else VErr None)).
  { intros b c ex v Hc Hex. exists (if b then <[name := v]> ρ else ρ). split.
    - apply (steps_If _ _ _ b); [done|]. destruct b; [|done]. by eapply steps_Assign.
    - destruct b; [apply lookup_insert_eq|done]. }
  assert (Hl : ∀ ρ, ρ !! r0 = Some (VInt r) → lookup_var ρ r0 = Ret (VInt r)) by (intros; by apply lookup_var_Some).
  destruct (bool_decide (name = varErrNTStatus) || bool_decide (name = str "ntstatus")).
  - destruct (Hgen (negb (r =? 0)) (Bin Neq (Id r0) (Num (str "0") 0)) (ToNTStatus (windowsdot pkg) (Id r0))
      (VErr (Some (Errorf "NTStatus" [u32 r] [])))) as (ρ' & S1 & V1).
    + cbn [eval]. by rewrite (Hl ρ).
    + cbn [eval]. by rewrite (Hl ρ).
    + exists ρ'. split; [done|]. rewrite V1. by destruct (r =? 0).
  - destruct (bool_decide (name = varErrHR)).
    + set (m := Z.land r 0x1fff0000 =? 0x00070000). set (r' := if m then Z.land r 0xffff else r).
      set (ρ1 := if m then <[r0 := VInt r']> ρ else ρ).
      assert (Hr1 : ρ1 !! r0 = Some (VInt r')).
      { unfold ρ1, r'. destruct m; [apply lookup_insert_eq|done]. }
      assert (Hn1 : ρ1 !! name = Some (VErr None)).
      { unfold ρ1. destruct m; [|done]. by rewrite lookup_insert_ne. }
      exists (if i32 r <? 0 then <[name := VErr (Some (Errno r'))]> ρ1 else ρ). split.
      * apply (steps_If _ _ _ (i32 r <? 0)); [cbn [eval]; by rewrite (Hl ρ)|].
        destruct (i32 r <? 0); [|done]. eapply (steps_cons _ _ _ _ _ _ ρ1).
        -- apply (steps_If _ _ _ m); [cbn [eval]; by rewrite (Hl ρ)|].
           unfold ρ1, r'. destruct m; [|done]. apply steps_exec. intros e.
           cbn [exec eval]. rewrite (Hl ρ), St_bind_eq by done. cbn [lift mbind res_bind eval_bin].
           by rewrite (assign_Some _ _ _ (VInt r)), St_bind_eq.
        -- eapply steps_Assign; [|done|exact Hn1]. cbn [eval].
           by rewrite (lookup_var_Some _ _ _ Hr1).
      * destruct (i32 r <? 0); [apply lookup_insert_eq|done].
    + destruct (Hgen (negb (r =? 0)) (Bin Neq (Id r0) (Num (str "0") 0)) (ToErrno (syscalldot pkg) (Id r0))
        (VErr (Some (Errno r)))) as (ρ' & S1 & V1).
      * cbn [eval]. by rewrite (Hl ρ).
      * cbn [eval]. by rewrite (Hl ρ).
      * exists ρ'. split; [done|]. rewrite V1. by destruct (r =? 0).
Qed.

(** A value is converted, and tested when there is an error to report. *)
Lemma steps_value ρ r e :
  let x := Rets_Name (Fn_Rets d) in let ty := Rets_Type (Fn_Rets d) in
  x ≠ [] → ty ≠ tError → call_vars ρ r e → zeroed ρ →
  ∃ ρ', step (error_stmts pkg d) ρ ρ' ∧ results (result_decls d) ρ' =
    Ret (read_value conv ty r ::
         (if ReturnsError (Fn_Rets d) then [VErr (failed cond d (read_value conv ty r) e)] else [])).
Proof.
  intros x ty En Et Hc Hz. pose proof result_decls_eq as Hdecls. cbv zeta in Hdecls.
  fold x ty in Hdecls. rewrite bool_decide_eq_false_2 in Hdecls by done.
  unfold call_vars, rets_stmt in Hc. fold x in Hc. rewrite bool_decide_eq_false_2 in Hc by done.
  cbn [andb] in *. destruct (Hc _ _ eq_refl) as [Hr He]. fold r0 in Hr.
  assert (Hin : (x, ty) ∈ result_decls d) by (rewrite Hdecls; set_solver).
  destruct (declared_result _ _ Hin) as (_ & N1 & _ & N3 & N2).
  set (v := read_value conv ty r). set (ρ1 := <[x := v]> ρ).
  set (ex := if HasPrefix ty (str "*") then ToPtrType ty (ToPointer (Id r0))
             else if bool_decide (ty = tBool) then Bin Neq (Id r0) (Num (str "0") 0)
             else ToType ty (Id r0)).
  assert (S1 : step [Assign x ex] ρ ρ1).
  { eapply steps_Assign; [|done|by apply (Hz x ty)]. unfold ex, v, read_value.
    destruct (HasPrefix ty (str "*")); [|destruct (bool_decide (ty = tBool))]; cbn [eval];
      by rewrite (lookup_var_Some _ _ _ Hr). }
  assert (Hstmts : error_stmts pkg d =
    Assign x ex :: (if negb (ReturnsError (Fn_Rets d)) then [] else [fail_stmt d x])).
  { unfold error_stmts. cbv zeta. fold x. fold ty. by rewrite !bool_decide_eq_false_2 by done. }
  rewrite Hstmts. destruct (ReturnsError (Fn_Rets d)) eqn:Ee; cbn [negb app] in *.
  - specialize (He ltac:(done)).
    assert (Hxe : x ≠ varErr).
    { intros E1. pose proof (ok_names d Hd) as Hn. unfold declared_names in Hn. rewrite Hdecls in Hn.
      apply NoDup_app in Hn as (_ & _ & Hn). cbn in Hn. rewrite E1 in Hn. apply NoDup_cons in Hn as [Hn _].
      apply Hn. set_solver. }
    assert (Herr : ρ1 !! varErr = Some (VErr None)).
    { unfold ρ1. rewrite lookup_insert_ne by done. apply (Hz varErr tError). rewrite Hdecls. set_solver. }
    assert (Hx1 : ρ1 !! x = Some v) by apply lookup_insert_eq.
    eexists. split.
    + eapply steps_cons; [exact S1|]. eapply steps_fail; [exact Hx1| |exact Herr|].
      * unfold ρ1. by rewrite lookup_insert_ne.
      * intros Ec. destruct (ok_default d Hd En Ee Ec) as [Hp Hb]. unfold v, read_value.
        fold ty in Hp, Hb. rewrite Hp, bool_decide_eq_false_2 by done. eauto.
    + eapply results_two; [exact Hdecls|..];
        (destruct (failed _ _ _ _); [|done]); [by rewrite lookup_insert_ne|apply lookup_insert_eq].
  - exists ρ1. split; [exact S1|]. eapply results_one; [exact Hdecls|]. apply lookup_insert_eq.
Qed.

Lemma steps_errors ρ r e :
  call_vars ρ r e → zeroed ρ →
  ∃ ρ', step (error_stmts pkg d) ρ ρ' ∧
        results (result_decls d) ρ' = Ret (read_results conv cond d r e).
Proof.
  intros Hc Hz. pose proof result_decls_eq as Hdecls. cbv zeta in Hdecls.
  unfold read_results. cbv zeta.
  destruct (bool_decide_reflect (Rets_Name (Fn_Rets d) = [])) as [En|En].
  - unfold call_vars, rets_stmt in Hc. cbv zeta in Hc.
    rewrite bool_decide_eq_true_2 in Hc by done. unfold error_stmts. cbv zeta.
    rewrite bool_decide_eq_true_2 by done.
    destruct (ReturnsError (Fn_Rets d)) eqn:Ee; cbn [andb negb app] in *.
    + destruct (Hc _ _ eq_refl) as [Hr He]. specialize (He ltac:(done)).
      assert (Herr : ρ !! varErr = Some (VErr None)) by (apply (Hz varErr tError); rewrite Hdecls; set_solver).
      eexists. split; [eapply steps_fail; eauto|].
      eapply results_one; [exact Hdecls|]. destruct (failed _ _ _ _); [apply lookup_insert_eq|done].
    + exists ρ. split; [apply steps_nil|].
      rewrite results_zero by done. rewrite Hdecls. by destruct (fnMaybeAbsent _).
  - destruct (bool_decide_reflect (Rets_Type (Fn_Rets d) = tError)) as [Et|Et]; [|by apply steps_value].
    assert (Ee : ReturnsError (Fn_Rets d) = false).
    { destruct (ReturnsError _) eqn:Ee; [by destruct (ok_one_error d Hd)|done]. }
    unfold call_vars, rets_stmt in Hc. cbv zeta in Hc.
    rewrite bool_decide_eq_false_2 in Hc by done. rewrite Ee in *. cbn [andb app] in *.
    destruct (Hc _ _ eq_refl) as [Hr _].
    assert (Hin : (Rets_Name (Fn_Rets d), Rets_Type (Fn_Rets d)) ∈ result_decls d) by (rewrite Hdecls; set_solver).
    destruct (declared_result _ _ Hin) as (_ & N1 & _ & _ & N2).
    destruct (steps_status (Rets_Name (Fn_Rets d)) r ρ) as (ρ' & S1 & V1); try done.
    { rewrite (Hz _ _ Hin), Et. done. }
    exists ρ'. split; [done|]. by eapply results_one.
Qed.

(** ** The body *)
Section Finish.
(** What a caller does with the outcome, for the named results. *)
Context (fin : outcome → St E (list val)).
Context (Hfin : ∀ ρ, fin (Returned ρ) = lift (results (result_decls d) ρ)).

(** The test for a procedure that may be absent. *)
Lemma run_absent ρ k e :
  zeroed ρ →
  (o ← run (absent_stmts d ++ k) ρ; fin o) e =
  (err ← (if fnMaybeAbsent (Fn_Rets d) then Proc_Find dll (DLLFuncName d) else mret None);
   match err with
   | Some er => mret (error_results d er)
   | None => o ← run k (if fnMaybeAbsent (Fn_Rets d) then <[the_error_var d := VErr None]> ρ else ρ);
             fin o
   end) e.
Proof.
  intros Hz. unfold absent_stmts. destruct (fnMaybeAbsent (Fn_Rets d)) eqn:Ea; [|done].
  fold (the_error_var d). pose proof (the_error_var_declared Ea) as Hin.
  destruct (declared_result _ _ Hin) as (_ & _ & _ & _ & N_).
  cbn [app execs]. rewrite !St_bind_eq. cbn [exec]. rewrite !St_bind_eq.
  unfold the_proc. rewrite Hproc. cbn [lift]. unfold Proc_Find at 1 2. rewrite !St_bind_eq.
  destruct (w_Find dll (DLLFuncName d) e) as [[er|] e']; cbn [mret St_ret].
  all: rewrite (assign_Some ρ _ _ (zero tError)) by (done || by apply Hz).
  all: rewrite St_bind_eq; cbn [lift mret St_ret]; unfold if_error; cbn [execs].
  all: rewrite St_bind_eq, exec_If; cbn [eval].
  all: rewrite (lookup_var_Some _ _ _ (lookup_insert_eq _ _ _)), St_bind_eq;
    cbn [lift mbind res_bind eval_bin].
  - rewrite bool_decide_eq_true_2 by done. cbn [execs exec]. rewrite !St_bind_eq.
    cbn [mret St_ret]. rewrite Hfin. cbn [lift]. by rewrite results_assigned.
  - rewrite bool_decide_eq_false_2 by naive_solver. cbn [mret St_ret]. done.
Qed.

Lemma readbacks_nil : each d ν readback_stmts = [].
Proof.
  unfold each. pose proof (ok_no_bool_ptr d Hd) as Hb. clear -Hb. revert ν.
  induction Hb as [|p ps Hp Hb IH]; intros μ; [done|]. rewrite imap_cons. cbn [concat].
  unfold readback_stmts at 1. rewrite bool_decide_eq_false_2 by done. apply (IH (λ i, μ (S i))).
Qed.
Lemma steps_trace ρ : step (trace_stmts d) ρ ρ.
Proof. unfold trace_stmts. destruct (PrintTrace d); [by apply steps_exec|apply steps_nil]. Qed.

(** The state of the variables on entry: parameters hold values of their types. *)
Definition entered (ρ : env) (vs : list val) : Prop :=
  Forall2 (λ p v, has_type (HelperType d p) v ∧ ρ !! Param_Name p = Some v) (Params d) vs ∧ zeroed ρ.

Lemma call_vars_declared ρ r e :
  call_vars match rets_stmt d with
            | Some (x, y) => declare y (VInt e) (declare x (VInt r) ρ)
            | None => ρ
            end r e.
Proof.
  intros x y Hxy. rewrite Hxy. unfold rets_stmt in Hxy. cbv zeta in Hxy.
  assert (Hx : x ≠ str "_" ∧ x ≠ y).
  { destruct (_ && _); [done|]. by destruct (bool_decide _), (ReturnsError _); simplify_eq. }
  clear Hxy. unfold declare. rewrite (bool_decide_eq_false_2 (x = str "_")) by tauto. split.
  - case_bool_decide; [apply lookup_insert_eq|]. rewrite lookup_insert_ne by naive_solver.
    apply lookup_insert_eq.
  - intros Hy. rewrite bool_decide_eq_false_2 by done. apply lookup_insert_eq.
Qed.
Lemma zeroed_declared ρ r e :
  zeroed ρ →
  zeroed match rets_stmt d with
         | Some (x, y) => declare y (VInt e) (declare x (VInt r) ρ)
         | None => ρ
         end.
Proof.
  intros Hz x ty Hx. destruct (declared_result _ _ Hx) as (_ & N1 & N2 & N3 & N4).
  destruct (rets_stmt d) as [[a b]|] eqn:Er; [|by apply Hz].
  assert (Ha : a ≠ x ∧ b ≠ x).
  { unfold rets_stmt in Er. cbv zeta in Er. destruct (_ && _); [done|].
    destruct (bool_decide _), (ReturnsError _); simplify_eq; naive_solver. }
  unfold declare. repeat case_bool_decide; rewrite ?lookup_insert_ne by tauto; by apply Hz.
Qed.

Lemma run_call ρ vs e :
  entered ρ vs →
  (o ← run (each d ν tmp_stmts ++ [call_stmt pkg d ν] ++ each d ν readback_stmts ++
            error_stmts pkg d ++ trace_stmts d ++ [Return]) ρ; fin o) e =
  ('(r, er) ← Proc_Call dll (DLLFuncName d) (concat (words_of <$> vs));
   mret (read_results conv cond d r er)) e.
Proof.
  intros [Hvs Hz].
  destruct (steps_tmps (Params d) vs 0 ρ) as (ρ1 & S1 & O1 & _ & V1); [done|done|].
  assert (Hz1 : zeroed ρ1).
  { intros x ty Hx. rewrite O1 by (by apply (declared_result x ty)). by apply Hz. }
  destruct (eval_args_all (Params d) vs 0 ρ1) as [Hw Hlen].
  { apply Forall2_same_length_lookup_2; [by eapply Forall2_length|]. intros i p v Hp Hv.
    destruct (Forall2_lookup_lr _ _ _ _ _ _ Hvs Hp Hv) as [Ht Hl].
    pose proof (ok_no_bool_ptr d Hd) as Hb. rewrite Forall_lookup in Hb.
    split_and!; [by apply (Hb i)|done|]. rewrite O1; [done|].
    apply declared_param. by eapply list_elem_of_lookup_2. }
  { intros i p v Hp Hv Hb. by apply (V1 i p v). }
  rewrite St_bind_eq, (steps_app _ _ _ _ _ _ _ _ S1). cbn [app execs]. unfold call_stmt. cbn [exec].
  rewrite !St_bind_eq. unfold the_proc. rewrite Hproc. cbn [lift].
  rewrite (eval_words_app _ _ _ _ _ Hw (eval_words_zeros _ _)), !St_bind_eq. cbn [lift].
  rewrite ztake_app_eq by (rewrite Hlen; reflexivity). rewrite !St_bind_eq.
  destruct (Proc_Call dll (DLLFuncName d) (concat (words_of <$> vs)) e) as [[[r er]| | |] e'];
    cbn [mret St_ret]; try done.
  rewrite readbacks_nil. cbn [app].
  set (ρ2 := match rets_stmt d with Some (x, y) => _ | None => ρ1 end).
  destruct (steps_errors ρ2 r er) as (ρ3 & S3 & R3);
    [apply call_vars_declared|by apply zeroed_declared|].
  rewrite (steps_app _ _ _ _ _ _ _ _ S3), (steps_app _ _ _ _ _ _ _ _ (steps_trace ρ3)).
  cbn [execs exec]. rewrite !St_bind_eq. cbn [mret St_ret]. rewrite Hfin. cbn [lift]. by rewrite R3.
Qed.

Lemma run_body ρ vs e :
  entered ρ vs →
  (o ← run (g_body (body_func pkg d ν)) ρ; fin o) e = call_meaning conv cond dll d vs e.
Proof.
  intros He. pose proof He as [Hvs Hz]. cbn [body_func g_body]. rewrite run_absent by done.
  unfold call_meaning.
  set (find := (if fnMaybeAbsent (Fn_Rets d) then Proc_Find dll (DLLFuncName d)
                else mret None) : St E (option error)).
  rewrite !St_bind_eq. destruct (find e) as [[[er|]| | |] e']; try done.
  apply run_call. split.
  - destruct (fnMaybeAbsent (Fn_Rets d)) eqn:Ea; [|done].
    eapply Forall2_same_length_lookup_2; [by eapply Forall2_length|]. intros i p v Hp Hv.
    destruct (Forall2_lookup_lr _ _ _ _ _ _ Hvs Hp Hv) as [Ht Hl]. split; [done|].
    rewrite lookup_insert_ne; [done|]. intros E1.
    apply (proj2 (proj2 (proj2 (proj2 (proj2 (declared_param p (list_elem_of_lookup_2 _ _ _ Hp)))))) tError).
    rewrite <- E1. by apply the_error_var_declared.
  - destruct (fnMaybeAbsent (Fn_Rets d)) eqn:Ea; [|done]. intros x ty Hx.
    destruct (decide (x = the_error_var d)) as [->|Hne]; [|rewrite lookup_insert_ne by done; by apply Hz].
    rewrite lookup_insert_eq. pose proof (Hz _ _ Hx) as H1.
    pose proof (Hz _ _ (the_error_var_declared Ea)) as H2. rewrite H1 in H2. by rewrite H2.
Qed.

End Finish.

(** ** The frame of a call *)
Lemma bind_all_lookup (l : list (text * text)) vs i x v :
  NoDup l.*1 → length vs = length l → l.*1 !! i = Some x → vs !! i = Some v →
  bind_all l vs !! x = Some v.
Proof.
  intros Hn Hl Hx Hv. unfold bind_all. apply elem_of_list_to_map_1.
  - rewrite fst_zip; [done|]. rewrite length_fmap. lia.
  - apply list_elem_of_lookup. exists i. apply lookup_zip_with_Some. by exists x, v.
Qed.
Lemma bind_all_None l vs x : x ∉ l.*1 → bind_all l vs !! x = None.
Proof.
  intros Hx. apply not_elem_of_list_to_map_1. contradict Hx.
  apply list_elem_of_fmap in Hx as ([y v] & -> & Hin). by apply elem_of_zip_l in Hin.
Qed.

Lemma frame_entered g vs (ty : Param → text) :
  g_params g = (λ p, (Param_Name p, ty p)) <$> Params d → g_results g = result_decls d →
  Forall2 (λ p v, has_type (ty p) v) (Params d) vs →
  Forall2 (λ p v, has_type (ty p) v ∧ frame g vs !! Param_Name p = Some v) (Params d) vs ∧
  zeroed (frame g vs).
Proof.
  intros Hps Hrs Hvs. pose proof (ok_names d Hd) as Hn. unfold declared_names in Hn.
  apply NoDup_app in Hn as (Hn1 & Hdisj & Hn2). apply NoDup_app in Hn2 as (Hn2 & _ & _).
  pose proof (Forall2_length _ _ _ Hvs) as Hlen.
  assert (Hfst : (g_params g).*1 = Param_Name <$> Params d) by (rewrite Hps, <- list_fmap_compose; done).
  unfold frame. rewrite Hrs. split.
  - apply Forall2_same_length_lookup_2; [done|]. intros i p v Hp Hv.
    split; [by apply (Forall2_lookup_lr _ _ _ _ _ _ Hvs Hp Hv)|].
    rewrite lookup_union_r.
    + apply (bind_all_lookup _ _ i); rewrite ?Hfst; [done| | |done].
      * rewrite Hps, length_fmap. lia.
      * by rewrite list_lookup_fmap, Hp.
    + apply bind_all_None. intros Hin. apply (Hdisj (Param_Name p)); [|set_solver].
      apply list_elem_of_fmap. exists p. split; [done|]. by eapply list_elem_of_lookup_2.
  - intros x t Hx. apply lookup_union_Some_l. apply list_elem_of_lookup in Hx as [i Hi].
    apply (bind_all_lookup _ _ i); [done|by rewrite !length_fmap|..];
      by rewrite !list_lookup_fmap, Hi.
Qed.

(** ** The helper *)
Lemma needs_var_string p : Param_Type p = tString → needs_var p = true.
Proof. intros Hp. unfold needs_var. by rewrite Hp. Qed.
Lemma has_type_string p v :
  has_type (Param_Type p) v →
  (∃ x, Param_Type p = tString ∧ v = VStr x) ∨
  (Param_Type p ≠ tString ∧ HelperType d p = Param_Type p ∧
   ∀ vs e, convert d (v :: vs) e =
     (r ← convert d vs; mret (match r with inl vs => inl (v :: vs) | inr e => inr e end)) e).
Proof.
  intros Ht. destruct (decide (Param_Type p = tString)) as [Es|Es].
  - left. rewrite Es in Ht. destruct Ht as [x ->]. by exists x.
  - right. split; [done|]. unfold HelperType. rewrite bool_decide_eq_false_2 by done. split; [done|].
    intros vs e. unfold has_type in Ht. rewrite (bool_decide_eq_false_2 (_ = tString)) in Ht by done.
    destruct v as [| | | |x|]; try done. exfalso. clear Es.
    repeat case_match; naive_solver.
Qed.

Section Helper.
Context (Hev : error_var d ≠ []) (Hdash : error_var d ≠ str "-").

Definition conv_env (ρ : env) (tmp : text) (a : Z) (er : option error) : env :=
  <[error_var d := VErr er]> (<[tmp := VPtr a]> (<[tmp := VPtr 0]> ρ)).

Lemma PtrFromString_total x e : ∃ r e', PtrFromString (IsUTF16 d) x e = (Ret r, e').
Proof. unfold PtrFromString. case_bool_decide; [by eexists _, _|]. destruct (w_alloc _ e). by eexists _, _. Qed.
Lemma run_conv p tmp k x ρ e :
  zeroed ρ → Param_Type p = tString → tmp ≠ str "_" → tmp ≠ error_var d → tmp ≠ Param_Name p →
  ρ !! Param_Name p = Some (VStr x) →
  run (helper_stmts pkg d p tmp ++ k) ρ e =
    (r ← PtrFromString (IsUTF16 d) x;
     match r with
     | inr er => mret (Returned (conv_env ρ tmp 0 (Some er)))
     | inl a => run k (conv_env ρ tmp a None)
     end) e.
Proof.
  intros Hz Ht N_ Ne Nn Hx. pose proof (error_var_declared Hev) as Hin.
  destruct (declared_result _ _ Hin) as (_ & _ & _ & _ & E_).
  unfold helper_stmts. cbv zeta. rewrite bool_decide_eq_true_2 by done.
  rewrite (bool_decide_eq_false_2 (error_var d = [])) by done.
  rewrite (bool_decide_eq_false_2 (error_var d = str "-")) by done.
  assert (Hzero : zero (StrconvType d) = VPtr 0) by (unfold StrconvType; by destruct (IsUTF16 d)).
  cbn [app execs]. rewrite !St_bind_eq. cbn [exec mret St_ret]. rewrite Hzero, !St_bind_eq.
  set (ρ1 := <[tmp := VPtr 0]> ρ).
  rewrite (lookup_var_Some ρ1 (Param_Name p) (VStr x)) by (unfold ρ1; by rewrite lookup_insert_ne).
  cbn [lift]. rewrite !St_bind_eq.
  assert (Hass : ∀ a er, (ρ2 ← assign tmp (VPtr a) ρ1; assign (error_var d) (VErr er) ρ2) =
    Ret (conv_env ρ tmp a er)).
  { intros a er. rewrite (assign_Some ρ1 tmp _ (VPtr 0)) by (done || apply lookup_insert_eq).
    cbn [mbind res_bind]. rewrite (assign_Some _ _ _ (zero tError)); [done|done|].
    unfold ρ1. rewrite !lookup_insert_ne by done. by apply Hz. }
  assert (Hgo : ∀ a er e', (ρ2 ← lift (assign tmp (VPtr a) ρ1);
      ρ3 ← lift (assign (error_var d) (VErr er) ρ2); mret (Next ρ3) : St E outcome) e' =
      (Ret (Next (conv_env ρ tmp a er)), e')).
  { intros a er e'. specialize (Hass a er). rewrite !St_bind_eq. cbn [lift].
    destruct (assign tmp (VPtr a) ρ1); try done. cbn [mbind res_bind] in Hass.
    rewrite St_bind_eq. cbn [lift]. by rewrite Hass. }
  assert (Hif : ∀ a er, eval conv (conv_env ρ tmp a er) (Bin Neq (Id (error_var d)) Nil) =
    Ret (VBool (bool_decide (er ≠ None)))).
  { intros a er. cbn [eval]. unfold conv_env.
    by rewrite (lookup_var_Some _ _ _ (lookup_insert_eq _ _ _)). }
  destruct (PtrFromString_total x e) as (r & e' & ->).
  destruct r as [a|er]; rewrite Hgo; unfold if_error; cbn [execs];
    rewrite St_bind_eq, exec_If, Hif, St_bind_eq; cbn [lift].
  - by rewrite bool_decide_eq_false_2 by naive_solver.
  - by rewrite bool_decide_eq_true_2.
Qed.

Lemma conv_env_declared ρ tmp a x :
  zeroed ρ → tmp ∉ declared_names d → x ∈ declared_names d →
  conv_env ρ tmp a None !! x = ρ !! x.
Proof.
  intros Hz Ht Hx. unfold conv_env.
  destruct (decide (x = error_var d)) as [->|Hne].
  - rewrite lookup_insert_eq. by rewrite (Hz _ _ (error_var_declared Hev)).
  - rewrite lookup_insert_ne by done. assert (tmp ≠ x) by (intros ->; done).
    by rewrite !lookup_insert_ne by done.
Qed.
Lemma conv_env_results ρ tmp er :
  zeroed ρ → tmp ∉ declared_names d →
  results (result_decls d) (conv_env ρ tmp 0 (Some er)) = Ret (error_results d er).
Proof.
  intros Hz Ht. unfold conv_env, error_results, the_error_var.
  rewrite (bool_decide_eq_false_2 (error_var d = [])) by done. apply results_assigned.
  intros y ty Hy. destruct (declared_result _ _ Hy) as [Hin _].
  assert (tmp ≠ y) by (intros ->; done). rewrite !lookup_insert_ne by done. by apply Hz.
Qed.

Lemma conv_env_tmp ρ tmp a : error_var d ≠ tmp → conv_env ρ tmp a None !! tmp = Some (VPtr a).
Proof. intros Ht. unfold conv_env. rewrite lookup_insert_ne by done. apply lookup_insert_eq. Qed.
Lemma conv_env_others ρ k p a j q :
  Params d !! k = Some p → needs_var p = true → Params d !! j = Some q → needs_var q = true → j ≠ k →
  conv_env ρ (ν k) a None !! ν j = ρ !! ν j.
Proof.
  intros Hp Hnp Hq Hnq Hne. unfold conv_env.
  assert (ν k ≠ ν j) by (intros E2; apply Hne; symmetry; by apply (fresh_inj d ν Hν k j p q)).
  assert (error_var d ≠ ν j) by (destruct (declared_result _ _ (error_var_declared Hev)) as [Hed _]; intros E2; apply (fresh_names d ν Hν j q Hq Hnq); by rewrite <- E2).
  by rewrite !lookup_insert_ne.
Qed.

Lemma helper_exps_conv p tmp ρ a args vs :
  Param_Type p = tString → ρ !! tmp = Some (VPtr a) → eval_args conv ρ args = Ret vs →
  eval_args conv ρ (helper_exps p tmp ++ args) = Ret (VPtr a :: vs).
Proof.
  intros Hp Ht Ha. unfold helper_exps. rewrite bool_decide_eq_true_2 by done. cbn [app eval_args eval].
  rewrite (lookup_var_Some ρ tmp (VPtr a)) by done. cbn [mbind res_bind]. by rewrite Ha.
Qed.
Lemma helper_exps_same p tmp ρ v args vs :
  Param_Type p ≠ tString → ρ !! Param_Name p = Some v → eval_args conv ρ args = Ret vs →
  eval_args conv ρ (helper_exps p tmp ++ args) = Ret (v :: vs).
Proof.
  intros Hp Ht Ha. unfold helper_exps. rewrite bool_decide_eq_false_2 by done. cbn [app eval_args eval].
  rewrite (lookup_var_Some ρ (Param_Name p) v) by done. cbn [mbind res_bind]. by rewrite Ha.
Qed.
Lemma HelperType_conv p a : Param_Type p = tString → has_type (HelperType d p) (VPtr a).
Proof.
  intros Hp. unfold HelperType. rewrite bool_decide_eq_true_2 by done.
  unfold StrconvType. destruct (IsUTF16 d); by exists a.
Qed.

Lemma helper_stmts_nil p tmp : Param_Type p ≠ tString → helper_stmts pkg d p tmp = [].
Proof. intros Hp. unfold helper_stmts. by rewrite bool_decide_eq_false_2. Qed.
Lemma run_helper ps vs k ρ e tail :
  (∀ i p, ps !! i = Some p → Params d !! (k + i)%nat = Some p) →
  Forall2 (λ p v, has_type (Param_Type p) v ∧ ρ !! Param_Name p = Some v) ps vs → zeroed ρ →
  ∃ r e', convert d vs e = (Ret r, e') ∧
  match r with
  | inr er => ∃ ρ', run (concat (imap (λ i p, helper_stmts pkg d p (ν (k + i))) ps) ++ tail) ρ e =
      (Ret (Returned ρ'), e') ∧ results (result_decls d) ρ' = Ret (error_results d er)
  | inl vs' => ∃ ρ', run (concat (imap (λ i p, helper_stmts pkg d p (ν (k + i))) ps) ++ tail) ρ e =
      run tail ρ' e' ∧
      (∀ x, x ∈ declared_names d → ρ' !! x = ρ !! x) ∧
      (∀ j q, (j < k)%nat → Params d !! j = Some q → needs_var q = true → ρ' !! ν j = ρ !! ν j) ∧
      eval_args conv ρ' (concat (imap (λ i p, helper_exps p (ν (k + i))) ps)) = Ret vs' ∧
      Forall2 (λ p v, has_type (HelperType d p) v) ps vs'
  end.
Proof.
  revert vs k ρ e. induction ps as [|p ps IH]; intros vs k ρ e Hps Hvs Hz.
  { inversion Hvs; subst. exists (inl []), e. split; [done|]. exists ρ. by split_and!. }
  inversion Hvs as [|? v ? vs' [Ht Hv] Hvs']; subst. clear Hvs.
  assert (Hpk : Params d !! k = Some p) by (rewrite <- (Nat.add_0_r k); by apply Hps).
  assert (Hpn : ∀ i q, (p :: ps) !! i = Some q → Param_Name q ∈ declared_names d).
  { intros i q Hq. apply declared_param. apply (list_elem_of_lookup_2 _ (k + i)). by apply Hps. }
  assert (Hps' : ∀ i q, ps !! i = Some q → Params d !! (S k + i)%nat = Some q).
  { intros i q Hq. rewrite Nat.add_succ_l, <- Nat.add_succ_r. by apply Hps. }
  rewrite !imap_step, <- app_assoc.
  destruct (has_type_string p v Ht) as [(x & Hs & ->)|(Hs & Hht & Hconv)].
  - pose proof (fresh_names d ν Hν k p Hpk (needs_var_string p Hs)) as Hf.
    assert (Hn0 := Hpn O p eq_refl). pose proof (error_var_declared Hev) as Hin.
    destruct (declared_result _ _ Hin) as (Hed & _).
    rewrite (run_conv p (ν k) _ x) by
      (done || (intros E1; apply Hf; rewrite E1; unfold declared_names; set_solver) ||
       (intros E1; apply Hf; rewrite E1; done)).
    cbn [convert]. rewrite !St_bind_eq.
    destruct (PtrFromString_total x e) as (r & e1 & ->). destruct r as [a|er].
    2:{ exists (inr er), e1. split; [done|]. eexists. split; [done|]. by apply conv_env_results. }
    destruct (IH vs' (S k) (conv_env ρ (ν k) a None) e1) as (r & e' & E1 & Hr'); [done|..].
    { apply Forall2_same_length_lookup_2; [by eapply Forall2_length|]. intros i q w Hq Hw.
      destruct (Forall2_lookup_lr _ _ _ _ _ _ Hvs' Hq Hw) as [Htq Hwq]. split; [done|].
      rewrite conv_env_declared; [done|done|done|by apply (Hpn (S i))]. }
    { intros y ty Hy. rewrite conv_env_declared; [by apply Hz|done|done|by apply (declared_result y ty)]. }
    destruct r as [vs1|er].
    + exists (inl (VPtr a :: vs1)), e'. split; [by rewrite St_bind_eq, E1|].
      destruct Hr' as (ρ' & R1 & R2 & R3 & R4 & R5). exists ρ'. split_and!.
      * done.
      * intros y Hy. rewrite R2 by done. by apply conv_env_declared.
      * intros j q Hj Hq Hnv. rewrite (R3 j q) by (done || lia).
        apply (conv_env_others ρ k p a j q); (done || lia || by apply needs_var_string).
      * apply helper_exps_conv; [done| |exact R4].
        rewrite (R3 k p) by (done || lia || by apply needs_var_string).
        apply conv_env_tmp. intros E2. apply Hf. by rewrite <- E2.
      * constructor; [by apply HelperType_conv|done].
    + exists (inr er), e'. split; [by rewrite St_bind_eq, E1|]. exact Hr'.
  - rewrite helper_stmts_nil by done. cbn [app].
    destruct (IH vs' (S k) ρ e) as (r & e' & E1 & Hr'); [done|done|done|].
    destruct r as [vs1|er].
    + exists (inl (v :: vs1)), e'. split; [by rewrite Hconv, St_bind_eq, E1|].
      destruct Hr' as (ρ' & R1 & R2 & R3 & R4 & R5). exists ρ'. split_and!; [done|done|..].
      * intros j q Hj. apply R3. lia.
      * apply helper_exps_same; [done|by rewrite R2 by by apply (Hpn O)|exact R4].
      * constructor; [by rewrite Hht|done].
    + exists (inr er), e'. split; [by rewrite Hconv, St_bind_eq, E1|]. exact Hr'.
Qed.
End Helper.

(** ** The code means what its declaration says *)
Lemma convert_no_strings vs e :
  HasStringParam d = false → Forall2 (λ p v, has_type (Param_Type p) v) (Params d) vs →
  convert d vs e = (Ret (inl vs), e).
Proof.
  unfold HasStringParam. generalize (Params d) as ps. intros ps Hs Hvs. revert Hs.
  induction Hvs as [|p v ps vs Ht Hvs IH]; [done|]. cbn [existsb].
  intros [Hp%bool_decide_eq_false Hs]%orb_false_iff.
  destruct (has_type_string p v Ht) as [(x & E1 & _)|(_ & _ & Hc)]; [done|].
  by rewrite Hc, St_bind_eq, IH.
Qed.
Lemma HelperType_no_strings p :
  HasStringParam d = false → p ∈ Params d → HelperType d p = Param_Type p.
Proof.
  unfold HasStringParam, HelperType. intros Hs Hp. case_bool_decide as E1; [|done].
  assert (existsb (λ p, bool_decide (Param_Type p = tString)) (Params d) = true) as Ht; [|congruence].
  apply existsb_exists. exists p. split; [by apply list_elem_of_In|by apply bool_decide_eq_true_2].
Qed.

Lemma call_eq depth fs g vs :
  call conv cond procs depth fs g vs =
  if negb (length vs =? length (g_params g))%nat then lift does_not_compile
  else
    o ← run (g_body g) (frame g vs);
    match o with
    | Next _ => lift does_not_compile
    | Returned ρ => lift (results (g_results g) ρ)
    | Tail f args =>
        match depth, List.find (λ h, bool_decide (g_name h = f)) fs with
        | S depth, Some h => call conv cond procs depth fs h args
        | O, _ => nofuel
        | _, None => lift does_not_compile
        end
    end.
Proof. by destruct depth. Qed.
Lemma call_body depth fs vs e :
  Forall2 (λ p v, has_type (HelperType d p) v) (Params d) vs →
  call conv cond procs depth fs (body_func pkg d ν) vs e = call_meaning conv cond dll d vs e.
Proof.
  intros Hvs. pose proof (Forall2_length _ _ _ Hvs) as Hlen.
  destruct (frame_entered (body_func pkg d ν) vs (HelperType d) eq_refl eq_refl Hvs) as [Hen Hz].
  rewrite <- (run_body (λ o, match o with
    | Next _ => lift does_not_compile
    | Returned ρ => lift (results (g_results (body_func pkg d ν)) ρ)
    | Tail f args =>
        match depth, List.find (λ h, bool_decide (g_name h = f)) fs with
        | S depth, Some h => call conv cond procs depth fs h args
        | O, _ => nofuel
        | _, None => lift does_not_compile
        end
    end) (λ _, eq_refl) (frame (body_func pkg d ν) vs) vs e) by (by split).
  rewrite call_eq. cbn [body_func g_params]. by rewrite length_fmap, <- Hlen, Nat.eqb_refl.
Qed.

Lemma call_helper vs e :
  HasStringParam d = true → Forall2 (λ p v, has_type (Param_Type p) v) (Params d) vs →
  call conv cond procs 1 [helper_func pkg d ν; body_func pkg d ν] (helper_func pkg d ν) vs e =
  meaning conv cond dll d vs e.
Proof.
  intros Hs Hvs. pose proof (Forall2_length _ _ _ Hvs) as Hlen.
  destruct (ok_strings d Hd Hs) as [Hev Hdash].
  destruct (frame_entered (helper_func pkg d ν) vs Param_Type eq_refl eq_refl Hvs) as [Hen Hz].
  rewrite call_eq. cbn [helper_func g_params]. rewrite length_fmap, <- Hlen, Nat.eqb_refl.
  cbn [negb]. change (mkFunc _ _ _ _) with (helper_func pkg d ν).
  change (g_body (helper_func pkg d ν)) with
    (each d ν (helper_stmts pkg d) ++ [ReturnCall (HelperName d) (each d ν helper_exps)]).
  unfold meaning. rewrite !St_bind_eq.
  destruct (run_helper Hev Hdash (Params d) vs 0 (frame (helper_func pkg d ν) vs) e
    [ReturnCall (HelperName d) (each d ν helper_exps)]) as (r & e' & -> & Hr); [done|done|done|].
  destruct r as [vs'|er].
  - destruct Hr as (ρ' & R1 & _ & _ & R4 & R5). unfold each in *. cbn [Nat.add] in *.
    rewrite R1. cbn [execs exec].
    rewrite !St_bind_eq, R4. cbn [lift mret St_ret find]. cbn [g_name].
    assert (Hname : HelperName d = str "_" ++ Fn_Name d) by (unfold HelperName; by rewrite Hs).
    rewrite bool_decide_eq_false_2.
    2:{ rewrite Hname. intros E1. apply (f_equal length) in E1. rewrite length_app in E1. cbn in E1. lia. }
    cbn [body_func g_name]. rewrite bool_decide_eq_true_2 by done. by apply call_body.
  - destruct Hr as (ρ' & R1 & R2). unfold each in *. cbn [Nat.add] in *.
    rewrite R1. cbn [mret St_ret lift].
    change (g_results (helper_func pkg d ν)) with (result_decls d). by rewrite R2.
Qed.

(** The first of the printed functions is the one that callers use. *)
Definition entry : gofunc := if HasStringParam d then helper_func pkg d ν else body_func pkg d ν.

Lemma code_means vs e :
  Forall2 (λ p v, has_type (Param_Type p) v) (Params d) vs →
  call conv cond procs 1 (go_funcs pkg d ν) entry vs e = meaning conv cond dll d vs e.
Proof.
  intros Hvs. unfold go_funcs, entry. destruct (HasStringParam d) eqn:Hs; [by apply call_helper|].
  unfold meaning. rewrite St_bind_eq, convert_no_strings by done. apply call_body.
  eapply Forall2_same_length_lookup_2; [by eapply Forall2_length|]. intros i p v Hp Hv.
  rewrite HelperType_no_strings by (done || by eapply list_elem_of_lookup_2).
  by apply (Forall2_lookup_lr _ _ _ _ _ _ Hvs Hp Hv).
Qed.
End Body.
