(* ===== verification/SyscallSpec.v ===== *)
(** * Printed system calls do what they declare

    Every parameter that needs a variable is given a number before the text is
    complete; with it, the text of a parsed declaration is the text of code that
    means what the declaration says. *)
From S2P Require Import Prelude GoStrings Unicode GoText Mkwinsyscall MkwinsyscallGen MkwinsyscallSpec MkwinsyscallText GoCode SyscallCode SyscallMeaning.

(** ** Variables are numbered *)
Section Numbered.
Context `{Flags} (pkg : list Z) (d : Fn).
Context (Htypes : ∀ i p, Params d !! i = Some p → Param_Type p ≠ []) (Hn : nargs d ≤ 15).

Definition numbered (f : Fn) (i : nat) : Prop := ∃ p, Params f !! i = Some p ∧ 0 ≤ tmpVarIdx p.
Lemma numbered_ext f f' i : ext f f' → numbered f i → numbered f' i.
Proof.
  intros Hx (p & Hp & Hi). destruct (Hx i p Hp Hi) as (q & Hq & E). exists q. split; [done|lia].
Qed.

(** [m] succeeds, and leaves parameter [i] with a number. *)
Definition numbers {A} (m : St Fn A) (i : nat) : Prop := ∀ f, st d f →
  ∃ a f', m f = (Ret a, f') ∧ st d f' ∧ ext f f' ∧ numbered f' i.

Lemma numbers_bind_l {A B} (m : St Fn A) (k : A → St Fn B) i :
  numbers m i → (∀ a, ∃ r, gives d (k a) r) → numbers (m ≫= k) i.
Proof.
  intros Hm Hk f Hf. destruct (Hm f Hf) as (a & f1 & E1 & H1 & X1 & N1).
  destruct (Hk a) as [r Hr]. destruct (Hr f1 H1) as (f2 & E2 & H2 & X2 & _).
  exists (r f2), f2. rewrite (St_bind_Ret _ _ _ _ _ E1). split_and!; [done|done|by etrans|].
  by eapply numbered_ext.
Qed.
Lemma numbers_bind_r {A B} (m : St Fn A) r (k : A → St Fn B) i :
  gives d m r → (∀ a, numbers (k a) i) → numbers (m ≫= k) i.
Proof.
  intros Hm Hk f Hf. destruct (Hm f Hf) as (f1 & E1 & H1 & X1 & _).
  destruct (Hk (r f1) f1 H1) as (a & f2 & E2 & H2 & X2 & N2).
  exists a, f2. rewrite (St_bind_Ret _ _ _ _ _ E1). split_and!; [done|done|by etrans|done].
Qed.
Lemma numbers_get {B} (k : Fn → St Fn B) i : (∀ f, same d f → numbers (k f) i) → numbers (get ≫= k) i.
Proof. intros Hk f Hf. rewrite (St_bind_Ret _ _ _ f f) by done. apply Hk; [apply Hf|done]. Qed.
Lemma numbers_param {B} j p (k : Param → St Fn B) i :
  Params d !! j = Some p → (∀ q, Param_Type q = Param_Type p → numbers (k q) i) →
  numbers (param j ≫= k) i.
Proof.
  intros Hp Hk f Hf. pose proof (same_lookup d f j (proj1 Hf)) as E. rewrite Hp in E.
  destruct (Params f !! j) as [q|] eqn:Hq; [|done]. injection E as _ E2.
  rewrite (St_bind_Ret _ _ _ q f) by (unfold param; by rewrite Hq). by apply Hk.
Qed.
Lemma numbers_tmpVar i p : Params d !! i = Some p → numbers (tmpVar i) i.
Proof.
  intros Hp f Hf. destruct (gives_tmpVar d i p Hp f Hf) as (f' & E & Hf' & Hx & _).
  exists (vars f' i), f'. split_and!; [done|done|done|].
  unfold tmpVar, param in E. rewrite St_bind_eq in E.
  destruct (Params f !! i) as [q|] eqn:Hq; [|done].
  destruct (tmpVarIdx q <? 0) eqn:Eq; injection E as _ <-.
  - eexists. cbn. split; [by apply list_lookup_insert_eq, lookup_lt_Some with q|]. cbn. apply Hf.
  - exists q. split; [done|]. by apply Z.ltb_ge.
Qed.
Lemma numbers_collect {A} (g : nat → St Fn (list A)) (ref : nat → Fn → list A) l i :
  i ∈ l → numbers (g i) i → (∀ j, j ∈ l → gives d (g j) (ref j)) → numbers (collect g l) i.
Proof.
  intros Hi Hg Hall. induction l as [|j l IH]; [by apply elem_of_nil in Hi|]. cbn [collect].
  assert (Hrest : ∃ r, gives d (collect g l) r).
  { clear Hi IH. induction l as [|j' l IH]; [eexists; apply gives_ret|]. cbn [collect].
    destruct IH as [r Hr]; [intros j2 Hj2; apply Hall; set_solver|]. eexists.
    apply (gives_bind _ _ (ref j') _ (λ a f, a ++ r f)); [apply Hall; set_solver|]. intros a.
    by apply (gives_fmap _ _ r (λ b, a ++ b)). }
  destruct (decide (i = j)) as [->|Hne].
  - apply numbers_bind_l; [done|]. intros a. destruct Hrest as [r Hr]. eexists.
    by apply (gives_fmap _ _ r (λ b, a ++ b)).
  - apply (numbers_bind_r _ (ref j)); [apply Hall; set_solver|]. intros a.
    apply numbers_bind_l; [|intros b; eexists; apply gives_ret].
    apply IH; [set_solver|]. intros j2 Hj2. apply Hall. set_solver.
Qed.
Lemma numbers_range {A} (g : nat → St Fn (list A)) (ref : nat → Fn → list A) i p :
  Params d !! i = Some p → numbers (g i) i →
  (∀ j q, Params d !! j = Some q → gives d (g j) (ref j)) → numbers (range_params g) i.
Proof.
  intros Hp Hg Hall. unfold range_params. apply numbers_get. intros f Hf.
  rewrite (same_length d f Hf). eapply (numbers_collect g ref); [|done|].
  - apply elem_of_seq. apply lookup_lt_Some in Hp. lia.
  - intros j [_ Hj]%elem_of_seq. destruct (lookup_lt_is_Some_2 (Params d) j Hj) as [q Hq]. eauto.
Qed.
Lemma numbers_if_text i p r pre post (m : nat → St Fn (list Z)) :
  Params d !! i = Some p → numbers (m i) i → gives d (m i) r → numbers (if_text m pre post i) i.
Proof.
  intros Hp Hm Hr. unfold if_text. apply numbers_bind_l; [done|]. intros c.
  case_bool_decide; [eexists; apply gives_ret|]. eexists.
  by apply (gives_fmap _ _ r (λ c, pre ++ c ++ post)).
Qed.
Lemma numbers_fmap {A B} (m : St Fn A) (h : A → B) i : numbers m i → numbers (a ← m; mret (h a)) i.
Proof. intros Hm. apply numbers_bind_l; [done|]. intros a. eexists. apply gives_ret. Qed.

Lemma numbers_TmpVarCode i p :
  Params d !! i = Some p → body_var p = true → Param_Type p ≠ tBoolPtr → numbers (TmpVarCode i) i.
Proof.
  intros Hp Hb Hbp. unfold TmpVarCode. eapply numbers_param; [done|]. intros q Hq. rewrite Hq.
  rewrite (bool_decide_eq_false_2 (_ = tBoolPtr)) by done. unfold body_var in Hb.
  case_bool_decide as E1; [|cbn [orb] in Hb; rewrite Hb];
    (eapply numbers_param; [done|]; intros q' Hq').
  - apply numbers_fmap. by eapply numbers_tmpVar.
  - apply numbers_bind_l; [by eapply numbers_tmpVar|]. intros tmp.
    eexists. eapply gives_lift_bind; [rewrite Hq'; by apply slice_type|]. apply gives_ret.
Qed.
Lemma numbers_TmpVarHelperCode i p :
  Params d !! i = Some p → Param_Type p = tString → numbers (TmpVarHelperCode pkg i) i.
Proof.
  intros Hp Hs. unfold TmpVarHelperCode. eapply numbers_param; [done|]. intros q Hq. rewrite Hq, Hs.
  rewrite bool_decide_eq_true_2 by done. cbn [negb].
  eapply numbers_param; [done|]. intros q' _. apply numbers_get. intros f _. apply numbers_fmap.
  by eapply numbers_tmpVar.
Qed.

Lemma numbers_t_func c i p :
  SetErrorCode pkg (Fn_Rets d) = Ret c → Params d !! i = Some p → Param_Type p ≠ tBoolPtr →
  needs_var p = true → numbers (t_func pkg) i.
Proof.
  intros Hc Hp Hbp Hneed. unfold t_func. apply numbers_get. intros f Hf.
  rewrite (same_eq d HasStringParam f) by auto using HasStringParam_forget.
  destruct (decide (Param_Type p = tString)) as [Hs|Hs].
  - assert (Hh : HasStringParam d = true).
    { apply existsb_exists. exists p. split; [by apply list_elem_of_In; eapply list_elem_of_lookup_2|].
      by apply bool_decide_eq_true_2. }
    rewrite Hh. apply numbers_bind_l.
    + unfold t_helperbody. apply numbers_get. intros f1 _. apply numbers_bind_l.
      * eapply (numbers_range _ (λ j f, if_nonempty (helper_text pkg d (default p (Params d !! j)) (vars f j)) [9] [10]));
          [done| |].
        -- eapply numbers_if_text; [done|by eapply numbers_TmpVarHelperCode|by apply gives_TmpVarHelperCode].
        -- intros j q Hq. rewrite Hq. apply gives_if_text. by apply gives_TmpVarHelperCode.
      * intros v. eexists. apply (gives_fmap _ _ (λ f, Join (each d (vars f) helper_args) (str ", "))).
        apply (gives_fmap _ _ (λ f, each d (vars f) helper_args) (λ a, Join a (str ", "))), gives_range.
        intros j q Hq. by apply gives_helper_arg.
    + intros h. eexists. apply (gives_fmap _ _ (λ f, func_body_text pkg d (vars f) c) (λ b, h ++ b)).
      by apply gives_t_funcbody.
  - assert (Hb : body_var p = true).
    { unfold needs_var in Hneed. unfold body_var. by rewrite (bool_decide_eq_false_2 (_ = tString)), orb_false_r in Hneed. }
    apply (numbers_bind_r _ (λ f, if HasStringParam d then helper_body_text pkg d (vars f) else [])).
    { destruct (HasStringParam d); [by apply gives_t_helperbody|apply gives_ret]. }
    intros h. apply numbers_fmap. unfold t_funcbody. apply numbers_get. intros f1 _.
    apply numbers_bind_l.
    + eapply (numbers_range _ (λ j f, if_nonempty (tmp_text (default p (Params d !! j)) (vars f j)) [9] [10]));
        [done| |].
      * eapply numbers_if_text; [done|by eapply numbers_TmpVarCode|by apply gives_TmpVarCode].
      * intros j q Hq. rewrite Hq. apply gives_if_text. by apply gives_TmpVarCode.
    + intros v.
      assert (Hrest : ∀ k : list Z → list Z → list Z → list Z, ∃ r, gives d
        (call ← t_syscall pkg; back ← t_tmpvarsreadback; seterror ← t_seterror pkg;
         mret (k call back seterror)) r).
      { intros k. pose (r3 := λ f, each d (vars f) (λ p tmp, if_nonempty (readback_text p tmp) [10] [])).
        eexists. apply (gives_bind _ _ (λ f, syscall_text pkg d (vars f)) _
          (λ cl f, k cl (r3 f) (if_nonempty c [9] [10]))); [by apply gives_t_syscall|].
        intros cl. apply (gives_bind _ _ r3 _ (λ b f, k cl b (if_nonempty c [9] [10]))).
        { apply gives_range. intros j q Hq. apply gives_if_text. by apply gives_TmpVarReadbackCode. }
        intros b. apply (gives_fmap _ _ (λ _, if_nonempty c [9] [10]) (k cl b)). by apply gives_t_seterror. }
      apply Hrest.
Qed.
End Numbered.

(** ** The printed code *)
Definition reserved (n : text) : bool := HasPrefix n (str "_p").
Lemma var_name_reserved k : reserved (var_name k) = true.
Proof. apply HasPrefix_app. Qed.

(** All the variables of the final text are numbered. *)
Lemma all_numbered `{Flags} pkg d c text f' :
  parsed d → nargs d ≤ 15 → decl_ok d → SetErrorCode pkg (Fn_Rets d) = Ret c →
  t_func pkg d = (Ret text, f') →
  ∀ i p, Params d !! i = Some p → needs_var p = true → numbered f' i.
Proof.
  intros Hd Hn Hok Hc E i p Hp Hneed.
  assert (Hb : Param_Type p ≠ tBoolPtr).
  { pose proof (ok_no_bool_ptr d Hok) as F. rewrite Forall_lookup in F. by eapply F. }
  destruct (numbers_t_func pkg d (λ i p, parsed_types d i p Hd) Hn c i p Hc Hp Hb Hneed d (parsed_st d Hd))
    as (a & f'' & E' & _ & _ & N). by rewrite E in E'; injection E' as _ <-.
Qed.
Lemma numbered_fresh d f' :
  st d f' → Forall (λ n, reserved n = false) (declared_names d) →
  (∀ i p, Params d !! i = Some p → needs_var p = true → numbered f' i) → vars_fresh d (vars f').
Proof.
  intros [_ [_ Hv]] Hres Hnum. constructor.
  - intros i j p q Hi Hj Hp Hq E.
    destruct (Hnum i p Hi Hp) as (p' & Hi' & Hp'), (Hnum j q Hj Hq) as (q' & Hj' & Hq').
    unfold vars in E. rewrite Hi', Hj' in E. apply var_name_inj in E; [|done|done].
    by eapply (proj2 (Hv i p' Hi')).
  - intros i p Hi Hp Hin. destruct (Hnum i p Hi Hp) as (p' & Hi' & Hp').
    rewrite Forall_forall in Hres. apply Hres in Hin. unfold vars in Hin. rewrite Hi' in Hin.
    by rewrite var_name_reserved in Hin.
Qed.

(** A system call returns, or panics because its procedure is missing. *)
Definition returns {A} (r : res A) : Prop := (∃ a, r = Ret a) ∨ r = Panic "LazyProc.Addr".
Lemma call_returns_bind {E A B} (m : St E A) (k : A → St E B) :
  (∀ e, returns (m e).1) → (∀ a e, returns (k a e).1) → ∀ e, returns ((m ≫= k) e).1.
Proof.
  intros Hm Hk e. rewrite St_bind_eq. destruct (Hm e) as [[a Ha]|Ha]; destruct (m e) as [r e'];
    cbn in Ha; subst; [apply Hk|by right].
Qed.
Lemma call_returns_ret {E A} (a : A) (e : E) : returns (mret (M := St E) a e).1.
Proof. left. by eexists. Qed.
Lemma PtrFromString_returns `{Windows E} wide s e : returns (PtrFromString wide s e).1.
Proof.
  unfold PtrFromString. case_match; [apply call_returns_ret|]. destruct (w_alloc _ e). left. by eexists.
Qed.
Lemma convert_returns `{Windows E, Flags} d vs e : returns (convert d vs e).1.
Proof.
  revert e. induction vs as [|v vs IH]; intros e; [apply call_returns_ret|].
  assert (Hrest : ∀ v e, returns ((r ← convert d vs;
    mret (match r with inl vs => inl (v :: vs) | inr e => inr e end)) e).1).
  { intros w. apply call_returns_bind; [done|]. intros. apply call_returns_ret. }
  destruct v; try apply Hrest. revert e. cbn [convert]. apply call_returns_bind.
  { intros. apply PtrFromString_returns. }
  intros [a|er] e; [apply (Hrest (VPtr a))|apply call_returns_ret].
Qed.
Lemma Proc_Find_returns `{Windows E} dll name e : returns (Proc_Find dll name e).1.
Proof. unfold Proc_Find. destruct (w_Find dll name e). left. by eexists. Qed.
Lemma Proc_Call_returns `{Windows E} dll name ws e : returns (Proc_Call dll name ws e).1.
Proof.
  revert e. apply call_returns_bind; [intros; apply Proc_Find_returns|]. intros [er|] e; [by right|].
  destruct (w_Syscall _ _ _ e). left. by eexists.
Qed.
Lemma meaning_returns `{Windows E, Flags} conv cond dll d vs e : returns (meaning conv cond dll d vs e).1.
Proof.
  revert e. apply call_returns_bind; [intros; apply convert_returns|]. intros [ws|er] e; [|apply call_returns_ret].
  revert e. apply call_returns_bind.
  { intros. destruct (fnMaybeAbsent _); [apply Proc_Find_returns|apply call_returns_ret]. }
  intros [er|] e; [apply call_returns_ret|]. revert e. apply call_returns_bind; [intros; apply Proc_Call_returns|].
  intros [r er] e. apply call_returns_ret.
Qed.

Lemma printed_code `{Flags} (pkg s : list Z) (d : Fn) :
  newFn s = Ret d → decl_ok d → nargs d ≤ 15 →
  Forall (λ n, reserved n = false) (declared_names d) →
  ∃ code f' ν,
    t_func pkg d = (Ret code, f') ∧
    unindent code = unindent (concat (print_func <$> go_funcs pkg d ν)) ∧
    ∀ (E : Type) (W : Windows E) conv cond dll procs vs (e : E),
      procs (DLLFuncName d) = Some (dll, DLLFuncName d) →
      Forall2 (λ p v, has_type (Param_Type p) v) (Params d) vs →
      call conv cond procs 1 (go_funcs pkg d ν) (entry pkg d ν) vs e = meaning conv cond dll d vs e.
Proof.
  intros Hd%newFn_parsed Hok Hn Hres. destruct (parsed_SetErrorCode pkg d Hd) as [c Hc].
  destruct (gives_t_func pkg d (λ i p, parsed_types d i p Hd) Hn c Hc d (parsed_st d Hd)) as (f' & E & Hst & _).
  exists (func_text pkg d (vars f') c), f', (vars f'). split_and!; [done|by apply go_funcs_text|].
  intros W' Hw conv cond dll procs vs e Hproc Hvs.
  apply code_means; [done| |done|done]. apply numbered_fresh; [done|done|]. by eapply all_numbered.
Qed.


(** ** Witness *)

(** A system that records its calls, knows one procedure, and answers 256. *)
Definition test_log : Type := list (text * list Z).
Definition test_windows : Windows test_log := {|
  w_Find := λ _ name e,
    (if bool_decide (name = str "CreateFileW") then None else Some (Errno 127), e);
  w_Syscall := λ _ name ws e, ((256, 0), e ++ [(name, ws)]);
  w_alloc := λ s e, (4096, e ++ [(str "alloc", s)]);
|}.
Definition test_conv (ty : text) (z : Z) : Z := if bool_decide (ty = str "ntStatus") then i32 z else z.
Definition test_cond (c : text) (v : val) : bool :=
  bool_decide (c = str "failretval==windows.InvalidHandle") &&
  match v with VInt z => z =? u64 (-1) | _ => false end.
Definition CreateFile_args : list val :=
  [VStr (str "a"); VInt 1; VInt 2; VPtr 8; VInt 3; VInt 4; VInt 0].

Lemma CreateFile_ok : decl_ok CreateFile_fn.
Proof.
  constructor.
  - apply (bool_decide_unpack _). by vm_compute.
  - intros _. split; by vm_compute.
  - by vm_compute.
  - intros _ _. by vm_compute.
  - by vm_compute.
  - apply (bool_decide_unpack _). by vm_compute.
Qed.

Definition has_typeb (ty : text) (v : val) : bool :=
  match v with
  | VBool _ => bool_decide (ty = tBool)
  | VStr _ => negb (bool_decide (ty = tBool)) && bool_decide (ty = tString)
  | VPtr _ => negb (bool_decide (ty = tBool)) && negb (bool_decide (ty = tString)) && HasPrefix ty (str "*")
  | VSlice _ n => negb (bool_decide (ty = tBool)) && negb (bool_decide (ty = tString)) &&
      negb (HasPrefix ty (str "*")) && HasPrefix ty (str "[]") && (0 <=? n)
  | VInt _ => negb (bool_decide (ty = tBool)) && negb (bool_decide (ty = tString)) &&
      negb (HasPrefix ty (str "*")) && negb (HasPrefix ty (str "[]")) &&
      negb (bool_decide (ty = str "unsafe.Pointer"))
  | VErr _ => false
  end.
Lemma has_typeb_ok ty v : has_typeb ty v = true → has_type ty v.
Proof.
  unfold has_typeb, has_type. destruct v as [z|b|a|a n|s|er]; intros Hb; try done.
  all: repeat (case_bool_decide; cbn [negb andb] in Hb); try done; eauto.
  all: repeat (destruct (HasPrefix _ _); cbn [negb andb] in Hb); try done; eauto.
  all: exists a, n; split; [done|]; by apply Z.leb_le.
Qed.
Lemma has_types_ok ps vs :
  forallb (λ '(p, v), has_typeb (Param_Type p) v) (zip ps vs) = true → length ps = length vs →
  Forall2 (λ p v, has_type (Param_Type p) v) ps vs.
Proof.
  revert vs. induction ps as [|p ps IH]; intros [|v vs] Hb Hl; try done; constructor.
  - apply has_typeb_ok. cbn in Hb. by apply andb_true_iff in Hb as [? _].
  - apply IH; [|by injection Hl]. cbn in Hb. by apply andb_true_iff in Hb as [_ ?].
Qed.

