(* ===== verification/Zsyscall.v ===== *)
(** * The generated system calls of package winio

    The functions of [zsyscall_windows.go], one definition for each: integers,
    handles and pointers are words, a slice is its address and its length. *)
From S2P Require Import Prelude GoStrings GoCode.

(** ** Procedures and calls *)
Record LazyProc := mkLazyProc { proc_dll : text; proc_name : text }.
Definition NewLazySystemDLL (name : string) : text := str name.
Definition NewProc (dll : text) (name : string) : LazyProc := mkLazyProc dll (str name).

Definition InvalidHandle : Z := u64 (-1).
Definition uintptr (z : Z) : Z := u64 z.

Section Procs.
Context `{Windows E}.
Definition LazyProc_Find (p : LazyProc) : St E (option error) := Proc_Find (proc_dll p) (proc_name p).

(** [syscall.Syscall], [Syscall6], [Syscall9] and [Syscall15] take their number of words,
    and pass the first [n] of them on. *)
Definition SyscallN (width : Z) (p : LazyProc) (n : Z) (words : list Z) : St E (Z * Z) :=
  if zlen words =? width then Proc_Call (proc_dll p) (proc_name p) (ztake n words)
  else lift does_not_compile.
Definition Syscall3 := SyscallN 3.
Definition Syscall6 := SyscallN 6.
Definition Syscall9 := SyscallN 9.
Definition Syscall15 := SyscallN 15.
Definition UTF16PtrFromString (s : text) : St E (Z + error) := PtrFromString true s.
End Procs.

(** ** Package winio (zsyscall_windows.go) *)
Definition procAdjustTokenPrivileges : LazyProc := NewProc (NewLazySystemDLL "advapi32.dll") "AdjustTokenPrivileges".
Definition procConvertSidToStringSidW : LazyProc := NewProc (NewLazySystemDLL "advapi32.dll") "ConvertSidToStringSidW".
Definition procConvertStringSidToSidW : LazyProc := NewProc (NewLazySystemDLL "advapi32.dll") "ConvertStringSidToSidW".
Definition procImpersonateSelf : LazyProc := NewProc (NewLazySystemDLL "advapi32.dll") "ImpersonateSelf".
Definition procLookupAccountNameW : LazyProc := NewProc (NewLazySystemDLL "advapi32.dll") "LookupAccountNameW".
Definition procLookupAccountSidW : LazyProc := NewProc (NewLazySystemDLL "advapi32.dll") "LookupAccountSidW".
Definition procLookupPrivilegeDisplayNameW : LazyProc := NewProc (NewLazySystemDLL "advapi32.dll") "LookupPrivilegeDisplayNameW".
Definition procLookupPrivilegeNameW : LazyProc := NewProc (NewLazySystemDLL "advapi32.dll") "LookupPrivilegeNameW".
Definition procLookupPrivilegeValueW : LazyProc := NewProc (NewLazySystemDLL "advapi32.dll") "LookupPrivilegeValueW".
Definition procOpenThreadToken : LazyProc := NewProc (NewLazySystemDLL "advapi32.dll") "OpenThreadToken".
Definition procRevertToSelf : LazyProc := NewProc (NewLazySystemDLL "advapi32.dll") "RevertToSelf".
Definition procBackupRead : LazyProc := NewProc (NewLazySystemDLL "kernel32.dll") "BackupRead".
Definition procBackupWrite : LazyProc := NewProc (NewLazySystemDLL "kernel32.dll") "BackupWrite".
Definition procCancelIoEx : LazyProc := NewProc (NewLazySystemDLL "kernel32.dll") "CancelIoEx".
Definition procConnectNamedPipe : LazyProc := NewProc (NewLazySystemDLL "kernel32.dll") "ConnectNamedPipe".
Definition procCreateIoCompletionPort : LazyProc := NewProc (NewLazySystemDLL "kernel32.dll") "CreateIoCompletionPort".
Definition procCreateNamedPipeW : LazyProc := NewProc (NewLazySystemDLL "kernel32.dll") "CreateNamedPipeW".
Definition procDisconnectNamedPipe : LazyProc := NewProc (NewLazySystemDLL "kernel32.dll") "DisconnectNamedPipe".
Definition procGetCurrentThread : LazyProc := NewProc (NewLazySystemDLL "kernel32.dll") "GetCurrentThread".
Definition procGetNamedPipeHandleStateW : LazyProc := NewProc (NewLazySystemDLL "kernel32.dll") "GetNamedPipeHandleStateW".
Definition procGetNamedPipeInfo : LazyProc := NewProc (NewLazySystemDLL "kernel32.dll") "GetNamedPipeInfo".
Definition procGetQueuedCompletionStatus : LazyProc := NewProc (NewLazySystemDLL "kernel32.dll") "GetQueuedCompletionStatus".
Definition procSetFileCompletionNotificationModes : LazyProc := NewProc (NewLazySystemDLL "kernel32.dll") "SetFileCompletionNotificationModes".
Definition procNtCreateNamedPipeFile : LazyProc := NewProc (NewLazySystemDLL "ntdll.dll") "NtCreateNamedPipeFile".
Definition procRtlDefaultNpAcl : LazyProc := NewProc (NewLazySystemDLL "ntdll.dll") "RtlDefaultNpAcl".
Definition procRtlDosPathNameToNtPathName_U : LazyProc := NewProc (NewLazySystemDLL "ntdll.dll") "RtlDosPathNameToNtPathName_U".
Definition procRtlNtStatusToDosErrorNoTeb : LazyProc := NewProc (NewLazySystemDLL "ntdll.dll") "RtlNtStatusToDosErrorNoTeb".
Definition procWSAGetOverlappedResult : LazyProc := NewProc (NewLazySystemDLL "ws2_32.dll") "WSAGetOverlappedResult".

Section Calls.
Context `{Windows E}.
Definition adjustTokenPrivileges (token : Z) (releaseAll : bool)
  (input outputSize output requiredSize : Z) : St E (bool * option error) :=
  let _p0 := if releaseAll then 1 else 0 in
  '(r0, e1) ← Syscall6 procAdjustTokenPrivileges 6 [uintptr token; uintptr _p0; uintptr input;
    uintptr outputSize; uintptr output; uintptr requiredSize];
  let success := negb (r0 =? 0) in
  mret (success, if true then Some (errnoErr e1) else None).
Definition convertSidToStringSid (sid str : Z) : St E (option error) :=
  '(r1, e1) ← Syscall3 procConvertSidToStringSidW 2 [uintptr sid; uintptr str; 0];
  mret (if r1 =? 0 then Some (errnoErr e1) else None).
Definition convertStringSidToSid (str sid : Z) : St E (option error) :=
  '(r1, e1) ← Syscall3 procConvertStringSidToSidW 2 [uintptr str; uintptr sid; 0];
  mret (if r1 =? 0 then Some (errnoErr e1) else None).
Definition impersonateSelf (level : Z) : St E (option error) :=
  '(r1, e1) ← Syscall3 procImpersonateSelf 1 [uintptr level; 0; 0];
  mret (if r1 =? 0 then Some (errnoErr e1) else None).
Definition _lookupAccountName (systemName accountName sid sidSize refDomain refDomainSize
  sidNameUse : Z) : St E (option error) :=
  '(r1, e1) ← Syscall9 procLookupAccountNameW 7 [uintptr systemName; uintptr accountName;
    uintptr sid; uintptr sidSize; uintptr refDomain; uintptr refDomainSize; uintptr sidNameUse; 0;
      0];
  mret (if r1 =? 0 then Some (errnoErr e1) else None).
Definition lookupAccountName (systemName : Z) (accountName : text)
  (sid sidSize refDomain refDomainSize sidNameUse : Z) : St E (option error) :=
  r ← UTF16PtrFromString accountName;
  match r with
  | inr err => mret (Some err)
  | inl _p0 =>
    _lookupAccountName systemName _p0 sid sidSize refDomain refDomainSize sidNameUse
  end.
Definition lookupAccountSid (systemName sid name nameSize refDomain refDomainSize sidNameUse : Z) :
  St E (option error) :=
  '(r1, e1) ← Syscall9 procLookupAccountSidW 7 [uintptr systemName; uintptr sid; uintptr name;
    uintptr nameSize; uintptr refDomain; uintptr refDomainSize; uintptr sidNameUse; 0; 0];
  mret (if r1 =? 0 then Some (errnoErr e1) else None).
Definition _lookupPrivilegeDisplayName (systemName name buffer size languageId : Z)
  : St E (option error) :=
  '(r1, e1) ← Syscall6 procLookupPrivilegeDisplayNameW 5 [uintptr systemName; uintptr name;
    uintptr buffer; uintptr size; uintptr languageId; 0];
  mret (if r1 =? 0 then Some (errnoErr e1) else None).
Definition lookupPrivilegeDisplayName (systemName : text) (name buffer size languageId : Z)
  : St E (option error) :=
  r ← UTF16PtrFromString systemName;
  match r with
  | inr err => mret (Some err)
  | inl _p0 =>
    _lookupPrivilegeDisplayName _p0 name buffer size languageId
  end.
Definition _lookupPrivilegeName (systemName luid buffer size : Z) : St E (option error) :=
  '(r1, e1) ← Syscall6 procLookupPrivilegeNameW 4 [uintptr systemName; uintptr luid;
    uintptr buffer; uintptr size; 0; 0];
  mret (if r1 =? 0 then Some (errnoErr e1) else None).
Definition lookupPrivilegeName (systemName : text) (luid buffer size : Z) : St E (option error) :=
  r ← UTF16PtrFromString systemName;
  match r with
  | inr err => mret (Some err)
  | inl _p0 =>
    _lookupPrivilegeName _p0 luid buffer size
  end.
Definition _lookupPrivilegeValue (systemName name luid : Z) : St E (option error) :=
  '(r1, e1) ← Syscall3 procLookupPrivilegeValueW 3 [uintptr systemName; uintptr name; uintptr luid];
  mret (if r1 =? 0 then Some (errnoErr e1) else None).
Definition lookupPrivilegeValue (systemName name : text) (luid : Z) : St E (option error) :=
  r ← UTF16PtrFromString systemName;
  match r with
  | inr err => mret (Some err)
  | inl _p0 =>
    r ← UTF16PtrFromString name;
    match r with
    | inr err => mret (Some err)
    | inl _p1 =>
      _lookupPrivilegeValue _p0 _p1 luid
    end
  end.
Definition openThreadToken (thread accessMask : Z) (openAsSelf : bool) (token : Z)
  : St E (option error) :=
  let _p0 := if openAsSelf then 1 else 0 in
  '(r1, e1) ← Syscall6 procOpenThreadToken 4 [uintptr thread; uintptr accessMask; uintptr _p0;
    uintptr token; 0; 0];
  mret (if r1 =? 0 then Some (errnoErr e1) else None).
Definition revertToSelf : St E (option error) :=
  '(r1, e1) ← Syscall3 procRevertToSelf 0 [0; 0; 0];
  mret (if r1 =? 0 then Some (errnoErr e1) else None).
Definition backupRead (h : Z) (b : Z * Z) (bytesRead : Z) (abort processSecurity : bool)
  (context : Z) : St E (option error) :=
  let _p0 := if 0 <? b.2 then b.1 else 0 in
  let _p1 := if abort then 1 else 0 in
  let _p2 := if processSecurity then 1 else 0 in
  '(r1, e1) ← Syscall9 procBackupRead 7 [uintptr h; uintptr _p0; uintptr b.2; uintptr bytesRead;
    uintptr _p1; uintptr _p2; uintptr context; 0; 0];
  mret (if r1 =? 0 then Some (errnoErr e1) else None).
Definition backupWrite (h : Z) (b : Z * Z) (bytesWritten : Z) (abort processSecurity : bool)
  (context : Z) : St E (option error) :=
  let _p0 := if 0 <? b.2 then b.1 else 0 in
  let _p1 := if abort then 1 else 0 in
  let _p2 := if processSecurity then 1 else 0 in
  '(r1, e1) ← Syscall9 procBackupWrite 7 [uintptr h; uintptr _p0; uintptr b.2;
    uintptr bytesWritten; uintptr _p1; uintptr _p2; uintptr context; 0; 0];
  mret (if r1 =? 0 then Some (errnoErr e1) else None).
Definition cancelIoEx (file o : Z) : St E (option error) :=
  '(r1, e1) ← Syscall3 procCancelIoEx 2 [uintptr file; uintptr o; 0];
  mret (if r1 =? 0 then Some (errnoErr e1) else None).
Definition connectNamedPipe (pipe o : Z) : St E (option error) :=
  '(r1, e1) ← Syscall3 procConnectNamedPipe 2 [uintptr pipe; uintptr o; 0];
  mret (if r1 =? 0 then Some (errnoErr e1) else None).
Definition createIoCompletionPort (file port key threadCount : Z) : St E (Z * option error) :=
  '(r0, e1) ← Syscall6 procCreateIoCompletionPort 4 [uintptr file; uintptr port; uintptr key;
    uintptr threadCount; 0; 0];
  let newport := r0 in
  mret (newport, if newport =? 0 then Some (errnoErr e1) else None).
Definition _createNamedPipe (name flags pipeMode maxInstances outSize inSize defaultTimeout sa : Z)
  : St E (Z * option error) :=
  '(r0, e1) ← Syscall9 procCreateNamedPipeW 8 [uintptr name; uintptr flags; uintptr pipeMode;
    uintptr maxInstances; uintptr outSize; uintptr inSize; uintptr defaultTimeout; uintptr sa; 0];
  let handle := r0 in
  mret (handle, if handle =? InvalidHandle then Some (errnoErr e1) else None).
Definition createNamedPipe (name : text) (flags pipeMode maxInstances outSize inSize defaultTimeout
  sa : Z) : St E (Z * option error) :=
  r ← UTF16PtrFromString name;
  match r with
  | inr err => mret (0, Some err)
  | inl _p0 =>
    _createNamedPipe _p0 flags pipeMode maxInstances outSize inSize defaultTimeout sa
  end.
Definition disconnectNamedPipe (pipe : Z) : St E (option error) :=
  '(r1, e1) ← Syscall3 procDisconnectNamedPipe 1 [uintptr pipe; 0; 0];
  mret (if r1 =? 0 then Some (errnoErr e1) else None).
Definition getCurrentThread : St E Z :=
  '(r0, _) ← Syscall3 procGetCurrentThread 0 [0; 0; 0];
  let h := r0 in
  mret h.
Definition getNamedPipeHandleState (pipe state curInstances maxCollectionCount collectDataTimeout
  userName maxUserNameSize : Z) : St E (option error) :=
  '(r1, e1) ← Syscall9 procGetNamedPipeHandleStateW 7 [uintptr pipe; uintptr state;
    uintptr curInstances; uintptr maxCollectionCount; uintptr collectDataTimeout; uintptr userName;
      uintptr maxUserNameSize; 0; 0];
  mret (if r1 =? 0 then Some (errnoErr e1) else None).
Definition getNamedPipeInfo (pipe flags outSize inSize maxInstances : Z) : St E (option error) :=
  '(r1, e1) ← Syscall6 procGetNamedPipeInfo 5 [uintptr pipe; uintptr flags; uintptr outSize;
    uintptr inSize; uintptr maxInstances; 0];
  mret (if r1 =? 0 then Some (errnoErr e1) else None).
Definition getQueuedCompletionStatus (port bytes key o timeout : Z) : St E (option error) :=
  '(r1, e1) ← Syscall6 procGetQueuedCompletionStatus 5 [uintptr port; uintptr bytes; uintptr key;
    uintptr o; uintptr timeout; 0];
  mret (if r1 =? 0 then Some (errnoErr e1) else None).
Definition setFileCompletionNotificationModes (h flags : Z) : St E (option error) :=
  '(r1, e1) ← Syscall3 procSetFileCompletionNotificationModes 2 [uintptr h; uintptr flags; 0];
  mret (if r1 =? 0 then Some (errnoErr e1) else None).
Definition ntCreateNamedPipeFile (pipe access oa iosb share disposition options typ readMode
  completionMode maxInstances inboundQuota outputQuota timeout : Z) : St E Z :=
  '(r0, _) ← Syscall15 procNtCreateNamedPipeFile 14 [uintptr pipe; uintptr access; uintptr oa;
    uintptr iosb; uintptr share; uintptr disposition; uintptr options; uintptr typ;
      uintptr readMode; uintptr completionMode; uintptr maxInstances; uintptr inboundQuota;
        uintptr outputQuota; uintptr timeout; 0];
  let status := i32 r0 in
  mret status.
Definition rtlDefaultNpAcl (dacl : Z) : St E Z :=
  '(r0, _) ← Syscall3 procRtlDefaultNpAcl 1 [uintptr dacl; 0; 0];
  let status := i32 r0 in
  mret status.
Definition rtlDosPathNameToNtPathName (name ntName filePart reserved : Z) : St E Z :=
  '(r0, _) ← Syscall6 procRtlDosPathNameToNtPathName_U 4 [uintptr name; uintptr ntName;
    uintptr filePart; uintptr reserved; 0; 0];
  let status := i32 r0 in
  mret status.
Definition rtlNtStatusToDosError (status : Z) : St E (option error) :=
  '(r0, _) ← Syscall3 procRtlNtStatusToDosErrorNoTeb 1 [uintptr status; 0; 0];
  mret (if negb (r0 =? 0) then Some (Errno r0) else None).
Definition wsaGetOverlappedResult (h o bytes : Z) (wait : bool) (flags : Z) : St E (option error) :=
  let _p0 := if wait then 1 else 0 in
  '(r1, e1) ← Syscall6 procWSAGetOverlappedResult 5 [uintptr h; uintptr o; uintptr bytes;
    uintptr _p0; uintptr flags; 0];
  mret (if r1 =? 0 then Some (errnoErr e1) else None).
End Calls.
