(* ===== verification/ZsyscallPkg.v ===== *)
(** * The generated system calls of the other packages

    One section per file, in the manner of [Zsyscall]. *)
From S2P Require Import Prelude GoStrings GoCode Zsyscall.

(** [const socketError = uintptr(^uint32(0))] *)
Definition socketError : Z := uintptr (u32 (-1)).

(** ** pkg/bindfilter (zsyscall_windows.go) *)
Definition procBfGetMappings : LazyProc := NewProc (NewLazySystemDLL "bindfltapi.dll") "BfGetMappings".
Definition procBfRemoveMapping : LazyProc := NewProc (NewLazySystemDLL "bindfltapi.dll") "BfRemoveMapping".
Definition procBfSetupFilter : LazyProc := NewProc (NewLazySystemDLL "bindfltapi.dll") "BfSetupFilter".

Section Calls.
Context `{Windows E}.
Definition bfGetMappings (flags jobHandle virtRootPath sid bufferSize outBuffer : Z)
  : St E (option error) :=
  hr ← LazyProc_Find procBfGetMappings;
  match hr with
  | Some _ => mret hr
  | None =>
    '(r0, _) ← Syscall6 procBfGetMappings 6 [uintptr flags; uintptr jobHandle;
      uintptr virtRootPath; uintptr sid; uintptr bufferSize; uintptr outBuffer];
    mret (if i32 r0 <? 0 then
      let r0 := if Z.land r0 0x1fff0000 =? 0x00070000 then Z.land r0 0xffff else r0 in
      Some (Errno r0) else None)
  end.
Definition _bfRemoveMapping (jobHandle virtRootPath : Z) : St E (option error) :=
  hr ← LazyProc_Find procBfRemoveMapping;
  match hr with
  | Some _ => mret hr
  | None =>
    '(r0, _) ← Syscall3 procBfRemoveMapping 2 [uintptr jobHandle; uintptr virtRootPath; 0];
    mret (if i32 r0 <? 0 then
      let r0 := if Z.land r0 0x1fff0000 =? 0x00070000 then Z.land r0 0xffff else r0 in
      Some (Errno r0) else None)
  end.
Definition bfRemoveMapping (jobHandle : Z) (virtRootPath : text) : St E (option error) :=
  r ← UTF16PtrFromString virtRootPath;
  match r with
  | inr hr => mret (Some hr)
  | inl _p0 =>
    _bfRemoveMapping jobHandle _p0
  end.
Definition _bfSetupFilter (jobHandle flags virtRootPath virtTargetPath virtExceptions
  virtExceptionPathCount : Z) : St E (option error) :=
  hr ← LazyProc_Find procBfSetupFilter;
  match hr with
  | Some _ => mret hr
  | None =>
    '(r0, _) ← Syscall6 procBfSetupFilter 6 [uintptr jobHandle; uintptr flags;
      uintptr virtRootPath; uintptr virtTargetPath; uintptr virtExceptions;
        uintptr virtExceptionPathCount];
    mret (if i32 r0 <? 0 then
      let r0 := if Z.land r0 0x1fff0000 =? 0x00070000 then Z.land r0 0xffff else r0 in
      Some (Errno r0) else None)
  end.
Definition bfSetupFilter (jobHandle flags : Z) (virtRootPath virtTargetPath : text)
  (virtExceptions virtExceptionPathCount : Z) : St E (option error) :=
  r ← UTF16PtrFromString virtRootPath;
  match r with
  | inr hr => mret (Some hr)
  | inl _p0 =>
    r ← UTF16PtrFromString virtTargetPath;
    match r with
    | inr hr => mret (Some hr)
    | inl _p1 =>
      _bfSetupFilter jobHandle flags _p0 _p1 virtExceptions virtExceptionPathCount
    end
  end.
End Calls.

(** ** vhd (zvhd_windows.go) *)
Definition procAttachVirtualDisk : LazyProc := NewProc (NewLazySystemDLL "virtdisk.dll") "AttachVirtualDisk".
Definition procCreateVirtualDisk : LazyProc := NewProc (NewLazySystemDLL "virtdisk.dll") "CreateVirtualDisk".
Definition procDetachVirtualDisk : LazyProc := NewProc (NewLazySystemDLL "virtdisk.dll") "DetachVirtualDisk".
Definition procGetVirtualDiskPhysicalPath : LazyProc := NewProc (NewLazySystemDLL "virtdisk.dll") "GetVirtualDiskPhysicalPath".
Definition procOpenVirtualDisk : LazyProc := NewProc (NewLazySystemDLL "virtdisk.dll") "OpenVirtualDisk".

Section Calls.
Context `{Windows E}.
Definition attachVirtualDisk (handle securityDescriptor attachVirtualDiskFlag providerSpecificFlags
  parameters overlapped : Z) : St E (option error) :=
  '(r0, _) ← Syscall6 procAttachVirtualDisk 6 [uintptr handle; uintptr securityDescriptor;
    uintptr attachVirtualDiskFlag; uintptr providerSpecificFlags; uintptr parameters;
      uintptr overlapped];
  mret (if negb (r0 =? 0) then Some (Errno r0) else None).
Definition _createVirtualDisk (virtualStorageType path virtualDiskAccessMask securityDescriptor
  createVirtualDiskFlags providerSpecificFlags parameters overlapped handle : Z)
    : St E (option error) :=
  '(r0, _) ← Syscall9 procCreateVirtualDisk 9 [uintptr virtualStorageType; uintptr path;
    uintptr virtualDiskAccessMask; uintptr securityDescriptor; uintptr createVirtualDiskFlags;
      uintptr providerSpecificFlags; uintptr parameters; uintptr overlapped; uintptr handle];
  mret (if negb (r0 =? 0) then Some (Errno r0) else None).
Definition createVirtualDisk (virtualStorageType : Z) (path : text)
  (virtualDiskAccessMask securityDescriptor createVirtualDiskFlags providerSpecificFlags parameters
    overlapped handle : Z) : St E (option error) :=
  r ← UTF16PtrFromString path;
  match r with
  | inr win32err => mret (Some win32err)
  | inl _p0 =>
    _createVirtualDisk virtualStorageType _p0 virtualDiskAccessMask securityDescriptor
      createVirtualDiskFlags providerSpecificFlags parameters overlapped handle
  end.
Definition detachVirtualDisk (handle detachVirtualDiskFlags providerSpecificFlags : Z)
  : St E (option error) :=
  '(r0, _) ← Syscall3 procDetachVirtualDisk 3 [uintptr handle; uintptr detachVirtualDiskFlags;
    uintptr providerSpecificFlags];
  mret (if negb (r0 =? 0) then Some (Errno r0) else None).
Definition getVirtualDiskPhysicalPath (handle diskPathSizeInBytes buffer : Z)
  : St E (option error) :=
  '(r0, _) ← Syscall3 procGetVirtualDiskPhysicalPath 3 [uintptr handle;
    uintptr diskPathSizeInBytes; uintptr buffer];
  mret (if negb (r0 =? 0) then Some (Errno r0) else None).
Definition _openVirtualDisk (virtualStorageType path virtualDiskAccessMask openVirtualDiskFlags
  parameters handle : Z) : St E (option error) :=
  '(r0, _) ← Syscall6 procOpenVirtualDisk 6 [uintptr virtualStorageType; uintptr path;
    uintptr virtualDiskAccessMask; uintptr openVirtualDiskFlags; uintptr parameters;
      uintptr handle];
  mret (if negb (r0 =? 0) then Some (Errno r0) else None).
Definition openVirtualDisk (virtualStorageType : Z) (path : text)
  (virtualDiskAccessMask openVirtualDiskFlags parameters handle : Z) : St E (option error) :=
  r ← UTF16PtrFromString path;
  match r with
  | inr win32err => mret (Some win32err)
  | inl _p0 =>
    _openVirtualDisk virtualStorageType _p0 virtualDiskAccessMask openVirtualDiskFlags parameters
      handle
  end.
End Calls.

(** ** pkg/etw (zsyscall_windows.go) *)
Definition procEventRegister : LazyProc := NewProc (NewLazySystemDLL "advapi32.dll") "EventRegister".
Definition procEventSetInformation : LazyProc := NewProc (NewLazySystemDLL "advapi32.dll") "EventSetInformation".
Definition procEventUnregister : LazyProc := NewProc (NewLazySystemDLL "advapi32.dll") "EventUnregister".
Definition procEventWriteTransfer : LazyProc := NewProc (NewLazySystemDLL "advapi32.dll") "EventWriteTransfer".

Section Calls.
Context `{Windows E}.
Definition eventRegister (providerId callback callbackContext providerHandle : Z)
  : St E (option error) :=
  '(r0, _) ← Syscall6 procEventRegister 4 [uintptr providerId; uintptr callback;
    uintptr callbackContext; uintptr providerHandle; 0; 0];
  mret (if negb (r0 =? 0) then Some (Errno r0) else None).
Definition eventSetInformation_64 (providerHandle class information length : Z)
  : St E (option error) :=
  '(r0, _) ← Syscall6 procEventSetInformation 4 [uintptr providerHandle; uintptr class;
    uintptr information; uintptr length; 0; 0];
  mret (if negb (r0 =? 0) then Some (Errno r0) else None).
Definition eventSetInformation_32 (providerHandle_low providerHandle_high class information length
  : Z) : St E (option error) :=
  '(r0, _) ← Syscall6 procEventSetInformation 5 [uintptr providerHandle_low;
    uintptr providerHandle_high; uintptr class; uintptr information; uintptr length; 0];
  mret (if negb (r0 =? 0) then Some (Errno r0) else None).
Definition eventUnregister_64 (providerHandle : Z) : St E (option error) :=
  '(r0, _) ← Syscall3 procEventUnregister 1 [uintptr providerHandle; 0; 0];
  mret (if negb (r0 =? 0) then Some (Errno r0) else None).
Definition eventUnregister_32 (providerHandle_low providerHandle_high : Z) : St E (option error) :=
  '(r0, _) ← Syscall3 procEventUnregister 2 [uintptr providerHandle_low;
    uintptr providerHandle_high; 0];
  mret (if negb (r0 =? 0) then Some (Errno r0) else None).
Definition eventWriteTransfer_64 (providerHandle descriptor activityID relatedActivityID
  dataDescriptorCount dataDescriptors : Z) : St E (option error) :=
  '(r0, _) ← Syscall6 procEventWriteTransfer 6 [uintptr providerHandle; uintptr descriptor;
    uintptr activityID; uintptr relatedActivityID; uintptr dataDescriptorCount;
      uintptr dataDescriptors];
  mret (if negb (r0 =? 0) then Some (Errno r0) else None).
Definition eventWriteTransfer_32 (providerHandle_low providerHandle_high descriptor activityID
  relatedActivityID dataDescriptorCount dataDescriptors : Z) : St E (option error) :=
  '(r0, _) ← Syscall9 procEventWriteTransfer 7 [uintptr providerHandle_low;
    uintptr providerHandle_high; uintptr descriptor; uintptr activityID; uintptr relatedActivityID;
      uintptr dataDescriptorCount; uintptr dataDescriptors; 0; 0];
  mret (if negb (r0 =? 0) then Some (Errno r0) else None).
End Calls.

(** ** internal/computestorage (zsyscall_windows.go) *)
Definition procHcsFormatWritableLayerVhd : LazyProc := NewProc (NewLazySystemDLL "computestorage.dll") "HcsFormatWritableLayerVhd".
Definition procHcsGetLayerVhdMountPath : LazyProc := NewProc (NewLazySystemDLL "computestorage.dll") "HcsGetLayerVhdMountPath".

Section Calls.
Context `{Windows E}.
Definition hcsFormatWritableLayerVhd (handle : Z) : St E (option error) :=
  hr ← LazyProc_Find procHcsFormatWritableLayerVhd;
  match hr with
  | Some _ => mret hr
  | None =>
    '(r0, _) ← Syscall3 procHcsFormatWritableLayerVhd 1 [uintptr handle; 0; 0];
    mret (if i32 r0 <? 0 then
      let r0 := if Z.land r0 0x1fff0000 =? 0x00070000 then Z.land r0 0xffff else r0 in
      Some (Errno r0) else None)
  end.
Definition hcsGetLayerVhdMountPath (vhdHandle mountPath : Z) : St E (option error) :=
  hr ← LazyProc_Find procHcsGetLayerVhdMountPath;
  match hr with
  | Some _ => mret hr
  | None =>
    '(r0, _) ← Syscall3 procHcsGetLayerVhdMountPath 2 [uintptr vhdHandle; uintptr mountPath; 0];
    mret (if i32 r0 <? 0 then
      let r0 := if Z.land r0 0x1fff0000 =? 0x00070000 then Z.land r0 0xffff else r0 in
      Some (Errno r0) else None)
  end.
End Calls.

(** ** internal/socket (zsyscall_windows.go) *)
Definition procbind : LazyProc := NewProc (NewLazySystemDLL "ws2_32.dll") "bind".
Definition procgetpeername : LazyProc := NewProc (NewLazySystemDLL "ws2_32.dll") "getpeername".
Definition procgetsockname : LazyProc := NewProc (NewLazySystemDLL "ws2_32.dll") "getsockname".

Section Calls.
Context `{Windows E}.
Definition bind (s name namelen : Z) : St E (option error) :=
  '(r1, e1) ← Syscall3 procbind 3 [uintptr s; uintptr name; uintptr namelen];
  mret (if r1 =? socketError then Some (errnoErr e1) else None).
Definition getpeername (s name namelen : Z) : St E (option error) :=
  '(r1, e1) ← Syscall3 procgetpeername 3 [uintptr s; uintptr name; uintptr namelen];
  mret (if r1 =? socketError then Some (errnoErr e1) else None).
Definition getsockname (s name namelen : Z) : St E (option error) :=
  '(r1, e1) ← Syscall3 procgetsockname 3 [uintptr s; uintptr name; uintptr namelen];
  mret (if r1 =? socketError then Some (errnoErr e1) else None).
End Calls.

(** ** pkg/process (zsyscall_windows.go) *)
Definition procK32EnumProcesses : LazyProc := NewProc (NewLazySystemDLL "kernel32.dll") "K32EnumProcesses".
Definition procK32GetProcessMemoryInfo : LazyProc := NewProc (NewLazySystemDLL "kernel32.dll") "K32GetProcessMemoryInfo".
Definition procQueryFullProcessImageNameW : LazyProc := NewProc (NewLazySystemDLL "kernel32.dll") "QueryFullProcessImageNameW".

Section Calls.
Context `{Windows E}.
Definition enumProcesses (pids bufferSize retBufferSize : Z) : St E (option error) :=
  '(r1, e1) ← Syscall3 procK32EnumProcesses 3 [uintptr pids; uintptr bufferSize;
    uintptr retBufferSize];
  mret (if r1 =? 0 then Some (errnoErr e1) else None).
Definition getProcessMemoryInfo (process memCounters size : Z) : St E (option error) :=
  '(r1, e1) ← Syscall3 procK32GetProcessMemoryInfo 3 [uintptr process; uintptr memCounters;
    uintptr size];
  mret (if r1 =? 0 then Some (errnoErr e1) else None).
Definition queryFullProcessImageName (process flags buffer bufferSize : Z) : St E (option error) :=
  '(r1, e1) ← Syscall6 procQueryFullProcessImageNameW 4 [uintptr process; uintptr flags;
    uintptr buffer; uintptr bufferSize; 0; 0];
  mret (if r1 =? 0 then Some (errnoErr e1) else None).
End Calls.

(** ** pkg/security (zsyscall_windows.go) *)
Definition procGetSecurityInfo : LazyProc := NewProc (NewLazySystemDLL "advapi32.dll") "GetSecurityInfo".
Definition procSetEntriesInAclW : LazyProc := NewProc (NewLazySystemDLL "advapi32.dll") "SetEntriesInAclW".
Definition procSetSecurityInfo : LazyProc := NewProc (NewLazySystemDLL "advapi32.dll") "SetSecurityInfo".

Section Calls.
Context `{Windows E}.
Definition getSecurityInfo (handle objectType si ppsidOwner ppsidGroup ppDacl ppSacl
  ppSecurityDescriptor : Z) : St E (option error) :=
  '(r0, _) ← Syscall9 procGetSecurityInfo 8 [uintptr handle; uintptr objectType; uintptr si;
    uintptr ppsidOwner; uintptr ppsidGroup; uintptr ppDacl; uintptr ppSacl;
      uintptr ppSecurityDescriptor; 0];
  mret (if negb (r0 =? 0) then Some (Errno r0) else None).
Definition setEntriesInAcl (count pListOfEEs oldAcl newAcl : Z) : St E (option error) :=
  '(r0, _) ← Syscall6 procSetEntriesInAclW 4 [uintptr count; uintptr pListOfEEs; uintptr oldAcl;
    uintptr newAcl; 0; 0];
  mret (if negb (r0 =? 0) then Some (Errno r0) else None).
Definition setSecurityInfo (handle objectType si psidOwner psidGroup pDacl pSacl : Z)
  : St E (option error) :=
  '(r0, _) ← Syscall9 procSetSecurityInfo 7 [uintptr handle; uintptr objectType; uintptr si;
    uintptr psidOwner; uintptr psidGroup; uintptr pDacl; uintptr pSacl; 0; 0];
  mret (if negb (r0 =? 0) then Some (Errno r0) else None).
End Calls.

(** ** internal/fs (zsyscall_windows.go) *)
Definition procCreateFileW : LazyProc := NewProc (NewLazySystemDLL "kernel32.dll") "CreateFileW".

Section Calls.
Context `{Windows E}.
Definition _CreateFile (name access mode sa createmode attrs templatefile : Z)
  : St E (Z * option error) :=
  '(r0, e1) ← Syscall9 procCreateFileW 7 [uintptr name; uintptr access; uintptr mode; uintptr sa;
    uintptr createmode; uintptr attrs; uintptr templatefile; 0; 0];
  let handle := r0 in
  mret (handle, if handle =? InvalidHandle then Some (errnoErr e1) else None).
Definition CreateFile (name : text) (access mode sa createmode attrs templatefile : Z)
  : St E (Z * option error) :=
  r ← UTF16PtrFromString name;
  match r with
  | inr err => mret (0, Some err)
  | inl _p0 =>
    _CreateFile _p0 access mode sa createmode attrs templatefile
  end.
End Calls.

(** ** internal/interop (zsyscall_windows.go) *)
Definition procCoTaskMemFree : LazyProc := NewProc (NewLazySystemDLL "api-ms-win-core-com-l1-1-0.dll") "CoTaskMemFree".

Section Calls.
Context `{Windows E}.
Definition coTaskMemFree (buffer : Z) : St E unit :=
  Syscall3 procCoTaskMemFree 1 [uintptr buffer; 0; 0];;
  mret tt.
End Calls.
