(* ===== verification/ZsyscallSpec.v ===== *)
(** * The generated system calls are what their declarations mean

    Every function of [Zsyscall] and [ZsyscallPkg] next to the [//sys] line that it was generated
    from: called on values of the declared types, it is the meaning of the
    declaration, and so it is the code that the generator prints today. *)
From S2P Require Import Prelude GoStrings Unicode GoText Mkwinsyscall MkwinsyscallGen MkwinsyscallSpec MkwinsyscallText GoCode SyscallCode SyscallMeaning SyscallSpec Zsyscall ZsyscallPkg.

(** ** Functions on values

    A function of Go on a list of values of its parameters' types, by its type. *)
Class GoResult (R : Type) := result_vals : R → list val.
#[export] Instance word_result : GoResult Z := λ z, [VInt z].
#[export] Instance error_result : GoResult (option error) := λ e, [VErr e].
#[export] Instance word_error_result : GoResult (Z * option error) := λ '(z, e), [VInt z; VErr e].
#[export] Instance bool_error_result : GoResult (bool * option error) := λ '(b, e), [VBool b; VErr e].
#[export] Instance no_result : GoResult unit := λ _, [].

Section Functions.
Context {E : Type}.
Class GoFun (F : Type) := run_go : F → list val → St E (list val).
#[export] Instance returns_fun `{GoResult R} : GoFun (St E R) := λ m vs,
  match vs with [] => r ← m; mret (result_vals r) | _ => lift does_not_compile end.
#[export] Instance word_fun `{GoFun F} : GoFun (Z → F) := λ f vs,
  match vs with VInt z :: vs | VPtr z :: vs => run_go (f z) vs | _ => lift does_not_compile end.
#[export] Instance bool_fun `{GoFun F} : GoFun (bool → F) := λ f vs,
  match vs with VBool b :: vs => run_go (f b) vs | _ => lift does_not_compile end.
#[export] Instance slice_fun `{GoFun F} : GoFun (Z * Z → F) := λ f vs,
  match vs with VSlice a n :: vs => run_go (f (a, n)) vs | _ => lift does_not_compile end.
#[export] Instance text_fun `{GoFun F} : GoFun (text → F) := λ f vs,
  match vs with VStr s :: vs => run_go (f s) vs | _ => lift does_not_compile end.
End Functions.
Arguments GoFun E F : clear implicits.

(** ** The declarations (the [//sys] lines) *)
Section Wrappers.
Context `{Windows E}.
Record Wrapper := mkWrapper { w_line : string; w_fun : list val → St E (list val) }.
Definition wrapper `{GoFun E F} (line : string) (f : F) : Wrapper := mkWrapper line (run_go f).

Definition winio_wrappers : list Wrapper := [
  wrapper " backupRead(h windows.Handle, b []byte, bytesRead *uint32, abort bool, processSecurity bool, context *uintptr) (err error) = BackupRead"
    backupRead;
  wrapper " backupWrite(h windows.Handle, b []byte, bytesWritten *uint32, abort bool, processSecurity bool, context *uintptr) (err error) = BackupWrite"
    backupWrite;
  wrapper " cancelIoEx(file windows.Handle, o *windows.Overlapped) (err error) = CancelIoEx"
    cancelIoEx;
  wrapper " createIoCompletionPort(file windows.Handle, port windows.Handle, key uintptr, threadCount uint32) (newport windows.Handle, err error) = CreateIoCompletionPort"
    createIoCompletionPort;
  wrapper " getQueuedCompletionStatus(port windows.Handle, bytes *uint32, key *uintptr, o **ioOperation, timeout uint32) (err error) = GetQueuedCompletionStatus"
    getQueuedCompletionStatus;
  wrapper " setFileCompletionNotificationModes(h windows.Handle, flags uint8) (err error) = SetFileCompletionNotificationModes"
    setFileCompletionNotificationModes;
  wrapper " wsaGetOverlappedResult(h windows.Handle, o *windows.Overlapped, bytes *uint32, wait bool, flags *uint32) (err error) = ws2_32.WSAGetOverlappedResult"
    wsaGetOverlappedResult;
  wrapper " adjustTokenPrivileges(token windows.Token, releaseAll bool, input *byte, outputSize uint32, output *byte, requiredSize *uint32) (success bool, err error) [true] = advapi32.AdjustTokenPrivileges"
    adjustTokenPrivileges;
  wrapper " impersonateSelf(level uint32) (err error) = advapi32.ImpersonateSelf"
    impersonateSelf;
  wrapper " revertToSelf() (err error) = advapi32.RevertToSelf"
    revertToSelf;
  wrapper " openThreadToken(thread windows.Handle, accessMask uint32, openAsSelf bool, token *windows.Token) (err error) = advapi32.OpenThreadToken"
    openThreadToken;
  wrapper " getCurrentThread() (h windows.Handle) = GetCurrentThread"
    getCurrentThread;
  wrapper " lookupPrivilegeValue(systemName string, name string, luid *uint64) (err error) = advapi32.LookupPrivilegeValueW"
    lookupPrivilegeValue;
  wrapper " lookupPrivilegeName(systemName string, luid *uint64, buffer *uint16, size *uint32) (err error) = advapi32.LookupPrivilegeNameW"
    lookupPrivilegeName;
  wrapper " lookupPrivilegeDisplayName(systemName string, name *uint16, buffer *uint16, size *uint32, languageId *uint32) (err error) = advapi32.LookupPrivilegeDisplayNameW"
    lookupPrivilegeDisplayName;
  wrapper " lookupAccountName(systemName *uint16, accountName string, sid *byte, sidSize *uint32, refDomain *uint16, refDomainSize *uint32, sidNameUse *uint32) (err error) = advapi32.LookupAccountNameW"
    lookupAccountName;
  wrapper " lookupAccountSid(systemName *uint16, sid *byte, name *uint16, nameSize *uint32, refDomain *uint16, refDomainSize *uint32, sidNameUse *uint32) (err error) = advapi32.LookupAccountSidW"
    lookupAccountSid;
  wrapper " convertSidToStringSid(sid *byte, str **uint16) (err error) = advapi32.ConvertSidToStringSidW"
    convertSidToStringSid;
  wrapper " convertStringSidToSid(str *uint16, sid **byte) (err error) = advapi32.ConvertStringSidToSidW"
    convertStringSidToSid;
  wrapper " connectNamedPipe(pipe windows.Handle, o *windows.Overlapped) (err error) = ConnectNamedPipe"
    connectNamedPipe;
  wrapper " createNamedPipe(name string, flags uint32, pipeMode uint32, maxInstances uint32, outSize uint32, inSize uint32, defaultTimeout uint32, sa *windows.SecurityAttributes) (handle windows.Handle, err error)  [failretval==windows.InvalidHandle] = CreateNamedPipeW"
    createNamedPipe;
  wrapper " disconnectNamedPipe(pipe windows.Handle) (err error) = DisconnectNamedPipe"
    disconnectNamedPipe;
  wrapper " getNamedPipeInfo(pipe windows.Handle, flags *uint32, outSize *uint32, inSize *uint32, maxInstances *uint32) (err error) = GetNamedPipeInfo"
    getNamedPipeInfo;
  wrapper " getNamedPipeHandleState(pipe windows.Handle, state *uint32, curInstances *uint32, maxCollectionCount *uint32, collectDataTimeout *uint32, userName *uint16, maxUserNameSize uint32) (err error) = GetNamedPipeHandleStateW"
    getNamedPipeHandleState;
  wrapper " ntCreateNamedPipeFile(pipe *windows.Handle, access ntAccessMask, oa *objectAttributes, iosb *ioStatusBlock, share ntFileShareMode, disposition ntFileCreationDisposition, options ntFileOptions, typ uint32, readMode uint32, completionMode uint32, maxInstances uint32, inboundQuota uint32, outputQuota uint32, timeout *int64) (status ntStatus) = ntdll.NtCreateNamedPipeFile"
    ntCreateNamedPipeFile;
  wrapper " rtlNtStatusToDosError(status ntStatus) (winerr error) = ntdll.RtlNtStatusToDosErrorNoTeb"
    rtlNtStatusToDosError;
  wrapper " rtlDosPathNameToNtPathName(name *uint16, ntName *unicodeString, filePart uintptr, reserved uintptr) (status ntStatus) = ntdll.RtlDosPathNameToNtPathName_U"
    rtlDosPathNameToNtPathName;
  wrapper " rtlDefaultNpAcl(dacl *uintptr) (status ntStatus) = ntdll.RtlDefaultNpAcl"
    rtlDefaultNpAcl].
Definition bindfilter_wrappers : list Wrapper := [
  wrapper " bfSetupFilter(jobHandle windows.Handle, flags uint32, virtRootPath string, virtTargetPath string, virtExceptions **uint16, virtExceptionPathCount uint32) (hr error) = bindfltapi.BfSetupFilter?"
    bfSetupFilter;
  wrapper " bfRemoveMapping(jobHandle windows.Handle, virtRootPath string)  (hr error) = bindfltapi.BfRemoveMapping?"
    bfRemoveMapping;
  wrapper " bfGetMappings(flags uint32, jobHandle windows.Handle, virtRootPath *uint16, sid *windows.SID, bufferSize *uint32, outBuffer *byte)  (hr error) = bindfltapi.BfGetMappings?"
    bfGetMappings].
Definition vhd_wrappers : list Wrapper := [
  wrapper " createVirtualDisk(virtualStorageType *VirtualStorageType, path string, virtualDiskAccessMask uint32, securityDescriptor *uintptr, createVirtualDiskFlags uint32, providerSpecificFlags uint32, parameters *CreateVirtualDiskParameters, overlapped *syscall.Overlapped, handle *syscall.Handle) (win32err error) = virtdisk.CreateVirtualDisk"
    createVirtualDisk;
  wrapper " openVirtualDisk(virtualStorageType *VirtualStorageType, path string, virtualDiskAccessMask uint32, openVirtualDiskFlags uint32, parameters *openVirtualDiskParameters, handle *syscall.Handle) (win32err error) = virtdisk.OpenVirtualDisk"
    openVirtualDisk;
  wrapper " attachVirtualDisk(handle syscall.Handle, securityDescriptor *uintptr, attachVirtualDiskFlag uint32, providerSpecificFlags uint32, parameters *AttachVirtualDiskParameters, overlapped *syscall.Overlapped) (win32err error) = virtdisk.AttachVirtualDisk"
    attachVirtualDisk;
  wrapper " detachVirtualDisk(handle syscall.Handle, detachVirtualDiskFlags uint32, providerSpecificFlags uint32) (win32err error) = virtdisk.DetachVirtualDisk"
    detachVirtualDisk;
  wrapper " getVirtualDiskPhysicalPath(handle syscall.Handle, diskPathSizeInBytes *uint32, buffer *uint16) (win32err error) = virtdisk.GetVirtualDiskPhysicalPath"
    getVirtualDiskPhysicalPath].
Definition etw_wrappers : list Wrapper := [
  wrapper " eventRegister(providerId *windows.GUID, callback uintptr, callbackContext uintptr, providerHandle *providerHandle) (win32err error) = advapi32.EventRegister"
    eventRegister;
  wrapper " eventUnregister_64(providerHandle providerHandle) (win32err error) = advapi32.EventUnregister"
    eventUnregister_64;
  wrapper " eventWriteTransfer_64(providerHandle providerHandle, descriptor *eventDescriptor, activityID *windows.GUID, relatedActivityID *windows.GUID, dataDescriptorCount uint32, dataDescriptors *eventDataDescriptor) (win32err error) = advapi32.EventWriteTransfer"
    eventWriteTransfer_64;
  wrapper " eventSetInformation_64(providerHandle providerHandle, class eventInfoClass, information uintptr, length uint32) (win32err error) = advapi32.EventSetInformation"
    eventSetInformation_64;
  wrapper " eventUnregister_32(providerHandle_low uint32, providerHandle_high uint32) (win32err error) = advapi32.EventUnregister"
    eventUnregister_32;
  wrapper " eventWriteTransfer_32(providerHandle_low uint32, providerHandle_high uint32, descriptor *eventDescriptor, activityID *windows.GUID, relatedActivityID *windows.GUID, dataDescriptorCount uint32, dataDescriptors *eventDataDescriptor) (win32err error) = advapi32.EventWriteTransfer"
    eventWriteTransfer_32;
  wrapper " eventSetInformation_32(providerHandle_low uint32, providerHandle_high uint32, class eventInfoClass, information uintptr, length uint32) (win32err error) = advapi32.EventSetInformation"
    eventSetInformation_32].
Definition computestorage_wrappers : list Wrapper := [
  wrapper " hcsFormatWritableLayerVhd(handle windows.Handle) (hr error) = computestorage.HcsFormatWritableLayerVhd?"
    hcsFormatWritableLayerVhd;
  wrapper " hcsGetLayerVhdMountPath(vhdHandle windows.Handle, mountPath **uint16) (hr error) = computestorage.HcsGetLayerVhdMountPath?"
    hcsGetLayerVhdMountPath].
Definition socket_wrappers : list Wrapper := [
  wrapper " getsockname(s windows.Handle, name unsafe.Pointer, namelen *int32) (err error) [failretval==socketError] = ws2_32.getsockname"
    getsockname;
  wrapper " getpeername(s windows.Handle, name unsafe.Pointer, namelen *int32) (err error) [failretval==socketError] = ws2_32.getpeername"
    getpeername;
  wrapper " bind(s windows.Handle, name unsafe.Pointer, namelen int32) (err error) [failretval==socketError] = ws2_32.bind"
    bind].
Definition process_wrappers : list Wrapper := [
  wrapper " enumProcesses(pids *uint32, bufferSize uint32, retBufferSize *uint32) (err error) = kernel32.K32EnumProcesses"
    enumProcesses;
  wrapper " getProcessMemoryInfo(process handle, memCounters *ProcessMemoryCountersEx, size uint32) (err error) = kernel32.K32GetProcessMemoryInfo"
    getProcessMemoryInfo;
  wrapper " queryFullProcessImageName(process handle, flags uint32, buffer *uint16, bufferSize *uint32) (err error) = kernel32.QueryFullProcessImageNameW"
    queryFullProcessImageName].
Definition security_wrappers : list Wrapper := [
  wrapper " getSecurityInfo(handle windows.Handle, objectType uint32, si uint32, ppsidOwner **uintptr, ppsidGroup **uintptr, ppDacl *uintptr, ppSacl *uintptr, ppSecurityDescriptor *uintptr) (win32err error) = advapi32.GetSecurityInfo"
    getSecurityInfo;
  wrapper " setSecurityInfo(handle windows.Handle, objectType uint32, si uint32, psidOwner uintptr, psidGroup uintptr, pDacl uintptr, pSacl uintptr) (win32err error) = advapi32.SetSecurityInfo"
    setSecurityInfo;
  wrapper " setEntriesInAcl(count uintptr, pListOfEEs uintptr, oldAcl uintptr, newAcl *uintptr) (win32err error) = advapi32.SetEntriesInAclW"
    setEntriesInAcl].
Definition fs_wrappers : list Wrapper := [
  wrapper " CreateFile(name string, access AccessMask, mode FileShareMode, sa *windows.SecurityAttributes, createmode FileCreationDisposition, attrs FileFlagOrAttribute, templatefile windows.Handle) (handle windows.Handle, err error) [failretval==windows.InvalidHandle] = CreateFileW"
    CreateFile].
Definition interop_wrappers : list Wrapper := [
  wrapper " coTaskMemFree(buffer unsafe.Pointer) = api_ms_win_core_com_l1_1_0.CoTaskMemFree"
    coTaskMemFree].

Definition wrappers : list Wrapper :=
  winio_wrappers ++ bindfilter_wrappers ++ vhd_wrappers ++ etw_wrappers ++ computestorage_wrappers ++
  socket_wrappers ++ process_wrappers ++ security_wrappers ++ fs_wrappers ++ interop_wrappers.
End Wrappers.

(** ** What the declarations refer to *)

(** The file of a DLL: the argument of [NewLazySystemDLL]. *)
Definition dll_file (dll : text) : text :=
  let file := dll ++ str ".dll" in
  if HasPrefix dll (str "api_") || HasPrefix dll (str "ext_") then dashes file else file.
Lemma newlazydll_file `{Flags} pkg dll :
  systemDLL = true →
  newlazydll pkg pkgOther dll =
    str "windows.NewLazySystemDLL(" ++ strq "`" ++ dll_file dll ++ strq "`" ++ str ")".
Proof.
  intros Hs. unfold newlazydll, dll_file. rewrite Hs. cbn [negb].
  assert (Hd : ∀ s t, dashes (s ++ t) = dashes s ++ dashes t) by (intros; apply fmap_app).
  destruct (_ || _); rewrite ?Hd, <- !app_assoc; reflexivity.
Qed.

(** The named integer types, and the conditions in brackets. *)
Definition conv (ty : text) (z : Z) : Z := if bool_decide (ty = str "ntStatus") then i32 z else z.
Definition cond (c : text) (v : val) : bool :=
  if bool_decide (c = str "true") then true
  else match v with
       | VInt z =>
           if bool_decide (c = str "failretval==windows.InvalidHandle") then z =? InvalidHandle
           else if bool_decide (c = str "failretval==socketError") then z =? socketError
           else false
       | _ => false
       end.

(** ** Proof *)
Definition parses (line : string) (d : Fn) : Prop := newFn (H := default_flags) (str line) = Ret d.

Ltac decl_ok :=
  constructor;
  [apply (bool_decide_unpack _); by vm_compute
  |try (intros _; split; by vm_compute); by vm_compute
  |try (by vm_compute); intros _; left; by vm_compute
  |try (intros _ _; by vm_compute); intros _ _ _; split; by vm_compute
  |by vm_compute
  |apply (bool_decide_unpack _); by vm_compute].

Ltac typed H := vm_compute in H; repeat match type of H with
  | ∃ _, _ => let x := fresh "z" in destruct H as [x H] end;
  lazymatch type of H with _ ∧ _ => destruct H as [-> H] | _ => subst end.
Ltac typed_args :=
  repeat match goal with
  | Hvs : Forall2 _ (_ :: _) _ |- _ =>
      let Hv := fresh "Hv" in
      apply Forall2_cons_inv_l in Hvs as (? & ? & Hv & Hvs & ->); typed Hv
  | Hvs : Forall2 _ [] _ |- _ => apply Forall2_nil_inv_l in Hvs as ->
  end.

Ltac run_both :=
  repeat match goal with
  | |- context [PtrFromString ?w ?s ?e] => destruct (PtrFromString w s e) as [[[?|?]| | |] ?]
  | |- context [Proc_Find ?d ?n ?e] => destruct (Proc_Find d n e) as [[[?|]| | |] ?]
  | |- context [Proc_Call ?d ?n ?ws ?e] => destruct (Proc_Call d n ws e) as [[[? ?]| | |] ?]
  end;
  try reflexivity; repeat case_match; first [reflexivity | congruence].
Ltac same_meaning :=
  let Hvs := fresh "Hvs" in
  intros ? ? Hvs; cbn [Params] in Hvs; typed_args;
  repeat match goal with b : bool |- _ => destruct b end;
  cbv -[Proc_Call Proc_Find PtrFromString u64 i32 errnoErr Z.land errERROR_EINVAL];
  change (u64 1) with 1; change (u64 0) with 0;
  run_both.
Ltac wrapper_ok := eexists; split; [vm_compute; reflexivity|split; [decl_ok|split; [by vm_compute|split;
  [apply (bool_decide_unpack _); by vm_compute|same_meaning]]]].

Ltac all_wrappers :=
  match goal with |- Forall ?P ?l => let l' := eval hnf in l in change (Forall P l') end;
  repeat (apply Forall_cons_2; [wrapper_ok|]); apply Forall_nil_2.

Section Meanings.
Context `{Windows E}.
Definition wrapper_ok (w : Wrapper) : Prop := ∃ d, parses (w_line w) d ∧ decl_ok d ∧ nargs d ≤ 15 ∧
  Forall (λ n, reserved n = false) (declared_names d) ∧
  ∀ vs e, Forall2 (λ p v, has_type (Param_Type p) v) (Params d) vs →
    w_fun w vs e = meaning (H0 := default_flags) conv cond (dll_file (DLLName d)) d vs e.
Lemma winio_ok : Forall wrapper_ok winio_wrappers.
Proof. all_wrappers. Qed.
Lemma bindfilter_ok : Forall wrapper_ok bindfilter_wrappers.
Proof. all_wrappers. Qed.
Lemma vhd_ok : Forall wrapper_ok vhd_wrappers.
Proof. all_wrappers. Qed.
Lemma etw_ok : Forall wrapper_ok etw_wrappers.
Proof. all_wrappers. Qed.
Lemma computestorage_ok : Forall wrapper_ok computestorage_wrappers.
Proof. all_wrappers. Qed.
Lemma socket_ok : Forall wrapper_ok socket_wrappers.
Proof. all_wrappers. Qed.
Lemma process_ok : Forall wrapper_ok process_wrappers.
Proof. all_wrappers. Qed.
Lemma security_ok : Forall wrapper_ok security_wrappers.
Proof. all_wrappers. Qed.
Lemma fs_ok : Forall wrapper_ok fs_wrappers.
Proof. all_wrappers. Qed.
Lemma interop_ok : Forall wrapper_ok interop_wrappers.
Proof. all_wrappers. Qed.

Lemma wrapper_means w : w ∈ wrappers → wrapper_ok w.
Proof.
  revert w. apply Forall_forall. unfold wrappers. rewrite !Forall_app.
  auto 20 using winio_ok, bindfilter_ok, vhd_ok, etw_ok, computestorage_ok, socket_ok, process_ok,
    security_ok, fs_ok, interop_ok.
Qed.

(** C26: Every generated function that is checked in is what the generator makes of its [//sys]
    line: the line parses; whatever the system answers, the function does on arguments of
    the declared types what the declaration means; and the code that the generator prints for
    the line, which is compared up to the tabs of its indentation, does the same, under any
    declaration of its procedure in its DLL. *)
Theorem wrappers_generated (w : Wrapper) :
  w ∈ wrappers →
  ∃ d, newFn (H := default_flags) (str (w_line w)) = Ret d ∧
    let dll := dll_file (DLLName d) in
    ∀ pkg, ∃ code f' ν,
      t_func (H := default_flags) pkg d = (Ret code, f') ∧
      unindent code = unindent (concat (print_func <$> go_funcs (H := default_flags) pkg d ν)) ∧
      ∀ vs (e : E), Forall2 (λ p v, has_type (Param_Type p) v) (Params d) vs →
        w_fun w vs e = meaning (H0 := default_flags) conv cond dll d vs e ∧
        ∀ procs, procs (DLLFuncName d) = Some (dll, DLLFuncName d) →
          call conv cond procs 1 (go_funcs (H := default_flags) pkg d ν)
            (entry (H0 := default_flags) pkg d ν) vs e = w_fun w vs e.
Proof.
  intros (d & Hd & Hok & Hn & Hres & Hw)%wrapper_means. exists d. split; [done|].
  intros dll pkg. destruct (printed_code (H := default_flags) pkg _ d Hd Hok Hn Hres) as (code & f' & ν & E' & Hs & Hc).
  exists code, f', ν. split_and!; [done|done|]. intros vs e Hvs. rewrite (Hw vs e Hvs).
  split; [done|]. intros procs Hp. by apply Hc.
Qed.
End Meanings.

(** ** Witness *)
Theorem wrappers_generated_witness :
  let w := wrapper (E := test_log) " CreateFile(name string, access AccessMask, mode FileShareMode, sa *windows.SecurityAttributes, createmode FileCreationDisposition, attrs FileFlagOrAttribute, templatefile windows.Handle) (handle windows.Handle, err error) [failretval==windows.InvalidHandle] = CreateFileW"
    (CreateFile (H := test_windows)) in
  w ∈ wrappers (E := test_log) (H := test_windows) ∧
  w_fun w CreateFile_args [] =
    (Ret [VInt 256; VErr None],
     [(str "alloc", [97; 0]); (str "CreateFileW", [4096; 1; 2; 8; 3; 4; 0])]) ∧
  ∃ d, newFn (H := default_flags) (str (w_line w)) = Ret d ∧
    w_fun w CreateFile_args [] =
      meaning (H := test_windows) (H0 := default_flags) conv cond (str "kernel32.dll") d CreateFile_args [].
Proof.
  intros w.
  assert (Hw : w ∈ wrappers (H := test_windows)).
  { unfold wrappers. rewrite !elem_of_app. do 8 right. left. unfold fs_wrappers. left. }
  split; [done|]. split; [by vm_compute|].
  destruct (wrappers_generated (H := test_windows) w Hw) as (d & Hd & Hcode). exists d. split; [done|].
  assert (Hd' : d = CreateFile_fn).
  { pose proof CreateFile_parses as Hp. change (str (w_line w)) with (str CreateFile_line) in Hd. congruence. }
  subst d. destruct (Hcode (str "fs")) as (code & f' & ν & _ & _ & Hm).
  destruct (Hm CreateFile_args []) as [Hm1 _]; [apply has_types_ok; by vm_compute|]. exact Hm1.
Defined.
