(* ===== verification/EtwWrapper.v ===== *)
(** * The system calls of ETW on 32 and on 64 bits

    The files [wrapper_32.go] and [wrapper_64.go]: a handle or keyword of 64 bits is one word on
    a 64-bit system, and its low and high halves on a 32-bit one.  Both
    files are proved to make the same calls of the system. *)
From S2P Require Import Prelude GoStrings Guid EtwMetadata EtwProvider GoCode Zsyscall ZsyscallPkg.

(** ** wrapper_64.go *)
Module Wrapper64.
Section Wrapper.
Context `{Windows E}.
Definition eventUnregister (providerHandle : Z) : St E (option error) :=
  eventUnregister_64 providerHandle.
Definition eventWriteTransfer (providerHandle descriptor activityID relatedActivityID
    dataDescriptorCount dataDescriptors : Z) : St E (option error) :=
  eventWriteTransfer_64 providerHandle descriptor activityID relatedActivityID
    dataDescriptorCount dataDescriptors.
Definition eventSetInformation (providerHandle class information length : Z) : St E (option error) :=
  eventSetInformation_64 providerHandle class information length.
End Wrapper.

(** The callback is called with words of 64 bits; [sourceID] points to a GUID. *)
Definition providerCallbackAdapter (sourceID : GUID)
    (state level matchAnyKeyword matchAllKeyword filterData i : Z) : St globals Z :=
  _ ← providerCallback
    (mkNote sourceID (u32 state) (u8 level) (u64 matchAnyKeyword) (u64 matchAllKeyword) filterData) i;
  mret 0.
End Wrapper64.

(** ** wrapper_32.go *)
Module Wrapper32.
Definition low (v : Z) : Z := u32 (Z.land v 0xffffffff).
Definition high (v : Z) : Z := low (Z.shiftr v 32).

Section Wrapper.
Context `{Windows E}.
Definition eventUnregister (providerHandle : Z) : St E (option error) :=
  eventUnregister_32 (low providerHandle) (high providerHandle).
Definition eventWriteTransfer (providerHandle descriptor activityID relatedActivityID
    dataDescriptorCount dataDescriptors : Z) : St E (option error) :=
  eventWriteTransfer_32 (low providerHandle) (high providerHandle) descriptor activityID
    relatedActivityID dataDescriptorCount dataDescriptors.
Definition eventSetInformation (providerHandle class information length : Z) : St E (option error) :=
  eventSetInformation_32 (low providerHandle) (high providerHandle) class information length.
End Wrapper.

(** The callback is called with words of 32 bits. *)
Definition providerCallbackAdapter (sourceID : GUID) (state level
    matchAnyKeyword_low matchAnyKeyword_high matchAllKeyword_low matchAllKeyword_high
    filterData i : Z) : St globals Z :=
  let matchAnyKeyword := Z.lor (u64 (Z.shiftl matchAnyKeyword_high 32)) matchAnyKeyword_low in
  let matchAllKeyword := Z.lor (u64 (Z.shiftl matchAllKeyword_high 32)) matchAllKeyword_low in
  _ ← providerCallback
    (mkNote sourceID state (u8 level) (u64 matchAnyKeyword) (u64 matchAllKeyword) filterData) i;
  mret 0.
End Wrapper32.

(** ** Both make the same calls *)
Lemma low_range v : 0 ≤ Wrapper32.low v < 2 ^ 32.
Proof. unfold Wrapper32.low, u32. apply Z.mod_pos_bound. lia. Qed.
Lemma low_mod v : Wrapper32.low v = v mod 2 ^ 32.
Proof.
  unfold Wrapper32.low, u32. change 0xffffffff with (Z.ones 32). rewrite Z.land_ones by lia.
  by rewrite Z.mod_mod.
Qed.
Lemma high_div v : 0 ≤ v < 2 ^ 64 → Wrapper32.high v = v / 2 ^ 32.
Proof.
  intros Hv. unfold Wrapper32.high. rewrite low_mod, Z.shiftr_div_pow2 by lia.
  apply Z.mod_small. split; [apply Z.div_pos; lia|]. apply Z.div_lt_upper_bound; lia.
Qed.
(** A word of 64 bits is its halves, as the callback puts them together. *)
Lemma low_high v : 0 ≤ v < 2 ^ 64 →
  u64 (Z.lor (u64 (Z.shiftl (Wrapper32.high v) 32)) (Wrapper32.low v)) = v.
Proof.
  intros Hv. rewrite high_div, low_mod, Z.shiftl_mul_pow2 by lia.
  pose proof (Z.mod_pos_bound v (2 ^ 32) ltac:(lia)). pose proof (Z.div_mod v (2 ^ 32) ltac:(lia)).
  pose proof (Z.div_pos v (2 ^ 32) ltac:(lia) ltac:(lia)).
  rewrite (u64_small (_ * _)) by lia. rewrite lor_add_low by lia. rewrite u64_small; lia.
Qed.

(** A 32-bit system: the procedures of ETW find their 64-bit handle in two words. *)
Definition recombine (ws : list Z) : list Z :=
  match ws with lo :: hi :: ws => hi * 2 ^ 32 + lo :: ws | _ => ws end.
Definition system_32 `(W : Windows E) : Windows E := {|
  w_Find := w_Find;
  w_Syscall := λ dll name ws e, w_Syscall dll name (recombine ws) e;
  w_alloc := w_alloc;
|}.

(** A call with the halves is the call with the word, whatever the zeros after them. *)
Lemma call_32 `(W : Windows E) width width' p n n' lo hi ws zs zs' v e :
  hi * 2 ^ 32 + lo = v → zlen ((lo :: hi :: ws) ++ zs) = width → zlen ((v :: ws) ++ zs') = width' →
  n = zlen (lo :: hi :: ws) → n' = zlen (v :: ws) →
  SyscallN (H := system_32 W) width p n ((lo :: hi :: ws) ++ zs) e =
  SyscallN (H := W) width' p n' ((v :: ws) ++ zs') e.
Proof.
  intros <- Hw Hw' -> ->. unfold SyscallN. rewrite Hw, Hw', !Z.eqb_refl, !ztake_app_eq by done. done.
Qed.

Lemma words_32 v : 0 ≤ v < 2 ^ 64 →
  uintptr (Wrapper32.high v) * 2 ^ 32 + uintptr (Wrapper32.low v) = uintptr v.
Proof.
  intros Hv. unfold uintptr. rewrite high_div, low_mod by lia.
  pose proof (Z.mod_pos_bound v (2 ^ 32) ltac:(lia)). pose proof (Z.div_mod v (2 ^ 32) ltac:(lia)).
  pose proof (Z.div_pos v (2 ^ 32) ltac:(lia) ltac:(lia)). rewrite !u64_small; lia.
Qed.

(** The 32-bit and the 64-bit build make the same calls of ETW: on a system that reads a
    64-bit handle off two words, unregistering, writing an event and setting
    information by halves are those of the whole handle, with the same error and the same effect;
    and a notification whose keywords arrive as halves is the notification of the whole keywords. *)
Theorem wrappers_agree `(W : Windows E) (h : Z) (e : E) :
  0 ≤ h < 2 ^ 64 →
  Wrapper32.eventUnregister (H := system_32 W) h e = Wrapper64.eventUnregister h e ∧
  (∀ d act rel n ds,
    Wrapper32.eventWriteTransfer (H := system_32 W) h d act rel n ds e =
    Wrapper64.eventWriteTransfer h d act rel n ds e) ∧
  (∀ c info len,
    Wrapper32.eventSetInformation (H := system_32 W) h c info len e =
    Wrapper64.eventSetInformation h c info len e) ∧
  (∀ id state level all filter i g, 0 ≤ state < 2 ^ 32 → 0 ≤ all < 2 ^ 64 →
    Wrapper32.providerCallbackAdapter id state level (Wrapper32.low h) (Wrapper32.high h)
      (Wrapper32.low all) (Wrapper32.high all) filter i g =
    Wrapper64.providerCallbackAdapter id state level h all filter i g).
Proof.
  intros Hh. pose proof (words_32 h Hh) as Hw. split_and!.
  - unfold Wrapper32.eventUnregister, eventUnregister_32. rewrite St_bind_eq.
    pose proof (call_32 W 3 3 procEventUnregister 2 1 _ _ [] [0] [0; 0] _ e Hw) as Hc.
    specialize (Hc eq_refl eq_refl eq_refl eq_refl). cbn [app] in Hc. unfold Syscall3. by rewrite Hc.
  - intros d act rel n ds. unfold Wrapper32.eventWriteTransfer, eventWriteTransfer_32. rewrite St_bind_eq.
    pose proof (call_32 W 9 6 procEventWriteTransfer 7 6 _ _
      [uintptr d; uintptr act; uintptr rel; uintptr n; uintptr ds] [0; 0] [] _ e Hw) as Hc.
    specialize (Hc eq_refl eq_refl eq_refl eq_refl). cbn [app] in Hc. unfold Syscall9. by rewrite Hc.
  - intros c info len. unfold Wrapper32.eventSetInformation, eventSetInformation_32. rewrite St_bind_eq.
    pose proof (call_32 W 6 6 procEventSetInformation 5 4 _ _
      [uintptr c; uintptr info; uintptr len] [0] [0; 0] _ e Hw) as Hc.
    specialize (Hc eq_refl eq_refl eq_refl eq_refl). cbn [app] in Hc. unfold Syscall6. by rewrite Hc.
  - intros id state level all filter i g Hs Ha.
    unfold Wrapper32.providerCallbackAdapter, Wrapper64.providerCallbackAdapter. cbv zeta.
    rewrite !low_high by done. rewrite (u64_small h), (u64_small all) by lia.
    by replace (u32 state) with state by (unfold u32; rewrite Z.mod_small; lia).
Qed.

Definition etw_windows : Windows (list (list Z)) := {|
  w_Find := λ _ _ e, (None, e);
  w_Syscall := λ _ _ ws e, ((0, 0), e ++ [ws]);
  w_alloc := λ _ e, (0, e);
|}.
Theorem wrappers_agree_witness :
  Wrapper32.eventUnregister (H := system_32 etw_windows) 0x123456789A [] = (Ret None, [[0x123456789A]]) ∧
  Wrapper64.eventUnregister (H := etw_windows) 0x123456789A [] = (Ret None, [[0x123456789A]]).
Proof.
  assert (Hh : 0 ≤ 0x123456789A < 2 ^ 64) by lia.
  destruct (wrappers_agree etw_windows 0x123456789A [] Hh) as [E _]. rewrite E. split; by vm_compute.
Defined.
