(* ===== verification/FileInfo.v ===== *)
(** * File information (fileinfo.go) and opening for backup (backup.go)

    The structures of the system are bytes in memory: a structure is laid out in
    a buffer, the system fills the buffer, and the buffer is read as another
    structure of the same layout. *)
From S2P Require Import Prelude GoStrings Unicode GoCode Zsyscall ZsyscallPkg FsFlags.

(** [*os.File]: its handle and its name. *)
Record File := mkFile { Fd : Z; Name : list Z }.

Definition PathError (op : string) (path : list Z) (e : error) : error := Wrapf op [] [path] e.

(** ** Layouts *)
Record Filetime := mkFT { LowDateTime : Z; HighDateTime : Z }.
Record FileBasicInfo := mkFBI {
  CreationTime : Filetime; LastAccessTime : Filetime; LastWriteTime : Filetime; ChangeTime : Filetime;
  FileAttributes : Z; fbi_pad : Z }.
Record alignedFileBasicInfo := mkAFBI {
  a_CreationTime : Z; a_LastAccessTime : Z; a_LastWriteTime : Z; a_ChangeTime : Z;
  a_FileAttributes : Z; a_pad : Z }.
Record FileStandardInfo := mkFSI {
  AllocationSize : Z; EndOfFile : Z; NumberOfLinks : Z; DeletePending : bool; Directory : bool }.
Record FileIDInfo := mkFID { VolumeSerialNumber : Z; FileID : list Z }.

Definition filetime_bytes (t : Filetime) : list Z := le_bytes 4 (LowDateTime t) ++ le_bytes 4 (HighDateTime t).
Definition basic_bytes (b : FileBasicInfo) : list Z :=
  filetime_bytes (CreationTime b) ++ filetime_bytes (LastAccessTime b) ++
  filetime_bytes (LastWriteTime b) ++ filetime_bytes (ChangeTime b) ++
  le_bytes 4 (FileAttributes b) ++ le_bytes 4 (fbi_pad b).
Definition aligned_bytes (b : alignedFileBasicInfo) : list Z :=
  le_bytes 8 (a_CreationTime b) ++ le_bytes 8 (a_LastAccessTime b) ++
  le_bytes 8 (a_LastWriteTime b) ++ le_bytes 8 (a_ChangeTime b) ++
  le_bytes 4 (a_FileAttributes b) ++ le_bytes 4 (a_pad b).

(** The field of [n] bytes at an offset. *)
Definition field (off n : Z) (l : list Z) : Z := le_val (ztake n (zdrop off l)).
Definition read_filetime (off : Z) (l : list Z) : Filetime := mkFT (field off 4 l) (field (off + 4) 4 l).
Definition read_basic (l : list Z) : FileBasicInfo :=
  mkFBI (read_filetime 0 l) (read_filetime 8 l) (read_filetime 16 l) (read_filetime 24 l)
    (field 32 4 l) (field 36 4 l).
Definition read_aligned (l : list Z) : alignedFileBasicInfo :=
  mkAFBI (field 0 8 l) (field 8 8 l) (field 16 8 l) (field 24 8 l) (field 32 4 l) (field 36 4 l).
Definition read_standard (l : list Z) : FileStandardInfo :=
  mkFSI (i64 (field 0 8 l)) (i64 (field 8 8 l)) (field 16 4 l)
    (negb (field 20 1 l =? 0)) (negb (field 21 1 l =? 0)).
Definition read_id (l : list Z) : FileIDInfo := mkFID (field 0 8 l) (ztake 16 (zdrop 8 l)).

(** Sizes of the structures, with the padding at their ends. *)
Definition sizeof_aligned : Z := 40.
Definition sizeof_standard : Z := 24.
Definition sizeof_id : Z := 24.

(** ** Calls *)
Definition info_FileBasicInfo : Z := 0.
Definition info_FileStandardInfo : Z := 1.
Definition info_FileIdInfo : Z := 18.

(** [windows.GetFileInformationByHandleEx] returns the buffer it was given, filled. *)
Class InfoApi (E : Type) := {
  GetFileInformationByHandleEx : Z → Z → list Z → St E (list Z);
  SetFileInformationByHandle : Z → Z → list Z → St E unit;
}.

Section Info.
Context `{InfoApi E}.

Definition with_path {A} (op : string) (f : File) (m : St E A) : St E A := λ e,
  match m e with
  | (Fail err, e) => (Fail (PathError op (Name f) err), e)
  | r => r
  end.
Definition GetFileBasicInfo (f : File) : St E FileBasicInfo :=
  let bi := replicate (Z.to_nat sizeof_aligned) 0 in
  bi ← with_path "GetFileInformationByHandleEx" f
         (GetFileInformationByHandleEx (Fd f) info_FileBasicInfo bi);
  mret (read_basic bi).
Definition SetFileBasicInfo (f : File) (bi : FileBasicInfo) : St E unit :=
  let biAligned := read_aligned (basic_bytes bi) in
  with_path "SetFileInformationByHandle" f
    (SetFileInformationByHandle (Fd f) info_FileBasicInfo (aligned_bytes biAligned)).
Definition GetFileStandardInfo (f : File) : St E FileStandardInfo :=
  let si := replicate (Z.to_nat sizeof_standard) 0 in
  si ← with_path "GetFileInformationByHandleEx" f
         (GetFileInformationByHandleEx (Fd f) info_FileStandardInfo si);
  mret (read_standard si).
Definition GetFileID (f : File) : St E FileIDInfo :=
  let fileID := replicate (Z.to_nat sizeof_id) 0 in
  fileID ← with_path "GetFileInformationByHandleEx" f
             (GetFileInformationByHandleEx (Fd f) info_FileIdInfo fileID);
  mret (read_id fileID).
End Info.

(** ** Opening a file for backup (backup.go) *)
(** [os.NewFile]: no file for an invalid handle. *)
Definition NewFile (h : Z) (name : list Z) : option File :=
  if h =? InvalidHandle then None else Some (mkFile h name).
Section OpenForBackup.
Context `{Windows E}.
Definition OpenForBackup (path : list Z) (access share createmode : Z) : St E (option File) :=
  '(h, err) ← CreateFile path access share 0 createmode
    (Z.lor FILE_FLAG_BACKUP_SEMANTICS FILE_FLAG_OPEN_REPARSE_POINT) 0;
  match err with
  | Some err => fail (PathError "open" path err)
  | None => mret (NewFile h path)
  end.

(** The one call that is made, and what becomes of its answer; a path with a NUL is not asked for. *)
Lemma OpenForBackup_spec path access share createmode e :
  OpenForBackup path access share createmode e =
  if bool_decide (0 ∈ path) then (Fail (PathError "open" path EINVAL), e)
  else
    let '(a, e) := w_alloc (to_utf16 path ++ [0]) e in
    match w_Find (str "kernel32.dll") (str "CreateFileW") e with
    | (Some _, e) => (Panic "LazyProc.Addr", e)
    | (None, e) =>
        let '((r, err), e) := w_Syscall (str "kernel32.dll") (str "CreateFileW")
          [u64 a; u64 access; u64 share; 0; u64 createmode; 0x02200000; 0] e in
        (if r =? InvalidHandle then Fail (PathError "open" path (errnoErr err))
         else Ret (Some (mkFile r path)), e)
    end.
Proof.
  unfold OpenForBackup, CreateFile, UTF16PtrFromString, PtrFromString. rewrite !St_bind_eq.
  destruct (bool_decide (0 ∈ path)); [done|].
  destruct (w_alloc _ e) as [a e1]. unfold _CreateFile, Syscall9, SyscallN. rewrite St_bind_eq.
  change (zlen _ =? 9) with true. cbv beta iota. unfold Proc_Call, Proc_Find. rewrite St_bind_eq.
  change (proc_dll procCreateFileW) with (str "kernel32.dll").
  change (proc_name procCreateFileW) with (str "CreateFileW").
  destruct (w_Find _ _ e1) as [[err|] e2]; [done|].
  change (ztake 7 _) with [u64 a; u64 access; u64 share; u64 0; u64 createmode; u64 0x02200000; u64 0].
  change (u64 0) with 0. change (u64 0x02200000) with 0x02200000.
  destruct (w_Syscall _ _ _ e2) as [[r er] e3]. unfold NewFile. cbn.
  destruct (r =? InvalidHandle); done.
Qed.
End OpenForBackup.

(** ** What the system keeps of a file *)
Record file_info := mkInfo {
  i_times : list Z;            (** creation, access, write and change *)
  i_attributes : Z; i_allocated : Z; i_end : Z; i_links : Z; i_pending : bool; i_dir : bool;
  i_volume : Z; i_id : list Z }.
Record info_ok (i : file_info) : Prop := {
  ok_times : ∃ c a w m, i_times i = [c; a; w; m] ∧
    Forall (λ t, 0 ≤ t < 18446744073709551616) [c; a; w; m];
  ok_attributes : 0 ≤ i_attributes i < 4294967296;
  ok_allocated : 0 ≤ i_allocated i < 9223372036854775808;
  ok_end : 0 ≤ i_end i < 9223372036854775808;
  ok_links : 0 ≤ i_links i < 4294967296;
  ok_volume : 0 ≤ i_volume i < 18446744073709551616;
  ok_id : zlen (i_id i) = 16;
}.

(** The structures FILE_BASIC_INFO, FILE_STANDARD_INFO and FILE_ID_INFO. *)
Definition system_basic (i : file_info) (pad : Z) : list Z :=
  concat (le_bytes 8 <$> i_times i) ++ le_bytes 4 (i_attributes i) ++ le_bytes 4 pad.
Definition system_standard (i : file_info) (pad : Z) : list Z :=
  le_bytes 8 (i_allocated i) ++ le_bytes 8 (i_end i) ++ le_bytes 4 (i_links i) ++
  [Z.b2z (i_pending i)] ++ [Z.b2z (i_dir i)] ++ le_bytes 2 pad.
Definition system_id (i : file_info) : list Z := le_bytes 8 (i_volume i) ++ i_id i.

(** A time or attribute of 0 is left as it is. *)
Definition or_keep (old new : Z) : Z := if new =? 0 then old else new.
Definition store (i : file_info) (times : list Z) (attributes : Z) : file_info :=
  mkInfo (zip_with or_keep (i_times i) times) attributes (i_allocated i) (i_end i) (i_links i)
    (i_pending i) (i_dir i) (i_volume i) (i_id i).

(** [info_of] is what the file behind a handle has; [settable] the attributes after a set,
    since some cannot be changed. *)
Class InfoApiSpec (E : Type) `{InfoApi E} := {
  info_of : E → Z → error + file_info;
  settable : Z → Z → Z;
  settable_range old new : 0 ≤ old < 4294967296 → 0 ≤ new < 4294967296 → 0 ≤ settable old new < 4294967296;
  info_of_ok e h i : info_of e h = inr i → info_ok i;
  Get_spec h c buf e :
    match info_of e h with
    | inl err => GetFileInformationByHandleEx h c buf e = (Fail err, e)
    | inr i => ∃ pad, ∀ bytes,
        bytes = (if c =? info_FileBasicInfo then system_basic i pad
                 else if c =? info_FileStandardInfo then system_standard i pad else system_id i) →
        c ∈ [info_FileBasicInfo; info_FileStandardInfo; info_FileIdInfo] →
        zlen bytes ≤ zlen buf → GetFileInformationByHandleEx h c buf e = (Ret (overwrite buf 0 bytes), e)
    end;
  Set_spec h i times attributes pad e :
    info_of e h = inr i → zlen times = 4 →
    Forall (λ t, 0 ≤ t < 18446744073709551616) times → 0 ≤ attributes < 4294967296 →
    match SetFileInformationByHandle h info_FileBasicInfo
            (concat (le_bytes 8 <$> times) ++ le_bytes 4 attributes ++ le_bytes 4 pad) e with
    | (Ret _, e') => info_of e' h = inr (store i times (settable (i_attributes i) attributes))
    | (Fail _, e') => info_of e' h = inr i
    | _ => False
    end;
}.

(** The 64-bit count of a [Filetime]. *)
Definition ticks (t : Filetime) : Z := HighDateTime t * 2 ^ 32 + LowDateTime t.
Definition filetime_ok (t : Filetime) : Prop :=
  0 ≤ LowDateTime t < 2 ^ 32 ∧ 0 ≤ HighDateTime t < 2 ^ 32.
Record basic_ok (b : FileBasicInfo) : Prop := {
  basic_times : Forall filetime_ok [CreationTime b; LastAccessTime b; LastWriteTime b; ChangeTime b];
  basic_attributes : 0 ≤ FileAttributes b < 4294967296;
}.
Definition times (b : FileBasicInfo) : list Z :=
  ticks <$> [CreationTime b; LastAccessTime b; LastWriteTime b; ChangeTime b].

(** ** Reading what was laid out *)
Lemma field_here o n m s : o = 0 → zlen m = n → field o n (m ++ s) = le_val m.
Proof. intros -> Hm. unfold field. by rewrite zdrop_0, ztake_app_eq. Qed.
Lemma field_skip o o' n m s : o = zlen m + o' → 0 ≤ o' → field o n (m ++ s) = field o' n s.
Proof. intros -> Ho. unfold field. f_equal. rewrite zdrop_app_ge by (pose_lens; lia). do 2 f_equal. lia. Qed.
Lemma field_end o n m : o = 0 → zlen m = n → field o n m = le_val m.
Proof. intros. rewrite <- (app_nil_r m) at 1. by apply field_here. Qed.
Lemma overwrite_all {A} (l bs : list A) : zlen bs = zlen l → overwrite l 0 bs = bs.
Proof. intros E. unfold overwrite. by rewrite ztake_0, E, zdrop_all, app_nil_r by lia. Qed.
Lemma le_bytes_split n k z : le_bytes (n + k) z = le_bytes n z ++ le_bytes k (z / 256 ^ Z.of_nat n).
Proof.
  revert z. induction n as [|n IH]; intros z; [by rewrite Z.div_1_r|]. cbn [Nat.add le_bytes app].
  f_equal. rewrite IH. do 2 f_equal. rewrite Z.div_div, <- Z.pow_succ_r by lia. do 2 f_equal. lia.
Qed.

(** Fields of [le_bytes] one after the other. *)
Ltac fields :=
  repeat match goal with
  | |- context [field ?o ?n (?m ++ ?s)] =>
      let k := match m with le_bytes ?k _ => eval compute in (Z.of_nat k) | [_] => constr:(1) end in
      first [rewrite (field_here o n m s) by (done || (rewrite zlen_le_bytes; done))
            |let o' := eval compute in (o - k) in
             rewrite (field_skip o o' n m s) by (rewrite ?zlen_le_bytes; done)]
  | |- context [field ?o ?n (le_bytes ?k ?z)] =>
      rewrite (field_end o n (le_bytes k z)) by (rewrite ?zlen_le_bytes; done)
  end.

Lemma ticks_range t : filetime_ok t → 0 ≤ ticks t < 18446744073709551616.
Proof. unfold filetime_ok, ticks. lia. Qed.
Lemma times_range b : basic_ok b → Forall (λ t, 0 ≤ t < 18446744073709551616) (times b).
Proof. intros [Ht _]. unfold times. apply Forall_fmap. eapply Forall_impl; [done|]. apply ticks_range. Qed.
Definition split_ticks (t : Z) : Filetime := mkFT (t mod 2 ^ 32) (t / 2 ^ 32).
Lemma ticks_split t : ticks (split_ticks t) = t.
Proof. unfold ticks, split_ticks. cbn [LowDateTime HighDateTime]. pose proof (Z.div_mod t (2 ^ 32)). lia. Qed.
Lemma split_ok t : 0 ≤ t < 18446744073709551616 → filetime_ok (split_ticks t).
Proof.
  intros Ht. unfold filetime_ok, split_ticks. cbn. split; [apply Z.mod_pos_bound; lia|].
  split; [apply Z.div_pos; lia|]. apply Z.div_lt_upper_bound; lia.
Qed.
Lemma filetime_bytes_ticks t : filetime_ok t → filetime_bytes t = le_bytes 8 (ticks t).
Proof.
  intros [Hl Hh]. rewrite (le_bytes_split 4 4). unfold filetime_bytes, ticks.
  rewrite <- (le_bytes_mod 4 (_ + _)). change (256 ^ Z.of_nat 4) with (2 ^ 32).
  rewrite Z.div_add_l, (Z.div_small (LowDateTime t)), Z.add_0_r by lia.
  by rewrite Z.add_comm, Z.mod_add, Z.mod_small by lia.
Qed.

(** The 40 bytes of both basic structures. *)
Definition layout (ts : list Z) (attributes pad : Z) : list Z :=
  concat (le_bytes 8 <$> ts) ++ le_bytes 4 attributes ++ le_bytes 4 pad.
Lemma basic_bytes_layout b : basic_ok b → basic_bytes b = layout (times b) (FileAttributes b) (fbi_pad b).
Proof.
  intros [Ht _]. inversion_clear Ht as [|?? H1 Ht1]. inversion_clear Ht1 as [|?? H2 Ht2].
  inversion_clear Ht2 as [|?? H3 Ht3]. inversion_clear Ht3 as [|?? H4 _].
  unfold basic_bytes, layout, times. cbn [fmap list_fmap concat].
  by rewrite !filetime_bytes_ticks, app_nil_r, <- !app_assoc by done.
Qed.
Lemma layout_4 c a w m at' pad : layout [c; a; w; m] at' pad =
  le_bytes 8 c ++ le_bytes 8 a ++ le_bytes 8 w ++ le_bytes 8 m ++ le_bytes 4 at' ++ le_bytes 4 pad.
Proof. unfold layout. cbn [fmap list_fmap concat]. by rewrite app_nil_r, <- !app_assoc. Qed.
Lemma zlen_layout c a w m at' pad : zlen (layout [c; a; w; m] at' pad) = 40.
Proof. rewrite layout_4, !zlen_app, !zlen_le_bytes. done. Qed.
(** Read as the aligned structure and laid out again, the bytes are the same. *)
Lemma aligned_layout c a w m at' pad :
  aligned_bytes (read_aligned (layout [c; a; w; m] at' pad)) = layout [c; a; w; m] at' pad.
Proof.
  rewrite layout_4. unfold aligned_bytes, read_aligned.
  cbn [a_CreationTime a_LastAccessTime a_LastWriteTime a_ChangeTime a_FileAttributes a_pad].
  fields. rewrite !le_val_le_bytes. by rewrite !(le_bytes_mod 8), !(le_bytes_mod 4).
Qed.
Lemma read_filetime_bytes off t p s :
  zlen p = off → 0 ≤ t < 18446744073709551616 →
  read_filetime off (p ++ le_bytes 8 t ++ s) = split_ticks t.
Proof.
  intros Hp Ht. unfold read_filetime, split_ticks. rewrite (le_bytes_split 4 4), <- app_assoc.
  rewrite (field_skip off 0), (field_skip (off + 4) 4), (field_skip 4 0), !field_here
    by (rewrite ?zlen_le_bytes; lia).
  rewrite !le_val_le_bytes. f_equal. apply Z.mod_small. change (256 ^ Z.of_nat 4) with (2 ^ 32).
  split; [apply Z.div_pos; lia|apply Z.div_lt_upper_bound; lia].
Qed.
Definition of_layout (ts : list Z) (attributes pad : Z) : FileBasicInfo :=
  let t i := split_ticks (ts !!! i) in mkFBI (t 0%nat) (t 1%nat) (t 2%nat) (t 3%nat) attributes pad.
Lemma read_basic_layout c a w m at' pad :
  Forall (λ t, 0 ≤ t < 18446744073709551616) [c; a; w; m] → 0 ≤ at' < 4294967296 →
  read_basic (layout [c; a; w; m] at' pad) = of_layout [c; a; w; m] at' (pad mod 2 ^ 32).
Proof.
  intros Ht Ha. rewrite layout_4. inversion_clear Ht as [|?? H1 Ht1]. inversion_clear Ht1 as [|?? H2 Ht2].
  inversion_clear Ht2 as [|?? H3 Ht3]. inversion_clear Ht3 as [|?? H4 _].
  unfold read_basic, of_layout. cbn [lookup_total list_lookup_total].
  rewrite <- (app_nil_l (le_bytes 8 c ++ _)) at 1. rewrite (read_filetime_bytes 0 c []) by done.
  rewrite (read_filetime_bytes 8 a (le_bytes 8 c)) by done.
  rewrite (app_assoc (le_bytes 8 c)). rewrite (read_filetime_bytes 16 w) by (rewrite ?zlen_app, ?zlen_le_bytes; done).
  rewrite (app_assoc (_ ++ _)). rewrite (read_filetime_bytes 24 m) by (rewrite ?zlen_app, ?zlen_le_bytes; done).
  rewrite <- !app_assoc. fields. rewrite le_val_le32, le_val_le_bytes by done. done.
Qed.

(** ** The four functions *)
Ltac pick_info := cbv [info_FileBasicInfo info_FileStandardInfo info_FileIdInfo Z.eqb Pos.eqb].
Ltac pick_info_in E := cbv [info_FileBasicInfo info_FileStandardInfo info_FileIdInfo Z.eqb Pos.eqb] in E.
Section Spec.
Context `{InfoApiSpec E}.

Lemma with_path_Ret {A} op f (m : St E A) e a e' : m e = (Ret a, e') → with_path op f m e = (Ret a, e').
Proof. intros Hm. unfold with_path. by rewrite Hm. Qed.
Lemma with_path_Fail {A} op f (m : St E A) e err e' :
  m e = (Fail err, e') → with_path op f m e = (Fail (PathError op (Name f) err), e').
Proof. intros Hm. unfold with_path. by rewrite Hm. Qed.

(** A query with a buffer of the size of the system's structure. *)
Lemma query_Ret {A} (read : list Z → A) f c n i e :
  info_of e (Fd f) = inr i → c ∈ [info_FileBasicInfo; info_FileStandardInfo; info_FileIdInfo] →
  (∀ pad, zlen (if c =? info_FileBasicInfo then system_basic i pad
                else if c =? info_FileStandardInfo then system_standard i pad else system_id i) = n) →
  ∃ pad, (buf ← with_path "GetFileInformationByHandleEx" f
            (GetFileInformationByHandleEx (Fd f) c (replicate (Z.to_nat n) 0)); mret (read buf)) e =
    (Ret (read (if c =? info_FileBasicInfo then system_basic i pad
                else if c =? info_FileStandardInfo then system_standard i pad else system_id i)), e).
Proof.
  intros Hi Hc Hn. pose proof (Get_spec (Fd f) c (replicate (Z.to_nat n) 0) e) as Hg. rewrite Hi in Hg.
  destruct Hg as [pad Hg]. exists pad. specialize (Hg _ eq_refl Hc).
  assert (Hz : zlen (replicate (Z.to_nat n) 0) = n).
  { rewrite zlen_replicate. rewrite <- (Hn pad). pose_lens. lia. }
  rewrite Hz, (Hn pad) in Hg. specialize (Hg ltac:(lia)).
  rewrite (St_bind_Ret _ _ _ _ _ (with_path_Ret _ _ _ _ _ _ Hg)).
  rewrite overwrite_all by (by rewrite Hz). done.
Qed.
Lemma query_Fail {A} (read : list Z → A) f c buf err e :
  info_of e (Fd f) = inl err →
  (buf ← with_path "GetFileInformationByHandleEx" f (GetFileInformationByHandleEx (Fd f) c buf); mret (read buf)) e =
    (Fail (PathError "GetFileInformationByHandleEx" (Name f) err), e).
Proof.
  intros Hi. pose proof (Get_spec (Fd f) c buf e) as Hg. rewrite Hi in Hg.
  by rewrite (St_bind_Fail _ _ _ _ _ (with_path_Fail _ _ _ _ _ _ Hg)).
Qed.

Lemma Get_basic f i e : info_of e (Fd f) = inr i →
  ∃ b, GetFileBasicInfo f e = (Ret b, e) ∧ basic_ok b ∧ times b = i_times i ∧ FileAttributes b = i_attributes i.
Proof.
  intros Hi. destruct (info_of_ok e _ i Hi) as [(c & a & w & m & Et & Ht) Ha _ _ _ _ _].
  destruct (query_Ret read_basic f info_FileBasicInfo sizeof_aligned i e Hi) as [pad E']; [left| |].
  { intros pad. pick_info. unfold system_basic. rewrite Et. apply zlen_layout. }
  pick_info_in E'. unfold system_basic in E'. rewrite Et in E'.
  fold (layout [c; a; w; m] (i_attributes i) pad) in E'. rewrite read_basic_layout in E' by done.
  eexists. split; [exact E'|]. unfold of_layout, times. cbn [lookup_total list_lookup_total
    CreationTime LastAccessTime LastWriteTime ChangeTime FileAttributes fmap list_fmap].
  rewrite !ticks_split, Et. split_and!; [|done|done]. constructor; [|done].
  inversion_clear Ht as [|?? H1 Ht1]. inversion_clear Ht1 as [|?? H2 Ht2].
  inversion_clear Ht2 as [|?? H3 Ht3]. inversion_clear Ht3 as [|?? H4 _].
  repeat constructor; by apply split_ok.
Qed.
Lemma Get_standard f i e : info_of e (Fd f) = inr i →
  GetFileStandardInfo f e =
    (Ret (mkFSI (i_allocated i) (i_end i) (i_links i) (i_pending i) (i_dir i)), e).
Proof.
  intros Hi. destruct (info_of_ok e _ i Hi) as [_ _ Ha He Hl _ _].
  destruct (query_Ret read_standard f info_FileStandardInfo sizeof_standard i e Hi) as [pad E'];
    [right; left| |].
  { intros pad. pick_info. unfold system_standard.
    rewrite !zlen_app, !zlen_le_bytes. done. }
  unfold GetFileStandardInfo. rewrite E'. pick_info.
  unfold read_standard, system_standard. fields.
  rewrite !le_val_le64, !i64_small, le_val_le32 by lia.
  by destruct (i_pending i), (i_dir i).
Qed.
Lemma Get_id f i e : info_of e (Fd f) = inr i → GetFileID f e = (Ret (mkFID (i_volume i) (i_id i)), e).
Proof.
  intros Hi. destruct (info_of_ok e _ i Hi) as [_ _ _ _ _ Hv Hd].
  destruct (query_Ret read_id f info_FileIdInfo sizeof_id i e Hi) as [pad E']; [right; right; left| |].
  { intros pad. pick_info.
    unfold system_id. by rewrite zlen_app, zlen_le_bytes, Hd. }
  unfold GetFileID. rewrite E'. pick_info.
  unfold read_id, system_id. fields. rewrite le_val_le64 by lia.
  rewrite zdrop_app_eq by (by rewrite zlen_le_bytes). by rewrite ztake_all by lia.
Qed.
Lemma Set_basic f b i e : info_of e (Fd f) = inr i → basic_ok b →
  match SetFileBasicInfo f b e with
  | (Ret _, e') => info_of e' (Fd f) = inr (store i (times b) (settable (i_attributes i) (FileAttributes b)))
  | (Fail err, e') => info_of e' (Fd f) = inr i ∧
      ∃ err', err = PathError "SetFileInformationByHandle" (Name f) err'
  | _ => False
  end.
Proof.
  intros Hi Hb. unfold SetFileBasicInfo. rewrite basic_bytes_layout by done.
  change (times b) with [ticks (CreationTime b); ticks (LastAccessTime b); ticks (LastWriteTime b); ticks (ChangeTime b)].
  rewrite aligned_layout. 
  pose proof (Set_spec (Fd f) i (times b) (FileAttributes b) (fbi_pad b) e Hi eq_refl
    (times_range b Hb) (basic_attributes b Hb)) as Hs.
  fold (layout (times b) (FileAttributes b) (fbi_pad b)) in Hs. unfold times in Hs. cbn [fmap list_fmap] in Hs.
  unfold with_path. destruct (SetFileInformationByHandle _ _ _ e) as [[[]|err| |] e']; [done| |done|done].
  split; [done|]. by eexists.
Qed.
End Spec.

(** The information of a file is what the system keeps of it: the times that are read are
    the system's 64-bit times in halves, whatever the padding, standard information and
    identifier come field by field, and setting basic information through its 64-bit aligned
    copy stores exactly its times and attributes (a field of 0 leaves the
    system's own), changes nothing else, and nothing at all when it fails; an error names the
    call and the file. *)
Theorem file_info_spec `{InfoApiSpec E} (f : File) (e : E) :
  match info_of e (Fd f) with
  | inl err =>
      GetFileBasicInfo f e = (Fail (PathError "GetFileInformationByHandleEx" (Name f) err), e) ∧
      GetFileStandardInfo f e = (Fail (PathError "GetFileInformationByHandleEx" (Name f) err), e) ∧
      GetFileID f e = (Fail (PathError "GetFileInformationByHandleEx" (Name f) err), e)
  | inr i =>
      (∃ b, GetFileBasicInfo f e = (Ret b, e) ∧ basic_ok b ∧ times b = i_times i ∧
            FileAttributes b = i_attributes i) ∧
      GetFileStandardInfo f e =
        (Ret (mkFSI (i_allocated i) (i_end i) (i_links i) (i_pending i) (i_dir i)), e) ∧
      GetFileID f e = (Ret (mkFID (i_volume i) (i_id i)), e) ∧
      ∀ b, basic_ok b →
        match SetFileBasicInfo f b e with
        | (Ret _, e') => info_of e' (Fd f) = inr (store i (times b) (settable (i_attributes i) (FileAttributes b)))
        | (Fail err, e') => info_of e' (Fd f) = inr i ∧
            ∃ err', err = PathError "SetFileInformationByHandle" (Name f) err'
        | _ => False
        end
  end.
Proof.
  destruct (info_of e (Fd f)) as [err|i] eqn:Hi.
  - split_and!; by apply query_Fail.
  - split_and!; [by apply Get_basic|by apply Get_standard|by apply Get_id|]. intros b Hb. by apply Set_basic.
Qed.

(** ** Witness: one file, whose attributes can all be set *)
Record one_file := mkOne { o_c : Z; o_a : Z; o_w : Z; o_m : Z; o_attributes : Z }.
Definition one_info (s : one_file) : file_info :=
  mkInfo (u64 <$> [o_c s; o_a s; o_w s; o_m s]) (u32 (o_attributes s)) 4096 11 1 false false 77 (replicate 16 5).
#[export] Instance one_api : InfoApi one_file := {|
  GetFileInformationByHandleEx _ c buf s :=
    (Ret (overwrite buf 0
      (if c =? info_FileBasicInfo then system_basic (one_info s) 0
       else if c =? info_FileStandardInfo then system_standard (one_info s) 0 else system_id (one_info s))), s);
  SetFileInformationByHandle _ _ bytes s :=
    let b := read_basic bytes in
    let keep old t := or_keep (u64 old) (ticks t) in
    (Ret (), mkOne (keep (o_c s) (CreationTime b)) (keep (o_a s) (LastAccessTime b))
      (keep (o_w s) (LastWriteTime b)) (keep (o_m s) (ChangeTime b)) (FileAttributes b));
|}.
Lemma keep_u64 x t : 0 ≤ t < 18446744073709551616 → u64 (or_keep (u64 x) t) = or_keep (u64 x) t.
Proof.
  intros Ht. unfold or_keep. case_match; [|by apply u64_small]. apply u64_small, u64_range.
Qed.
#[local] Arguments u64 : simpl never.
#[local] Arguments u32 : simpl never.
#[local] Arguments or_keep : simpl never.
#[export] Instance one_spec : InfoApiSpec one_file.
Proof.
  refine {| info_of s _ := inr (one_info s); settable _ new := new |}.
  - done.
  - intros s h i [= <-]. constructor; try (cbn; lia).
    + do 4 eexists. split; [reflexivity|]. repeat constructor; apply u64_range.
    + apply u32_range.
    + done.
  - intros h c buf s. exists 0. intros bytes -> _ _. done.
  - intros h i ts at' pad s [= <-] Hl Ht Ha.
    destruct ts as [|c [|a [|w [|m [|? l]]]]]; try done; [|rewrite !zlen_cons in Hl; pose_lens; lia]. fold (layout [c; a; w; m] at' pad).
    cbn [SetFileInformationByHandle one_api]. rewrite read_basic_layout by done. f_equal.
    inversion_clear Ht as [|?? H1 Ht1]. inversion_clear Ht1 as [|?? H2 Ht2].
    inversion_clear Ht2 as [|?? H3 Ht3]. inversion_clear Ht3 as [|?? H4 _].
    unfold one_info, store, of_layout.
    cbn [o_c o_a o_w o_m o_attributes i_times i_attributes lookup_total list_lookup_total
      CreationTime LastAccessTime LastWriteTime ChangeTime FileAttributes fmap list_fmap zip_with
      i_allocated i_end i_links i_pending i_dir i_volume i_id].
    rewrite !ticks_split, !keep_u64, (u32_small at') by done. done.
Defined.

Definition one_example : one_file := mkOne 1 2 3 132000000000000000 32.
Theorem file_info_spec_witness :
  let b := mkFBI (mkFT 0 0) (mkFT 5 6) (mkFT 0 0) (mkFT 0 0) 33 0 in
  basic_ok b ∧
  match SetFileBasicInfo (mkFile 4 (str "f")) b one_example with
  | (Ret _, s) => i_times (one_info s) = [1; 25769803781; 3; 132000000000000000] ∧ i_attributes (one_info s) = 33
  | _ => False
  end.
Proof.
  intros b. assert (Hb : basic_ok b) by (constructor; [repeat constructor; cbn; lia|cbn; lia]).
  split; [done|].
  destruct (file_info_spec (mkFile 4 (str "f")) one_example) as (_ & _ & _ & Hset).
  specialize (Hset b Hb). destruct (SetFileBasicInfo _ b one_example) as [[[]|err| |] s] eqn:Es; try done.
  change (@inr error file_info (one_info s) = inr (store (one_info one_example) (times b) 33)) in Hset.
  apply (inj inr) in Hset. rewrite Hset. split; reflexivity.
Defined.
