(* ===== verification/FsType.v ===== *)
(** * The type of a file system (pkg/fs/fs_windows.go)

    The name is written to a buffer of the pool of [WString]. *)
From S2P Require Import Prelude GoStrings Unicode WString Handles Paths.

Definition ErrInvalidPath : error :=
  New "the path provided to GetFileSystemType must start with a drive letter".

(** [filepath.VolumeName], and [windows.GetVolumeInformation] for the name of the file system:
    the root directory with its NUL, the room there is, the error and the words that are written. *)
Class VolumeApi (E : Type) := {
  VolumeName : list Z → list Z;
  GetVolumeInformation : list Z → Z → E → (option error * list Z) * E;
}.

Section FsType.
Context {E : Type} `{VolumeApi E}.

Definition GetFileSystemType (pick : option nat) (path : list Z) : St (heap * E) (list Z * option error) :=
  λ '((hp, e) : heap * E),
  let drive := VolumeName path in
  if negb (zlen drive =? 2) then (Ret ([], Some ErrInvalidPath), (hp, e))
  else
    let '(buf, hp) := NewWString pick hp in
    let drive := drive ++ str "\" in
    if bool_decide (0 ∈ drive)
    then (Panic "syscall: string with NUL passed to StringToUTF16", (snd (Free buf hp), e))
    else
      let '((err, ws), e) := GetVolumeInformation (to_utf16 drive ++ [0]) (Cap buf hp) e in
      let hp := fill ws buf hp in
      (Ret (WString_String buf hp, err), (snd (Free buf hp), e)).
End FsType.

(** A volume of two bytes is a drive and a colon.  The type of a volume is text without NUL,
    and shorter than [MinWStringCap] (it is at most MAX_PATH+1 words); a query of a volume fails or
    writes it with a NUL, and changes nothing. *)
Class VolumeApiSpec (E : Type) `{VolumeApi E} := {
  VolumeName_drive p : zlen (VolumeName p) = 2 → ∃ c, VolumeName p = [c; 58] ∧ ∃ q, p = c :: 58 :: q;
  fs_type : E → list Z → error + list Z;
  fs_type_text e root s : fs_type e root = inr s →
    valid_utf8 s ∧ (0 ∉ s) ∧ zlen (to_utf16 s) < MinWStringCap;
  GetVolumeInformation_spec root room e :
    ∃ ws, GetVolumeInformation (to_utf16 root ++ [0]) room e =
    match fs_type e root with
    | inl err => ((Some err, ws), e)
    | inr s => ((None, if zlen (to_utf16 s) <? room then to_utf16 s ++ [0] else ws), e)
    end;
}.

(** The type of the file system is asked for the root of the path's drive: a path without
    a drive is refused, an error of the system is returned, and otherwise the result is the
    name that the system has for that root; the buffer is back in the pool in each case, and no
    file system changes. *)
Theorem GetFileSystemType_spec `{VolumeApiSpec E} (pick : option nat) (path : list Z) hp (e : E) :
  pool_ok hp → 0 ∉ path →
  ∃ hp', pool_ok hp' ∧
    ((zlen (VolumeName path) ≠ 2 ∧ GetFileSystemType pick path (hp, e) = (Ret ([], Some ErrInvalidPath), (hp', e))) ∨
     ∃ c q, path = c :: 58 :: q ∧
       match fs_type e [c; 58; 92] with
       | inl err => ∃ junk, GetFileSystemType pick path (hp, e) = (Ret (junk, Some err), (hp', e))
       | inr s => GetFileSystemType pick path (hp, e) = (Ret (s, None), (hp', e))
       end).
Proof.
  intros Hp Hn. unfold GetFileSystemType. destruct (Z.eqb_spec (zlen (VolumeName path)) 2) as [Hv|Hv]; cbn [negb].
  2: { exists hp. split; [done|]. by left. }
  destruct (VolumeName_drive path Hv) as (c & Ec & q & ->). rewrite Ec.
  destruct (pick_spec pick hp Hp) as (i & hp1 & E1 & Hg & Hp1). rewrite E1.
  change ([c; 58] ++ str "\") with [c; 58; 92].
  rewrite (bool_decide_eq_false_2 (0 ∈ [c; 58; 92])) by set_solver.
  pose proof Hg as (_ & l & Hi & _). destruct (Cap_good_buffer hp1 i l Hg Hi) as [Hc Hb].
  destruct (GetVolumeInformation_spec [c; 58; 92] (Cap (mkWS (Some i)) hp1) e) as [ws Ew]. rewrite Ew.
  assert (Hfree : ∀ ws, pool_ok (snd (Free (mkWS (Some i)) (fill ws (mkWS (Some i)) hp1)))).
  { intros ws'. destruct (fill_good ws' i hp1 Hg Hp1) as [Hp' Hg']. unfold Free. rewrite empty_good by done.
    cbn. intros j [->|Hj]%elem_of_cons; [|by apply Hp']. destruct Hg' as (Hj & Hl). by split. }
  destruct (fs_type e [c; 58; 92]) as [err|s] eqn:Es; cbv beta iota.
  - exists (snd (Free (mkWS (Some i)) (fill ws (mkWS (Some i)) hp1))). split; [done|]. right.
    exists c, q. split; [done|]. rewrite Es. by eexists.
  - destruct (fs_type_text e _ s Es) as (Hu & Hnul & Hlen).
    rewrite (proj2 (Z.ltb_lt _ _)) by lia.
    exists (snd (Free (mkWS (Some i)) (fill (to_utf16 s ++ [0]) (mkWS (Some i)) hp1))). split; [done|]. right.
    exists c, q. split; [done|]. rewrite Es. rewrite (String_filled i hp1 l s) by (done || lia). done.
Qed.

(** ** Witness: all drives have NTFS but A:, which is not ready *)
Definition test_type (root : list Z) : error + list Z :=
  if bool_decide (root = str "A:\") then inl (Errno 21) else inr (str "NTFS").
#[export] Instance test_volumes : VolumeApi unit := {|
  VolumeName p := match p with c :: b :: _ => if b =? 58 then [c; 58] else [] | _ => [] end;
  GetVolumeInformation root room e :=
    match test_type (removelast root) with
    | inl err => ((Some err, []), e)
    | inr s => ((None, if zlen (to_utf16 s) <? room then to_utf16 s ++ [0] else []), e)
    end;
|}.
#[export] Instance test_volumes_spec : VolumeApiSpec unit.
Proof.
  refine {| fs_type _ root := test_type (removelast (to_utf16 root ++ [0])) |}.
  - intros p Hp. destruct p as [|c [|b q]]; [done..|]. cbn [VolumeName test_volumes] in *.
    destruct (Z.eqb_spec b 58) as [->|]; [|done]. exists c. split; [done|]. by exists q.
  - intros e root s. unfold test_type. case_match; [done|]. intros [= <-].
    split_and!; [apply ascii_valid_utf8; decide_now|decide_now|by vm_compute].
  - intros root room e. exists []. cbn [GetVolumeInformation test_volumes].
    by destruct (test_type _).
Defined.
Theorem GetFileSystemType_spec_witness :
  ∃ hp, GetFileSystemType None (str "C:\x") (no_heap, ()) = (Ret (str "NTFS", None), (hp, ())).
Proof.
  destruct (GetFileSystemType_spec None (str "C:\x") no_heap ()) as (hp & _ & [[Hv _]|(c & q & Ep & Hc)]).
  - by intros i Hi%elem_of_nil.
  - apply (bool_decide_unpack _). by vm_compute.
  - exfalso. apply Hv. reflexivity.
  - injection Ep as <- <-. exists hp. exact Hc.
Defined.
