(* ===== verification/Interop.v ===== *)
(** * Strings of the system and writable layers (internal/interop, internal/computestorage)

    A string that the system allocates is read up to its NUL and freed.  The memory
    is that of the system: the functions are called with addresses of it. *)
From S2P Require Import Prelude GoStrings Unicode GoCode Zsyscall ZsyscallPkg.

(** ** internal/interop *)
Definition Win32FromHresult (hr : Z) : error :=
  if Z.land hr 0x1fff0000 =? 0x00070000 then Errno (Z.land hr 0xffff) else Errno hr.

(** Memory: a zeroed pointer variable, the pointer in a variable, and the words from an address on. *)
Class Memory (E : Type) := {
  new_pointer : E → Z * E;
  load_pointer : Z → E → Z;
  load_words : Z → E → list Z;
}.

Section Interop.
Context `{Windows E, Memory E}.
Definition ConvertAndFreeCoTaskMemString (buffer : Z) : St E (list Z) :=
  if buffer =? 0 then panic "nil pointer dereference"
  else
    ws ← (λ e, (Ret (load_words buffer e), e));
    let str := utf16_cstring (ztake (2 ^ 29) ws) in
    coTaskMemFree buffer;;
    mret str.

(** ** internal/computestorage *)
Definition FormatWritableLayerVHD (vhdHandle : Z) : St E (option error) :=
  err ← hcsFormatWritableLayerVhd vhdHandle;
  match err with
  | Some err => mret (Some (Wrapf "failed to format writable layer vhd: %w" [] [] err))
  | None => mret None
  end.
Definition GetLayerVHDMountPath (vhdHandle : Z) : St E (list Z * option error) :=
  mountPath ← (λ e, let '(p, e) := new_pointer e in (Ret p, e));
  err ← hcsGetLayerVhdMountPath vhdHandle mountPath;
  match err with
  | Some err => mret ([], Some (Wrapf "failed to get vhd mount path: %w" [] [] err))
  | None =>
      buffer ← (λ e, (Ret (load_pointer mountPath e), e));
      path ← ConvertAndFreeCoTaskMemString buffer;
      mret (path, None)
  end.
End Interop.

(** ** The system *)
Definition com_dll : text := str "api-ms-win-core-com-l1-1-0.dll".
Definition storage_dll : text := str "computestorage.dll".

(** [blocks] are the allocated strings by address.  The mount path of a handle is an
    HRESULT that failed, or a text that is allocated and stored at the address passed. *)
Class MemorySpec (E : Type) `{Windows E, Memory E} := {
  blocks : E → gmap Z (list Z);
  present : E → text → bool;
  mount_path : E → Z → Z + list Z;
  new_pointer_spec e : let '(p, e') := new_pointer e in
    0 < p < 18446744073709551616 ∧ blocks e' = blocks e ∧
    mount_path e' = mount_path e ∧ present e' = present e;
  find_spec dll name e : w_Find dll name e =
    (if present e name then None else Some (Errno 127), e);
  load_words_spec a e ws : blocks e !! a = Some ws → ∃ rest, load_words a e = ws ++ 0 :: rest;
  com_present e : present e (str "CoTaskMemFree") = true;
  free_spec a e : ∃ r e', w_Syscall com_dll (str "CoTaskMemFree") [a] e = (r, e') ∧
    blocks e' = delete a (blocks e);
  mount_path_spec h p e :
    match mount_path e h with
    | inl hr => i32 hr < 0 ∧
        ∃ x e', w_Syscall storage_dll (str "HcsGetLayerVhdMountPath") [u64 h; p] e = ((hr, x), e') ∧
          blocks e' = blocks e
    | inr s => valid_utf8 s ∧ (0 ∉ s) ∧ zlen (to_utf16 s) < 2 ^ 29 ∧
        ∃ hr x e' a, w_Syscall storage_dll (str "HcsGetLayerVhdMountPath") [u64 h; p] e = ((hr, x), e') ∧
          0 ≤ i32 hr ∧ 0 < a < 18446744073709551616 ∧ blocks e !! a = None ∧
          blocks e' = <[a := to_utf16 s]> (blocks e) ∧ load_pointer p e' = a ∧ present e' = present e
    end;
}.

(** The procedures, once they are found. *)
Lemma Find_present `{MemorySpec E} p (e : E) :
  LazyProc_Find p e = (Ret (if present e (proc_name p) then None else Some (Errno 127)), e).
Proof. unfold LazyProc_Find, Proc_Find. by rewrite find_spec. Qed.
Lemma Syscall_present `{MemorySpec E} p width n words (e : E) :
  present e (proc_name p) = true → zlen words = width →
  SyscallN width p n words e =
    (let '(r, e) := w_Syscall (proc_dll p) (proc_name p) (ztake n words) e in (Ret r, e)).
Proof.
  intros Hp Hw. unfold SyscallN. rewrite Hw, Z.eqb_refl. unfold Proc_Call, Proc_Find.
  by rewrite St_bind_eq, find_spec, Hp.
Qed.
Lemma hcsGetLayerVhdMountPath_eq `{MemorySpec E} h p (e : E) :
  hcsGetLayerVhdMountPath h p e =
  if present e (str "HcsGetLayerVhdMountPath") then
    let '((r, _), e) := w_Syscall storage_dll (str "HcsGetLayerVhdMountPath") [u64 h; u64 p] e in
    (Ret (if i32 r <? 0 then Some (Win32FromHresult r) else None), e)
  else (Ret (Some (Errno 127)), e).
Proof.
  unfold hcsGetLayerVhdMountPath. rewrite St_bind_eq, Find_present.
  change (proc_name procHcsGetLayerVhdMountPath) with (str "HcsGetLayerVhdMountPath").
  destruct (present e _) eqn:Hp; [|done]. rewrite St_bind_eq. unfold Syscall3.
  rewrite (Syscall_present procHcsGetLayerVhdMountPath 3 2 _ e Hp) by done.
  change (proc_dll procHcsGetLayerVhdMountPath) with storage_dll.
  change (ztake 2 [uintptr h; uintptr p; 0]) with [u64 h; u64 p].
  change (proc_name procHcsGetLayerVhdMountPath) with (str "HcsGetLayerVhdMountPath").
  destruct (w_Syscall storage_dll _ _ e) as [[r x] e']. unfold Win32FromHresult.
  destruct (i32 r <? 0); [|done]. cbv zeta. by destruct (Z.land r 0x1fff0000 =? 0x00070000).
Qed.
(** A string is converted and freed. *)
Lemma ConvertAndFree_eq `{MemorySpec E} a s (e : E) :
  0 < a < 18446744073709551616 → valid_utf8 s → 0 ∉ s → zlen (to_utf16 s) < 2 ^ 29 →
  blocks e !! a = Some (to_utf16 s) →
  ∃ e', ConvertAndFreeCoTaskMemString a e = (Ret s, e') ∧ blocks e' = delete a (blocks e).
Proof.
  intros Ha Hv Hn Hl Hb. unfold ConvertAndFreeCoTaskMemString.
  rewrite (proj2 (Z.eqb_neq _ _)) by lia. rewrite St_bind_eq. destruct (load_words_spec a e _ Hb) as [rest Er].
  destruct (free_spec a e) as (r & e' & Ef & Hbl). exists e'. split; [|done].
  rewrite St_bind_eq. unfold coTaskMemFree. rewrite St_bind_eq. unfold Syscall3.
  rewrite (Syscall_present procCoTaskMemFree 3 1 _ e (com_present e)) by done.
  change (ztake 1 [uintptr a; 0; 0]) with [u64 a]. rewrite u64_small by lia.
  change (proc_dll procCoTaskMemFree) with com_dll. change (proc_name procCoTaskMemFree) with (str "CoTaskMemFree").
  rewrite Ef, Er. unfold utf16_cstring.
  replace (ztake (2 ^ 29) (to_utf16 s ++ 0 :: rest)) with (to_utf16 s ++ 0 :: ztake (2 ^ 29 - zlen (to_utf16 s) - 1) rest).
  { pose proof (utf16_to_string_nul (UTF16ToString := utf16_cstring) s
      (ztake (2 ^ 29 - zlen (to_utf16 s) - 1) rest) Hv Hn) as Es. unfold utf16_cstring in Es. by rewrite Es. }
  unfold ztake, zlen in *. rewrite take_app_ge by lia. f_equal.
  replace (Z.to_nat (2 ^ 29) - length (to_utf16 s))%nat with
    (S (Z.to_nat (2 ^ 29 - Z.of_nat (length (to_utf16 s)) - 1))) by lia. done.
Qed.

(** The mount path of a layer is the text the system has for it, and its memory is freed
    exactly once: whatever the outcome, the allocated strings are those from before.  A missing
    procedure or a failed HRESULT, as the error it stands for, is returned wrapped. *)
Theorem GetLayerVHDMountPath_spec `{MemorySpec E} (h : Z) (e : E) :
  ∃ e', blocks e' = blocks e ∧
  GetLayerVHDMountPath h e =
    (Ret (if present e (str "HcsGetLayerVhdMountPath") then
            match mount_path e h with
            | inl hr => ([], Some (Wrapf "failed to get vhd mount path: %w" [] [] (Win32FromHresult hr)))
            | inr s => (s, None)
            end
          else ([], Some (Wrapf "failed to get vhd mount path: %w" [] [] (Errno 127)))), e').
Proof.
  pose proof (new_pointer_spec e) as Hp. unfold GetLayerVHDMountPath. rewrite St_bind_eq.
  destruct (new_pointer e) as [p e1]. destruct Hp as (Hp & Hb & Hm & Hpr).
  rewrite St_bind_eq, hcsGetLayerVhdMountPath_eq, Hpr, (u64_small p) by lia.
  destruct (present e _); [|by exists e1].
  pose proof (mount_path_spec h p e1) as Hs. rewrite Hm in Hs.
  destruct (mount_path e h) as [hr|s].
  - destruct Hs as (Hf & x & e2 & E2 & Hb2). exists e2. split; [congruence|]. rewrite E2.
    by rewrite (proj2 (Z.ltb_lt _ _) Hf).
  - destruct Hs as (Hv & Hn & Hl & hr & x & e2 & a & E2 & Hhr & Ha & Hnone & Hb2 & Hload & _).
    rewrite E2, (proj2 (Z.ltb_ge _ _) Hhr). rewrite St_bind_eq, Hload.
    destruct (ConvertAndFree_eq a s e2 Ha Hv Hn Hl) as (e3 & E3 & Hb3).
    { by rewrite Hb2, lookup_insert_eq. }
    exists e3. split; [|by rewrite St_bind_eq, E3]. rewrite Hb3, Hb2, delete_insert_eq, delete_id by done. done.
Qed.

(** ** Witness: room for one string, and one layer with a path *)
Record test_memory := mkMem { tm_blocks : gmap Z (list Z); tm_cell : Z }.
Definition test_path (e : test_memory) (h : Z) : Z + list Z :=
  match tm_blocks e !! 4096 with
  | Some _ => inl 0x8007000e
  | None => if h =? 4 then inr (str "\\?\V") else inl 0x80070002
  end.
#[export] Instance memory_windows : Windows test_memory := {|
  w_Find _ _ e := (None, e);
  w_Syscall _ name ws e :=
    match ws with
    | [a] => ((0, 0), mkMem (delete a (tm_blocks e)) (tm_cell e))
    | h :: _ =>
        match test_path e h with
        | inl hr => ((hr, 0), e)
        | inr s => ((0, 0), mkMem (<[4096 := to_utf16 s]> (tm_blocks e)) 4096)
        end
    | [] => ((0, 0), e)
    end;
  w_alloc _ e := (0, e);
|}.
#[export] Instance test_mem : Memory test_memory := {|
  new_pointer e := (8, e);
  load_pointer _ e := tm_cell e;
  load_words a e := match tm_blocks e !! a with Some ws => ws ++ [0; 7] | None => [] end;
|}.
#[export] Instance test_mem_spec : MemorySpec test_memory.
Proof.
  refine {| blocks := tm_blocks; present _ _ := true; mount_path e h := test_path e (u64 h) |}.
  - intros e. cbn. split; [lia|done].
  - done.
  - intros a e ws Hb. cbn. rewrite Hb. by exists [7].
  - done.
  - intros a e. by do 2 eexists.
  - intros h p e. cbn [w_Syscall memory_windows]. unfold test_path.
    destruct (tm_blocks e !! 4096) eqn:E4; [split; [done|by do 2 eexists]|].
    destruct (u64 h =? 4); [|split; [done|by do 2 eexists]].
    split_and!; [apply ascii_valid_utf8; decide_now|decide_now|by vm_compute|].
    exists 0, 0, (mkMem (<[4096 := to_utf16 (str "\\?\V")]> (tm_blocks e)) 4096), 4096. split_and!; done || (split; lia).
Defined.

Theorem GetLayerVHDMountPath_spec_witness :
  ∃ e', tm_blocks e' = ∅ ∧ GetLayerVHDMountPath 4 (mkMem ∅ 0) = (Ret (str "\\?\V", None), e').
Proof.
  destruct (GetLayerVHDMountPath_spec 4 (mkMem ∅ 0)) as (e' & Hb & E). exists e'. split; [exact Hb|exact E].
Defined.
