(* ===== verification/SmallCalls.v ===== *)
(** * Functions that are one system call (pkg/process, internal/socket, pipe.go)

    The call, the local variables whose addresses it gets, and the reading of its
    results. *)
From S2P Require Import Prelude GoStrings GoCode Zsyscall ZsyscallPkg FileInfo.

(** Local variables whose address is taken: their bytes. *)
Class Locals (E : Type) := {
  new_local : list Z → E → Z * E;
  local_bytes : Z → E → list Z;
}.
Definition local `{Locals E} (b : list Z) : St E Z := λ e, let '(p, e) := new_local b e in (Ret p, e).
Definition read_local `{Locals E} (p : Z) : St E (list Z) := λ e, (Ret (local_bytes p e), e).

(** ** pkg/process *)
Record ProcessMemoryCountersEx := mkCounters {
  Cb : Z; PageFaultCount : Z; PeakWorkingSetSize : Z; WorkingSetSize : Z; QuotaPeakPagedPoolUsage : Z;
  QuotaPagedPoolUsage : Z; QuotaPeakNonPagedPoolUsage : Z; QuotaNonPagedPoolUsage : Z;
  PagefileUsage : Z; PeakPagefileUsage : Z; PrivateUsage : Z }.
Definition sizeof_counters : Z := 80.
Definition read_counters (l : list Z) : ProcessMemoryCountersEx :=
  mkCounters (field 0 4 l) (field 4 4 l) (field 8 8 l) (field 16 8 l) (field 24 8 l) (field 32 8 l)
    (field 40 8 l) (field 48 8 l) (field 56 8 l) (field 64 8 l) (field 72 8 l).
Definition counters_bytes (c : ProcessMemoryCountersEx) : list Z :=
  le_bytes 4 (Cb c) ++ le_bytes 4 (PageFaultCount c) ++ le_bytes 8 (PeakWorkingSetSize c) ++
  le_bytes 8 (WorkingSetSize c) ++ le_bytes 8 (QuotaPeakPagedPoolUsage c) ++
  le_bytes 8 (QuotaPagedPoolUsage c) ++ le_bytes 8 (QuotaPeakNonPagedPoolUsage c) ++
  le_bytes 8 (QuotaNonPagedPoolUsage c) ++ le_bytes 8 (PagefileUsage c) ++
  le_bytes 8 (PeakPagefileUsage c) ++ le_bytes 8 (PrivateUsage c).

Section Calls.
Context `{Windows E, Locals E}.
Definition GetProcessMemoryInfo (process : Z) : St E ProcessMemoryCountersEx :=
  memCounters ← local (replicate (Z.to_nat sizeof_counters) 0);
  err ← getProcessMemoryInfo process memCounters (u32 sizeof_counters);
  match err with
  | Some err => fail err
  | None => l ← read_local memCounters; mret (read_counters l)
  end.

(** ** internal/socket: an address of a socket is a pointer and a size, or an error *)
Definition RawSockaddr : Type := St E (Z * Z * option error).
Definition no_sockaddr : string := "could not retrieve socket pointer and size: %w".
Definition GetSockName (s : Z) (rsa : RawSockaddr) : St E (option error) :=
  '(ptr, l, err) ← rsa;
  match err with
  | Some err => mret (Some (Wrapf no_sockaddr [] [] err))
  | None => l ← local (le_bytes 4 l); getsockname s ptr l
  end.
Definition GetPeerName (s : Z) (rsa : RawSockaddr) : St E (option error) :=
  '(ptr, l, err) ← rsa;
  match err with
  | Some err => mret (Some (Wrapf no_sockaddr [] [] err))
  | None => l ← local (le_bytes 4 l); getpeername s ptr l
  end.
Definition Bind (s : Z) (rsa : RawSockaddr) : St E (option error) :=
  '(ptr, l, err) ← rsa;
  match err with
  | Some err => mret (Some (Wrapf no_sockaddr [] [] err))
  | None => bind s ptr l
  end.

(** A call through a function pointer. *)
Definition connectEx (call : Z → list Z → St E (Z * Z)) (addr s name namelen sendBuf sendDataLen
    bytesSent overlapped : Z) : St E (option error) :=
  '(r1, e1) ← call addr [uintptr s; uintptr name; uintptr namelen; uintptr sendBuf;
    uintptr sendDataLen; uintptr bytesSent; uintptr overlapped];
  mret (if r1 =? 0 then if negb (e1 =? 0) then Some (Errno e1) else Some EINVAL else None).

(** ** pipe.go *)
Definition Disconnect (handle : Z) : St E (option error) := disconnectNamedPipe handle.
End Calls.

(** [pipeAddress] *)
Definition pipeAddress := list Z.
Definition pipeAddress_Network (_ : pipeAddress) : list Z := str "pipe".
Definition pipeAddress_String (s : pipeAddress) : list Z := s.
(** The addresses of a pipe or listener with this path. *)
Definition Pipe_LocalAddr (path : list Z) : pipeAddress := path.
Definition Pipe_RemoteAddr (path : list Z) : pipeAddress := path.
Definition PipeListener_Addr (path : list Z) : pipeAddress := path.

(** ** What they do *)
Definition counters_ok (c : ProcessMemoryCountersEx) : Prop :=
  Forall (λ z, 0 ≤ z < 4294967296) [Cb c; PageFaultCount c] ∧
  Forall (λ z, 0 ≤ z < 18446744073709551616) [PeakWorkingSetSize c; WorkingSetSize c;
    QuotaPeakPagedPoolUsage c; QuotaPagedPoolUsage c; QuotaPeakNonPagedPoolUsage c;
    QuotaNonPagedPoolUsage c; PagefileUsage c; PeakPagefileUsage c; PrivateUsage c].
(** The structure is read back from its bytes, which fill the size that the call is told. *)
Lemma read_counters_bytes c :
  counters_ok c → read_counters (counters_bytes c) = c ∧ zlen (counters_bytes c) = sizeof_counters.
Proof.
  intros [H4 H8]. split.
  - rewrite Forall_forall in H4, H8. unfold read_counters, counters_bytes. fields.
    rewrite !le_val_le32, !le_val_le64 by (apply H4 || apply H8; set_solver). by destruct c.
  - unfold counters_bytes. by rewrite !zlen_app, !zlen_le_bytes.
Qed.
(** [connectEx] has the error of a generated function: that of [errnoErr]. *)
Lemma connectEx_error `{Windows E} call addr s name namelen sendBuf n sent o (e : E) :
  connectEx call addr s name namelen sendBuf n sent o e =
  ('(r1, e1) ← call addr [uintptr s; uintptr name; uintptr namelen; uintptr sendBuf; uintptr n;
     uintptr sent; uintptr o]; mret (if r1 =? 0 then Some (errnoErr e1) else None)) e.
Proof.
  unfold connectEx. rewrite !St_bind_eq. destruct (call _ _ e) as [[[r1 e1]| | |] e']; [|done..].
  do 2 f_equal. case_match; [|done]. unfold errnoErr, errERROR_EINVAL, errERROR_IO_PENDING.
  destruct (Z.eqb_spec e1 0); [done|]. cbn. by destruct (Z.eqb_spec e1 997) as [->|].
Qed.
