(* ===== verification/EtwAbi.v ===== *)
(** * Events in memory (pkg/etw)

    What the package hands to the system is addresses: of GUIDs, of an event
    descriptor, and of an array whose elements hold the addresses of the data.  The ETW
    interface of [EtwProvider] is implemented here by the generated functions, for both
    word sizes, and the system is shown to find in memory the event that was written. *)
From S2P Require Import Prelude GoStrings Unicode Guid PaxTime FileInfo EtwMetadata EtwProvider GoCode Zsyscall ZsyscallPkg EtwWrapper SmallCalls.

(** ** Layouts *)
Inductive word_size := W32 | W64.

(** [ptr64]: a pointer of the system, and the padding after it (ptr64_32.go, ptr64_64.go). *)
Definition ptr64_bytes (w : word_size) (p : Z) : list Z :=
  match w with W32 => le_bytes 4 p ++ le_bytes 4 0 | W64 => le_bytes 8 p end.
(** [eventDataDescriptor], with the address of its buffer. *)
Definition edd_bytes (w : word_size) (p : Z) (d : eventDataDescriptor) : list Z :=
  ptr64_bytes w p ++ le_bytes 4 (edd_size d) ++ le_bytes 1 (edd_type d) ++ le_bytes 1 0 ++ le_bytes 2 0.
(** [eventDescriptor] *)
Definition ed_bytes (d : eventDescriptor) : list Z :=
  le_bytes 2 (ed_id d) ++ le_bytes 1 (ed_version d) ++ le_bytes 1 (ed_channel d) ++
  le_bytes 1 (ed_level d) ++ le_bytes 1 (ed_opcode d) ++ le_bytes 2 (ed_task d) ++ le_bytes 8 (ed_keyword d).

(** ** The calls *)
Section Abi.
Context {E : Type} `{Windows E, Locals E} (w : word_size) (globalProviderCallback : Z).

Fixpoint locals (bs : list (list Z)) : St E (list Z) :=
  match bs with
  | [] => mret []
  | b :: bs => p ← local b; ps ← locals bs; mret (p :: ps)
  end.
(** A call in Go returns its error. *)
Definition or_fail (m : St E (option error)) : St E unit :=
  err ← m; match err with Some err => fail err | None => mret () end.

(** The file of the build. *)
Definition wrapper_eventUnregister (h : Z) : St E (option error) :=
  match w with W32 => Wrapper32.eventUnregister h | W64 => Wrapper64.eventUnregister h end.
Definition wrapper_eventSetInformation (h class information length : Z) : St E (option error) :=
  match w with
  | W32 => Wrapper32.eventSetInformation h class information length
  | W64 => Wrapper64.eventSetInformation h class information length
  end.
Definition wrapper_eventWriteTransfer (h descriptor activityID relatedActivityID count descriptors : Z) :
    St E (option error) :=
  match w with
  | W32 => Wrapper32.eventWriteTransfer h descriptor activityID relatedActivityID count descriptors
  | W64 => Wrapper64.eventWriteTransfer h descriptor activityID relatedActivityID count descriptors
  end.

(** The calls of [NewProviderWithOptions], [Close] and [writeEventRaw], with the
    variables whose addresses they pass. *)
Definition call_eventRegister (id : GUID) (index : Z) : St E Z :=
  pid ← local (ToWindowsArray id);
  phandle ← local (le_bytes 8 0);
  _ ← or_fail (ZsyscallPkg.eventRegister pid globalProviderCallback index phandle);
  b ← read_local phandle;
  mret (le_val b).
Definition call_eventSetInformation (h class : Z) (information : list Z) : St E unit :=
  p ← local information;
  or_fail (wrapper_eventSetInformation h class p (u32 (zlen information))).
Definition call_eventUnregister (h : Z) : St E unit := or_fail (wrapper_eventUnregister h).
Definition call_eventWriteTransfer (h : Z) (d : eventDescriptor) (activityID relatedActivityID : GUID)
    (ds : list eventDataDescriptor) : St E unit :=
  pd ← local (ed_bytes d);
  pa ← local (ToWindowsArray activityID);
  pr ← local (ToWindowsArray relatedActivityID);
  ps ← locals (edd_buffer <$> ds);
  pds ← local (concat (zip_with (edd_bytes w) ps ds));
  or_fail (wrapper_eventWriteTransfer h pd pa pr (u32 (zlen ds)) pds).

Definition abi : EtwApi E := {|
  EtwProvider.eventRegister := call_eventRegister;
  EtwProvider.eventSetInformation := call_eventSetInformation;
  EtwProvider.eventUnregister := call_eventUnregister;
  EtwProvider.eventWriteTransfer := call_eventWriteTransfer |}.
End Abi.

(** ** What the system finds *)
Record delivered := mkDelivered {
  v_handle : Z; v_descriptor : eventDescriptor; v_activityID : GUID; v_relatedActivityID : GUID;
  v_data : list (Z * list Z) }.

Definition read_ed (b : list Z) : eventDescriptor :=
  mkED (field 0 2 b) (field 2 1 b) (field 3 1 b) (field 4 1 b) (field 5 1 b) (field 6 2 b) (field 8 8 b).

Section System.
Context {E : Type} `{Locals E}.

(** The type and the bytes of a data descriptor. *)
Definition read_edd (e : E) (b : list Z) : Z * list Z :=
  (field 12 1 b, ztake (field 8 4 b) (local_bytes (field 0 8 b) e)).
Fixpoint read_edds (e : E) (n : nat) (b : list Z) : list (Z * list Z) :=
  match n with
  | O => []
  | S n => read_edd e b :: read_edds e n (zdrop 16 b)
  end.
(** The event at the words of a call of [EventWriteTransfer]. *)
Definition read_event (w : word_size) (words : list Z) (e : E) : option delivered :=
  match (match w with W32 => recombine words | W64 => words end) with
  | [h; pd; pa; pr; n; pds] =>
      Some (mkDelivered h (read_ed (local_bytes pd e)) (FromWindowsArray (local_bytes pa e))
        (FromWindowsArray (local_bytes pr e)) (read_edds e (Z.to_nat n) (local_bytes pds e)))
  | _ => None
  end.
End System.

(** Variables get addresses of the word size and keep their bytes while others are
    made; looking for a procedure does not change them. *)
Definition address (w : word_size) (p : Z) : Prop :=
  0 ≤ p < match w with W32 => 4294967296 | W64 => 18446744073709551616 end.
Class LocalsSpec (w : word_size) (E : Type) `{Windows E, Locals E} := {
  live : E → Z → Prop;
  room : E → nat → Prop;   (** memory for so many variables *)
  new_local_spec b e n :
    room e (S n) → let '(p, e') := new_local b e in
    address w p ∧ live e' p ∧ local_bytes p e' = b ∧ room e' n ∧
    ∀ q, live e q → live e' q ∧ local_bytes q e' = local_bytes q e;
  room_le e m n : (n ≤ m)%nat → room e m → room e n;
  Find_keeps dll name e p : local_bytes p (snd (w_Find dll name e)) = local_bytes p e }.

Section Variables.
Context {w : word_size} {E : Type} `{LocalsSpec w E}.

(** A variable at [p] that holds [b]. *)
Definition holds (e : E) (p : Z) (b : list Z) : Prop := address w p ∧ live e p ∧ local_bytes p e = b.
Definition kept (e e' : E) : Prop := ∀ p b, holds e p b → holds e' p b.

#[export] Instance kept_preorder : PreOrder kept.
Proof. split; [by intros e p b|]. intros e1 e2 e3 H12 H23 p b Hp. by apply H23, H12. Qed.

Lemma local_spec b e n :
  room e (S n) → ∃ p e', local b e = (Ret p, e') ∧ holds e' p b ∧ room e' n ∧ kept e e'.
Proof.
  intros Hr. unfold local. pose proof (new_local_spec b e n Hr) as Hs.
  destruct (new_local b e) as [p e']. destruct Hs as (Ha & Hl & Hb & Hr' & Hk).
  exists p, e'. split; [done|]. split; [done|]. split; [done|].
  intros q c (Haq & Hq & Hc). destruct (Hk q Hq) as [Hq' Hc']. split; [done|]. split; [done|]. by rewrite Hc'.
Qed.
Lemma locals_spec bs e n :
  room e (length bs + n) →
  ∃ ps e', locals bs e = (Ret ps, e') ∧ Forall2 (holds e') ps bs ∧ room e' n ∧ kept e e'.
Proof.
  revert e. induction bs as [|b bs IH]; intros e Hr; [by exists [], e|].
  destruct (local_spec b e (length bs + n) Hr) as (p & e1 & E1 & Hp & Hr1 & Hk1).
  destruct (IH e1 Hr1) as (ps & e2 & E2 & Hps & Hr2 & Hk2).
  exists (p :: ps), e2. split; [|split_and!; [constructor; [by apply Hk2|done]|done|by etrans]].
  cbn [locals]. by rewrite (St_bind_Ret _ _ _ _ _ E1), (St_bind_Ret _ _ _ _ _ E2).
Qed.
End Variables.

(** ** Reading what was written *)
Definition ed_ok (d : eventDescriptor) : Prop :=
  0 ≤ ed_id d < 65536 ∧ 0 ≤ ed_version d < 256 ∧ 0 ≤ ed_channel d < 256 ∧ 0 ≤ ed_level d < 256 ∧
  0 ≤ ed_opcode d < 256 ∧ 0 ≤ ed_task d < 65536 ∧ 0 ≤ ed_keyword d < 18446744073709551616.
Definition edd_ok (d : eventDataDescriptor) : Prop :=
  edd_size d = zlen (edd_buffer d) ∧ zlen (edd_buffer d) < 4294967296 ∧ 0 ≤ edd_type d < 256.

Lemma le_val_le8 z : 0 ≤ z < 256 → le_val (le_bytes 1 z) = z.
Proof. intros. rewrite le_val_le_bytes. apply Z.mod_small. simpl. lia. Qed.
Lemma read_ed_bytes d : ed_ok d → read_ed (ed_bytes d) = d.
Proof.
  intros (? & ? & ? & ? & ? & ? & ?). unfold read_ed, ed_bytes. fields.
  rewrite !le_val_le16, !le_val_le8, le_val_le64 by done. by destruct d.
Qed.

(** The address takes 8 bytes in either layout. *)
Lemma ptr64_bytes_eq w p : address w p → ptr64_bytes w p = le_bytes 8 p.
Proof.
  destruct w; unfold address, ptr64_bytes; intros Hp; [|done].
  rewrite (le_bytes_split 4 4). by rewrite (Z.div_small p).
Qed.
Lemma address_range w p : address w p → 0 ≤ p < 18446744073709551616.
Proof. unfold address. destruct w; lia. Qed.

Section Reading.
Context {w : word_size} {E : Type} `{LocalsSpec w E} (e : E).

Lemma zlen_edd_bytes p d : address w p → zlen (edd_bytes w p d) = 16.
Proof. intros Hp. unfold edd_bytes. by rewrite ptr64_bytes_eq, !zlen_app, !zlen_le_bytes. Qed.
Lemma read_edd_bytes p d tl :
  holds e p (edd_buffer d) → edd_ok d → read_edd e (edd_bytes w p d ++ tl) = (edd_type d, edd_buffer d).
Proof.
  intros (Ha & _ & Hb) (Hs & Hl & Ht). pose proof (zlen_nonneg (edd_buffer d)).
  pose proof (address_range w p Ha). unfold read_edd, edd_bytes. rewrite ptr64_bytes_eq by done.
  rewrite <- !app_assoc. fields. rewrite le_val_le8, le_val_le32, le_val_le64 by lia.
  by rewrite Hb, Hs, ztake_all by lia.
Qed.
Lemma read_edds_bytes ps ds :
  Forall2 (holds e) ps (edd_buffer <$> ds) → Forall edd_ok ds →
  read_edds e (length ds) (concat (zip_with (edd_bytes w) ps ds)) = (λ d, (edd_type d, edd_buffer d)) <$> ds.
Proof.
  revert ps. induction ds as [|d ds IH]; intros ps Hps Hds; [done|].
  apply Forall_cons in Hds as [Hd Hds]. cbn [fmap list_fmap] in Hps.
  apply Forall2_cons_inv_r in Hps as (p & ps' & Hp & Hps & ->).
  cbn [length read_edds zip_with concat fmap list_fmap]. rewrite read_edd_bytes by done. f_equal.
  rewrite zdrop_app_eq by (apply zlen_edd_bytes, Hp). by apply IH.
Qed.
End Reading.

(** ** The event of a call *)
Definition the_event (h : Z) (d : eventDescriptor) (activityID relatedActivityID : GUID)
    (ds : list eventDataDescriptor) : delivered :=
  mkDelivered h d activityID relatedActivityID ((λ d, (edd_type d, edd_buffer d)) <$> ds).

Section Delivery.
Context {w : word_size} {E : Type} `{LocalsSpec w E}.

(** The words of the call, for either word size. *)
Definition event_words (h pd pa pr n pds : Z) : list Z :=
  match w with
  | W32 => [Wrapper32.low h; Wrapper32.high h; pd; pa; pr; n; pds]
  | W64 => [h; pd; pa; pr; n; pds]
  end.
(** Looking a procedure up and calling it. *)
Definition system_call (name : string) (words : list Z) (e : E) : res unit * E :=
  match w_Find (str "advapi32.dll") (str name) e with
  | (Some _, e) => (Panic "LazyProc.Addr", e)
  | (None, e) =>
      let '((r, _), e) := w_Syscall (str "advapi32.dll") (str name) words e in
      (if r =? 0 then Ret () else Fail (Errno r), e)
  end.

Lemma or_fail_eq (m : St E (Z * Z)) e :
  or_fail ('(r0, _) ← m; mret (if negb (r0 =? 0) then Some (Errno r0) else None)) e =
  match m e with
  | (Ret (r, _), e) => (if r =? 0 then Ret () else Fail (Errno r), e)
  | (Fail err, e) => (Fail err, e) | (Panic s, e) => (Panic s, e) | (NoFuel, e) => (NoFuel, e)
  end.
Proof.
  unfold or_fail. rewrite !St_bind_eq. destruct (m e) as [[[r e1]| | |] e']; [|done..].
  rewrite St_ret_eq. by destruct (r =? 0).
Qed.
Lemma system_call_eq name words e :
  match Proc_Call (str "advapi32.dll") (str name) words e with
  | (Ret (r, _), e) => (if r =? 0 then Ret () else Fail (Errno r), e)
  | (Fail err, e) => (Fail err, e) | (Panic s, e) => (Panic s, e) | (NoFuel, e) => (NoFuel, e)
  end = system_call name words e.
Proof.
  unfold Proc_Call, Proc_Find, system_call. rewrite St_bind_eq.
  destruct (w_Find _ _ e) as [[err|] e1]; [done|]. by destruct (w_Syscall _ _ words e1) as [[r e2] e3].
Qed.

(** A generated function of [advapi32.dll] whose result is an error number. *)
Lemma advapi_call width name n words e :
  zlen words = width →
  or_fail ('(r0, _) ← SyscallN width (NewProc (NewLazySystemDLL "advapi32.dll") name) n words;
           mret (if negb (r0 =? 0) then Some (Errno r0) else None)) e = system_call name (ztake n words) e.
Proof. intros Hw. rewrite or_fail_eq. unfold SyscallN. rewrite Hw, Z.eqb_refl. apply system_call_eq. Qed.

Lemma wrapper_call h pd pa pr n pds e :
  0 ≤ h < 2 ^ 64 → address w pd → address w pa → address w pr → 0 ≤ n < 4294967296 → address w pds →
  or_fail (wrapper_eventWriteTransfer w h pd pa pr n pds) e = system_call "EventWriteTransfer" (event_words h pd pa pr n pds) e.
Proof.
  intros Hh Hpd Hpa Hpr Hn Hpds.
  apply address_range in Hpd, Hpa, Hpr, Hpds. pose proof (low_range h). pose proof (low_range (Z.shiftr h 32)).
  unfold wrapper_eventWriteTransfer, event_words. destruct w.
  - unfold Wrapper32.eventWriteTransfer, eventWriteTransfer_32, Syscall9.
    rewrite (advapi_call 9 "EventWriteTransfer") by done. unfold uintptr. rewrite (u64_small (Wrapper32.low h)), (u64_small (Wrapper32.high h)), (u64_small pd), (u64_small pa),
      (u64_small pr), (u64_small n), (u64_small pds) by (unfold Wrapper32.high; lia).
    done.
  - unfold Wrapper64.eventWriteTransfer, eventWriteTransfer_64, Syscall6.
    rewrite (advapi_call 6 "EventWriteTransfer") by done. unfold uintptr. rewrite (u64_small h), (u64_small pd), (u64_small pa),
      (u64_small pr), (u64_small n), (u64_small pds) by lia.
    done.
Qed.

(** The words lead to the event. *)
Lemma read_event_words h d act rel ds pd pa pr ps pds e :
  0 ≤ h < 2 ^ 64 → ed_ok d → guid_ok act → guid_ok rel → Forall edd_ok ds →
  holds e pd (ed_bytes d) → holds e pa (ToWindowsArray act) → holds e pr (ToWindowsArray rel) →
  Forall2 (holds e) ps (edd_buffer <$> ds) → holds e pds (concat (zip_with (edd_bytes w) ps ds)) →
  read_event w (event_words h pd pa pr (zlen ds) pds) e = Some (the_event h d act rel ds).
Proof.
  intros Hh Hd Hact Hrel Hds (_ & _ & Ed) (_ & _ & Ea) (_ & _ & Er) Hps (_ & _ & Eds).
  assert (Hw : (match w with W32 => recombine (event_words h pd pa pr (zlen ds) pds) | W64 => event_words h pd pa pr (zlen ds) pds end) =
    [h; pd; pa; pr; zlen ds; pds]).
  { unfold event_words. destruct w; [|done]. cbn [recombine]. f_equal. rewrite high_div, low_mod by done.
    pose proof (Z.div_mod h (2 ^ 32) ltac:(lia)). lia. }
  unfold read_event. rewrite Hw, Ed, Ea, Er, Eds, read_ed_bytes by done.
  unfold FromWindowsArray, ToWindowsArray. rewrite !fromArray_toArray_eq by done.
  unfold zlen. rewrite Nat2Z.id. by rewrite read_edds_bytes.
Qed.

(** A call of [EventWriteTransfer] with the event at its words. *)
Lemma call_delivers h d act rel ds e n :
  0 ≤ h < 2 ^ 64 → ed_ok d → guid_ok act → guid_ok rel → Forall edd_ok ds → zlen ds < 4294967296 →
  room e (4 + length ds + n) →
  ∃ words e', call_eventWriteTransfer w h d act rel ds e = system_call "EventWriteTransfer" words e' ∧ kept e e' ∧ room e' n ∧
    read_event w words e' = Some (the_event h d act rel ds).
Proof.
  intros Hh Hd Hact Hrel Hds Hlen Hroom.
  destruct (local_spec (ed_bytes d) e (3 + length ds + n)) as (pd & e1 & E1 & V1 & R1 & K1); [exact Hroom|].
  destruct (local_spec (ToWindowsArray act) e1 (2 + length ds + n)) as (pa & e2 & E2 & V2 & R2 & K2); [exact R1|].
  destruct (local_spec (ToWindowsArray rel) e2 (1 + length ds + n)) as (pr & e3 & E3 & V3 & R3 & K3); [exact R2|].
  destruct (locals_spec (edd_buffer <$> ds) e3 (1 + n)) as (ps & e4 & E4 & V4 & R4 & K4).
  { rewrite length_fmap. by replace (length ds + (1 + n))%nat with (1 + length ds + n)%nat by lia. }
  destruct (local_spec (concat (zip_with (edd_bytes w) ps ds)) e4 n) as (pds & e5 & E5 & V5 & R5 & K5); [exact R4|].
  assert (K45 : kept e3 e5) by by etrans. assert (K35 : kept e2 e5) by by etrans. assert (K25 : kept e1 e5) by by etrans.
  exists (event_words h pd pa pr (zlen ds) pds), e5. split_and!; [|by etrans|done|].
  - unfold call_eventWriteTransfer. rewrite (St_bind_Ret _ _ _ _ _ E1), (St_bind_Ret _ _ _ _ _ E2),
      (St_bind_Ret _ _ _ _ _ E3), (St_bind_Ret _ _ _ _ _ E4), (St_bind_Ret _ _ _ _ _ E5).
    rewrite u32_small by (pose_lens; lia).
    apply wrapper_call; [done|apply V1|apply V2|apply V3|pose_lens; lia|apply V5].
  - apply (read_event_words h d act rel ds pd pa pr ps pds); try done; [by apply K25|by apply K35|by apply K45|].
    eapply Forall2_impl; [exact V4|]. intros p b. apply K5.
Qed.

(** Registering: the system finds the ID, the callback and its context, and the handle
    is what it leaves in the variable. *)
Lemma call_registers cb id i e n :
  address w cb → address w i → guid_ok id → room e (2 + n) →
  ∃ pid phandle e', kept e e' ∧ room e' n ∧ FromWindowsArray (local_bytes pid e') = id ∧
    call_eventRegister cb id i e =
    match system_call "EventRegister" [pid; cb; i; phandle] e' with
    | (Ret _, e2) => (Ret (le_val (local_bytes phandle e2)), e2)
    | (Fail err, e2) => (Fail err, e2) | (Panic s, e2) => (Panic s, e2) | (NoFuel, e2) => (NoFuel, e2)
    end.
Proof.
  intros Hcb Hi Hid Hroom.
  destruct (local_spec (ToWindowsArray id) e (1 + n) Hroom) as (pid & e1 & E1 & V1 & R1 & K1).
  destruct (local_spec (le_bytes 8 0) e1 n R1) as (ph & e2 & E2 & V2 & R2 & K2).
  exists pid, ph, e2. split; [by etrans|]. split; [done|]. split.
  { destruct (K2 _ _ V1) as (_ & _ & ->). by apply fromArray_toArray_eq. }
  unfold call_eventRegister. rewrite (St_bind_Ret _ _ _ _ _ E1), (St_bind_Ret _ _ _ _ _ E2), St_bind_eq.
  destruct V1 as (A1 & _), V2 as (A2 & _). apply address_range in A1, A2, Hcb, Hi.
  unfold ZsyscallPkg.eventRegister, Syscall6. rewrite (advapi_call 6 "EventRegister") by done. unfold uintptr.
  rewrite (u64_small pid), (u64_small ph), (u64_small cb), (u64_small i) by lia.
  change (ztake 4 _) with [pid; cb; i; ph]. by destruct (system_call _ _ e2) as [[]].
Qed.
(** Setting the traits: the system finds the bytes and their number. *)
Lemma call_sets_information h class info e n :
  0 ≤ h < 2 ^ 64 → 0 ≤ class < 4294967296 → zlen info < 4294967296 → room e (1 + n) →
  ∃ p e', kept e e' ∧ room e' n ∧ local_bytes p e' = info ∧
    call_eventSetInformation w h class info e =
    system_call "EventSetInformation"
      (match w with
       | W32 => [Wrapper32.low h; Wrapper32.high h; class; p; zlen info]
       | W64 => [h; class; p; zlen info]
       end) e'.
Proof.
  intros Hh Hc Hi Hroom. destruct (local_spec info e n Hroom) as (p & e1 & E1 & V1 & R1 & K1).
  exists p, e1. split; [done|]. split; [done|]. split; [apply V1|].
  unfold call_eventSetInformation. rewrite (St_bind_Ret _ _ _ _ _ E1).
  destruct V1 as (A1 & _). apply address_range in A1. pose proof (zlen_nonneg info).
  rewrite u32_small by lia. pose proof (low_range h). pose proof (low_range (Z.shiftr h 32)).
  unfold wrapper_eventSetInformation. destruct w.
  - unfold Wrapper32.eventSetInformation, eventSetInformation_32, Syscall6.
    rewrite (advapi_call 6 "EventSetInformation") by done. unfold uintptr.
    rewrite (u64_small (Wrapper32.low h)), (u64_small (Wrapper32.high h)), (u64_small class), (u64_small p),
      (u64_small (zlen info)) by (unfold Wrapper32.high; lia).
    done.
  - unfold Wrapper64.eventSetInformation, eventSetInformation_64, Syscall6.
    rewrite (advapi_call 6 "EventSetInformation") by done. unfold uintptr.
    rewrite (u64_small h), (u64_small class), (u64_small p), (u64_small (zlen info)) by lia.
    done.
Qed.
End Delivery.

(** ** From the program to the consumer *)
Definition word_bytes (w : word_size) : Z := match w with W32 => 4 | W64 => 8 end.

(** A delivered event, read by a consumer: the provider's metadata, the name and tags,
    and the fields with nothing left over. *)
Definition consumed (v : delivered) (md name : list Z) (tags : Z) (items : list item) : Prop :=
  ∃ (mb db body : list Z) fuel,
    v_data v = (2, md) :: (1, mb) :: (if bool_decide (db = []) then [] else [(0, db)]) ∧
    dec_header mb = Some (u16 (zlen mb), tags, name, body) ∧
    dec_fields fuel (length items) body db = Some (items, [], []).

(** The buffers of an event once its header and fields are written. *)
Definition buffers (name : list Z) (tags : Z) (fields : list FieldOpt) : event :=
  ((_ ← writeEventHeader name tags; run_all fields) (mkEvent [] [])).2.

(** Any fields that can be read back. *)
Lemma WriteEvent_fields_delivered {w E} `{LocalsSpec w E} cb x name opts fields items (e : E) n :
  metadata x ≠ [] → zlen (metadata x) < 4294967296 → 0 ≤ handle x < 2 ^ 64 →
  no_nul name → Forall2 decodes fields items →
  let o := apply_options opts in
  ed_ok (descriptor o) → guid_ok (activityID o) → guid_ok (relatedActivityID o) → room e (7 + n) →
  zlen (em (buffers name (tags o) fields)) < 4294967296 →
  zlen (ed (buffers name (tags o) fields)) < 4294967296 →
  let write := WriteEvent (H := abi w cb) (Some x) name opts fields e in
  if IsEnabledForLevelAndKeywords (Some x) (ed_level (descriptor o)) (ed_keyword (descriptor o))
  then ∃ words e' v, write = system_call "EventWriteTransfer" words e' ∧ kept (w := w) e e' ∧ room e' n ∧
    read_event w words e' = Some v ∧
    v_handle v = handle x ∧ v_descriptor v = descriptor o ∧
    v_activityID v = activityID o ∧ v_relatedActivityID v = relatedActivityID o ∧
    consumed v (metadata x) name (tags o mod 2 ^ 28) items
  else write = (Ret (), e).
Proof.
  intros Hmd Hml Hh Hn Hfs o Hd Hact Hrel Hroom Hmb Hdb write.
  pose proof (WriteEvent_fields (H := abi w cb) x name opts fields items e Hmd Hn Hfs) as HW.
  cbv zeta in HW. fold o in HW. destruct (IsEnabledForLevelAndKeywords _ _ _); [|exact HW].
  destruct HW as (mb & db & (ev & Hev & Hmb' & ->) & HW & body & fuel & Hhead & Hdec).
  unfold buffers in Hmb, Hdb. rewrite Hev in Hmb, Hdb. cbn [snd] in Hmb, Hdb. rewrite <- Hmb' in Hmb.
  set (ds := mkEDD (metadata x) _ 2 :: _) in HW.
  assert (Hds : Forall edd_ok ds).
  { pose proof (zlen_nonneg (metadata x)). pose proof (zlen_nonneg mb). pose proof (zlen_nonneg (ed ev)).
    unfold ds, edd_ok. constructor; [|constructor; [|case_bool_decide; repeat constructor]]; cbn;
      rewrite ?u32_small; lia. }
  assert (Hlen : (length ds ≤ 3)%nat) by (unfold ds; case_bool_decide; cbn; lia).
  destruct (call_delivers (handle x) (descriptor o) (activityID o) (relatedActivityID o) ds e (3 - length ds + n))
    as (words & e' & Hcall & Hk & Hr & Hread); try done.
  { unfold zlen. lia. }
  { replace (4 + length ds + (3 - length ds + n))%nat with (7 + n)%nat by lia. done. }
  eexists words, e', _. split; [unfold write; rewrite HW; exact Hcall|]. split; [done|].
  split; [by eapply room_le; [|exact Hr]; lia|]. split; [exact Hread|]. do 4 (split; [done|]).
  exists mb, (ed ev), body, fuel. split; [|split; [exact Hhead|]].
  - unfold the_event, ds. cbn. by case_bool_decide.
  - exact Hdec.
Qed.

(** C12: from the fields a program logs to the memory the system reads: on either word size, writing an event
    (of less than 2^32 bytes) with an enabled provider is one call of EventWriteTransfer at whose words lie
    the provider's handle, the descriptor, both activity IDs and blobs from which a consumer
    reads the metadata of the provider, the name, the tags and the fields; the result is that of the
    call. A provider that is not enabled calls nothing. *)
Theorem WriteEvent_delivered {w E} `{LocalsSpec w E} cb NsecToFiletime x name opts fs (e : E) n :
  (∀ n, 0 ≤ ft_Low (NsecToFiletime n) < 4294967296 ∧ 0 ≤ ft_High (NsecToFiletime n) < 4294967296) →
  metadata x ≠ [] → zlen (metadata x) < 4294967296 → 0 ≤ handle x < 2 ^ 64 →
  no_nul name → Forall (λ f, no_nul (fst f) ∧ any_ok (snd f)) fs →
  let o := apply_options opts in
  let fields := smart (word_bytes w) NsecToFiletime <$> fs in
  ed_ok (descriptor o) → guid_ok (activityID o) → guid_ok (relatedActivityID o) → room e (7 + n) →
  zlen (em (buffers name (tags o) fields)) < 4294967296 →
  zlen (ed (buffers name (tags o) fields)) < 4294967296 →
  let write := WriteEvent (H := abi w cb) (Some x) name opts fields e in
  if IsEnabledForLevelAndKeywords (Some x) (ed_level (descriptor o)) (ed_keyword (descriptor o))
  then ∃ words e' v, write = system_call "EventWriteTransfer" words e' ∧ kept (w := w) e e' ∧ room e' n ∧
    read_event w words e' = Some v ∧
    v_handle v = handle x ∧ v_descriptor v = descriptor o ∧
    v_activityID v = activityID o ∧ v_relatedActivityID v = relatedActivityID o ∧
    consumed v (metadata x) name (tags o mod 2 ^ 28) (smart_items (word_bytes w) NsecToFiletime fs)
  else write = (Ret (), e).
Proof.
  intros Hft Hmd Hml Hh Hn Hfs o fields Hd Hact Hrel Hroom Hmb Hdb.
  assert (Hw : word_bytes w = 4 ∨ word_bytes w = 8) by (destruct w; auto).
  apply WriteEvent_fields_delivered; try done. by apply smart_decodes.
Qed.

(** ** Witness: an event on a 32-bit system

    Variables are the blocks of a list; calls are recorded. *)
Record machine := mkMachine { mem : list (list Z); calls : list (list Z) }.
#[export] Instance machine_windows : Windows machine := {|
  w_Find := λ _ _ e, (None, e);
  w_Syscall := λ _ _ ws e, ((0, 0), mkMachine (mem e) (calls e ++ [ws]));
  w_alloc := λ _ e, (0, e) |}.
#[export] Instance machine_locals : Locals machine := {|
  new_local := λ b e, (4096 * Z.of_nat (S (length (mem e))), mkMachine (mem e ++ [b]) (calls e));
  local_bytes := λ p e, default [] (mem e !! Z.to_nat (p / 4096 - 1)) |}.
#[export, program] Instance machine_spec : LocalsSpec W32 machine := {|
  live e p := ∃ i b, p = 4096 * Z.of_nat (S i) ∧ mem e !! i = Some b;
  room e n := 4096 * Z.of_nat (S (length (mem e) + n)) < 4294967296 |}.
Next Obligation.
  intros b e n Hr. cbn in *. unfold address.
  assert (Hi : ∀ i, Z.to_nat (4096 * Z.of_nat (S i) / 4096 - 1) = i).
  { intros i. rewrite Z.mul_comm, Z.div_mul by lia. lia. }
  split_and!; [lia|lia| | |rewrite length_app; cbn; lia|].
  - exists (length (mem e)), b. split; [done|]. by apply list_lookup_middle.
  - rewrite Hi. by rewrite list_lookup_middle.
  - intros q (i & c & -> & Hc). rewrite Hi. split.
    + exists i, c. split; [done|]. by apply lookup_app_l_Some.
    + by rewrite (lookup_app_l_Some _ _ _ _ Hc), Hc.
Qed.
Next Obligation. cbn. lia. Qed.
Next Obligation. done. Qed.

Definition ex_machine : machine := mkMachine [] [].
Lemma WriteEvent_delivered_witness :
  ∃ words e' v,
    WriteEvent (H := abi W32 0) (Some ex_provider) (str "E") ex_opts (smart 4 ex_Filetime <$> ex_fields) ex_machine =
      (Ret (), mkMachine (mem e') (calls e' ++ [words])) ∧
    read_event W32 words e' = Some v ∧ v_handle v = 7 ∧
    consumed v (metadata ex_provider) (str "E") 5 (smart_items 4 ex_Filetime ex_fields).
Proof.
  destruct (WriteEvent_delivered (w := W32) (E := machine) 0 ex_Filetime ex_provider (str "E") ex_opts ex_fields ex_machine 0)
    as (words & e' & v & E & _ & _ & Hr & Hh & _ & _ & _ & Hc).
  - intros n. split; apply u32_range.
  - done.
  - done.
  - done.
  - apply (bool_decide_unpack _). reflexivity.
  - repeat constructor; apply (bool_decide_unpack _); reflexivity.
  - repeat split; vm_compute; done.
  - apply (bool_decide_unpack _). reflexivity.
  - apply (bool_decide_unpack _). reflexivity.
  - vm_compute. reflexivity.
  - vm_compute. reflexivity.
  - vm_compute. reflexivity.
  - exists words, e', v. split; [exact E|]. split; [exact Hr|]. split; [exact Hh|exact Hc].
Defined.
