(* ===== verification/EtwTools.v ===== *)
(** * Commands that use ETW (tools/etw-provider-gen, pkg/etw/sample)

    The command that prints the ID of a provider name, and the sample that
    registers two providers, waits, and writes an event with each.  While
    the sample waits the system may notify its providers. *)
From S2P Require Import Prelude Program GoStrings Guid EtwMetadata EtwProvider EtwLifecycle.

Inductive message : Type :=
| NameRequired
| FailedToConvert (name : list Z) (err : error)
| LogFatal (err : error).

(** The providers and the system, and what was printed. *)
Record term (E : Type) := mkTerm { etw : globals * E; t_out : list Z; t_err : list message }.
Arguments mkTerm {E} _ _ _.
Arguments etw {E} _.
Arguments t_out {E} _.
Arguments t_err {E} _.

Section Tools.
Context {E : Type} `{EtwApi E} (sha1 ToUpper : list Z → list Z).

Definition printf (s : list Z) : prog (term E) unit := λ t,
  (Done (), mkTerm (etw t) (t_out t ++ s) (t_err t)).
Definition eprintf (m : message) : prog (term E) unit := λ t,
  (Done (), mkTerm (etw t) (t_out t) (t_err t ++ [m])).
Definition fatal {A} (err : error) : prog (term E) A := _ ← eprintf (LogFatal err); os_Exit 1.

(** A call of the package returns a value or an error. *)
Definition call {A} (m : St (globals * E) A) : prog (term E) (A + error) := λ t,
  let '(r, s) := m (etw t) in
  let t := mkTerm s (t_out t) (t_err t) in
  match r with
  | Ret a => (Done (inl a), t)
  | Fail err => (Done (inr err), t)
  | Panic _ | NoFuel => (Crash, t)
  end.
Definition or_fatal {A} (m : St (globals * E) A) : prog (term E) A :=
  r ← call m;
  match r with inl a => mret a | inr err => fatal err end.

(** [provider.String()] *)
Definition provider_text (p : nat) : prog (term E) (list Z) :=
  r ← call (in_globals (deref p));
  match r with inl x => mret (Provider_String (Some x)) | inr _ => mret [] end.

(** ** tools/etw-provider-gen *)
Definition gen_main (pn : list Z) : prog (term E) unit :=
  if bool_decide (pn = []) then _ ← eprintf NameRequired; os_Exit 1
  else
    r ← call (NewProvider sha1 ToUpper pn None);
    match r with
    | inr err => _ ← eprintf (FailedToConvert pn err); os_Exit 1
    | inl p =>
        deferred (_ ← call (Close (Some p)); mret ())
          (s ← provider_text p; printf s)
    end.

(** ** pkg/etw/sample *)
Definition callback_text (n : notification) : list Z :=
  str "Callback: isEnabled=" ++ FormatInt (n_state n) 10 ++ str ", level=" ++ FormatInt (n_level n) 10 ++
  str ", matchAnyKeyword=" ++ FormatInt (matchAnyKeyword n) 10 ++ [10].

(** The notifications that arrive, each printed by the callback it is given to. *)
Fixpoint notify (ns : list (notification * Z)) : prog (term E) unit :=
  match ns with
  | [] => mret ()
  | (n, i) :: ns =>
      before ← call (in_globals (λ g, (Ret (length (pg_calls g)), g)));
      _ ← call (in_globals (providerCallback n i));
      after ← call (in_globals (λ g, (Ret (pg_calls g), g)));
      _ ← match before, after with
          | inl k, inl calls => printf (concat ((λ c, callback_text (snd c)) <$> drop k calls))
          | _, _ => mret ()
          end;
      notify ns
  end.

Definition sample_opts : list EventOpt := [WithLevel LevelInfo; WithKeyword 0x140].
Definition sample_fields : list FieldOpt :=
  [StringField (str "TestField") (str "Foo");
   StringField (str "TestField2") (str "Bar");
   Struct (str "TestStruct")
     [StringField (str "Field1") (str "Value1"); StringField (str "Field2") (str "Value2")];
   StringArray (str "TestArray") [str "Item1"; str "Item2"; str "Item3"; str "Item4"; str "Item5"]].
Definition write (p : nat) (name : list Z) : St (globals * E) unit :=
  x ← in_globals (deref p);
  in_api (WriteEvent (Some x) name sample_opts sample_fields).

(** [provider.Close()] in a deferred function. *)
Definition close_or_fatal (p : nat) : prog (term E) unit := or_fatal (Close (Some p)).

Definition callback_name : nat := 0.
Definition sample_main (GOOS GOARCH : list Z) (waiting : list (notification * Z)) : prog (term E) unit :=
  _ ← printf (str "Running on " ++ GOOS ++ str "/" ++ GOARCH ++ [10]);
  group ← or_fatal (lift (FromString (str "12341234-abcd-abcd-abcd-123412341234")));
  provider ← or_fatal (NewProvider sha1 ToUpper (str "TestProvider") (Some callback_name));
  deferred (close_or_fatal provider) (
    providerWithGroup ← or_fatal (NewProviderWithOptions sha1 ToUpper (str "TestProviderWithGroup")
      [WithGroup group; WithCallback (Some callback_name)]);
    deferred (close_or_fatal providerWithGroup) (
      s ← provider_text provider;
      _ ← printf (str "Provider ID: " ++ s ++ [10]);
      s ← provider_text providerWithGroup;
      _ ← printf (str "Provider w/ Group ID: " ++ s ++ [10]);
      _ ← printf (str "Press enter to log events" ++ [10]);
      _ ← notify waiting;
      _ ← or_fatal (write provider (str "TestEvent"));
      or_fatal (write providerWithGroup (str "TestEventWithGroup")))).
End Tools.

(** ** The command that prints an ID *)
Section Gen.
Context {E : Type} `{EtwApi E} (sha1 ToUpper : list Z → list Z).

Lemma call_Ret {A} (m : St (globals * E) A) s o r a s' :
  m s = (Ret a, s') → call m (mkTerm s o r) = (Done (inl a), mkTerm s' o r).
Proof. unfold call. cbn [etw t_out t_err]. by intros ->. Qed.
Lemma call_Fail {A} (m : St (globals * E) A) s o r err s' :
  m s = (Fail err, s') → call m (mkTerm s o r) = (Done (inr err), mkTerm s' o r).
Proof. unfold call. cbn [etw t_out t_err]. by intros ->. Qed.

Lemma call_globals {A} (m : St globals A) g (e : E) o r a g' :
  m g = (Ret a, g') → call (in_globals m) (mkTerm (g, e) o r) = (Done (inl a), mkTerm (g', e) o r).
Proof. intros Hm. apply call_Ret. unfold in_globals. cbn. by rewrite Hm. Qed.

Lemma provider_text_eq p x g (e : E) o r :
  pg_objs g !! p = Some x →
  provider_text p (mkTerm (g, e) o r) = (Done (GUID_String (ID x)), mkTerm (g, e) o r).
Proof.
  intros Hx. unfold provider_text.
  assert (Hd : deref p g = (Ret x, g)) by (unfold deref; by rewrite Hx).
  by rewrite (prog_bind_Done _ _ _ _ _ (call_globals _ _ e o r _ _ Hd)).
Qed.

Lemma printf_eq {A} (f : unit → prog (term E) A) s st o r :
  (printf s ≫= f) (mkTerm st o r) = f () (mkTerm st (o ++ s) r).
Proof. done. Qed.

(** Closing a provider of the table: out of the table, and the call with its handle. *)
Lemma Close_eq p x g (e : E) :
  pg_objs g !! p = Some x →
  Close (Some p) (g, e) =
    let g' := mkGlobals (pg_objs g) (delete (p_index x) (pg_m g)) (pg_i g) (pg_calls g) in
    let '(u, e') := eventUnregister (handle x) e in (u, (g', e')).
Proof.
  intros Hx. cbv zeta. set (g' := mkGlobals _ _ _ _).
  assert (Hr : in_globals (removeProvider p) (g, e) = (Ret (), (g', e))).
  { unfold in_globals, removeProvider, deref. cbn [fst snd]. rewrite St_bind_eq. by rewrite Hx. }
  assert (Hd : in_globals (deref p) (g', e) = (Ret x, (g', e))) by (unfold in_globals, deref; cbn; by rewrite Hx).
  unfold Close. by rewrite (St_bind_Ret _ _ _ _ _ Hr), (St_bind_Ret _ _ _ _ _ Hd).
Qed.

(** the command prints the version 5 GUID of the name, and nothing else: it registers a provider
    of that ID and unregisters it before it ends, so that the table of providers is as it was. When
    the system refuses the provider, nothing is printed, the exit code is 1 and the table is as it was. *)
Theorem gen_main_spec pn g (e : E) o r :
  pn ≠ [] → table_ok g → pg_i g < max_uint64 →
  let id := providerIDFromName sha1 ToUpper pn in
  match eventRegister id (pg_i g) e with
  | (Fail err, e1) => ∃ g', pg_m g' = pg_m g ∧
      gen_main sha1 ToUpper pn (mkTerm (g, e) o r) = (Exit 1, mkTerm (g', e1) o (r ++ [FailedToConvert pn err]))
  | (Ret h, e1) =>
      match eventSetInformation h eventInfoClassProviderSetTraits (provider_metadata pn zero_GUID) e1 with
      | (Fail err, e2) => ∃ g', pg_m g' = pg_m g ∧
          gen_main sha1 ToUpper pn (mkTerm (g, e) o r) = (Exit 1, mkTerm (g', e2) o (r ++ [FailedToConvert pn err]))
      | (Ret _, e2) =>
          match eventUnregister h e2 with
          | (Ret _, e3) | (Fail _, e3) => ∃ g', pg_m g' = pg_m g ∧
              gen_main sha1 ToUpper pn (mkTerm (g, e) o r) = (Done (), mkTerm (g', e3) (o ++ GUID_String id) r)
          | _ => True
          end
      | _ => True
      end
  | _ => True
  end.
Proof.
  intros Hpn Hok Hmax id.
  assert (Hstart : ∀ t, gen_main sha1 ToUpper pn t = (r ← call (NewProvider sha1 ToUpper pn None);
    match r with
    | inr err => _ ← eprintf (FailedToConvert pn err); os_Exit 1
    | inl p => deferred (_ ← call (Close (Some p)); mret ()) (s ← provider_text p; printf s)
    end) t).
  { intros t. unfold gen_main. by rewrite bool_decide_eq_false_2. }
  rewrite Hstart. clear Hstart.
  destruct (NewProviderWithOptions_spec sha1 ToUpper pn [WithCallback None] g e Hok Hmax) as (g' & _ & _ & _ & Hnew).
  change (the_id sha1 ToUpper pn [WithCallback None]) with id in Hnew.
  change (po_group _) with zero_GUID in Hnew. change (po_callback _) with (@None nat) in Hnew.
  unfold NewProvider. destruct (eventRegister id (pg_i g) e) as [[h|err| |] e1]; [|..|done|done].
  - destruct Hnew as [Hobj Hnew].
    destruct (eventSetInformation h _ _ e1) as [[[]|err| |] e2]; [|..|done|done]; destruct Hnew as [Hnew Hm].
    + rewrite (prog_bind_Done _ _ _ _ _ (call_Ret _ _ _ _ _ _ Hnew)). unfold deferred.
      assert (Hx : pg_objs g' !! length (pg_objs g) = Some (mkProvider id h (provider_metadata pn zero_GUID) None (pg_i g) false 0 0 0))
        by (rewrite Hobj; apply lookup_last).
      rewrite (prog_bind_Done _ _ _ _ _ (provider_text_eq _ _ _ _ _ _ Hx)). cbn [ID printf etw t_out t_err].
      pose proof (Close_eq _ _ g' e2 Hx) as Hc. cbn [handle p_index] in Hc. rewrite Hm, delete_insert_id in Hc by by apply table_fresh.
      destruct (eventUnregister h e2) as [[[]|err| |] e3]; try done;
        exists (mkGlobals (pg_objs g') (pg_m g) (pg_i g') (pg_calls g')); (split; [done|]);
        [rewrite prog_bind_eq, (prog_bind_Done _ _ _ _ _ (call_Ret _ _ _ _ _ _ Hc))
        |rewrite prog_bind_eq, (prog_bind_Done _ _ _ _ _ (call_Fail _ _ _ _ _ _ Hc))]; done.
    + exists g'. split; [done|]. by rewrite (prog_bind_Done _ _ _ _ _ (call_Fail _ _ _ _ _ _ Hnew)).
  - destruct Hnew as [Hnew Hm]. exists g'. split; [done|].
    by rewrite (prog_bind_Done _ _ _ _ _ (call_Fail _ _ _ _ _ _ Hnew)).
Qed.
End Gen.

(** ** The sample *)

(** Calls of the system return a value or an error. *)
Definition answers {A} (x : res A) : Prop := match x with Ret _ | Fail _ => True | _ => False end.
Class EtwTotal (E : Type) `{EtwApi E} := {
  eventRegister_answers id i e : answers (eventRegister id i e).1;
  eventSetInformation_answers h c b e : answers (eventSetInformation h c b e).1;
  eventUnregister_answers h e : answers (eventUnregister h e).1;
  eventWriteTransfer_answers h d a r bs e : answers (eventWriteTransfer h d a r bs e).1 }.

(** The table is the same, and the providers keep what registering gave them. *)
Definition frame (g g' : globals) : Prop :=
  pg_m g' = pg_m g ∧ ∀ p x, pg_objs g !! p = Some x → ∃ x', pg_objs g' !! p = Some x' ∧ same_provider x x'.

#[export] Instance same_provider_preorder : PreOrder same_provider.
Proof.
  split; [by intros x|]. intros x y z (? & ? & ? & ?) (? & ? & ? & ?). split_and!; by etrans.
Qed.
#[export] Instance frame_preorder : PreOrder frame.
Proof.
  split; [intros g; split; [done|]; intros p x Hx; by exists x|].
  intros g1 g2 g3 [M12 O12] [M23 O23]. split; [by etrans|]. intros p x Hx.
  destruct (O12 p x Hx) as (y & Hy & Sy). destruct (O23 p y Hy) as (z & Hz & Sz). exists z. split; [done|by etrans].
Qed.
(** A notification to a provider of the table. *)
Lemma providerCallback_frame n i g p x :
  pg_m g !! i = Some p → pg_objs g !! p = Some x →
  ∃ g', providerCallback n i g = (Ret (), g') ∧ frame g g'.
Proof.
  intros Hi Hx. destruct (providerCallback_found n i g p x Hi Hx) as (f & calls & Hf & E).
  eexists. split; [exact E|]. split; [done|]. cbn. intros q y Hy. destruct (decide (q = p)) as [->|Hne].
  - exists (f y). by rewrite (lookup_alter_obj _ _ _ _ y), decide_True by done.
  - exists y. by rewrite (lookup_alter_obj _ _ _ _ y), decide_False by done.
Qed.

(** How a part of the sample ends, when the errors printed before are [r]. *)
Section Ends.
Context {E : Type}.
Definition ends {A} (r : list message) (Q : A → term E → Prop) (x : outcome A * term E) : Prop :=
  match x with
  | (Done a, t) => t_err t = r ∧ Q a t
  | (Exit c, t) => c = 1 ∧ ∃ err, t_err t = r ++ [LogFatal err]
  | (Crash, _) => False
  end.
Lemma ends_bind {A B} r (Q : A → term E → Prop) (R : B → term E → Prop) m (f : A → prog (term E) B) t :
  ends r Q (m t) → (∀ a t', t_err t' = r → Q a t' → ends r R (f a t')) → ends r R ((m ≫= f) t).
Proof. intros Hm Hf. rewrite prog_bind_eq. destruct (m t) as [[a| |] t']; try done. destruct Hm. by apply Hf. Qed.
Lemma ends_printf r s (t : term E) (Q : unit → term E → Prop) :
  t_err t = r → Q () (mkTerm (etw t) (t_out t ++ s) (t_err t)) → ends r Q (printf s t).
Proof. done. Qed.
Lemma ends_or_fatal {A} r (Q : A → term E → Prop) (m : St (globals * E) A) t :
  t_err t = r →
  match m (etw t) with
  | (Ret a, s) => Q a (mkTerm s (t_out t) (t_err t))
  | (Fail _, _) => True
  | _ => False
  end → ends r Q (or_fatal m t).
Proof.
  intros Hr Hm. unfold or_fatal, call. rewrite prog_bind_eq. destruct (m (etw t)) as [[a|err| |] s]; try done.
  cbn. split; [done|]. exists err. by rewrite Hr.
Qed.
Lemma ends_deferred {A} r (Q R : A → term E → Prop) f (body : prog (term E) A) t :
  ends r Q (body t) → (∀ a t', t_err t' = r → Q a t' → ends r (λ _, R a) (f t')) → ends r R (deferred f body t).
Proof.
  intros Hb Hf. unfold deferred. destruct (body t) as [[a| |] t']; try done. destruct Hb as [Hr HQ].
  specialize (Hf a t' Hr HQ). rewrite prog_bind_eq. by destruct (f t') as [[[]| |] t''].
Qed.
Lemma ends_weaken {A} r (Q R : A → term E → Prop) x : ends r Q x → (∀ a t, Q a t → R a t) → ends r R x.
Proof. intros Hx HQ. destruct x as [[a| |] t]; try done. destruct Hx. split; auto. Qed.

(** Calls that only print, or that notify providers of the table. *)
Lemma provider_text_ends p r (t : term E) x :
  pg_objs (etw t).1 !! p = Some x → t_err t = r → ends r (λ _ t', etw t' = etw t) (provider_text p t).
Proof. destruct t as [[g e] o r']. cbn. intros Hx <-. by rewrite (provider_text_eq _ x). Qed.

Definition known (g : globals) (i : Z) : Prop := ∃ p x, pg_m g !! i = Some p ∧ pg_objs g !! p = Some x.
Lemma known_frame g g' i : frame g g' → known g i → known g' i.
Proof. intros [Hm Ho] (p & x & Hp & Hx). destruct (Ho p x Hx) as (y & Hy & _). exists p, y. by rewrite Hm. Qed.
Lemma notify_ends r ns (t : term E) :
  t_err t = r → Forall (λ c, known (etw t).1 (snd c)) ns →
  ends r (λ _ t', frame (etw t).1 (etw t').1 ∧ (etw t').2 = (etw t).2) (notify ns t).
Proof.
  revert t. induction ns as [|[n i] ns IH]; intros [[g e] o r'] Hr Hns; [by split|].
  apply Forall_cons in Hns as [(p & x & Hp & Hx) Hns]. cbn in Hp, Hx.
  destruct (providerCallback_frame n i g p x Hp Hx) as (g' & Hc & Hf).
  cbn [notify]. rewrite (prog_bind_Done _ _ _ _ _ (call_globals (λ g, (Ret _, g)) g e o r' _ g eq_refl)).
  rewrite (prog_bind_Done _ _ _ _ _ (call_globals _ _ e o r' _ _ Hc)).
  rewrite (prog_bind_Done _ _ _ _ _ (call_globals (λ g, (Ret _, g)) g' e o r' _ g' eq_refl)).
  rewrite (prog_bind_Done _ (printf _) _ _ _ eq_refl).
  eapply ends_weaken; [apply IH; [done|]|].
  - eapply Forall_impl; [exact Hns|]. intros c. by apply known_frame.
  - intros _ t' [Hf' He]. split; [by etrans|done].
Qed.
End Ends.

(** The fields the sample writes, as a consumer reads them. *)
Definition text_item (name value : list Z) : item := Scalar name inTypeANSIString outTypeUTF8 (VStr value).
Definition sample_items : list item :=
  [text_item (str "TestField") (str "Foo"); text_item (str "TestField2") (str "Bar");
   Nested (str "TestStruct") [text_item (str "Field1") (str "Value1"); text_item (str "Field2") (str "Value2")];
   Array (str "TestArray") inTypeANSIString outTypeUTF8
     (VStr <$> [str "Item1"; str "Item2"; str "Item3"; str "Item4"; str "Item5"])].
Lemma sample_decodes : Forall2 decodes sample_fields sample_items.
Proof.
  assert (Ht : ∀ n v, no_nul n → no_nul v → decodes (StringField n v) (text_item n v))
    by (intros; by apply decodes_string).
  assert (Hs : Forall no_nul [str "TestField"; str "Foo"; str "TestField2"; str "Bar"; str "TestStruct"; str "Field1";
    str "Value1"; str "Field2"; str "Value2"; str "TestArray"]) by decide_now.
  rewrite !Forall_cons in Hs. destruct Hs as (? & ? & ? & ? & ? & ? & ? & ? & ? & ? & _).
  apply Forall2_cons; split; [by apply Ht|]. apply Forall2_cons; split; [by apply Ht|].
  apply Forall2_cons; split; [|apply Forall2_cons; split; [|by apply Forall2_nil]].
  - apply decodes_struct; [done|done|]. apply Forall2_cons; split; [by apply Ht|].
    apply Forall2_cons; split; [by apply Ht|by apply Forall2_nil].
  - apply (decodes_array _ _ _ (λ s, s ++ [0])); [done|done|done|done|done|intros s; apply writes_ed|].
    eapply Forall_impl; [|apply val_bytes_str]. decide_now.
Qed.

Section Sample.
Context {E : Type} `{EtwTotal E} (sha1 ToUpper : list Z → list Z).

(** A new provider: its place in the table, and everything before is kept. *)
Definition added (g : globals) (p : nat) (g' : globals) : Prop :=
  table_ok g' ∧ pg_i g' = pg_i g + 1 ∧ pg_m g' = <[pg_i g := p]> (pg_m g) ∧
  (∃ x, pg_objs g' !! p = Some x ∧ p_index x = pg_i g ∧ metadata x ≠ []) ∧
  ∀ q x, pg_objs g !! q = Some x → pg_objs g' !! q = Some x.
Lemma new_ends name options g (e : E) o r :
  table_ok g → pg_i g < max_uint64 →
  ends r (λ p t', added g p (etw t').1) (or_fatal (NewProviderWithOptions sha1 ToUpper name options) (mkTerm (g, e) o r)).
Proof.
  intros Hok Hmax. apply ends_or_fatal; [done|]. cbn [etw t_out t_err].
  destruct (NewProviderWithOptions_spec sha1 ToUpper name options g e Hok Hmax) as (g' & Hok' & Hi & _ & Hnew).
  set (id := the_id _ _ _ _) in Hnew. pose proof (eventRegister_answers id (pg_i g) e) as Hr.
  destruct (eventRegister id (pg_i g) e) as [[h|err| |] e1]; [|by destruct Hnew as [-> _]|done|done].
  destruct Hnew as [Hobj Hnew]. set (md := provider_metadata _ _) in *.
  pose proof (eventSetInformation_answers h eventInfoClassProviderSetTraits md e1) as Hs.
  destruct (eventSetInformation h _ md e1) as [[[]|err| |] e2]; [|by destruct Hnew as [-> _]|done|done].
  destruct Hnew as [-> Hm]. cbn [etw fst]. split; [done|]. split; [done|]. split; [done|]. rewrite Hobj. split.
  - eexists. rewrite lookup_last. split; [done|]. split; [done|]. cbn [metadata]. unfold md, provider_metadata.
    by rewrite sized_eq.
  - intros q x Hq. by apply lookup_app_l_Some.
Qed.

Lemma close_ends p x g (e : E) o r :
  pg_objs g !! p = Some x →
  ends r (λ _ t', pg_objs (etw t').1 = pg_objs g ∧ pg_m (etw t').1 = delete (p_index x) (pg_m g))
    (close_or_fatal p (mkTerm (g, e) o r)).
Proof.
  intros Hx. apply ends_or_fatal; [done|]. cbn [etw]. rewrite (Close_eq _ x) by done. cbv zeta.
  pose proof (eventUnregister_answers (handle x) e) as Ha. by destruct (eventUnregister (handle x) e) as [[] e'].
Qed.

Lemma write_ends p x name g (e : E) o r :
  pg_objs g !! p = Some x → metadata x ≠ [] → no_nul name →
  ends r (λ _ t', (etw t').1 = g) (or_fatal (write p name) (mkTerm (g, e) o r)).
Proof.
  intros Hx Hmd Hn. apply ends_or_fatal; [done|]. cbn [etw]. unfold write.
  assert (Hd : in_globals (deref p) (g, e) = (Ret x, (g, e))) by (unfold in_globals, deref; cbn; by rewrite Hx).
  rewrite (St_bind_Ret _ _ _ _ _ Hd).
  unfold in_api. cbn [fst snd].
  pose proof (WriteEvent_fields x name sample_opts _ _ e Hmd Hn sample_decodes) as HW. cbv zeta in HW.
  destruct (IsEnabledForLevelAndKeywords _ _ _); [|by rewrite HW].
  destruct HW as (mb & db & _ & -> & _).
  match goal with |- context [eventWriteTransfer ?h ?d ?a ?b ?bs e] =>
    pose proof (eventWriteTransfer_answers h d a b bs e) as Ha; by destruct (eventWriteTransfer h d a b bs e) as [[] e'] end.
Qed.

(** What the sample does between registering and closing. *)
Lemma body_ends p1 p2 x1 x2 waiting g (e : E) o r :
  pg_objs g !! p1 = Some x1 → metadata x1 ≠ [] → pg_objs g !! p2 = Some x2 → metadata x2 ≠ [] →
  Forall (λ c, known g (snd c)) waiting →
  ends r (λ _ t', frame g (etw t').1)
    ((s ← provider_text p1;
      _ ← printf (str "Provider ID: " ++ s ++ [10]);
      s ← provider_text p2;
      _ ← printf (str "Provider w/ Group ID: " ++ s ++ [10]);
      _ ← printf (str "Press enter to log events" ++ [10]);
      _ ← notify waiting;
      _ ← or_fatal (write p1 (str "TestEvent"));
      or_fatal (write p2 (str "TestEventWithGroup"))) (mkTerm (g, e) o r)).
Proof.
  intros Hx1 Hmd1 Hx2 Hmd2 Hwait.
  rewrite (prog_bind_Done _ _ _ _ _ (provider_text_eq _ _ _ _ _ _ Hx1)), printf_eq,
    (prog_bind_Done _ _ _ _ _ (provider_text_eq _ _ _ _ _ _ Hx2)), !printf_eq.
  eapply ends_bind; [by apply notify_ends|].
  intros [] [[g1 e1] o1 r1] Hr1 [Hf _]; cbn in Hr1, Hf; subst r1.
  destruct (proj2 Hf p1 x1 Hx1) as (y1 & Hy1 & _ & _ & Hmy1 & _).
  destruct (proj2 Hf p2 x2 Hx2) as (y2 & Hy2 & _ & _ & Hmy2 & _).
  eapply ends_bind; [apply (write_ends p1 y1); [done|by rewrite Hmy1|decide_now]|].
  intros [] [[g2 e2] o2 r2] Hr2 Hg2; cbn in Hr2, Hg2; subst g2 r2.
  eapply ends_weaken; [apply (write_ends p2 y2); [done|by rewrite Hmy2|decide_now]|].
  by intros [] [[g3 e3] o3 r3] <-.
Qed.

(** C31: whatever notifications its providers get while it waits, the sample ends without a
    panic. When it ends normally, nothing was printed as an error and the table of providers is
    as it was, without the two providers it registered; when a call fails, it prints that error
    last and its exit code is 1. *)
Theorem sample_main_spec GOOS GOARCH waiting g (e : E) o r :
  table_ok g → pg_i g + 1 < max_uint64 →
  Forall (λ c, snd c = pg_i g ∨ snd c = pg_i g + 1) waiting →
  ends r (λ _ t', pg_m (etw t').1 = pg_m g) (sample_main sha1 ToUpper GOOS GOARCH waiting (mkTerm (g, e) o r)).
Proof.
  intros Hok Hmax Hwait. unfold sample_main.
  eapply ends_bind with (Q := λ _ t', etw t' = (g, e)); [by apply ends_printf|].
  intros [] [s o1 r1] Hr1 Hs; cbn in Hr1, Hs; subst s r1.
  eapply ends_bind with (Q := λ _ t', etw t' = (g, e)).
  { apply ends_or_fatal; [done|]. unfold lift. by destruct (FromString _) eqn:Ef; vm_compute in Ef. }
  intros group [s o2 r2] Hr2 Hs; cbn in Hr2, Hs; subst s r2.
  eapply ends_bind; [apply (new_ends _ _ g e o2 r Hok); lia|].
  intros p1 [[g1 e1] o3 r3] Hr3 (Hok1 & Hi1 & Hm1 & (x1 & Hx1 & Hp1 & Hmd1) & _); cbn in Hr3, Hok1, Hi1, Hm1, Hx1; subst r3.
  eapply ends_deferred with (Q := λ _ t', ∃ g', etw t' = (g', (etw t').2) ∧ pg_m g' = pg_m g1 ∧
    ∃ y, pg_objs g' !! p1 = Some y ∧ same_provider x1 y).
  - eapply ends_bind; [apply (new_ends _ _ g1 e1 o3 r Hok1); lia|].
    intros p2 [[g2 e2] o4 r4] Hr4 (Hok2 & Hi2 & Hm2 & (x2 & Hx2 & Hp2 & Hmd2) & Hkeep); cbn in Hr4, Hok2, Hi2, Hm2, Hx2, Hkeep; subst r4.
    eapply ends_deferred with (Q := λ _ t', frame g2 (etw t').1).
    + apply (body_ends p1 p2 x1 x2); try done; [by apply Hkeep|].
      eapply Forall_impl; [exact Hwait|]. intros c Hc. unfold known. rewrite Hm2, Hi1.
      destruct Hc as [Hc | Hc]; rewrite Hc.
      * exists p1, x1. rewrite lookup_insert_ne, Hm1, lookup_insert_eq by lia. split; [done|by apply Hkeep].
      * exists p2, x2. by rewrite lookup_insert_eq.
    + intros [] [[g3 e3] o5 r5] Hr5 [Hm3 Ho3]; cbn in Hr5, Hm3, Ho3; subst r5.
      destruct (Ho3 p2 x2 Hx2) as (y2 & Hy2 & _ & _ & _ & Hq2). destruct (Ho3 p1 x1 (Hkeep _ _ Hx1)) as (y1 & Hy1 & Hs1).
      eapply ends_weaken; [by apply (close_ends p2 y2)|]. intros _ [[g4 e4] o6 r6]. cbn. intros [Ho4 Hm4].
      exists g4. split; [done|]. rewrite Ho4. split; [|by exists y1].
      rewrite Hm4, Hm3, Hq2, Hp2, Hm2. apply delete_insert_id. by apply table_fresh.
  - intros [] [[g3 e3] o4 r4] Hr4 (g' & Hg' & Hm3 & y1 & Hy1 & _ & _ & _ & Hq1); cbn in Hr4, Hg'; injection Hg' as <-; subst r4.
    eapply ends_weaken; [by apply (close_ends p1 y1)|]. intros _ [[g4 e4] o6 r6]. cbn. intros [_ Hm4].
    rewrite Hm4, Hm3, Hq1, Hp1, Hm1. apply delete_insert_id. by apply table_fresh.
Qed.
End Sample.

(** ** Witnesses, on the API that records events *)
Definition ex_sha1 (_ : list Z) : list Z := replicate 20 7.
Definition ex_term : term event_log := mkTerm (mkGlobals [] ∅ 0 [], []) [] [].
Lemma ex_table : table_ok (mkGlobals [] ∅ 0 []).
Proof. split; [done|]. intros i p Hp. discriminate Hp. Qed.

Lemma gen_main_spec_witness :
  ∃ g', pg_m g' = ∅ ∧ gen_main ex_sha1 id (str "Contoso") ex_term =
    (Done (), mkTerm (g', []) (str "07070707-0707-5707-0707-070707070707") []).
Proof.
  pose proof (gen_main_spec ex_sha1 id (str "Contoso") (mkGlobals [] ∅ 0 []) ([] : event_log) [] []) as P.
  assert (Hn : str "Contoso" ≠ []) by discriminate.
  specialize (P Hn ex_table ltac:(done)). destruct P as (g' & Hm & E). exists g'. split; [exact Hm|].
  refine (eq_trans E _). vm_compute. reflexivity.
Defined.

#[export] Instance log_total : EtwTotal event_log.
Proof. by split. Qed.
Definition ex_waiting : list (notification * Z) :=
  [(mkNote zero_GUID ProviderStateEnable 5 max_uint64 0 0, 0); (mkNote zero_GUID ProviderStateEnable 5 max_uint64 0 0, 1)].

Lemma sample_main_spec_witness :
  let x := sample_main ex_sha1 id (str "windows") (str "amd64") ex_waiting ex_term in
  x.1 = Done () ∧ length (etw x.2).2 = 2%nat ∧ pg_m (etw x.2).1 = ∅.
Proof.
  pose proof (sample_main_spec ex_sha1 id (str "windows") (str "amd64") ex_waiting (mkGlobals [] ∅ 0 []) ([] : event_log) [] []
    ex_table ltac:(done) ltac:(repeat constructor; by (left + right))) as P.
  cbv zeta. split; [vm_compute; reflexivity|]. split; [vm_compute; reflexivity|].
  destruct (sample_main _ _ _ _ _ _) as [[a|c|] t] eqn:E in P; [destruct P as [_ P]|exfalso|destruct P].
  - change (mkTerm _ _ _) with ex_term in E. rewrite E. exact P.
  - apply (f_equal fst) in E. vm_compute in E. discriminate E.
Defined.
