(* ===== verification/WimInfo.v ===== *)
(** * Descriptions and times of WIM files (wim/wim.go)

    The text of a resource, the time of an XML blob, and closing a reader. *)
From S2P Require Import Prelude GoStrings Wim.

(** ** Resources *)
Definition resourceDescriptor_String (r : resourceDescriptor) : list Z :=
  let s := FormatInt (CompressedSize r) 10 ++ str " bytes at " ++ FormatInt (rd_Offset r) 10 in
  if negb (Z.land (Flags r) 4 =? 0)
  then s ++ str " (uncompresses to " ++ FormatInt (OriginalSize r) 10 ++ str ")" else s.

(** ** [strconv.ParseUint] with base 0

    The base is that of the prefix; underscores may separate digits. *)
Definition lower (c : Z) : Z := Z.lor c 32.
Fixpoint parse_digits0 (base maxVal n : Z) (s : list Z) : res Z :=
  match s with
  | [] => Ret n
  | c :: t =>
      if c =? 95 then parse_digits0 base maxVal n t
      else
        match digit_val c with
        | None => Fail ErrSyntax
        | Some d =>
            if base <=? d then Fail ErrSyntax
            else if maxVal <? n * base + d then Fail ErrRange
            else parse_digits0 base maxVal (n * base + d) t
        end
  end.

(** [underscoreOK]: what was seen last is the beginning, a digit, an underscore or none of these. *)
Inductive saw := SawStart | SawDigit | SawUnderscore | SawOther.
Fixpoint underscores (hex : bool) (last : saw) (s : list Z) : bool :=
  match s with
  | [] => match last with SawUnderscore => false | _ => true end
  | c :: t =>
      if ((48 <=? c) && (c <=? 57)) || (hex && (97 <=? lower c) && (lower c <=? 102))
      then underscores hex SawDigit t
      else if c =? 95 then
        match last with SawDigit => underscores hex SawUnderscore t | _ => false end
      else match last with SawUnderscore => false | _ => underscores hex SawOther t end
  end.
Definition underscoreOK (s : list Z) : bool :=
  let s := match s with c :: t => if (c =? 45) || (c =? 43) then t else s | [] => s end in
  match s with
  | 48 :: c :: t =>
      if (lower c =? 98) || (lower c =? 111) || (lower c =? 120)
      then underscores (lower c =? 120) SawDigit t
      else underscores false SawStart s
  | _ => underscores false SawStart s
  end.

(** The base of a text and the digits after its prefix. *)
Definition base_of (s : list Z) : Z * list Z :=
  match s with
  | 48 :: t =>
      match t with
      | c :: ((_ :: _) as u) =>
          if lower c =? 98 then (2, u)
          else if lower c =? 111 then (8, u)
          else if lower c =? 120 then (16, u)
          else (8, t)
      | _ => (8, t)
      end
  | _ => (10, s)
  end.
Definition ParseUint0 (s : list Z) (bitSize : Z) : res Z :=
  match s with
  | [] => Fail ErrSyntax
  | _ =>
      let '(base, ds) := base_of s in
      n ← parse_digits0 base (2 ^ bitSize - 1) 0 ds;
      if bool_decide (95 ∈ ds) && negb (underscoreOK s) then Fail ErrSyntax else Ret n
  end.

(** ** [Filetime.UnmarshalXML]

    [t] are the texts of the elements LOWPART and HIGHPART, as [encoding/xml] finds them. *)
Definition Filetime_UnmarshalXML (t : res (list Z * list Z)) (ft : Filetime) : res Filetime :=
  '(Low, High) ← t;
  low ← ParseUint0 Low 32;
  high ← ParseUint0 High 32;
  Ret (mkFT (u32 low) (u32 high)).

(** ** [Reader.Close] *)
Definition Reader_Close (r : Reader) : Reader :=
  mkReader (hdr r) (wim_fileData r) (XMLInfo r) ((λ '(img, ii), (img_reset img, ii)) <$> Images r).

(** ** What is printed is read back *)
Lemma parse_digits0_plain base m n s : 95 ∉ s → parse_digits0 base m n s = parse_digits base m n s.
Proof.
  revert n. induction s as [|c s IH]; intros n Hs; [done|]. apply not_elem_of_cons in Hs as [Hc Hs].
  cbn [parse_digits0 parse_digits]. rewrite (proj2 (Z.eqb_neq _ _)) by congruence.
  destruct (digit_val c); [|done]. repeat (case_match; [done|]). by apply IH.
Qed.
Lemma digit_char_plain base d : 2 ≤ base ≤ 36 → 0 ≤ d < base → digit_char d ≠ 95.
Proof. unfold digit_char. intros. case_match; lia. Qed.
Lemma FormatUint_plain base z w : 2 ≤ base ≤ 36 → 0 ≤ z → 95 ∉ pad0 w (FormatUint z base).
Proof.
  intros Hb Hz Hin. unfold pad0 in Hin. apply elem_of_app in Hin as [Hin|Hin].
  - by apply elem_of_replicate in Hin as [? _].
  - pose proof (FormatUint_chars base z (λ c, c ≠ 95) Hb Hz (λ d, digit_char_plain base d Hb)) as F.
    rewrite Forall_forall in F. by apply (F 95).
Qed.
Lemma ParseUint0_hex w z bits :
  0 ≤ z < 2 ^ bits → ParseUint0 (str "0x" ++ pad0 w (FormatUint z 16)) bits = Ret z.
Proof.
  intros Hz. pose proof (ParseUint_pad0_FormatUint 16 ltac:(lia) w z bits Hz) as Hp.
  pose proof (FormatUint_plain 16 z w ltac:(lia) ltac:(lia)) as Hu.
  set (ds := pad0 w (FormatUint z 16)) in *. unfold ParseUint in Hp.
  clearbody ds. destruct ds as [|c ds]; [done|]. unfold ParseUint0. change (str "0x" ++ c :: ds) with (48 :: 120 :: c :: ds).
  change (base_of (48 :: 120 :: c :: ds)) with (16, c :: ds). cbv beta iota.
  rewrite parse_digits0_plain, Hp by done. cbn [mbind res_bind].
  by rewrite bool_decide_eq_false_2.
Qed.

(** The halves of a time, in hexadecimal of any width as DISM writes them, are read back. *)
Lemma Filetime_UnmarshalXML_hex w ft ft0 :
  0 ≤ LowDateTime ft < 2 ^ 32 → 0 ≤ HighDateTime ft < 2 ^ 32 →
  Filetime_UnmarshalXML
    (Ret (str "0x" ++ pad0 w (FormatUint (LowDateTime ft) 16), str "0x" ++ pad0 w (FormatUint (HighDateTime ft) 16))) ft0 =
  Ret ft.
Proof.
  intros Hl Hh. unfold Filetime_UnmarshalXML. cbn [mbind res_bind].
  rewrite !ParseUint0_hex by done. cbn [mbind res_bind]. rewrite !u32_small by lia. by destruct ft.
Qed.

(** ** Examples *)
Example hex_upper : ParseUint0 (str "0x01D5A3fF") 32 = Ret 0x01d5a3ff.
Proof. reflexivity. Qed.
Example octal : ParseUint0 (str "010") 32 = Ret 8.
Proof. reflexivity. Qed.
Example too_wide : ParseUint0 (str "0x100000000") 32 = Fail ErrRange.
Proof. reflexivity. Qed.
Example separated : ParseUint0 (str "1_000") 32 = Ret 1000 ∧ ParseUint0 (str "1__0") 32 = Fail ErrSyntax.
Proof. split; reflexivity. Qed.
Example described : resourceDescriptor_String (mkRD (0x0400000000000000 + 10) 208 64) =
  str "10 bytes at 208 (uncompresses to 64)".
Proof. by vm_compute. Qed.
