(* ===== verification/EtwStrings.v ===== *)
(** * Names of ETW levels and opcodes (pkg/etw/level_string.go, opcode_string.go)

    The generated stringers: a name is a slice of one string of all names. *)
From S2P Require Import Prelude GoStrings Guid EtwMetadata EtwProvider.

(** ** The enumerations (eventdescriptor.go) *)
Definition OpcodeInfo : Z := 0.
Definition OpcodeStart : Z := 1.
Definition OpcodeStop : Z := 2.
Definition OpcodeDCStart : Z := 3.
Definition OpcodeDCStop : Z := 4.

Definition Level_name : list Z := str "AlwaysCriticalErrorWarningInfoVerbose".
Definition Level_index : list Z := [0; 6; 14; 19; 26; 30; 37].
Definition Level_String (i : Z) : res (list Z) :=
  if zlen Level_index - 1 <=? i then Ret (str "Level(" ++ FormatInt i 10 ++ str ")")
  else
    lo ← index Level_index i;
    hi ← index Level_index (i + 1);
    slice Level_name lo hi.

Definition Opcode_name : list Z := str "InfoStartStopDCStartDCStop".
Definition Opcode_index : list Z := [0; 4; 9; 13; 20; 26].
Definition Opcode_String (i : Z) : res (list Z) :=
  if zlen Opcode_index - 1 <=? i then Ret (str "Opcode(" ++ FormatInt i 10 ++ str ")")
  else
    lo ← index Opcode_index i;
    hi ← index Opcode_index (i + 1);
    slice Opcode_name lo hi.

(** ** The names *)
Lemma Level_String_names :
  Level_String <$> [LevelAlways; LevelCritical; LevelError; LevelWarning; LevelInfo; LevelVerbose] =
  Ret <$> [str "Always"; str "Critical"; str "Error"; str "Warning"; str "Info"; str "Verbose"].
Proof. by vm_compute. Qed.
Lemma Opcode_String_names :
  Opcode_String <$> [OpcodeInfo; OpcodeStart; OpcodeStop; OpcodeDCStart; OpcodeDCStop] =
  Ret <$> [str "Info"; str "Start"; str "Stop"; str "DCStart"; str "DCStop"].
Proof. by vm_compute. Qed.

(** Of the 256 values of a byte, each has a name and no two the same. *)
Definition bytes_256 : list Z := Z.of_nat <$> seq 0 256.
Definition named (r : res (list Z)) : bool := match r with Ret _ => true | _ => false end.
Lemma byte_in_256 i : 0 ≤ i < 256 → i ∈ bytes_256.
Proof.
  intros Hi. apply list_elem_of_fmap. exists (Z.to_nat i). split; [lia|]. apply elem_of_seq. lia.
Qed.
Lemma NoDup_fmap_inj {A B} `{EqDecision B} (f : A → B) l x y :
  NoDup (f <$> l) → x ∈ l → y ∈ l → f x = f y → x = y.
Proof.
  intros Hn (i & Hi)%list_elem_of_lookup (j & Hj)%list_elem_of_lookup E.
  assert (i = j) as <-; [|congruence]. eapply (NoDup_lookup (f <$> l) i j (f x)); [done|..].
  - by rewrite list_lookup_fmap, Hi.
  - by rewrite list_lookup_fmap, Hj, E.
Qed.
Lemma Level_String_distinct i j :
  0 ≤ i < 256 → 0 ≤ j < 256 → named (Level_String i) = true ∧ (Level_String i = Level_String j → i = j).
Proof.
  intros Hi Hj. split.
  - assert (F : Forall (λ i, named (Level_String i) = true) bytes_256) by decide_now.
    rewrite Forall_forall in F. by apply F, byte_in_256.
  - apply (NoDup_fmap_inj Level_String bytes_256); [decide_now|by apply byte_in_256..].
Qed.
Lemma Opcode_String_distinct i j :
  0 ≤ i < 256 → 0 ≤ j < 256 → named (Opcode_String i) = true ∧ (Opcode_String i = Opcode_String j → i = j).
Proof.
  intros Hi Hj. split.
  - assert (F : Forall (λ i, named (Opcode_String i) = true) bytes_256) by decide_now.
    rewrite Forall_forall in F. by apply F, byte_in_256.
  - apply (NoDup_fmap_inj Opcode_String bytes_256); [decide_now|by apply byte_in_256..].
Qed.
