(* ===== verification/ConnDeadlines.v ===== *)
(** * The deadlines of connections (file.go, hvsock.go, pipe.go)

    A file has a deadline for reads and one for writes, each with the state
    machine of [Deadline]; a connection sets one or both. *)
From S2P Require Import Prelude GoStrings Deadline.

(** ** atomicBool (file.go): a 32-bit word *)
Definition atomicBool := Z.
Definition isSet (b : atomicBool) : bool := negb (b =? 0).
Definition setFalse (b : atomicBool) : atomicBool := 0.
Definition setTrue (b : atomicBool) : atomicBool := 1.
Definition swap (new : bool) (b : atomicBool) : bool * atomicBool :=
  let newInt := if new then 1 else 0 in (b =? 1, newInt).
(** It is a boolean, and never another word. *)
Definition represents (b : atomicBool) (v : bool) : Prop := b = Z.b2z v.
Lemma atomicBool_spec b v new : represents b v →
  isSet b = v ∧ represents (setFalse b) false ∧ represents (setTrue b) true ∧
  (swap new b).1 = v ∧ represents (swap new b).2 new.
Proof. intros ->. unfold represents. by destruct v, new. Qed.

(** ** The deadlines of a file *)
Record deadlines := mkDeadlines { readDeadline : deadlineHandler; writeDeadline : deadlineHandler }.

(** [deadlineHandler.set] called while no other [set] runs; a call that waits for the function
    of a timer has no result here. *)
Definition set (dl : deadline) (d : deadlineHandler) : res deadlineHandler :=
  match run_set 9 (set_pc_to (Locked dl) d) with Some d => Ret d | None => NoFuel end.

Definition SetReadDeadline (dl : deadline) : St deadlines unit := λ f,
  match set dl (readDeadline f) with
  | Ret d => (Ret (), mkDeadlines d (writeDeadline f))
  | Fail e => (Fail e, f) | Panic w => (Panic w, f) | NoFuel => (NoFuel, f)
  end.
Definition SetWriteDeadline (dl : deadline) : St deadlines unit := λ f,
  match set dl (writeDeadline f) with
  | Ret d => (Ret (), mkDeadlines (readDeadline f) d)
  | Fail e => (Fail e, f) | Panic w => (Panic w, f) | NoFuel => (NoFuel, f)
  end.
Definition wrapping {S A} (msg : string) (m : St S A) : St S A := λ s,
  match m s with (Fail e, s) => (Fail (Wrapf msg [] [] e), s) | r => r end.

(** [win32Pipe.SetDeadline] and [HvsockConn.SetDeadline] *)
Definition Pipe_SetDeadline (dl : deadline) : St deadlines unit :=
  SetReadDeadline dl;; SetWriteDeadline dl.
Definition HvsockConn_SetDeadline (dl : deadline) : St deadlines unit :=
  wrapping "set read deadline: %w" (SetReadDeadline dl);;
  wrapping "set write deadline: %w" (SetWriteDeadline dl);;
  mret ().

Definition HvsockConn_SetReadDeadline (dl : deadline) : St deadlines unit := SetReadDeadline dl.
Definition HvsockConn_SetWriteDeadline (dl : deadline) : St deadlines unit := SetWriteDeadline dl.

(** ** Both are set *)
Definition quiet (d : deadlineHandler) : Prop :=
  deadline_reach d ∧ d_pc d = Idle ∧ steps_left d = 0%nat.
Lemma set_quiet dl d : quiet d → ∃ d', set dl d = Ret d' ∧ set_done dl d'.
Proof.
  intros (Hr & Hp & Hs). destruct (run_set_done d dl Hr Hp Hs) as (d' & E & Hd).
  exists d'. unfold set. by rewrite E.
Qed.
(** When no timer's function is running, [SetDeadline] returns no error and leaves both deadlines
    off, passed or ahead, whatever they were. *)
Lemma SetDeadline_spec dl f :
  quiet (readDeadline f) → quiet (writeDeadline f) →
  ∃ r w, set_done dl r ∧ set_done dl w ∧
    Pipe_SetDeadline dl f = (Ret (), mkDeadlines r w) ∧
    HvsockConn_SetDeadline dl f = (Ret (), mkDeadlines r w).
Proof.
  intros Hr Hw. destruct (set_quiet dl _ Hr) as (r & Er & Dr), (set_quiet dl _ Hw) as (w & Ew & Dw).
  exists r, w. split_and!; [done..| |].
  - unfold Pipe_SetDeadline, SetReadDeadline, SetWriteDeadline. rewrite St_bind_eq, Er. cbn [writeDeadline readDeadline].
    by rewrite Ew.
  - unfold HvsockConn_SetDeadline, wrapping, SetReadDeadline, SetWriteDeadline. rewrite St_bind_eq, Er, St_bind_eq.
    cbn [writeDeadline readDeadline]. by rewrite Ew.
Qed.

Example new_deadlines :
  ∃ r w, set_done Past r ∧ set_done Past w ∧
    HvsockConn_SetDeadline Past (mkDeadlines init_handler init_handler) = (Ret (), mkDeadlines r w).
Proof.
  assert (Hq : quiet init_handler) by (split_and!; [apply reach_init|done|done]).
  destruct (SetDeadline_spec Past (mkDeadlines init_handler init_handler) Hq Hq) as (r & w & Hr & Hw & _ & E).
  by exists r, w.
Qed.
